(* ===== verification/_CoqProject ===== *)
-Q . S2P
Prelude.v
Budget.v
Reorder.v
Session.v
Address.v
Addons.v
Header.v
Xudp.v
Vision.v
Kdf.v
Record.v
Xor.v
Stream.v
Xhttp.v
Site.v
Config.v
Json.v
SiteText.v
Origin.v
Probe.v
Server.v
Tunnel.v
ClientHello.v
TlsRecord.v
TlsKeys.v
TlsMessages.v
TlsCert.v
TlsHandshake.v
TlsClient.v
TlsStream.v
EncKeys.v
EncHandshake.v
Metrics.v
Dispatch.v
EndToEnd.v
Whole.v
Files.v
Release.v
Runtime.v
Acme.v
Startup.v
Manage.v
Update.v
Install.v
Wizard.v
Maintain.v
