(* ===== verification/Prelude.v ===== *)
(** * rust-xhttp: a verification development

    rust-xhttp is a VLESS server whose traffic travels as XHTTP packet-up requests
    inside ordinary HTTPS.  A client sends numbered POSTs (the uplink) and one long
    GET (the downlink) per session.  The server terminates TLS itself ([src/tls]); the
    handler ([src/origin.rs]) tells these requests from everything else, which a static
    site answers ([src/site.rs]); the session table ([src/session]) puts the POSTs back
    into order and joins both directions to one connection; the VLESS layer
    ([src/vless], [src/xudp.rs]) authenticates it, optionally decrypts it
    ([src/vless/encryption]) or unpads it (Vision), and the dispatcher
    ([src/dispatcher.rs]) connects it to its target.  Around the server stand its
    configuration and startup ([src/config.rs], [src/main.rs], [src/runtime.rs]), the
    certificates it obtains ([src/acme.rs]) and [rust-xhttpctl], which installs,
    updates and maintains it ([src/management.rs]).

    ** Files, and the code they model

    - [Prelude] (this file): machine integers as [Z] with explicit wrap-around,
      bytes as [Z] lists, big-endian codecs, UTF-8, decimal numbers, [split],
      [trim]; the [result] monad for [?]; the [comp] monad, whose computations end
      in a value, an error, a panic ([Crash]) or not at all ([Diverge]); byte
      sources and polled streams for [AsyncRead]; tactics and hint databases.
    - [Budget]: [src/buffer.rs], the global memory budget, its CAS loop as an
      interleaving step relation.
    - [Reorder]: [src/session/reorder.rs], the uplink reorder buffer.  A push that
      waits for channel space is a suspended computation that holds the lock.
    - [Session]: [src/session/mod.rs] and [downlink.rs], the sharded table.  Its
      operations are cut where other threads interleave; [table_step] is one step.
    - [Address], [Addons], [Header]: [src/vless/address.rs], [addons.rs],
      [header.rs], [validator.rs], the request header and the user table.
    - [Xudp]: [src/xudp.rs], UDP frames.
    - [Vision]: [src/vless/vision.rs], padding frames, their writer, and the reader
      as a polled state machine, with a byte automaton as its specification.
    - [Kdf], [Record], [Xor], [Stream]: [src/vless/encryption/kdf.rs], [record.rs],
      [xor.rs], [stream.rs]: key derivation, AEAD records, the header mask and the
      polled reader over them.
    - [EncKeys], [EncHandshake]: [config.rs], [keys.rs] and [handshake.rs] of
      [src/vless/encryption]: the decryption setting, the key exchanges, and the
      handshake with its relays, tickets and replay check.  A handshake is a tree of
      its interactions, run alone or interleaved with others on one ticket table.
    - [Xhttp]: [src/xhttp/mod.rs], [padding.rs]: classification and padding.
    - [Site], [SiteText]: [src/site.rs], loading and resolving a directory, and the
      generated site with its texts.
    - [Config], [Json]: [src/config.rs], the checks of the configuration and the
      records serde reads it into.
    - [Origin]: [src/origin.rs], the request handler, proved against the interface
      [SessionService] of the session table; [Probe]: what a request that is not XHTTP gets
      from it, against a description of both kinds of requests that shares nothing with it.
    - [Server]: [src/origin.rs], the accept loop, its connections and its shutdown, over
      the events of the runtime.
    - [ClientHello]: [src/tls/client_hello.rs] and the reading of the hello in
      [src/tls/nginx_backend.rs].
    - [TlsRecord], [TlsKeys], [TlsMessages], [TlsCert], [TlsHandshake], [TlsStream]:
      [src/tls/tls13], [src/tls/cert.rs] and [src/tls/nginx_backend.rs]: records, the
      key schedule, the server's messages, its certificate and signing key, the
      handshake, and the stream over it; [TlsClient]: a client written from RFC 8446, run
      against the server's handshake.
    - [Tunnel]: [src/origin.rs] over [src/session]: any number of requests in progress on
      the real table.  The interface of [Origin] gives the one call a request makes
      whatever the answers ([Tunnel.calls_before_answers]); its steps, those of reapers
      and readers, and the bodies of downloads interleave freely.
    - [Metrics]: [src/metrics.rs].
    - [Dispatch]: [src/dispatcher.rs], a session as a program over what the rest of
      the process sees of it; sockets, resolver and clock are its environment.
    - [EndToEnd]: an encrypted TCP session through the layers above HTTP; [Whole]: the
      same session carried by posts and a download.
    - [Files]: the file operations the two next groups share, over a file system in
      which every call may fail and every state in between is recorded.
    - [Runtime], [Acme], [Startup]: [src/main.rs], [src/runtime.rs] and [src/acme.rs]: the
      command line and the check, the certificate generations with their renewal, and
      the start of the server with both.
    - [Release], [Manage], [Update], [Install], [Wizard], [Maintain]: [src/management.rs]:
      the checks on a download, the programs and prompts, update and rollback, the
      installation with its wizard, what the wizard guarantees, and the same for the
      other commands.

    Third-party code is a class or a record of observers, with the documented laws the
    code relies on in a class beside it, and a concrete instance in the witnesses:
    [Aead], [TlsAead] (AEAD ciphers), [KeyStream] (AES-CTR), [Blake3], [TlsHash]
    (hashes, HKDF, HMAC), [Sha256], [X25519] with [X25519Canonical], [MlKem], [Ring]
    (keys and signatures), [X509], [Base64Url], [HeaderText], [header_map] and [uri]
    (the http crate), [SiteFormat], [JsonText], [JsonReader], [UuidText],
    [AccountCache].  The system is one too: [Machine] says which file calls fail and
    how, [Host] what the programs the manager starts do.  [TameHost], [TameConfig] and
    [TameRemoval] say which files these programs leave alone.  Random draws are
    arguments.

    ** What the theorems show

    - The whole: bytes of an encrypted client, cut into posts that arrive in any order,
      reach the target unchanged, and the target's bytes the client through its download
      ([Whole], [EndToEnd]); no target is contacted without authentication, the pump
      copies, UDP frames go where they are addressed ([Dispatch]).
    - Requests together: under any interleaving the posts of a session are read in their
      order, and the frames of a download are the chunks sent into its session, given to
      nobody else ([Tunnel]).
    - Ordering: after any interleaving of pushes and reads the uplink has delivered the
      packets 0, 1, 2, ... without a gap, and buffers every other one it admitted; all
      that was answered as accepted comes out, within the limits, and with an exact
      account of the shared memory ([Reorder], [Budget]).
    - Sessions: counters are exact, the shards are one map, a connected session is
      not reaped, a download is opened once ([Session]).
    - Codecs: round trips and exact acceptance for addresses, addons, request
      headers and UDP frames; errors as the code reports them ([Address], [Addons],
      [Header], [Xudp]).
    - Streams under fragmentation: the Vision reader refines a byte automaton, the
      header mask is undone by the peer, and the encrypted reader delivers exactly
      the sealed plaintexts and notices a cut stream ([Vision], [Xor], [Stream]).
    - Cryptographic bookkeeping: the stack-based hash is the BLAKE3 tree hash, both
      ends of a record stream stay in the same state, no nonce repeats under a key
      ([Kdf], [Record]); both ends of a handshake agree on the keys, and a ticket is
      not accepted twice with the same data under any interleaving ([EncHandshake]).
    - HTTP: a probe sees what a plain web server for the site would answer and changes
      nothing ([Probe]), a packet reaches its session unchanged, the handler always
      answers, the padding routines agree with their references ([Origin], [Xhttp]); a directory is served as it is
      ([Site]); the generated site is closed under its links, and configured texts never
      become markup ([SiteText]); a shutdown leaves no
      connection and ends without the help of the clients ([Server]).
    - TLS: a fragmented ClientHello is reassembled, a well-formed one is read back,
      and the parser is total on all others ([ClientHello]); the handshake completes
      and accepts no wrong Finished ([TlsHandshake]), and goes through with a client of
      RFC 8446, over the bytes and with the same keys at the end ([TlsClient]); the stream delivers and emits exactly the records' contents
      ([TlsStream]).
    - Startup: a configuration [check] accepts starts, with every setting in its place,
      and a server with ACME starts only with a certificate and keeps one
      ([Startup], [Config]).
    - Replacing files: a replaced file is seen old or new and never in between
      ([Files]); certificates are published as a pair, and a failed renewal keeps the
      one in use ([Acme]); an update leaves the old binaries installed or saved
      whatever fails, a rollback exchanges them ([Update]); archive paths stay in their
      directory ([Release]); the wizard's configuration is read back as what was
      typed at each question ([Wizard]); editing installs only checked text, and uninstalling
      without purge keeps the data ([Maintain]).
    - Flaws: some theorems state what the code does wrong in corner cases (an addons
      body on which the decoder loops or panics, Vision frames after the end of
      padding, races of the session cap and of the reaper, a UDP frame that is lost
      when its read is cancelled, an accept error that ends the server, a favicon that
      is not XML, a log filter that the check accepts and the server refuses).

    ** Fuel and bounds

    Loops that are not structural take fuel, and a theorem shows that the fuel the
    definitions use is enough: the polled readers use a bound linear in the bytes
    still to come ([Vision.poll_read], [Stream.poll_read], the loops of [TlsStream]),
    [Xor.apply] one unit per byte, [Kdf.merge] the 64 bits of a chunk counter,
    [Origin.gather] one unit per header or cookie (the numbered names differ), the
    ClientHello loops one unit per byte.  [Addons.decode_loop] needs no more than one
    unit per byte unless a length wraps, and then no fuel is enough.  The loops of
    [Dispatch] follow the list of events of their environment.  Bounds that are the
    source's own are its numbers: the depth of a site tree, the 32 names
    [unique_path] tries.  The menu of [rust-xhttpctl] takes its number of rounds as an
    argument.  Integers keep their Rust widths where they can wrap or saturate.

    ** Not modelled

    The kernel side of sockets and signals, the text of log lines and of the messages
    printed for the user, HTTP/1 and HTTP/2 framing (hyper) and
    the tasks hyper spawns for the streams of an HTTP/2 connection, which are outside the
    [JoinSet] that [Server] models, the text of the unit file, and the ACME
    protocol: what the authority answers is an input.  A post that is abandoned while it waits
    for room is a step of [Tunnel], after which nothing is said of the order in that
    session: its packet is lost ([Reorder.cancelled_push_loses_packet]). *)

From Stdlib Require Export ZArith Lia.
From stdpp Require Export base tactics numbers list list_numbers gmap strings relations option.

#[global] Open Scope Z_scope.

(** * Machine integers *)

(** The value range of an unsigned [w]-bit integer, and the wrap-around that
    Rust's [wrapping_*] operations, [as] casts and release-mode arithmetic
    apply. *)
Definition uint_ok (w n : Z) : Prop := 0 <= n < 2 ^ w.
Definition wrap (w n : Z) : Z := n mod 2 ^ w.

Definition u8_max : Z := 255.
Definition u16_max : Z := 65535.
Definition u32_max : Z := 4294967295.
Definition u64_max : Z := 18446744073709551615.
Definition i64_min : Z := -9223372036854775808.

(** [usize] on the supported 64-bit target. *)
Definition usize_max : Z := u64_max.

Definition saturating_add (m a b : Z) : Z := Z.min m (a + b).
Definition saturating_sub (a b : Z) : Z := Z.max 0 (a - b).
Definition saturating_mul (m a b : Z) : Z := Z.min m (a * b).
Definition checked_add (m a b : Z) : option Z := if a + b <=? m then Some (a + b) else None.

(** * Bytes and byte strings *)

(** A byte is an 8-bit [Z]; Rust's [Vec<u8>], [Bytes] and [&[u8]] are lists of
    them, and a Rust [String] is its UTF-8 byte list. *)
Abbreviation bytes := (list Z) (only parsing).

Definition byte_ok (b : Z) : Prop := 0 <= b < 256.
Definition bytes_ok (l : bytes) : Prop := Forall byte_ok l.

Definition as_u8 (n : Z) : Z := n mod 256.

(** [slice.len()] as a [usize]. *)
Definition len {A} (l : list A) : Z := Z.of_nat (length l).

(** [slice.get(a..b)]. *)
Definition get_range {A} (l : list A) (a b : Z) : option (list A) :=
  if (0 <=? a) && (a <=? b) && (b <=? len l)
  then Some (take (Z.to_nat (b - a)) (drop (Z.to_nat a) l)) else None.

(** [slice.get(i)]. *)
Definition get_at {A} (l : list A) (i : Z) : option A :=
  if 0 <=? i then l !! Z.to_nat i else None.

(** Big-endian encodings of any width: [u16::to_be_bytes] is [be_bytes 2],
    and so on; [be_val] is [from_be_bytes]. *)
Fixpoint be_bytes (k : nat) (n : Z) : bytes :=
  match k with
  | O => []
  | S k' => (n / 256 ^ Z.of_nat k') mod 256 :: be_bytes k' n
  end.

Fixpoint be_val (l : bytes) : Z :=
  match l with
  | [] => 0
  | b :: l' => b * 256 ^ Z.of_nat (length l') + be_val l'
  end.

(** ASCII literals of the source as byte strings. *)
Fixpoint bytes_of_string (s : string) : bytes :=
  match s with
  | EmptyString => []
  | String a s' => Z.of_N (Ascii.N_of_ascii a) :: bytes_of_string s'
  end.

Definition bytes_eqb (a b : bytes) : bool := bool_decide (a = b).

(** [std::str::from_utf8]: the well-formed byte sequences of the Unicode
    standard (table 3-7). *)
Definition utf8_cont (b : Z) : bool := (128 <=? b) && (b <=? 191).

Definition utf8_two (b0 : Z) : bool := (0xC2 <=? b0) && (b0 <=? 0xDF).

Definition utf8_three (b0 b1 : Z) : bool :=
  ((b0 =? 0xE0) && (0xA0 <=? b1) && (b1 <=? 0xBF))
  || ((0xE1 <=? b0) && (b0 <=? 0xEC) && utf8_cont b1)
  || ((b0 =? 0xED) && (0x80 <=? b1) && (b1 <=? 0x9F))
  || ((0xEE <=? b0) && (b0 <=? 0xEF) && utf8_cont b1).

Definition utf8_four (b0 b1 : Z) : bool :=
  ((b0 =? 0xF0) && (0x90 <=? b1) && (b1 <=? 0xBF))
  || ((0xF1 <=? b0) && (b0 <=? 0xF3) && utf8_cont b1)
  || ((b0 =? 0xF4) && (0x80 <=? b1) && (b1 <=? 0x8F)).

Fixpoint utf8_valid (l : bytes) : bool :=
  match l with
  | [] => true
  | b0 :: r0 =>
      if b0 <? 128 then utf8_valid r0 else
      match r0 with
      | [] => false
      | b1 :: r1 =>
          if utf8_two b0 && utf8_cont b1 then utf8_valid r1 else
          match r1 with
          | [] => false
          | b2 :: r2 =>
              if utf8_three b0 b1 && utf8_cont b2 then utf8_valid r2 else
              match r2 with
              | [] => false
              | b3 :: r3 =>
                  if utf8_four b0 b1 && utf8_cont b2 && utf8_cont b3
                  then utf8_valid r3 else false
              end
          end
      end
  end.

Definition is_ascii (l : bytes) : bool := forallb (fun b => b <? 128) l.

(** [u8::to_ascii_lowercase] and [str::eq_ignore_ascii_case]. *)
Definition ascii_lower (b : Z) : Z := if (65 <=? b) && (b <=? 90) then b + 32 else b.
Definition to_ascii_lowercase (l : bytes) : bytes := ascii_lower <$> l.
Definition eq_ignore_ascii_case (a b : bytes) : bool :=
  bytes_eqb (to_ascii_lowercase a) (to_ascii_lowercase b).

(** [trim_start_matches] and [trim_end_matches] of one character. *)
Fixpoint trim_start_matches (c : Z) (l : bytes) : bytes :=
  match l with b :: l' => if b =? c then trim_start_matches c l' else l | [] => [] end.

Definition trim_end_matches (c : Z) (l : bytes) : bytes := rev (trim_start_matches c (rev l)).

(** [format!] with [{}] in the place of its arguments, in order; [{{] and [}}] stand for a
    brace.  The literals are those of the source with a backquote for every double
    quote. *)
Fixpoint format (t : string) (args : list bytes) : bytes :=
  match t with
  | EmptyString => []
  | String a t' =>
      let c := Z.of_N (Ascii.N_of_ascii a) in
      let c' := if c =? 96 then 34 else c in
      match t' with
      | String b t2 =>
          let d := Z.of_N (Ascii.N_of_ascii b) in
          if (c =? 123) && (d =? 125) then
            match args with x :: args' => x ++ format t2 args' | [] => format t2 [] end
          else if ((c =? 123) || (c =? 125)) && (d =? c) then c :: format t2 args
          else c' :: format t' args
      | EmptyString => [c']
      end
  end.

#[global] Arguments format : simpl never.

(** [slice.chunks(n)]: consecutive chunks of [n] bytes, the last one shorter;
    no chunk for the empty slice. *)
Fixpoint chunks_fuel (fuel : nat) (n : nat) (l : bytes) : list bytes :=
  match fuel with
  | O => []
  | S f => match l with
           | [] => []
           | _ :: _ => take n l :: chunks_fuel f n (drop n l)
           end
  end.

Definition chunks (n : nat) (l : bytes) : list bytes := chunks_fuel (length l) n l.

(** [str::split(c)]: always at least one piece. *)
Fixpoint split_on (c : Z) (l : bytes) : list bytes :=
  match l with
  | [] => [[]]
  | b :: l' =>
      if b =? c then [] :: split_on c l'
      else match split_on c l' with
           | [] => [[b]]
           | p :: ps => (b :: p) :: ps
           end
  end.

(** [str::split_once(c)]. *)
Fixpoint split_once (c : Z) (l : bytes) : option (bytes * bytes) :=
  match l with
  | [] => None
  | b :: l' =>
      if b =? c then Some ([], l')
      else match split_once c l' with
           | Some (p, q) => Some (b :: p, q)
           | None => None
           end
  end.

(** [str::strip_prefix] and [str::starts_with]. *)
Fixpoint strip_prefix (p l : bytes) : option bytes :=
  match p, l with
  | [], _ => Some l
  | a :: p', b :: l' => if a =? b then strip_prefix p' l' else None
  | _ :: _, [] => None
  end.

Definition starts_with (p l : bytes) : bool :=
  match strip_prefix p l with Some _ => true | None => false end.

Definition ends_with (p l : bytes) : bool := starts_with (rev p) (rev l).

(** [str::strip_suffix]. *)
Definition strip_suffix (suffix l : bytes) : option bytes := (@rev Z) <$> strip_prefix (rev suffix) (rev l).

(** [slice.join(c)]. *)
Fixpoint join_with (c : Z) (l : list bytes) : bytes :=
  match l with
  | [] => []
  | p :: l' => match l' with [] => p | _ :: _ => p ++ c :: join_with c l' end
  end.

(** The hash function of the blake3 crate. *)
Class Blake3 := { blake3_hash : bytes -> bytes }.

(** The base64 crate's [URL_SAFE_NO_PAD.decode]. *)
Class Base64Url := { url_safe_no_pad_decode : bytes -> option bytes }.

(** [str::parse] for an unsigned integer of maximum [m]: an optional [+], then
    at least one ASCII digit, with overflow rejected. *)
Fixpoint parse_digits (m acc : Z) (l : bytes) : option Z :=
  match l with
  | [] => Some acc
  | b :: l' =>
      if (48 <=? b) && (b <=? 57)
      then let acc' := acc * 10 + (b - 48) in
           if acc' <=? m then parse_digits m acc' l' else None
      else None
  end.

Definition parse_uint (m : Z) (l : bytes) : option Z :=
  match l with
  | [] => None
  | b :: l' =>
      if b =? 43 then (match l' with [] => None | _ :: _ => parse_digits m 0 l' end)
      else parse_digits m 0 l
  end.

(** The decimal digits of [n], as [Display] writes them; [n] has at most
    [log2 n + 1] of them. *)
Fixpoint decimal_fuel (fuel : nat) (n : Z) : bytes :=
  match fuel with
  | O => []
  | S f => (if n <? 10 then [] else decimal_fuel f (n / 10)) ++ [48 + n mod 10]
  end.

Definition decimal (n : Z) : bytes := decimal_fuel (S (Z.to_nat (Z.log2 n))) n.

(** [String::from_utf8_lossy]: every maximal ill-formed part becomes U+FFFD. *)
Definition REPLACEMENT : bytes := [0xEF; 0xBF; 0xBD].

Fixpoint utf8_lossy (l : bytes) : bytes :=
  match l with
  | [] => []
  | b0 :: r0 =>
      if b0 <? 128 then b0 :: utf8_lossy r0 else
      match r0 with
      | [] => REPLACEMENT
      | b1 :: r1 =>
          if utf8_two b0 && utf8_cont b1 then b0 :: b1 :: utf8_lossy r1
          else if utf8_three b0 b1 then
            match r1 with
            | [] => REPLACEMENT
            | b2 :: r2 =>
                if utf8_cont b2 then b0 :: b1 :: b2 :: utf8_lossy r2
                else REPLACEMENT ++ utf8_lossy r1
            end
          else if utf8_four b0 b1 then
            match r1 with
            | [] => REPLACEMENT
            | b2 :: r2 =>
                if utf8_cont b2 then
                  match r2 with
                  | [] => REPLACEMENT
                  | b3 :: r3 =>
                      if utf8_cont b3 then b0 :: b1 :: b2 :: b3 :: utf8_lossy r3
                      else REPLACEMENT ++ utf8_lossy r2
                  end
                else REPLACEMENT ++ utf8_lossy r1
            end
          else REPLACEMENT ++ utf8_lossy r0
      end
  end.

(** [str::trim]: the UTF-8 encodings of the characters with the Unicode property
    White_Space are taken off at both ends. *)
Definition whitespace : list bytes :=
  [[9]; [10]; [11]; [12]; [13]; [32]; [0xC2; 0x85]; [0xC2; 0xA0]; [0xE1; 0x9A; 0x80]]
  ++ ((fun b => [0xE2; 0x80; b]) <$> [0x80; 0x81; 0x82; 0x83; 0x84; 0x85; 0x86; 0x87; 0x88; 0x89; 0x8A; 0xA8; 0xA9; 0xAF])
  ++ [[0xE2; 0x81; 0x9F]; [0xE3; 0x80; 0x80]].

(** The first of [ws] that [l] starts with is taken off. *)
Fixpoint strip_any (ws : list bytes) (l : bytes) : option bytes :=
  match ws with
  | [] => None
  | w :: ws' => match strip_prefix w l with Some r => Some r | None => strip_any ws' l end
  end.

Fixpoint trim_front (fuel : nat) (ws : list bytes) (l : bytes) : bytes :=
  match fuel with
  | O => l
  | S f => match strip_any ws l with Some r => trim_front f ws r | None => l end
  end.

Definition trim (l : bytes) : bytes :=
  let front := trim_front (length l) whitespace l in
  rev (trim_front (length front) ((fun w => rev w) <$> whitespace) (rev front)).

(** [str::contains] for a character. *)
Definition contains (c : Z) (l : bytes) : bool := existsb (Z.eqb c) l.

(** * Results *)

(** Rust's [Result<A, E>], with the monad structure that models [?]. *)
Inductive result (E A : Type) : Type :=
| Ok (a : A)
| Err (e : E).
Arguments Ok {E A} a.
Arguments Err {E A} e.

#[global] Instance result_ret E : MRet (result E) := fun A a => Ok a.
#[global] Instance result_bind E : MBind (result E) :=
  fun A B f m => match m with Ok a => f a | Err e => Err e end.

Lemma Ok_inj {E A} (a b : A) : @Ok E A a = Ok b -> a = b.
Proof. by intros [= ->]. Qed.

Lemma Some_pair_inj {A B} (a a' : A) (b b' : B) : Some (a, b) = Some (a', b') -> a = a' /\ b = b'.
Proof. split; congruence. Qed.

Definition ok_or {E A} (o : option A) (e : E) : result E A :=
  match o with Some a => Ok a | None => Err e end.

Definition map_err {E F A} (f : E -> F) (m : result E A) : result F A :=
  match m with Ok a => Ok a | Err e => Err (f e) end.

Definition is_ok {E A} (m : result E A) : bool :=
  match m with Ok _ => true | Err _ => false end.

(** A guard of the source, [if c { return Err(e) }]. *)
Definition guard_err {E} (c : bool) (e : E) : result E unit := if c then Err e else Ok tt.

(** A computation that may also panic (an index out of bounds, a failed
    [unwrap]) or run out of the fuel its loop was given. *)
Inductive comp (E A : Type) : Type :=
| Val (a : A)
| Fail (e : E)
| Crash
| Diverge.
Arguments Val {E A} a.
Arguments Fail {E A} e.
Arguments Crash {E A}.
Arguments Diverge {E A}.

#[global] Instance comp_ret E : MRet (comp E) := fun A a => Val a.
#[global] Instance comp_bind E : MBind (comp E) :=
  fun A B f m => match m with
                 | Val a => f a | Fail e => Fail e | Crash => Crash | Diverge => Diverge
                 end.

(** A fallible call inside such a computation, with [From] for its error. *)
Definition lift {E F A} (f : E -> F) (m : result E A) : comp F A :=
  match m with Ok a => Val a | Err e => Fail (f e) end.

Definition fail_if {E} (c : bool) (e : E) : comp E unit := if c then Fail e else Val tt.

(** [buf[i]] and [buf[a..b]], which panic out of bounds. *)
Definition index {E A} (l : list A) (i : Z) : comp E A :=
  match get_at l i with Some a => Val a | None => Crash end.
Definition slice {E A} (l : list A) (a b : Z) : comp E (list A) :=
  match get_range l a b with Some r => Val r | None => Crash end.

Lemma Val_inj {E A} (a b : A) : @Val E A a = Val b -> a = b.
Proof. congruence. Qed.
Lemma Val_pair_inj {E A B} (a a' : A) (b b' : B) : @Val E (A * B) (a, b) = Val (a', b') -> a = a' /\ b = b'.
Proof. split; congruence. Qed.

Lemma fail_if_pass {E B} b (e : E) (f : unit -> comp E B) :
  b = false -> mbind f (fail_if b e) = f tt.
Proof. by intros ->. Qed.

Lemma fail_if_fail {E B} b (e : E) (f : unit -> comp E B) :
  b = true -> mbind f (fail_if b e) = Fail e.
Proof. by intros ->. Qed.

Lemma comp_bind_val {E A B} (a : A) (f : A -> comp E B) m : m = Val a -> mbind f m = f a.
Proof. by intros ->. Qed.

Lemma comp_bind_assoc {E A B C} (m : comp E A) (g : A -> comp E B) (f : B -> comp E C) :
  mbind f (mbind g m) = mbind (fun x => mbind f (g x)) m.
Proof. by destruct m. Qed.

Lemma comp_bind_inv {E A B} (m : comp E A) (f : A -> comp E B) b :
  mbind f m = Val b -> exists a, m = Val a /\ f a = Val b.
Proof. destruct m; try done. intros H. by exists a. Qed.

Lemma fail_if_inv {E} c (e : E) u : fail_if c e = Val u -> c = false.
Proof. by destruct c. Qed.

Lemma lift_inv {E F A} (f : E -> F) (m : result E A) a : lift f m = Val a -> m = Ok a.
Proof. destruct m; [by intros [= ->]|done]. Qed.

Lemma ok_or_inv {E A} (o : option A) (e : E) a : ok_or o e = Ok a -> o = Some a.
Proof. destruct o; [by intros [= ->]|done]. Qed.

(** The computation ended without a panic. *)
Definition graceful {E A} (m : comp E A) : Prop :=
  match m with Val _ | Fail _ => True | Crash | Diverge => False end.

Lemma graceful_bind {E A B} (m : comp E A) (f : A -> comp E B) :
  graceful m -> (forall a, m = Val a -> graceful (f a)) -> graceful (m ≫= f).
Proof. destruct m; cbn; auto. Qed.

(** * Byte sources *)

(** What an [AsyncRead] still delivers: its remaining bytes, then end of file
    or an I/O error.  How the bytes are cut into polls is invisible to
    [read_exact], so the source does not record it. *)
Inductive io_kind : Type := UnexpectedEof | InvalidData | WriteZero | OtherIo.

#[global] Instance io_kind_eq_dec : EqDecision io_kind.
Proof. solve_decision. Defined.

Inductive ending : Type := AtEof | AtError (k : io_kind).

Record source := mk_source { content : bytes; at_end : ending }.

(** [AsyncReadExt::read_exact] on an [n]-byte buffer. *)
Definition read_exact (n : nat) (s : source) : result io_kind (bytes * source) :=
  if decide (n <= length (content s))%nat
  then Ok (take n (content s), mk_source (drop n (content s)) (at_end s))
  else match at_end s with
       | AtEof => Err UnexpectedEof
       | AtError k => Err k
       end.

(** [read_u8] and [read_u16] (big endian). *)
Definition read_u8 (s : source) : result io_kind (Z * source) :=
  '(b, s') ← read_exact 1 s; mret (be_val b, s').
Definition read_u16 (s : source) : result io_kind (Z * source) :=
  '(b, s') ← read_exact 2 s; mret (be_val b, s').

(** * Polled streams *)

(** An [AsyncRead] as the list of its coming poll results: [Some b] delivers the
    bytes [b] (as many as the buffer takes, the rest on the next poll), [None] is
    [Poll::Pending].  [polled] is the outcome of a poll. *)
Abbreviation inner := (list (option bytes)) (only parsing).

Inductive polled : Type :=
| Pending
| Ready (b : bytes)
| Failed (k : io_kind).

(** One poll into a buffer with room for [cap] bytes. *)
Definition poll_source (i : inner) (e : ending) (cap : nat) : inner * polled :=
  match i with
  | None :: r => (r, Pending)
  | Some b :: r => (match drop cap b with [] => r | rest => Some rest :: r end, Ready (take cap b))
  | [] => ([], match e with AtEof => Ready [] | AtError k => Failed k end)
  end.

(** All the bytes still to be delivered; an empty delivery is the end of the
    stream, so [inner_ok] excludes it before the end. *)
Definition wire_of (i : inner) : bytes := concat (default [] <$> i).

Definition inner_ok (i : inner) : Prop :=
  Forall (fun x => x <> Some [] /\ bytes_ok (default [] x)) i.

(** * Automation *)

(** [inv_ok] opens the binds, guards and matches of a hypothesis that says a
    computation returned. *)
Ltac inv_ok :=
  repeat (match goal with
          | H : context [mbind _ ?m] |- _ => destruct m eqn:?; cbn in H
          | H : context [lift _ ?m] |- _ => destruct m eqn:?; cbn in H
          | _ => case_match
          end; simplify_eq/=).

(** [comp_inv H] runs a hypothesis [m = Val v] backwards through its binds. *)
Ltac comp_inv H :=
  repeat match type of H with
         | mbind _ _ = Val _ =>
             let a := fresh "a" in let Hm := fresh "Hm" in
             apply comp_bind_inv in H as (a & Hm & H); cbv beta in H;
             try match type of a with
                 | (_ * _ * _ * _)%type => destruct a as [[[? ?] ?] ?]
                 | (_ * _ * _)%type => destruct a as [[? ?] ?]
                 | (_ * _)%type => destruct a
                 end;
             try match type of a with unit => destruct a end;
             try (apply lift_inv in Hm);
             try (apply ok_or_inv in Hm);
             try (apply fail_if_inv in Hm);
             cbv beta iota zeta in H
         | mret _ = Val _ => injection H; clear H; intros; subst
         end.

(** [split_bool] turns boolean guards into propositions. *)
Ltac split_bool :=
  repeat match goal with
         | H : _ && _ = true |- _ => apply andb_true_iff in H as [? ?]
         | H : _ || _ = false |- _ => apply orb_false_iff in H as [? ?]
         | H : negb _ = true |- _ => apply negb_true_iff in H
         | H : negb _ = false |- _ => apply negb_false_iff in H
         | H : (_ <=? _) = true |- _ => apply Z.leb_le in H
         | H : (_ <=? _) = false |- _ => apply Z.leb_gt in H
         | H : (_ <? _) = true |- _ => apply Z.ltb_lt in H
         | H : (_ <? _) = false |- _ => apply Z.ltb_ge in H
         | H : (_ =? _) = true |- _ => apply Z.eqb_eq in H
         | H : (_ =? _) = false |- _ => apply Z.eqb_neq in H
         | H : bool_decide _ = true |- _ => apply bool_decide_eq_true in H
         | H : bool_decide _ = false |- _ => apply bool_decide_eq_false in H
         end.

(** [bool_true] rewrites the boolean guards of the goal that arithmetic
    decides. *)
Ltac decide_bool b :=
  first [ replace b with true by lia | replace b with false by lia ].

(** [comp_run] runs a goal [m = v] forward through the guards and reads that
    arithmetic or the [comp] database decides. *)
Create HintDb comp.

Ltac bool_solve :=
  first [ reflexivity | apply Z.ltb_ge; lia | apply Z.eqb_neq; lia | apply Z.leb_gt; lia
        | apply Z.ltb_lt; lia | apply Z.eqb_eq; lia | apply Z.leb_le; lia
        | rewrite negb_false_iff; assumption | assumption ].

Ltac comp_step :=
  lazymatch goal with
  | |- mbind ?f (fail_if ?b ?e) = _ => first [ rewrite (fail_if_pass b e f) by bool_solve
            | rewrite (fail_if_fail b e f) by bool_solve ]
  | |- (if ?b then _ else _) = _ =>
      let H := fresh in
      first [ assert (b = true) as H by bool_solve; rewrite H; clear H
            | assert (b = false) as H by bool_solve; rewrite H; clear H ]
  | |- mbind ?f (Val ?a) = _ => rewrite (comp_bind_val a f (Val a) eq_refl)
  | |- mbind ?f (mret ?a) = _ => rewrite (comp_bind_val a f (mret a) eq_refl)
  | |- mbind ?f (lift ?g (Ok ?a)) = _ => rewrite (comp_bind_val a f (lift g (Ok a)) eq_refl)
  | |- mbind ?f (index ?l ?i) = _ => erewrite (comp_bind_val _ f (index l i)) by reflexivity
  | |- mbind ?f (mbind ?g ?m) = _ => rewrite (comp_bind_assoc m g f)
  | |- mbind ?f ?m = _ => erewrite (comp_bind_val _ f m) by (solve [eauto with comp nocore])
  end; cbv beta iota zeta.

Ltac comp_run := repeat comp_step.

Create HintDb bytes.
Create Rewrite HintDb bytes.

(** * Lemmas on byte strings *)

Lemma len_nonneg {A} (l : list A) : 0 <= len l.
Proof. unfold len. lia. Qed.

Lemma len_app {A} (l k : list A) : len (l ++ k) = len l + len k.
Proof. unfold len. rewrite length_app. lia. Qed.

Lemma len_cons {A} (x : A) l : len (x :: l) = 1 + len l.
Proof. unfold len. cbn [length]. lia. Qed.

Lemma len_nil {A} : len (@nil A) = 0.
Proof. reflexivity. Qed.

Lemma length_be_bytes k n : length (be_bytes k n) = k.
Proof. induction k; cbn [be_bytes length]; auto. Qed.

Lemma len_be_bytes k n : len (be_bytes k n) = Z.of_nat k.
Proof. unfold len. by rewrite length_be_bytes. Qed.

Lemma be_bytes_ok k n : bytes_ok (be_bytes k n).
Proof.
  induction k; cbn [be_bytes]; constructor; [| assumption].
  apply Z.mod_pos_bound. lia.
Qed.

Lemma pow256_pos k : 0 < 256 ^ Z.of_nat k.
Proof. apply Z.pow_pos_nonneg; lia. Qed.

Lemma pow256_succ k : 256 ^ Z.of_nat (S k) = 256 * 256 ^ Z.of_nat k.
Proof. rewrite Nat2Z.inj_succ, Z.pow_succ_r; lia. Qed.

Lemma be_val_be_bytes_mod k n : be_val (be_bytes k n) = n mod 256 ^ Z.of_nat k.
Proof.
  induction k as [|k IH]; cbn [be_bytes be_val]; [by rewrite Z.mod_1_r|].
  rewrite length_be_bytes, IH, pow256_succ.
  pose proof (pow256_pos k).
  rewrite (Z.mul_comm 256), Z.rem_mul_r by lia. lia.
Qed.

Lemma be_val_be_bytes k n : 0 <= n < 256 ^ Z.of_nat k -> be_val (be_bytes k n) = n.
Proof. intros. rewrite be_val_be_bytes_mod, Z.mod_small; lia. Qed.

Lemma be_val_bound l : bytes_ok l -> 0 <= be_val l < 256 ^ Z.of_nat (length l).
Proof.
  induction 1 as [|b l Hb _ IH]; cbn [be_val length]; [lia|].
  rewrite pow256_succ. unfold byte_ok in Hb. nia.
Qed.

Lemma be_bytes_split k a r :
  0 <= r < 256 ^ Z.of_nat k -> be_bytes k (a * 256 ^ Z.of_nat k + r) = be_bytes k r.
Proof.
  revert a r. induction k as [|k IH]; intros a r Hr; [done|].
  cbn [be_bytes]. rewrite pow256_succ in *. pose proof (pow256_pos k).
  f_equal.
  - replace (a * (256 * 256 ^ Z.of_nat k) + r)
      with (r + (a * 256) * 256 ^ Z.of_nat k) by ring.
    rewrite Z.div_add by lia. rewrite Z.add_mod, Z.mod_mul by lia.
    rewrite Z.add_0_r. apply Z.mod_mod. lia.
  - replace (a * (256 * 256 ^ Z.of_nat k) + r)
      with ((a * 256 + r / 256 ^ Z.of_nat k) * 256 ^ Z.of_nat k
            + r mod 256 ^ Z.of_nat k)
      by (pose proof (Z.div_mod r (256 ^ Z.of_nat k)); lia).
    rewrite IH by (apply Z.mod_pos_bound; lia).
    rewrite (Z.div_mod r (256 ^ Z.of_nat k)) at 2 by lia.
    rewrite (Z.mul_comm (256 ^ _)), IH by (apply Z.mod_pos_bound; lia).
    done.
Qed.

Lemma be_bytes_be_val l : bytes_ok l -> be_bytes (length l) (be_val l) = l.
Proof.
  induction 1 as [|b l Hb Hl IH]; [done|].
  cbn [be_val length be_bytes]. pose proof (be_val_bound l Hl).
  pose proof (pow256_pos (length l)).
  f_equal.
  - rewrite Z.div_add_l, Z.div_small, Z.add_0_r by lia. apply Z.mod_small, Hb.
  - by rewrite be_bytes_split.
Qed.

Lemma bytes_ok_app l k : bytes_ok (l ++ k) <-> bytes_ok l /\ bytes_ok k.
Proof. apply Forall_app. Qed.

Lemma bytes_ok_take n l : bytes_ok l -> bytes_ok (take n l).
Proof. apply Forall_take. Qed.

Lemma bytes_ok_drop n l : bytes_ok l -> bytes_ok (drop n l).
Proof. apply Forall_drop. Qed.

Lemma bytes_ok_replicate n b : byte_ok b -> bytes_ok (replicate n b).
Proof. intros H. by apply Forall_replicate. Qed.

Lemma bytes_ok_of_string s : bytes_ok (bytes_of_string s).
Proof.
  induction s as [|a s IH]; cbn; constructor; [|assumption].
  pose proof (Ascii.N_ascii_bounded a). unfold byte_ok. lia.
Qed.

Definition bytes_okb (l : bytes) : bool := forallb (fun b => (0 <=? b) && (b <? 256)) l.

Lemma bytes_okb_ok l : bytes_okb l = true -> bytes_ok l.
Proof.
  unfold bytes_okb. rewrite forallb_forall. intros H. apply Forall_forall. intros b Hb.
  specialize (H b Hb). unfold byte_ok. lia.
Qed.

#[export] Hint Resolve len_nonneg be_bytes_ok bytes_ok_take bytes_ok_drop
  bytes_ok_replicate bytes_ok_of_string : bytes.
#[export] Hint Rewrite @len_app @len_cons @len_nil length_be_bytes len_be_bytes : bytes.

Lemma bytes_eqb_eq a b : bytes_eqb a b = true <-> a = b.
Proof. apply bool_decide_eq_true. Qed.

Lemma bytes_eqb_refl a : bytes_eqb a a = true.
Proof. by apply bytes_eqb_eq. Qed.

Lemma ascii_utf8 l : bytes_ok l -> is_ascii l = true -> utf8_valid l = true.
Proof.
  induction 1 as [|b l Hb _ IH]; [done|]. cbn [is_ascii forallb utf8_valid].
  intros [-> ?]%andb_true_iff. auto.
Qed.

Lemma take_app_len {A} n (l k : list A) : n = length l -> take n (l ++ k) = l.
Proof. intros ->. by rewrite take_app_length. Qed.

Lemma drop_app_len {A} n (l k : list A) : n = length l -> drop n (l ++ k) = k.
Proof. intros ->. by rewrite drop_app_length. Qed.

(** ** Chunks *)

Lemma chunks_fuel_concat fuel n l :
  (0 < n)%nat -> (length l <= fuel)%nat -> concat (chunks_fuel fuel n l) = l.
Proof.
  intros Hn. revert l. induction fuel as [|f IH]; intros [|b l] Hf; cbn in Hf |- *;
    try done; try lia.
  destruct n as [|n]; [lia|]. cbn [take drop app]. f_equal.
  rewrite IH by (rewrite length_drop; lia). apply take_drop.
Qed.

(** Concatenating the chunks gives the slice back. *)
Lemma chunks_concat n l : (0 < n)%nat -> concat (chunks n l) = l.
Proof. intros. by apply chunks_fuel_concat. Qed.

Lemma chunks_fuel_bounds fuel n l :
  (0 < n)%nat -> Forall (fun c => 0 < length c <= n)%nat (chunks_fuel fuel n l).
Proof.
  intros Hn. revert l. induction fuel as [|f IH]; intros [|b l]; cbn; constructor; auto.
  rewrite length_take. cbn [length]. lia.
Qed.

(** Every chunk is non-empty and at most [n] bytes long. *)
Lemma chunks_bounds n l :
  (0 < n)%nat -> Forall (fun c => 0 < length c <= n)%nat (chunks n l).
Proof. apply chunks_fuel_bounds. Qed.

Lemma chunks_short n l : (0 < length l <= n)%nat -> chunks n l = [l].
Proof.
  destruct l as [|b l]; cbn [length]; intros H; [lia|].
  unfold chunks. cbn [length chunks_fuel].
  rewrite take_ge, drop_ge by (cbn; lia). by destruct (length l).
Qed.

(** ** Byte sources *)

Lemma read_exact_app n a b e :
  n = length a -> read_exact n (mk_source (a ++ b) e) = Ok (a, mk_source b e).
Proof.
  intros ->. unfold read_exact. cbn. rewrite length_app, decide_True by lia.
  by rewrite take_app_length, drop_app_length.
Qed.

(** What a successful [read_exact] returned: a prefix of the right length. *)
Lemma read_exact_inv n s b s' :
  read_exact n s = Ok (b, s') ->
  content s = b ++ content s' /\ length b = n /\ at_end s' = at_end s.
Proof.
  unfold read_exact. case_decide; [|destruct (at_end s); discriminate].
  intros [= <- <-]. cbn. by rewrite take_drop, length_take, Nat.min_l by lia.
Qed.

Lemma read_u8_cons b r e : read_u8 (mk_source (b :: r) e) = Ok (b, mk_source r e).
Proof.
  unfold read_u8. change (b :: r) with ([b] ++ r). rewrite read_exact_app by done.
  cbn. do 2 f_equal. lia.
Qed.

Lemma read_u16_app n r e :
  uint_ok 16 n -> read_u16 (mk_source (be_bytes 2 n ++ r) e) = Ok (n, mk_source r e).
Proof.
  intros Hn. unfold read_u16, uint_ok in *. rewrite read_exact_app by done. cbn -[be_val be_bytes].
  by rewrite be_val_be_bytes.
Qed.

(** ** Finite maps *)

Lemma map_size_delete_S `{Countable K} {A} (m : gmap K A) i x :
  m !! i = Some x -> size m = S (size (delete i m)).
Proof.
  intros Hi. rewrite <- (insert_delete_id m i x Hi) at 1.
  apply map_size_insert_None, lookup_delete_eq.
Qed.

(** The sum of [f] over the values of a map. *)
Definition map_sum {A} (f : A -> Z) (m : gmap Z A) : Z := map_fold (fun _ a s => f a + s) 0 m.

Lemma map_sum_empty {A} (f : A -> Z) : map_sum f ∅ = 0.
Proof. apply map_fold_empty. Qed.

Lemma map_sum_insert {A} (f : A -> Z) m i x :
  m !! i = None -> map_sum f (<[i := x]> m) = f x + map_sum f m.
Proof. intros H. unfold map_sum. rewrite map_fold_insert_L; [done| |done]. intros; lia. Qed.

Lemma map_sum_delete {A} (f : A -> Z) m i x :
  m !! i = Some x -> map_sum f m = f x + map_sum f (delete i m).
Proof. intros H. unfold map_sum. rewrite (map_fold_delete_L _ _ i x m); [done| |done]. intros; lia. Qed.

Lemma map_sum_nonneg {A} (f : A -> Z) (m : gmap Z A) : (forall a, 0 <= f a) -> 0 <= map_sum f m.
Proof.
  intros Hf. unfold map_sum. apply (map_fold_weak_ind (fun r _ => 0 <= r)); [lia|].
  intros i x m' r _ Hr. specialize (Hf x). lia.
Qed.

Lemma map_sum_list {A} (f : A -> Z) (m : gmap Z A) :
  map_sum f m = foldr (fun a s => f a + s) 0 ((map_to_list m).*2).
Proof.
  unfold map_sum. rewrite map_fold_foldr.
  induction (map_to_list m) as [|[k a] l IH]; cbn; [done|]. by rewrite IH.
Qed.

(** ** Sums over lists *)

Definition list_sum {A} (f : A -> Z) (l : list A) : Z := foldr (fun a s => f a + s) 0 l.

Lemma list_sum_app {A} (f : A -> Z) l k : list_sum f (l ++ k) = list_sum f l + list_sum f k.
Proof. induction l as [|a l IH]; cbn; [done|]. unfold list_sum in *. lia. Qed.

Lemma list_sum_perm {A} (f : A -> Z) l k : l ≡ₚ k -> list_sum f l = list_sum f k.
Proof. induction 1; cbn; unfold list_sum in *; lia. Qed.

Lemma list_sum_insert {A} (f : A -> Z) l i x y :
  l !! i = Some x -> list_sum f (<[i := y]> l) = list_sum f l - f x + f y.
Proof.
  intros H. rewrite <- (take_drop_middle l i x H) at 2.
  rewrite insert_take_drop by (by eapply lookup_lt_Some).
  rewrite !list_sum_app. cbn. unfold list_sum. lia.
Qed.

Lemma list_sum_le {A} (f g : A -> Z) l :
  (forall a, f a <= g a) -> list_sum f l <= list_sum g l.
Proof. intros H. induction l as [|a l IH]; cbn; [done|]. specialize (H a). unfold list_sum in *. lia. Qed.

Lemma list_sum_const {A} (c : Z) (l : list A) : list_sum (fun _ => c) l = c * len l.
Proof. induction l as [|a l IH]; cbn; [unfold len; cbn; lia|]. rewrite len_cons. unfold list_sum in *. lia. Qed.

Lemma len_insert {A} (l : list A) i x : len (<[i := x]> l) = len l.
Proof. unfold len. by rewrite length_insert. Qed.

(** ** Slices *)

Lemma get_range_app {A} (a b c : list A) :
  get_range (a ++ b ++ c) (len a) (len a + len b) = Some b.
Proof.
  unfold get_range. rewrite !len_app. pose proof (len_nonneg a). pose proof (len_nonneg b).
  pose proof (len_nonneg c). rewrite !(proj2 (Z.leb_le _ _)) by lia. cbn. f_equal.
  rewrite drop_app_len by (unfold len; lia). apply take_app_len. unfold len. lia.
Qed.

Lemma get_range_at {A} (a b c : list A) n m :
  n = len a -> m = len a + len b -> get_range (a ++ b ++ c) n m = Some b.
Proof. intros -> ->. apply get_range_app. Qed.

Lemma slice_app {E A} (a b c : list A) n m :
  n = len a -> m = len a + len b -> @slice E A (a ++ b ++ c) n m = Val b.
Proof. intros -> ->. unfold slice. by rewrite get_range_app. Qed.

Lemma slice_tail {E A} (a b : list A) n m :
  n = len a -> m = len a + len b -> @slice E A (a ++ b) n m = Val b.
Proof.
  intros -> ->. pose proof (slice_app (E := E) a b [] _ _ eq_refl eq_refl) as H.
  by rewrite app_nil_r in H.
Qed.

Lemma index_app {E A} (a : list A) x c n : n = len a -> @index E A (a ++ x :: c) n = Val x.
Proof.
  intros ->. unfold index, get_at. rewrite (proj2 (Z.leb_le _ _)) by apply len_nonneg.
  unfold len. rewrite Nat2Z.id, list_lookup_middle by done. done.
Qed.

Lemma index_lookup {E A} (l : list A) i x : 0 <= i -> l !! Z.to_nat i = Some x -> @index E A l i = Val x.
Proof. intros Hi Hx. unfold index, get_at. by rewrite (proj2 (Z.leb_le _ _) Hi), Hx. Qed.

Lemma index_in {E A} (l : list A) i : 0 <= i < len l -> exists x, @index E A l i = Val x /\ l !! Z.to_nat i = Some x.
Proof.
  intros Hi. unfold index, get_at. rewrite (proj2 (Z.leb_le _ _)) by lia.
  destruct (lookup_lt_is_Some_2 l (Z.to_nat i)) as [x Hx]; [unfold len in Hi; lia|].
  exists x. by rewrite Hx.
Qed.

Lemma slice_in {E A} (l : list A) a b : 0 <= a <= b -> b <= len l ->
  @slice E A l a b = Val (take (Z.to_nat (b - a)) (drop (Z.to_nat a) l)).
Proof.
  intros Ha Hb. unfold slice, get_range. by rewrite !(proj2 (Z.leb_le _ _)) by lia.
Qed.

(** ** Bits *)

(** A property of small numbers, by evaluation on each of them. *)
Lemma by_enumeration (P : Z -> bool) (n : nat) :
  forallb P (Z.of_nat <$> seq 0 n) = true -> forall b, 0 <= b < Z.of_nat n -> P b = true.
Proof.
  intros H b Hb. rewrite forallb_forall in H. apply H.
  apply list_elem_of_In, list_elem_of_fmap. exists (Z.to_nat b). split; [lia|].
  apply elem_of_seq. lia.
Qed.

(** Appending digits above the bits already collected. *)
Lemma lor_shiftl r x s : 0 <= s -> 0 <= r < 2 ^ s -> Z.lor r (Z.shiftl x s) = r + x * 2 ^ s.
Proof.
  intros Hs Hr. rewrite <- Z.shiftl_mul_pow2 by done.
  assert (Z.land r (Z.shiftl x s) = 0) as Hz.
  { apply Z.bits_inj'. intros n Hn. rewrite Z.land_spec, Z.bits_0.
    destruct (Z.lt_ge_cases n s).
    - rewrite Z.shiftl_spec_low by lia. apply andb_false_r.
    - rewrite <- (Z.mod_small r (2 ^ s)) by done. rewrite Z.mod_pow2_bits_high by lia. done. }
  rewrite Z.add_nocarry_lxor by done. by rewrite Z.lxor_lor.
Qed.

(** ** Polled streams *)

Lemma poll_source_spec i e cap :
  inner_ok i -> (0 < cap)%nat ->
  match poll_source i e cap with
  | (r, Ready b) =>
      inner_ok r /\ wire_of i = b ++ wire_of r /\ (length b <= cap)%nat /\ bytes_ok b /\
      (b = [] -> r = [] /\ i = [] /\ e = AtEof)
  | (r, Pending) => inner_ok r /\ wire_of i = wire_of r
  | (r, Failed k) => r = [] /\ i = [] /\ e = AtError k
  end.
Proof.
  intros Hok Hcap. destruct i as [|[b|] r]; cbn.
  - destruct e; [|done]. split; [constructor|]. split; [done|]. split; [cbn; lia|]. split; [constructor|done].
  - apply Forall_cons_iff in Hok as [[Hb Hbok] Hok]. cbn in Hbok. split; [|split; [|split; [|split]]].
    + pose proof (bytes_ok_drop cap b Hbok) as Hd. destruct (drop cap b) eqn:Ed; [done|]. by constructor.
    + cbn. rewrite <- (take_drop cap b) at 1. rewrite <- app_assoc. f_equal.
      by destruct (drop cap b).
    + rewrite length_take. lia.
    + auto with bytes.
    + intros Hn. destruct b; [done|]. destruct cap; [lia|done].
  - by apply Forall_cons_iff in Hok as [_ Hok].
Qed.

Lemma poll_source_length i e cap :
  match poll_source i e cap with
  | (r, Pending) => (length r < length i)%nat
  | (r, _) => (length r <= length i)%nat
  end.
Proof. destruct i as [|[b|] r]; cbn; [destruct e; cbn; lia|destruct (drop cap b); cbn; lia|lia]. Qed.

Lemma inner_ok_compute i :
  forallb (fun x => match x with Some [] => false | Some b => bytes_okb b | None => true end) i = true -> inner_ok i.
Proof.
  rewrite forallb_forall. intros H. apply Forall_forall. intros x Hx. specialize (H x Hx).
  destruct x as [[|b0 b]|]; [done| |split; [done|constructor]]. split; [done|]. by apply bytes_okb_ok.
Qed.

(** ** Text *)

Lemma parse_digits_snoc m a l d :
  parse_digits m a (l ++ [d]) = match parse_digits m a l with Some v => parse_digits m v [d] | None => None end.
Proof.
  revert a. induction l as [|b l IH]; intros a; [done|]. cbn [app parse_digits].
  destruct (_ && _); [|done]. destruct (_ <=? m); [|done]. apply IH.
Qed.

Lemma parse_digits_decimal m f n :
  0 <= n <= m -> n < 2 ^ Z.of_nat f -> parse_digits m 0 (decimal_fuel f n) = Some n.
Proof.
  revert n. induction f as [|f IH]; intros n Hn Hf; [cbn in Hf; cbn; f_equal; lia|].
  rewrite Nat2Z.inj_succ, Z.pow_succ_r in Hf by lia. cbn [decimal_fuel]. rewrite parse_digits_snoc.
  pose proof (Z.mod_pos_bound n 10 ltac:(lia)). pose proof (Z.div_mod n 10 ltac:(lia)).
  assert (forall v, 0 <= v -> v * 10 + n mod 10 = n -> parse_digits m v [48 + n mod 10] = Some n) as Hlast.
  { intros v Hv Hvn. cbn [parse_digits]. rewrite !(proj2 (Z.leb_le _ _)) by lia. cbn [andb]. f_equal. lia. }
  destruct (n <? 10) eqn:E; split_bool.
  - cbn [parse_digits]. apply Hlast; [lia|]. rewrite Z.mod_small; lia.
  - rewrite IH by lia. apply Hlast; lia.
Qed.

Lemma parse_digits_range m a l v : 0 <= a <= m -> parse_digits m a l = Some v -> 0 <= v <= m.
Proof.
  revert a. induction l as [|b l IH]; intros a Ha; cbn; [intros [= <-]; lia|].
  destruct ((48 <=? b) && (b <=? 57)) eqn:E1; [|done]. destruct (_ <=? m) eqn:E2; [|done]. split_bool.
  apply IH. lia.
Qed.

Lemma parse_uint_range m l v : 0 <= m -> parse_uint m l = Some v -> 0 <= v <= m.
Proof.
  intros Hm. unfold parse_uint. destruct l as [|b l]; [done|].
  destruct (b =? 43); [destruct l; [done|]|]; apply parse_digits_range; lia.
Qed.

Lemma decimal_parse m n : 0 <= n <= m -> parse_uint m (decimal n) = Some n.
Proof.
  intros Hn. assert (n < 2 ^ Z.of_nat (S (Z.to_nat (Z.log2 n)))) as Hf.
  { rewrite Nat2Z.inj_succ, Z2Nat.id by apply Z.log2_nonneg. destruct (Z.eq_dec n 0) as [->|]; [done|].
    apply Z.log2_spec. lia. }
  pose proof (parse_digits_decimal m _ n Hn Hf) as Hp. unfold decimal, parse_uint in *.
  destruct (decimal_fuel _ n) as [|b l] eqn:E; [cbn in E; by destruct (if n <? 10 then _ else _)|].
  destruct (b =? 43) eqn:Eb; [|done]. split_bool. subst b. cbn in Hp. done.
Qed.

Lemma decimal_digits_fuel f n : 0 <= n -> Forall (fun b => 48 <= b <= 57) (decimal_fuel f n).
Proof.
  revert n. induction f as [|f IH]; intros n Hn; cbn; [constructor|]. apply Forall_app. split.
  - destruct (n <? 10); [constructor|]. apply IH. apply Z.div_pos; lia.
  - constructor; [|constructor]. pose proof (Z.mod_pos_bound n 10 ltac:(lia)). lia.
Qed.

Lemma decimal_nonempty n : decimal n <> [].
Proof. unfold decimal. cbn. intros H. by destruct (if n <? 10 then _ else _). Qed.

Lemma split_on_nonempty c l : split_on c l <> [].
Proof. destruct l as [|b l]; cbn; [done|]. by repeat case_match. Qed.

Lemma split_on_nodelim c l : Forall (fun b => b <> c) l -> split_on c l = [l].
Proof.
  induction 1 as [|b l Hb _ IH]; cbn; [done|]. rewrite IH. by destruct (b =? c) eqn:E; split_bool.
Qed.

Lemma split_on_app c l r : Forall (fun b => b <> c) l -> split_on c (l ++ c :: r) = l :: split_on c r.
Proof.
  induction 1 as [|b l Hb _ IH]; cbn; [by rewrite Z.eqb_refl|]. rewrite IH. by destruct (b =? c) eqn:E; split_bool.
Qed.

Lemma split_on_cat c l r : split_on c (l ++ c :: r) = split_on c l ++ split_on c r.
Proof.
  induction l as [|b l IH]; cbn; [by rewrite Z.eqb_refl|]. rewrite IH. destruct (b =? c); [done|].
  by destruct (split_on c l) eqn:E; [apply split_on_nonempty in E|].
Qed.

Lemma split_once_none c l : Forall (fun b => b <> c) l -> split_once c l = None.
Proof. induction 1 as [|b l Hb _ IH]; cbn; [done|]. rewrite IH. by destruct (b =? c) eqn:E; split_bool. Qed.

Lemma split_once_app c l r : Forall (fun b => b <> c) l -> split_once c (l ++ c :: r) = Some (l, r).
Proof.
  induction 1 as [|b l Hb _ IH]; cbn; [by rewrite Z.eqb_refl|]. rewrite IH. by destruct (b =? c) eqn:E; split_bool.
Qed.

Lemma bytes_ok_split_on c l : bytes_ok l -> Forall bytes_ok (split_on c l).
Proof.
  induction 1 as [|b l Hb _ IH]; cbn; [repeat constructor|].
  destruct (b =? c); [apply Forall_cons_2; [constructor|done]|].
  destruct IH as [|p ps Hp Hps]; (apply Forall_cons_2; [by apply Forall_cons_2|done]) || (repeat constructor; done).
Qed.

Lemma bytes_ok_split_once c l p q : bytes_ok l -> split_once c l = Some (p, q) -> bytes_ok q.
Proof.
  intros Hl. revert p. induction Hl as [|b l Hb Hl IH]; intros p; cbn; [done|].
  destruct (b =? c); [by intros [= _ <-]|]. destruct (split_once c l) as [[p' q']|]; [|done].
  intros [= _ <-]. by eapply IH.
Qed.

Lemma strip_prefix_app p l : strip_prefix p (p ++ l) = Some l.
Proof. induction p as [|b p IH]; cbn; [done|]. by rewrite Z.eqb_refl. Qed.

Lemma strip_prefix_Some p l r : strip_prefix p l = Some r -> l = p ++ r.
Proof.
  revert l. induction p as [|b p IH]; intros l Hl; [by injection Hl|]. destruct l as [|c l]; [done|]. cbn [strip_prefix] in Hl.
  destruct (Z.eqb_spec b c); [subst c|done]. cbn. f_equal. by apply IH.
Qed.

Lemma strip_suffix_app s l : strip_suffix s (l ++ s) = Some l.
Proof. unfold strip_suffix. rewrite rev_app_distr, strip_prefix_app. cbn. by rewrite rev_involutive. Qed.

Lemma split_on_join c l :
  l <> [] -> Forall (Forall (fun b => b <> c)) l -> split_on c (join_with c l) = l.
Proof.
  intros Hn Hl. induction Hl as [|p l Hp Hl IH]; [done|]. cbn [join_with].
  destruct l as [|q l]; [by apply split_on_nodelim|]. rewrite split_on_app by done. by rewrite IH.
Qed.

Lemma split_on_pieces c l : Forall (Forall (fun b => b <> c)) (split_on c l).
Proof.
  induction l as [|b l IH]; cbn; [repeat constructor|]. destruct (b =? c) eqn:E; split_bool; [by repeat constructor|].
  destruct IH as [|p ps Hp Hps]; repeat (constructor; try done).
Qed.

Lemma join_split_on c l : join_with c (split_on c l) = l.
Proof.
  induction l as [|b l IH]; cbn; [done|]. destruct (b =? c) eqn:E; split_bool.
  - pose proof (split_on_nonempty c l). subst b. destruct (split_on c l) as [|p ps] eqn:Es; [done|].
    cbn [join_with app] in *. by rewrite IH.
  - destruct (split_on c l) as [|p ps]; [cbn in IH; by subst l|]. destruct ps; cbn [join_with app] in *; by rewrite IH.
Qed.

Lemma utf8_lossy_valid l : utf8_valid l = true -> utf8_lossy l = l.
Proof.
  remember (length l) as n eqn:Hn. revert l Hn. induction (lt_wf n) as [n _ IH]. intros l ->.
  destruct l as [|b0 r0]; [done|]. cbn [utf8_valid utf8_lossy].
  destruct (b0 <? 128); [intros Hv; f_equal; eapply IH; [|reflexivity|done]; cbn; lia|].
  destruct r0 as [|b1 r1]; [done|].
  destruct (utf8_two b0 && utf8_cont b1); [intros Hv; do 2 f_equal; eapply IH; [|reflexivity|done]; cbn; lia|].
  destruct r1 as [|b2 r2]; [done|]. destruct (utf8_three b0 b1) eqn:E3; cbn [andb].
  - destruct (utf8_cont b2); [intros Hv; do 3 f_equal; eapply IH; [|reflexivity|done]; cbn; lia|].
    destruct r2; [done|]. by rewrite andb_false_r.
  - destruct r2 as [|b3 r3]; [done|]. destruct (utf8_four b0 b1); [|done]. cbn [andb].
    destruct (utf8_cont b2), (utf8_cont b3); cbn [andb]; try done.
    intros Hv; do 4 f_equal; eapply IH; [|reflexivity|done]; cbn; lia.
Qed.

(** ** Trimming *)

Lemma trim_front_id fuel ws l : strip_any ws l = None -> trim_front fuel ws l = l.
Proof. intros Hs. destruct fuel; cbn; [done|]. by rewrite Hs. Qed.

Lemma strip_any_first ws b l : forallb (fun w => match w with x :: _ => negb (x =? b) | [] => false end) ws = true ->
  strip_any ws (b :: l) = None.
Proof.
  induction ws as [|[|x w] ws IH]; cbn; [done|done|]. destruct (x =? b); [done|]. cbn. exact IH.
Qed.

(** Text between two visible ASCII characters is not trimmed. *)
Definition visible (b : Z) : Prop := 33 <= b <= 126.

Lemma strip_any_visible ws b l :
  forallb (fun w => match w with x :: _ => (x <? 33) || (126 <? x) | [] => false end) ws = true ->
  visible b -> strip_any ws (b :: l) = None.
Proof.
  intros Hws Hb. apply strip_any_first. rewrite forallb_forall in Hws |- *. intros w Hw. specialize (Hws w Hw).
  destruct w as [|x w]; [done|]. apply negb_true_iff, Z.eqb_neq. unfold visible in Hb. intros ->.
  apply orb_true_iff in Hws as [Hws|Hws]; split_bool; lia.
Qed.

Lemma trim_visible l : Forall visible l -> trim l = l.
Proof.
  intros Hl. unfold trim. assert (trim_front (length l) whitespace l = l) as ->.
  { destruct l as [|b l]; [done|]. apply Forall_cons_iff in Hl as [Hb _]. by apply trim_front_id, strip_any_visible. }
  rewrite trim_front_id; [apply rev_involutive|]. apply Forall_rev in Hl.
  destruct (rev l) as [|b r]; [done|]. apply Forall_cons_iff in Hl as [Hb _]. by apply strip_any_visible.
Qed.
