(* ===== verification/Budget.v ===== *)
(** [src/buffer.rs]: the process-wide byte budget.

    [MemoryBudget] is an atomic counter with a compare-and-swap loop that
    concurrent callers race on.  The sequential functions model what one caller
    observes; [step] is the interleaving semantics in which any number of
    callers are between their [load] and their [compare_exchange_weak]. *)

From S2P Require Import Prelude.

(** * Sequential operations *)

(** [BudgetInner]: the shared counter and the configured ceiling. *)
Record budget := mk_budget { used : Z; limit : Z }.

(** [Reservation.bytes]; the [Arc] to the counter is the budget it came from. *)
Abbreviation reservation := Z (only parsing).

Definition budget_new (limit_bytes : Z) : budget := mk_budget 0 limit_bytes.

(** [MemoryBudget::try_reserve] as one uncontended caller runs it: the first
    exchange succeeds, because nobody else moved the counter. *)
Definition try_reserve (b : budget) (n : Z) : option (budget * reservation) :=
  if negb (limit b =? 0) then
    let next := saturating_add u64_max (used b) n in
    if limit b <? next then None else Some (mk_budget next (limit b), n)
  else Some (mk_budget (wrap 64 (used b + n)) (limit b), n).

(** [impl Drop for Reservation]: [fetch_sub], which wraps. *)
Definition release (b : budget) (r : reservation) : budget :=
  mk_budget (wrap 64 (used b - r)) (limit b).

(** * Interleaved operations *)

(** A caller inside the loop of [try_reserve]: the value it loaded last and the
    size it wants. *)
Record caller := mk_caller { cur : Z; wanted : Z }.

(** The whole system: the counter, the callers in their loop, and the
    reservations that are alive. *)
Record system := mk_system {
  counter : budget;
  callers : list caller;
  alive : list reservation }.

Definition system_new (limit_bytes : Z) : system := mk_system (budget_new limit_bytes) [] [].

Inductive step : system -> system -> Prop :=
| step_load b cs al n :
    (* let mut cur = used.load() *)
    limit b <> 0 -> uint_ok 64 n ->
    step (mk_system b cs al) (mk_system b (mk_caller (used b) n :: cs) al)
| step_give_up b cs1 c cs2 al :
    (* if next > limit { return None } *)
    limit b < saturating_add u64_max (cur c) (wanted c) ->
    step (mk_system b (cs1 ++ c :: cs2) al) (mk_system b (cs1 ++ cs2) al)
| step_exchange b cs1 c cs2 al :
    (* compare_exchange_weak(cur, next) == Ok(_) *)
    saturating_add u64_max (cur c) (wanted c) <= limit b -> used b = cur c ->
    step (mk_system b (cs1 ++ c :: cs2) al)
         (mk_system (mk_budget (saturating_add u64_max (cur c) (wanted c)) (limit b))
            (cs1 ++ cs2) (wanted c :: al))
| step_retry b cs1 c cs2 al :
    (* compare_exchange_weak fails, for a moved counter or spuriously *)
    saturating_add u64_max (cur c) (wanted c) <= limit b ->
    step (mk_system b (cs1 ++ c :: cs2) al)
         (mk_system b (cs1 ++ mk_caller (used b) (wanted c) :: cs2) al)
| step_unlimited b cs al n :
    (* the else branch: fetch_add *)
    limit b = 0 -> uint_ok 64 n ->
    step (mk_system b cs al)
         (mk_system (mk_budget (wrap 64 (used b + n)) (limit b)) cs (n :: al))
| step_drop b cs al1 n al2 :
    step (mk_system b cs (al1 ++ n :: al2)) (mk_system (release b n) cs (al1 ++ al2)).

(** The bytes that live reservations account for. *)
Fixpoint total (al : list reservation) : Z :=
  match al with [] => 0 | n :: al' => n + total al' end.

(** The accounting invariant of a limited budget. *)
Record budget_inv (s : system) : Prop := {
  inv_used : used (counter s) = total (alive s);
  inv_limit : used (counter s) <= limit (counter s);
  inv_callers : Forall (fun c => 0 <= cur c /\ uint_ok 64 (wanted c)) (callers s);
  inv_alive : Forall (uint_ok 64) (alive s) }.

(** * Lemmas *)

Lemma total_app a b : total (a ++ b) = total a + total b.
Proof. induction a as [|x a IH]; cbn; [done|]. rewrite IH. lia. Qed.

Lemma total_middle a n b : total (a ++ n :: b) = n + total (a ++ b).
Proof. rewrite !total_app. cbn. lia. Qed.

Lemma total_nonneg al : Forall (uint_ok 64) al -> 0 <= total al.
Proof. induction 1 as [|n al [? ?] _ IH]; cbn; lia. Qed.

Lemma saturating_add_small m a b : a + b <= m -> saturating_add m a b = a + b.
Proof. unfold saturating_add. lia. Qed.

(** Below the maximal limit, an accepted sum did not saturate. *)
Lemma accepted_exact l a b :
  l < u64_max -> saturating_add u64_max a b <= l -> saturating_add u64_max a b = a + b.
Proof. unfold saturating_add. lia. Qed.

Lemma step_limit s s' : step s s' -> limit (counter s') = limit (counter s).
Proof. by destruct 1. Qed.

Lemma Forall_middle {A} (P : A -> Prop) a x b :
  Forall P (a ++ x :: b) -> P x /\ Forall P (a ++ b).
Proof.
  intros H. apply Forall_app in H as [Ha Hb]. apply Forall_cons_iff in Hb as [Hx Hb].
  split; [done|]. by apply Forall_app.
Qed.

Lemma Forall_replace {A} (P : A -> Prop) a x y b :
  Forall P (a ++ x :: b) -> P y -> Forall P (a ++ y :: b).
Proof.
  intros H Hy. apply Forall_app in H as [Ha Hb]. apply Forall_cons_iff in Hb as [_ Hb].
  apply Forall_app. auto.
Qed.

(** Dropping a live reservation subtracts exactly its size. *)
Lemma release_exact al1 n al2 b :
  Forall (uint_ok 64) (al1 ++ n :: al2) -> used b = total (al1 ++ n :: al2) ->
  used b < 2 ^ 64 -> used (release b n) = total (al1 ++ al2).
Proof.
  intros [Hn Ha]%Forall_middle Hu Hlt. rewrite total_middle in Hu.
  pose proof (total_nonneg _ Ha). unfold release, wrap. cbn [used].
  unfold uint_ok in Hn. rewrite Z.mod_small; lia.
Qed.

(** Every step preserves the invariant of a limited budget. *)
Lemma step_inv s s' :
  step s s' -> limit (counter s) <> 0 -> limit (counter s) < u64_max ->
  budget_inv s -> budget_inv s'.
Proof.
  intros Hs Hl Hm [Hu Hle Hc Ha]. pose proof (total_nonneg _ Ha) as Ht.
  assert (u64_max < 2 ^ 64) by done.
  destruct Hs as [b cs al n|b cs1 c cs2 al|b cs1 c cs2 al Hacc Heq|b cs1 c cs2 al|
                  |b cs al1 n al2]; cbn in *.
  - split; cbn; auto. constructor; [cbn; split; [lia|done]|done].
  - apply Forall_middle in Hc as [_ Hc]. by split.
  - apply Forall_middle in Hc as [[_ Hw] Hc].
    pose proof (accepted_exact _ _ _ Hm Hacc) as Hx. rewrite Hx in Hacc |- *.
    split; cbn; auto; lia.
  - pose proof (Forall_middle _ _ _ _ Hc) as [[_ Hw] _]. split; cbn; auto.
    eapply Forall_replace; [exact Hc|]. cbn. split; [lia|done].
  - congruence.
  - pose proof (release_exact _ _ _ _ Ha Hu ltac:(lia)) as Hr.
    rewrite total_middle in Hu. apply Forall_middle in Ha as [[? ?] Ha].
    split; cbn [counter alive callers limit]; auto. cbn in Hr |- *. lia.
Qed.

Lemma system_new_inv l : 0 <= l -> budget_inv (system_new l).
Proof. split; cbn; auto. Qed.

Lemma steps_inv s s' :
  rtc step s s' -> limit (counter s) <> 0 -> limit (counter s) < u64_max ->
  budget_inv s -> budget_inv s' /\ limit (counter s') = limit (counter s).
Proof.
  induction 1 as [|x y z Hxy _ IH]; intros Hl Hm Hi; [done|].
  rewrite <- (step_limit _ _ Hxy) in Hl, Hm |- *.
  apply IH; [done|done|]. rewrite (step_limit _ _ Hxy) in Hl, Hm.
  by apply (step_inv _ _ Hxy).
Qed.

(** The outcome of an uncontended reservation. *)
Lemma try_reserve_exact (b : budget) (n : Z) :
  0 < limit b < u64_max -> 0 <= used b -> uint_ok 64 n ->
  match try_reserve b n with
  | Some (b', r) => used b + n <= limit b /\ used b' = used b + n /\ release b' r = b
  | None => limit b < used b + n
  end.
Proof.
  intros Hl Hu Hn. unfold try_reserve. rewrite (proj2 (Z.eqb_neq _ _)) by lia. cbn.
  destruct (limit b <? _) eqn:E; split_bool; [unfold saturating_add in *; lia|].
  rewrite (accepted_exact (limit b)) in E |- * by lia.
  repeat split; cbn; [lia|]. unfold release. cbn. destruct b as [u l]; cbn in *.
  f_equal. replace (u + n - n) with u by lia. unfold wrap. apply Z.mod_small.
  unfold u64_max, uint_ok in *. lia.
Qed.

(** * Theorems *)

(** C28: whatever the interleaving of callers and drops, the counter of a limited
    budget is exactly the sum of the live reservations and never passes the
    limit: concurrent callers cannot collectively overshoot the ceiling. *)
Theorem budget_never_overshoots (l : Z) (s : system) :
  0 < l < u64_max -> rtc step (system_new l) s ->
  used (counter s) = total (alive s) /\ total (alive s) <= l.
Proof.
  intros Hl Hs.
  destruct (steps_inv _ _ Hs) as [[Hu Hle _ _] Hlim]; cbn in *;
    [lia|lia|apply system_new_inv; lia|]. lia.
Qed.

Lemma budget_never_overshoots_witness :
  let s := mk_system (mk_budget 60 100) [mk_caller 60 50] [60] in
  used (counter s) = total (alive s) /\ total (alive s) <= 100.
Proof.
  intros s. apply (budget_never_overshoots 100 s); [unfold u64_max; lia|].
  eapply rtc_l; [apply (step_load _ _ _ 60); [done|by unfold uint_ok]|].
  eapply rtc_l; [apply (step_exchange _ [] _ []); [by cbn|done]|].
  eapply rtc_l; [apply (step_load _ _ _ 50); [done|by unfold uint_ok]|].
  apply rtc_refl.
Defined.

(** An uncontended [try_reserve] is one of the interleaved executions: load,
    then either give up or exchange, so the sequential function and the
    concurrent semantics agree. *)
Theorem try_reserve_refines (b : budget) (cs : list caller) (al : list reservation) (n : Z) :
  uint_ok 64 n ->
  match try_reserve b n with
  | Some (b', r) => rtc step (mk_system b cs al) (mk_system b' cs (r :: al))
  | None => rtc step (mk_system b cs al) (mk_system b cs al)
  end.
Proof.
  intros Hn. unfold try_reserve. destruct (limit b =? 0) eqn:E; cbn; split_bool.
  - apply rtc_once. by constructor.
  - destruct (limit b <? _) eqn:Ef; split_bool; [apply rtc_refl|].
    eapply rtc_l; [apply (step_load _ _ _ n); done|].
    apply rtc_once. apply (step_exchange b [] (mk_caller (used b) n) cs al); cbn; done.
Qed.

Lemma try_reserve_refines_witness :
  rtc step (mk_system (mk_budget 60 100) [] [60]) (mk_system (mk_budget 100 100) [] [40; 60]).
Proof. apply (try_reserve_refines (mk_budget 60 100) [] [60] 40). by unfold uint_ok. Defined.

(** A reservation of a limited budget succeeds exactly when it fits, it adds
    its size to the counter, and dropping it restores the counter. *)
Theorem try_reserve_spec (b : budget) (n : Z) :
  0 < limit b < u64_max -> 0 <= used b -> uint_ok 64 n ->
  match try_reserve b n with
  | Some (b', r) => used b + n <= limit b /\ used b' = used b + n /\ release b' r = b
  | None => limit b < used b + n
  end.
Proof. apply try_reserve_exact. Qed.

Lemma try_reserve_spec_witness :
  40 + 60 <= 100 /\ used (mk_budget 100 100) = 100 /\ release (mk_budget 100 100) 60 = mk_budget 40 100.
Proof. apply (try_reserve_spec (mk_budget 40 100) 60); unfold u64_max, uint_ok; cbn; lia. Defined.

(** At the maximal limit the saturating sum hides the overflow: two
    reservations are both granted although together they exceed the limit, and
    dropping one of them leaves a counter below the bytes still reserved. *)
Theorem max_limit_overshoots :
  exists s, rtc step (system_new u64_max) s /\
    limit (counter s) < total (alive s) /\
    (exists s', step s s' /\ used (counter s') < total (alive s')).
Proof.
  exists (mk_system (mk_budget u64_max u64_max) [] [u64_max; u64_max]). split; [|split].
  - eapply rtc_l; [apply (step_load _ _ _ u64_max); [done|by unfold uint_ok]|].
    eapply rtc_l; [apply (step_exchange _ [] _ []); [done|done]|].
    eapply rtc_l; [apply (step_load _ _ _ u64_max); [done|by unfold uint_ok]|].
    eapply rtc_l; [apply (step_exchange _ [] _ []); [done|done]|].
    apply rtc_refl.
  - done.
  - exists (mk_system (mk_budget 0 u64_max) [] [u64_max]). split; [|done].
    apply (step_drop (mk_budget u64_max u64_max) [] [] u64_max [u64_max]).
Qed.
