(* ===== verification/Reorder.v ===== *)
(** [src/session/reorder.rs]: the bounded reordering uplink.

    [UplinkSink::push] holds the state lock across its [send().await]s, so a
    push is a resumable computation: [push_begin] runs it to its first
    suspension, [send_ok] and [send_err] resume it when the bounded channel
    takes the chunk or turns out to be closed.  [uplink_step] interleaves pushes,
    reads, closes and the drop of the reader; a trace is a list of events. *)

From S2P Require Import Prelude Budget.

(** * Data *)

Inductive push_result : Type :=
| Accepted
| Duplicate
| TooManyPending
| TooManyPendingBytes
| GlobalBufferExceeded
| Closed.

#[global] Instance push_result_eq_dec : EqDecision push_result.
Proof. solve_decision. Defined.

(** [BudgetedBytes]: the payload and the reservation that lives with it. *)
Record chunk := mk_chunk { data : bytes; charge : option reservation }.

(** The immutable part of [Shared], with the capacity of the channel. *)
Record limits := mk_limits { max_packets : Z; max_bytes : Z; depth : Z }.

(** [Shared], its [State], the channel and the [UplinkReader] behind it.
    [tx_live] says that [st.tx] is still the reader's channel, [rx_live] that
    the reader has not been dropped, [holder] is the chunk a suspended push is
    sending while it holds the lock. *)
Record uplink := mk_uplink {
  lims : limits;
  next_seq : Z;
  sequence_exhausted : bool;
  pending : gmap Z chunk;
  pending_bytes : Z;
  pending_count : Z;
  tx_live : bool;
  chan : list chunk;
  rx_live : bool;
  cur : option chunk;
  holder : option chunk;
  mem : option budget }.

Definition set_seq (u : uplink) (n : Z) (x : bool) : uplink :=
  mk_uplink (lims u) n x (pending u) (pending_bytes u) (pending_count u)
    (tx_live u) (chan u) (rx_live u) (cur u) (holder u) (mem u).
Definition set_pending (u : uplink) (p : gmap Z chunk) (b n : Z) : uplink :=
  mk_uplink (lims u) (next_seq u) (sequence_exhausted u) p b n
    (tx_live u) (chan u) (rx_live u) (cur u) (holder u) (mem u).
Definition set_chan (u : uplink) (t : bool) (c : list chunk) (r : bool) : uplink :=
  mk_uplink (lims u) (next_seq u) (sequence_exhausted u) (pending u) (pending_bytes u)
    (pending_count u) t c r (cur u) (holder u) (mem u).
Definition set_cur (u : uplink) (c : option chunk) : uplink :=
  mk_uplink (lims u) (next_seq u) (sequence_exhausted u) (pending u) (pending_bytes u)
    (pending_count u) (tx_live u) (chan u) (rx_live u) c (holder u) (mem u).
Definition set_holder (u : uplink) (h : option chunk) : uplink :=
  mk_uplink (lims u) (next_seq u) (sequence_exhausted u) (pending u) (pending_bytes u)
    (pending_count u) (tx_live u) (chan u) (rx_live u) (cur u) h (mem u).
Definition set_mem (u : uplink) (b : option budget) : uplink :=
  mk_uplink (lims u) (next_seq u) (sequence_exhausted u) (pending u) (pending_bytes u)
    (pending_count u) (tx_live u) (chan u) (rx_live u) (cur u) (holder u) b.

(** * Operations *)

(** [channel_with_budget]. *)
Definition channel_with_budget (mp mb cd : Z) (b : option budget) : uplink :=
  mk_uplink (mk_limits (Z.max mp 1) mb (Z.max cd 1)) 0 false ∅ 0 0 true [] true None None b.

(** [channel]. *)
Definition channel (mp mb cd : Z) : uplink := channel_with_budget mp mb cd None.

(** [reserve_payload]. *)
Definition reserve_payload (b : option budget) (payload : bytes) :
    option (option budget * chunk) :=
  match b with
  | Some m =>
      match try_reserve m (len payload) with
      | Some (m', r) => Some (Some m', mk_chunk payload (Some r))
      | None => None
      end
  | None => Some (None, mk_chunk payload None)
  end.

(** Dropping a chunk drops its reservation. *)
Definition drop_chunk (b : option budget) (c : chunk) : option budget :=
  match b, charge c with
  | Some m, Some r => Some (release m r)
  | _, _ => b
  end.

Definition drop_chunks (b : option budget) (l : list chunk) : option budget :=
  fold_left drop_chunk l b.

Definition is_empty (c : chunk) : bool := match data c with [] => true | _ => false end.

(** Where a push stands: finished, or awaiting [tx.send(chunk)]. *)
Inductive progress : Type :=
| Finished (r : push_result)
| Sending (c : chunk)
| Stuck.

(** The part of [push] after a successful [send_in_order]: advance [next_seq]
    and take the next contiguous packet.  An empty packet is not sent
    ([send_in_order] returns at once), so the loop goes on; the fuel is the
    number of packets that can still be taken. *)
Fixpoint advance (fuel : nat) (u : uplink) : uplink * progress :=
  match fuel with
  | O => (u, Stuck)
  | S f =>
      if next_seq u =? u64_max then (set_seq u (next_seq u) true, Finished Accepted)
      else
        let nxt := next_seq u + 1 in
        let u1 := set_seq u nxt (sequence_exhausted u) in
        match pending u1 !! nxt with
        | None => (u1, Finished Accepted)
        | Some c =>
            let u2 := set_pending u1 (delete nxt (pending u1))
                        (wrap 64 (pending_bytes u1 - len (data c)))
                        (wrap 64 (pending_count u1 - 1)) in
            if is_empty c then advance f (set_mem u2 (drop_chunk (mem u2) c))
            else (u2, Sending c)
        end
  end.

Definition advance_all (u : uplink) : uplink * progress := advance (S (size (pending u))) u.

(** [push] up to its first suspension. *)
Definition push_begin (u : uplink) (seq : Z) (payload : bytes) : uplink * progress :=
  if sequence_exhausted u || (seq <? next_seq u) then (u, Finished Duplicate)
  else if next_seq u <? seq then
    if bool_decide (is_Some (pending u !! seq)) then (u, Finished Duplicate)
    else if max_packets (lims u) <=? Z.of_nat (size (pending u))
    then (u, Finished TooManyPending)
    else match checked_add usize_max (pending_bytes u) (len payload) with
         | None => (u, Finished TooManyPendingBytes)
         | Some next_bytes =>
             if negb (max_bytes (lims u) =? 0) && (max_bytes (lims u) <? next_bytes)
             then (u, Finished TooManyPendingBytes)
             else match reserve_payload (mem u) payload with
                  | None => (u, Finished GlobalBufferExceeded)
                  | Some (m, c) =>
                      (set_pending (set_mem u m) (<[seq := c]> (pending u)) next_bytes
                         (wrap 64 (pending_count u + 1)), Finished Accepted)
                  end
         end
  else match reserve_payload (mem u) payload with
       | None => (u, Finished GlobalBufferExceeded)
       | Some (m, c) =>
           let u1 := set_mem u m in
           if is_empty c then advance_all (set_mem u1 (drop_chunk (mem u1) c))
           else (u1, Sending c)
       end.

(** Record where the push stands: a suspended push keeps the lock. *)
Definition settle (r : uplink * progress) : uplink * option push_result :=
  match r with
  | (u, Finished p) => (set_holder u None, Some p)
  | (u, Sending c) => (set_holder u (Some c), None)
  | (u, Stuck) => (u, None)
  end.

(** [tx.send(chunk)] completes: there is room and the reader is there. *)
Definition send_ok (u : uplink) (c : chunk) : uplink * progress :=
  advance_all (set_chan u (tx_live u) (chan u ++ [c]) (rx_live u)).

(** [tx.send(chunk)] fails: the value comes back and is dropped. *)
Definition send_err (u : uplink) (c : chunk) : uplink * progress :=
  (set_mem u (drop_chunk (mem u) c), Finished Closed).

(** [UplinkSink::close]: acts only if [try_lock] gets the lock. *)
Definition close (u : uplink) : uplink :=
  match holder u with
  | Some _ => u
  | None =>
      set_mem (set_pending (set_chan u false (chan u) (rx_live u)) ∅
                 (pending_bytes u) (pending_count u))
        (drop_chunks (mem u) (snd <$> map_to_list (pending u)))
  end.

(** [UplinkReader::poll_read] into a buffer with [n] bytes of room:
    [None] is [Poll::Pending], [Some []] end of file (or [n = 0]). *)
Definition take_cur (u : uplink) (c : chunk) (n : nat) : uplink * option bytes :=
  let k := Nat.min (length (data c)) n in
  let rest := drop k (data c) in
  (match rest with
   | [] => set_mem (set_cur u None) (drop_chunk (mem u) c)
   | _ => set_cur u (Some (mk_chunk rest (charge c)))
   end, Some (take k (data c))).

Definition poll_read (u : uplink) (n : nat) : uplink * option bytes :=
  match cur u with
  | Some (mk_chunk (b :: r) ch) => take_cur u (mk_chunk (b :: r) ch) n
  | _ =>
      match chan u with
      | c :: rest =>
          (* self.cur = Some(b) drops the chunk it replaces *)
          take_cur (set_mem (set_chan u (tx_live u) rest (rx_live u))
                      (drop_chunks (mem u) (option_list (cur u)))) c n
      | [] => (u, if tx_live u then None else Some [])
      end
  end.

(** Dropping the [UplinkReader]: the receiver drops the queued chunks. *)
Definition drop_reader (u : uplink) : uplink :=
  set_mem (set_cur (set_chan u (tx_live u) [] false) None)
    (drop_chunks (mem u) (chan u ++ option_list (cur u))).

(** * Traces *)

Inductive event : Type :=
| EPush (seq : Z) (payload : bytes)
| ESent
| ESendFailed
| ECancel
| ERead (n : nat)
| EClose
| EDropReader.

Inductive output : Type :=
| OPush (r : push_result)
| ORead (b : bytes)
| ONone.

Definition out_push (r : uplink * option push_result) : uplink * output :=
  (r.1, match r.2 with Some p => OPush p | None => ONone end).

(** One step of the system, [None] when the event is not possible: a push needs
    the lock, a send needs room in the channel and both ends alive. *)
Definition uplink_step (u : uplink) (e : event) : option (uplink * output) :=
  match e with
  | EPush seq payload =>
      match holder u with
      | Some _ => None
      | None => Some (out_push (settle (push_begin u seq payload)))
      end
  | ESent =>
      match holder u with
      | Some c =>
          if tx_live u && rx_live u && (len (chan u) <? depth (lims u))
          then Some (out_push (settle (send_ok u c))) else None
      | None => None
      end
  | ESendFailed =>
      match holder u with
      | Some c =>
          if tx_live u && rx_live u then None else Some (out_push (settle (send_err u c)))
      | None => None
      end
  | ECancel =>
      (* the handler's future is dropped while it awaits its send *)
      match holder u with
      | Some c => Some (set_holder (set_mem u (drop_chunk (mem u) c)) None, ONone)
      | None => None
      end
  | ERead n =>
      if rx_live u then
        let '(u', r) := poll_read u n in
        Some (u', match r with Some b => ORead b | None => ONone end)
      else None
  | EClose => Some (close u, ONone)
  | EDropReader => if rx_live u then Some (drop_reader u, ONone) else None
  end.

(** * Abstract specification *)

(** What the clients were promised and what the reader saw: the payload of every
    admitted sequence number, and the bytes read so far. *)
Record history := mk_history { admitted : gmap Z bytes; read_out : bytes }.

(** A push is admitted when it is accepted or suspended in its send. *)
Definition record_event (e : event) (o : output) (h : history) : history :=
  match e, o with
  | EPush seq payload, (OPush Accepted | ONone) =>
      mk_history (<[seq := payload]> (admitted h)) (read_out h)
  | ERead _, ORead b => mk_history (admitted h) (read_out h ++ b)
  | _, _ => h
  end.

Fixpoint run (evs : list event) (u : uplink) (h : history) : option (uplink * history) :=
  match evs with
  | [] => Some (u, h)
  | e :: evs' =>
      match uplink_step u e with
      | Some (u', o) => run evs' u' (record_event e o h)
      | None => None
      end
  end.

(** What the clients were told: the first payload of every sequence number whose push was
    answered [Accepted] or [Duplicate], which they take as delivered, or is suspended. *)
Definition record_answer (e : event) (o : output) (a : gmap Z bytes) : gmap Z bytes :=
  match e, o with
  | EPush seq payload, (OPush Accepted | OPush Duplicate | ONone) =>
      match a !! seq with Some _ => a | None => <[seq := payload]> a end
  | _, _ => a
  end.

Fixpoint answered (evs : list event) (u : uplink) (a : gmap Z bytes) : gmap Z bytes :=
  match evs with
  | [] => a
  | e :: evs' =>
      match uplink_step u e with
      | Some (u', o) => answered evs' u' (record_answer e o a)
      | None => a
      end
  end.

(** The byte stream of the packets [0 .. n-1], in sequence order. *)
Fixpoint in_order (acc : gmap Z bytes) (n : nat) : bytes :=
  match n with
  | O => []
  | S n' => in_order acc n' ++ default [] (acc !! Z.of_nat n')
  end.

(** The packets handed to the channel, the one being sent included. *)
Definition delivered (u : uplink) : Z :=
  next_seq u + if sequence_exhausted u || bool_decide (is_Some (holder u)) then 1 else 0.

Definition opt_data (o : option chunk) : bytes := match o with Some c => data c | None => [] end.

(** The bytes between the admitted packets and the reader. *)
Definition in_flight (u : uplink) : bytes :=
  opt_data (cur u) ++ concat (data <$> chan u) ++ opt_data (holder u).

(** Events of a session that has not been torn down. *)
Definition open_event (e : event) : bool :=
  match e with
  | EPush seq _ => (0 <=? seq) && (seq <=? u64_max)
  | ESent | ERead _ => true
  | ESendFailed | ECancel | EClose | EDropReader => false
  end.

(** * Invariants *)

(** The ordering invariant, for [d] packets handed over and the bytes [hb] of
    the one being sent. *)
Record ordered (u : uplink) (h : history) (hb : bytes) (d : Z) : Prop := {
  ord_next : 0 <= next_seq u <= u64_max;
  ord_keys : forall k c, pending u !! k = Some c ->
    next_seq u < k <= u64_max /\ admitted h !! k = Some (data c);
  ord_dom : forall k, is_Some (admitted h !! k) <-> 0 <= k < d \/ is_Some (pending u !! k);
  ord_stream : read_out h ++ opt_data (cur u) ++ concat (data <$> chan u) ++ hb
    = in_order (admitted h) (Z.to_nat d) }.

Record uplink_inv (u : uplink) (h : history) : Prop := {
  inv_ordered : ordered u h (opt_data (holder u)) (delivered u);
  inv_exhausted : sequence_exhausted u = true -> next_seq u = u64_max /\ holder u = None;
  inv_live : tx_live u = true /\ rx_live u = true }.

(** * Lemmas on streams *)

Lemma in_order_insert_ge acc k p n :
  Z.of_nat n <= k -> in_order (<[k := p]> acc) n = in_order acc n.
Proof.
  induction n as [|n IH]; intros Hk; [done|]. cbn [in_order].
  rewrite IH by lia. by rewrite lookup_insert_ne by lia.
Qed.

Lemma in_order_succ acc d p :
  0 <= d -> acc !! d = Some p ->
  in_order acc (Z.to_nat (d + 1)) = in_order acc (Z.to_nat d) ++ p.
Proof.
  intros Hd Hp. rewrite Z2Nat.inj_add, Nat.add_1_r by lia. cbn [in_order].
  by rewrite Z2Nat.id, Hp by lia.
Qed.

Lemma in_order_prefix acc n m : (n <= m)%nat -> in_order acc n `prefix_of` in_order acc m.
Proof.
  induction 1 as [|m _ IH]; [done|]. cbn [in_order]. by apply prefix_app_r.
Qed.

(** * Ordering is preserved *)

(** The loop of [push]: from a state whose packet [next_seq] has just been
    handed over, it reaches the ordering invariant again. *)
Lemma advance_ordered fuel u h :
  (size (pending u) < fuel)%nat -> sequence_exhausted u = false ->
  tx_live u = true /\ rx_live u = true ->
  ordered u h [] (next_seq u + 1) ->
  let '(u', r) := settle (advance fuel u) in
  uplink_inv u' h /\ (r = Some Accepted \/ r = None).
Proof.
  revert u. induction fuel as [|f IH]; intros u Hf Hx Hlive [Hn Hk Hd Hs]; [lia|].
  cbn [advance]. destruct (next_seq u =? u64_max) eqn:E; split_bool; cbn.
  { split; [|by left]. split; cbn; [|done|done]. unfold delivered. cbn.
    split; cbn; auto; lia. }
  assert (0 <= next_seq u + 1 <= u64_max) as Hn' by lia.
  destruct (pending u !! (next_seq u + 1)) as [c|] eqn:Ec; cycle 1.
  - cbn. split; [|by left]. split; cbn; [|congruence|done]. unfold delivered. cbn.
    rewrite Hx. cbn. rewrite Z.add_0_r. split; cbn; auto.
    intros k c' Hp. destruct (Hk k c' Hp). split; [|done].
    destruct (decide (k = next_seq u + 1)); [congruence|lia].
  - destruct (Hk _ _ Ec) as [_ Hc].
    assert (forall k, is_Some (admitted h !! k) <->
      0 <= k < next_seq u + 1 + 1 \/ is_Some (delete (next_seq u + 1) (pending u) !! k)) as Hd'.
    { intros k. rewrite Hd, lookup_delete. case_decide; subst; [|split; intros [?|?]; auto; lia].
      split; [lia|]. intros [?|[? ?]]; [|done]. right. by exists c. }
    assert (forall k c', delete (next_seq u + 1) (pending u) !! k = Some c' ->
      next_seq u + 1 < k <= u64_max /\ admitted h !! k = Some (data c')) as Hk'.
    { intros k c' [Hne Hp]%lookup_delete_Some. destruct (Hk _ _ Hp). split; [lia|done]. }
    destruct (is_empty c) eqn:Ee; cbn.
    + apply IH; cbn; [|done|done|].
      * rewrite (map_size_delete_S _ _ _ Ec) in Hf. lia.
      * split; cbn; auto. rewrite (in_order_succ _ _ (data c)), <- Hs by (done || lia).
        unfold is_empty in Ee. destruct (data c); [|done]. by rewrite !app_nil_r.
    + split; [|by right]. split; cbn; [|congruence|done]. unfold delivered. cbn. rewrite orb_true_r.
      split; cbn; auto. rewrite (in_order_succ _ _ (data c)), <- Hs by (done || lia).
      by rewrite app_nil_r, !app_assoc.
Qed.

Lemma reserve_payload_data b p m c : reserve_payload b p = Some (m, c) -> data c = p.
Proof. unfold reserve_payload. intros H. by repeat (case_match; simplify_eq/=). Qed.

(** Handing over the packet [next_seq] itself. *)
Lemma ordered_deliver u h p :
  ordered u h [] (next_seq u) ->
  ordered u (mk_history (<[next_seq u := p]> (admitted h)) (read_out h)) p (next_seq u + 1).
Proof.
  intros [Hn Hk Hd Hs]. split; cbn; [done| | |].
  - intros k c Hp. destruct (Hk _ _ Hp). by rewrite lookup_insert_ne by lia.
  - intros k. rewrite lookup_insert. case_decide; subst.
    + split; [lia|]. by intros _.
    + rewrite Hd. split; intros [?|?]; auto; lia.
  - rewrite (in_order_succ _ _ p), in_order_insert_ge, <- Hs by (lia || apply lookup_insert_eq).
    by rewrite app_nil_r, !app_assoc.
Qed.

(** Setters that do not touch what the ordering invariant reads. *)
Lemma ordered_mem u h hb d m : ordered u h hb d -> ordered (set_mem u m) h hb d.
Proof. intros [? ? ? ?]. by split. Qed.

Lemma ordered_holder u h hb d x : ordered u h hb d -> ordered (set_holder u x) h hb d.
Proof. intros [? ? ? ?]. by split. Qed.

(** A push keeps the ordering invariant, whatever its result. *)
Lemma push_ordered u h seq payload :
  uplink_inv u h -> holder u = None -> 0 <= seq <= u64_max ->
  let '(u', o) := out_push (settle (push_begin u seq payload)) in
  uplink_inv u' (record_event (EPush seq payload) o h).
Proof.
  intros Hi Hh Hseq. pose proof Hi as [Ho Hx Hlive]. unfold delivered in Ho. rewrite Hh in Ho.
  assert (uplink_inv (set_holder u None) h) as Hsame.
  { destruct u. cbn in *. by subst. }
  unfold push_begin. destruct (sequence_exhausted u) eqn:Ex; [exact Hsame|]. cbn in Ho |- *.
  rewrite Z.add_0_r in Ho.
  destruct (seq <? next_seq u) eqn:E1; [exact Hsame|]. cbn. split_bool.
  destruct (next_seq u <? seq) eqn:E2; split_bool.
  - case_bool_decide as Hp; [exact Hsame|]. case_match; [exact Hsame|].
    destruct (checked_add _ _ _) as [nb|]; [|exact Hsame].
    case_match; [exact Hsame|].
    destruct (reserve_payload _ _) as [[m c]|] eqn:Er; [|exact Hsame].
    apply reserve_payload_data in Er. destruct Ho as [Hn Hk Hd Hs].
    split; cbn; [|congruence|done]. unfold delivered. cbn. rewrite Ex. cbn. rewrite Z.add_0_r.
    split; cbn; [done| | |].
    + intros k c'. rewrite !lookup_insert. case_decide; subst; [|apply Hk].
      intros [= <-]. split; [lia|done].
    + intros k. rewrite !lookup_insert. case_decide; subst; [|apply Hd].
      split; intros _; [right|]; by eexists.
    + rewrite in_order_insert_ge, <- Hs by lia. done.
  - assert (seq = next_seq u) as -> by lia.
    destruct (reserve_payload _ _) as [[m c]|] eqn:Er; [|exact Hsame].
    apply reserve_payload_data in Er. pose proof (ordered_deliver _ _ payload Ho) as Ho'.
    destruct (is_empty c) eqn:Ee.
    + unfold is_empty in Ee. rewrite Er in Ee. destruct payload; [|done].
      pose proof (advance_ordered (S (size (pending u)))
        (set_mem (set_mem u m) (drop_chunk m c)) _ (Nat.lt_succ_diag_r _) Ex Hlive
        (ordered_mem _ _ _ _ _ (ordered_mem _ _ _ _ _ Ho'))) as Ha.
      unfold advance_all. cbn [pending set_mem]. cbn [mem] in *.
      destruct (settle _) as [u' r]. destruct Ha as [Ha [->| ->]]; exact Ha.
    + cbn. split; cbn; [|congruence|done]. unfold delivered. cbn. rewrite orb_true_r, Er.
      apply ordered_holder, ordered_mem, Ho'.
Qed.

Lemma sent_ordered u h c :
  uplink_inv u h -> holder u = Some c ->
  let '(u', o) := out_push (settle (send_ok u c)) in uplink_inv u' (record_event ESent o h).
Proof.
  intros [Ho Hx Hlive] Hh. unfold delivered in Ho. rewrite Hh in Ho. cbn in Ho.
  assert (sequence_exhausted u = false) as Ex.
  { destruct (sequence_exhausted u); [|done]. by destruct Hx as [_ Hx]; congruence. }
  rewrite orb_true_r in Ho. destruct Ho as [Hn Hk Hd Hs].
  pose proof (advance_ordered (S (size (pending u)))
    (set_chan u (tx_live u) (chan u ++ [c]) (rx_live u)) h (Nat.lt_succ_diag_r _) Ex Hlive) as Ha.
  unfold send_ok, advance_all. cbn [pending set_chan].
  destruct (settle _) as [u' r]. apply Ha. split; cbn; auto.
  rewrite <- Hs, fmap_app, concat_app. cbn. by rewrite !app_nil_r.
Qed.

Lemma take_cur_inv u h c n cs m :
  uplink_inv (set_chan (set_cur u (Some c)) (tx_live u) cs (rx_live u)) h ->
  let '(u', r) := take_cur (set_mem (set_chan u (tx_live u) cs (rx_live u)) m) c n in
  match r with
  | Some b => uplink_inv u' (mk_history (admitted h) (read_out h ++ b))
  | None => False
  end.
Proof.
  intros [[Hn Hk Hd Hs] Hx Hlive]. unfold take_cur. set (k := Nat.min _ _).
  assert (take k (data c) ++ drop k (data c) = data c) as Htd by apply take_drop.
  cbn in Hs. rewrite <- Htd in Hs.
  destruct (drop k (data c)) as [|b r]; cbn in Hs |- *;
    (split; cbn; [|done|done]); split; cbn; auto;
    rewrite <- !app_assoc in *; exact Hs.
Qed.

Lemma read_ordered u h n :
  uplink_inv u h ->
  let '(u', r) := poll_read u n in
  uplink_inv u' (record_event (ERead n) (match r with Some b => ORead b | None => ONone end) h).
Proof.
  intros Hi. assert (forall c, cur u = Some c ->
    set_chan (set_cur u (Some c)) (tx_live u) (chan u) (rx_live u) = u) as Hcur.
  { intros c Hc. destruct u; cbn in *. by rewrite Hc. }
  assert (set_mem (set_chan u (tx_live u) (chan u) (rx_live u)) (mem u) = u) as Hsame
    by by destruct u.
  assert (opt_data (cur u) = [] ->
    let '(u', r) := match chan u with
      | c :: rest =>
          take_cur (set_mem (set_chan u (tx_live u) rest (rx_live u))
                      (drop_chunks (mem u) (option_list (cur u)))) c n
      | [] => (u, if tx_live u then None else Some [])
      end in
    uplink_inv u' (record_event (ERead n) (match r with Some b => ORead b | None => ONone end) h))
    as Hchan.
  { intros Hc. destruct (chan u) as [|c rest] eqn:Ech.
    - pose proof Hi as [_ _ [-> _]]. exact Hi.
    - pose proof (take_cur_inv u h c n rest (drop_chunks (mem u) (option_list (cur u)))) as Ht.
      destruct (take_cur _ c n) as [u' [b|]]; cbn; [|destruct Ht]; [apply Ht|].
      all: destruct Hi as [[Hn Hk Hd Hs] Hx Hlive]; split; cbn; auto; split; cbn; auto.
      all: etransitivity; [|exact Hs]; rewrite Hc, Ech; cbn; by rewrite ?app_assoc. }
  unfold poll_read. destruct (cur u) as [[[|b r] ch]|] eqn:Ec; [by apply Hchan| |by apply Hchan].
  pose proof (take_cur_inv u h (mk_chunk (b :: r) ch) n (chan u) (mem u)) as Ht.
  rewrite (Hcur _ eq_refl), Hsame in Ht.
  destruct (take_cur u _ n) as [u' [b'|]]; [by apply Ht|by destruct (Ht Hi)].
Qed.

Lemma channel_inv mp mb cd b :
  uplink_inv (channel_with_budget mp mb cd b) (mk_history ∅ []).
Proof.
  split; cbn; [|done|done]. unfold delivered. cbn. split; cbn; [done| | |done].
  - intros k c. by rewrite lookup_empty.
  - intros k. rewrite !lookup_empty. split; [by intros [? ?]|]. intros [?|[? ?]]; [lia|done].
Qed.

(** Nothing that is next in order is held back. *)
Lemma inv_complete u h n : uplink_inv u h -> holder u = None ->
  (forall k, 0 <= k < n -> is_Some (admitted h !! k)) -> n <= 2 ^ 64 -> n <= delivered u.
Proof.
  intros [[Hs Hk Hd _] Hx _] Hh Hall Hn.
  unfold delivered in *. rewrite Hh in *. destruct (sequence_exhausted u).
  { destruct (Hx eq_refl) as [-> _]. cbn. unfold u64_max. lia. }
  cbn in *. destruct (decide (n <= next_seq u + 0)); [done|].
  destruct (proj1 (Hd (next_seq u)) (Hall (next_seq u) ltac:(lia))) as [?|[c Hc]]; [lia|].
  destruct (Hk _ _ Hc). lia.
Qed.

(** The stream of admitted packets, by the payloads they carry. *)
Lemma in_order_payloads (f : Z -> bytes) acc n :
  (forall k, 0 <= k < Z.of_nat n -> acc !! k = Some (f k)) -> in_order acc n = concat (f <$> seqZ 0 (Z.of_nat n)).
Proof.
  induction n as [|n IH]; intros Hall; [done|]. cbn [in_order].
  rewrite IH, (Hall (Z.of_nat n)) by (intros; try apply Hall; lia). rewrite Nat2Z.inj_succ, <- Z.add_1_r, seqZ_app by lia.
  rewrite fmap_app, concat_app, (seqZ_cons _ 1) by lia. change (Z.pred 1) with 0. f_equal. by rewrite <- (app_nil_r (f _)).
Qed.

(** [Duplicate] is the answer to exactly the packets that were admitted before. *)
Lemma advance_accepts fuel u : (advance fuel u).2 <> Finished Duplicate.
Proof. revert u. induction fuel as [|f IH]; intros u; cbn; [done|]. repeat (case_match; try done); apply IH. Qed.

Lemma inv_duplicate u h seq payload :
  uplink_inv u h -> holder u = None -> is_Some (admitted h !! seq) -> push_begin u seq payload = (u, Finished Duplicate).
Proof.
  intros [[Hs Hk Hd _] Hx _] Hh Ha. unfold delivered in Hd. rewrite Hh in Hd.
  unfold push_begin. destruct (sequence_exhausted u) eqn:Ex; [done|]. cbn in Hd |- *.
  destruct (seq <? next_seq u) eqn:E; [done|]. split_bool.
  apply Hd in Ha as [?|[c Hc]]; [lia|]. destruct (Hk _ _ Hc) as [Hlt _].
  rewrite (proj2 (Z.ltb_lt _ _)) by lia. by rewrite bool_decide_eq_true_2 by eauto.
Qed.

Lemma inv_fresh u h seq payload :
  uplink_inv u h -> holder u = None -> 0 <= seq <= u64_max -> admitted h !! seq = None ->
  (push_begin u seq payload).2 <> Finished Duplicate.
Proof.
  intros [[Hs Hk Hd _] Hx _] Hh Hseq Ha. unfold delivered in Hd. rewrite Hh in Hd.
  assert (~ is_Some (admitted h !! seq)) as Hno by (rewrite Ha; by intros [? ?]). rewrite Hd in Hno.
  unfold push_begin. destruct (sequence_exhausted u) eqn:Ex.
  { destruct (Hx eq_refl) as [Hn _]. exfalso. apply Hno. left. cbn. lia. }
  cbn in *. destruct (seq <? next_seq u) eqn:E; split_bool; [exfalso; apply Hno; left; lia|].
  rewrite bool_decide_eq_false_2 by auto.
  repeat (case_match; try done). apply advance_accepts.
Qed.

(** One event adds to the answers what it adds to the history. *)
Lemma record_answer_admitted u h e u' o :
  uplink_inv u h -> open_event e = true -> uplink_step u e = Some (u', o) ->
  record_answer e o (admitted h) = admitted (record_event e o h).
Proof.
  intros Hi He Hs. destruct e as [seq p| | | |n| |]; try done; [|by destruct o].
  cbn in He, Hs. split_bool. destruct (holder u) eqn:Eh; [done|]. injection Hs as Hu Ho.
  destruct (admitted h !! seq) as [q|] eqn:Ea.
  - rewrite (inv_duplicate u h) in Ho by (done || by rewrite Ea). cbn in Ho. subst o. cbn. by rewrite Ea.
  - pose proof (inv_fresh u h seq p Hi Eh ltac:(lia) Ea) as Hf.
    destruct (push_begin u seq p) as [u1 []]; cbn in Ho, Hf; subst o; cbn; rewrite ?Ea; try done.
    destruct r; cbn; rewrite ?Ea; done.
Qed.

(** Every open trace keeps the ordering invariant. *)
Lemma run_ordered evs u h u' h' :
  forallb open_event evs = true -> uplink_inv u h ->
  run evs u h = Some (u', h') -> uplink_inv u' h'.
Proof.
  revert u h. induction evs as [|e evs IH]; intros u h Hop Hi Hr; cbn in *; [by simplify_eq|].
  apply andb_true_iff in Hop as [He Hop].
  destruct (uplink_step u e) as [[u1 o]|] eqn:Es; [|done].
  apply (IH u1 (record_event e o h) Hop); [|done]. destruct e as [seq p| | | |n| |]; cbn in Es, He; try done.
  - split_bool. destruct (holder u) eqn:Eh; [done|].
    pose proof (push_ordered u h seq p Hi Eh ltac:(lia)) as Hp. by destruct (out_push _); simplify_eq.
  - destruct (holder u) as [c|] eqn:Eh; [|done]. case_match; [|done].
    pose proof (sent_ordered u h c Hi Eh) as Hp. by destruct (out_push _); simplify_eq.
  - case_match; [|done]. pose proof (read_ordered u h n Hi) as Hp.
    by destruct (poll_read u n); simplify_eq.
Qed.

Lemma run_answered evs u h u' h' :
  forallb open_event evs = true -> uplink_inv u h ->
  run evs u h = Some (u', h') -> answered evs u (admitted h) = admitted h'.
Proof.
  revert u h. induction evs as [|e evs IH]; intros u h Hop Hi Hr; cbn in *; [by simplify_eq|].
  apply andb_true_iff in Hop as [He Hop].
  destruct (uplink_step u e) as [[u1 o]|] eqn:Es; [|done].
  rewrite (record_answer_admitted u h e u1 o) by done. apply IH; [done| |done].
  apply (run_ordered [e] u h); [cbn; by rewrite He|done|]. cbn. by rewrite Es.
Qed.

(** * Accounting *)

(** The counters agree with the out-of-order buffer, which respects its bounds,
    and the channel never holds more than its capacity. *)
Record accounted (u : uplink) : Prop := {
  acc_bytes : pending_bytes u = map_sum (fun c => len (data c)) (pending u);
  acc_count : pending_count u = Z.of_nat (size (pending u));
  acc_packets : Z.of_nat (size (pending u)) <= max_packets (lims u);
  acc_max : pending_bytes u <= usize_max /\
    (max_bytes (lims u) <> 0 -> pending_bytes u <= max_bytes (lims u));
  acc_usize : max_packets (lims u) <= usize_max;
  acc_depth : len (chan u) <= depth (lims u) }.

Definition not_close (e : event) : bool := match e with EClose => false | _ => true end.

Lemma advance_accounted fuel u : accounted u -> accounted (advance fuel u).1.
Proof.
  revert u. induction fuel as [|f IH]; intros u Ha; [done|]. cbn [advance].
  case_match; [destruct Ha; by split|]. cbn [pending set_seq].
  destruct (pending u !! (next_seq u + 1)) as [c|] eqn:Ec; [|destruct Ha; by split].
  assert (accounted (set_pending (set_seq u (next_seq u + 1) (sequence_exhausted u))
    (delete (next_seq u + 1) (pending u)) (wrap 64 (pending_bytes u - len (data c)))
    (wrap 64 (pending_count u - 1)))) as Hd.
  { destruct Ha as [Hb Hc Hp [Hm1 Hm2] Hu Hdep]. pose proof (len_nonneg (data c)).
    rewrite (map_sum_delete _ _ _ _ Ec) in Hb. cbv beta in Hb. rewrite (map_size_delete_S _ _ _ Ec) in Hc, Hp.
    pose proof (map_sum_nonneg (fun c => len (data c)) (delete (next_seq u + 1) (pending u))
      (fun c => len_nonneg (data c))).
    unfold usize_max, u64_max in *.
    split; cbn; unfold wrap; rewrite ?Z.mod_small by lia; auto; try lia.
    split; [done || (unfold usize_max, u64_max; lia)|]. intros Hz. specialize (Hm2 Hz). lia. }
  destruct (is_empty c); [|exact Hd]. apply IH. destruct Hd; by split.
Qed.

Lemma settle_accounted r : accounted r.1 -> accounted (settle r).1.
Proof. destruct r as [u []]; cbn; intros []; by split. Qed.

Lemma push_accounted u seq payload : accounted u -> accounted (push_begin u seq payload).1.
Proof.
  intros Ha. unfold push_begin. case_match; [done|]. case_match.
  - case_bool_decide as Hp; [done|]. destruct (_ <=? _) eqn:El; [done|].
    destruct (checked_add _ _ _) as [nb|] eqn:En; [|done].
    destruct (_ && _) eqn:Em; [done|].
    destruct (reserve_payload _ _) as [[m c]|] eqn:Er; [|done].
    apply reserve_payload_data in Er. apply eq_None_not_Some in Hp.
    destruct Ha as [Hb Hc Hp' Hm Hu Hdep]. split_bool. unfold checked_add in En.
    case_match; simplify_eq. split_bool.
    split; cbn; rewrite ?map_sum_insert, ?map_size_insert_None by done; auto; try lia.
    unfold wrap. rewrite Z.mod_small by (unfold usize_max, u64_max in *; lia). lia.
  - destruct (reserve_payload _ _) as [[m c]|]; [|done].
    destruct (is_empty c); [apply advance_accounted|]; destruct Ha; by split.
Qed.

Lemma poll_read_accounted u n : accounted u -> accounted (poll_read u n).1.
Proof.
  intros Ha. assert (forall u c, accounted u -> accounted (take_cur u c n).1) as Ht.
  { intros u' c []. unfold take_cur. cbn. case_match; by split. }
  unfold poll_read. destruct (cur u) as [[[|b r] ch]|]; [|by apply Ht|];
    (destruct (chan u) as [|c rest] eqn:Ec; [done|]);
    apply Ht; destruct Ha as [? ? ? ? ? Hd]; split; cbn; auto;
    rewrite Ec, len_cons in Hd; lia.
Qed.

Lemma step_accounted u e u' o :
  not_close e = true -> accounted u -> uplink_step u e = Some (u', o) -> accounted u'.
Proof.
  intros He Ha. destruct e as [seq p| | | |n| |]; unfold uplink_step; try done.
  - case_match; [done|]. intros [= <- <-]. by apply settle_accounted, push_accounted.
  - destruct (holder u) as [c|]; [|done]. destruct (_ && _) eqn:Ed; [|done].
    intros [= <- <-]. split_bool. apply settle_accounted. apply advance_accounted.
    destruct Ha; split; cbn; auto. rewrite len_app, len_cons, len_nil. lia.
  - destruct (holder u) as [c|]; [|done]. case_match; [done|]. intros [= <- <-].
    destruct Ha; by split.
  - destruct (holder u) as [c|]; [|done]. intros [= <- <-]. destruct Ha; by split.
  - case_match; [|done]. pose proof (poll_read_accounted u n Ha).
    destruct (poll_read u n). by intros [= <- <-].
  - case_match; [|done]. intros [= <- <-]. destruct Ha as [? ? ? ? ? Hd]; split; cbn; auto.
    pose proof (len_nonneg (chan u)). unfold len in *. cbn. lia.
Qed.

Lemma run_accounted evs u h u' h' :
  forallb not_close evs = true -> accounted u -> run evs u h = Some (u', h') -> accounted u'.
Proof.
  revert u h. induction evs as [|e evs IH]; intros u h Hop Ha Hr; cbn in *; [by simplify_eq|].
  apply andb_true_iff in Hop as [He Hop].
  destruct (uplink_step u e) as [[u1 o]|] eqn:Es; [|done].
  apply (IH u1 (record_event e o h) Hop); [|done]. by apply (step_accounted u e u1 o).
Qed.

Lemma channel_accounted mp mb cd b :
  0 <= mb -> mp <= usize_max -> accounted (channel_with_budget mp mb cd b).
Proof.
  intros. split; cbn -[map_sum len size]; unfold usize_max, u64_max in *.
  - by rewrite map_sum_empty.
  - by rewrite map_size_empty.
  - rewrite map_size_empty. lia.
  - lia.
  - lia.
  - rewrite len_nil. lia.
Qed.

(** The limits never change. *)
Lemma advance_lims fuel u : lims (advance fuel u).1 = lims u.
Proof.
  revert u. induction fuel as [|f IH]; intros u; [done|]. cbn [advance].
  repeat (case_match; try done). by rewrite IH.
Qed.

Lemma settle_lims r : lims (settle r).1 = lims r.1.
Proof. by destruct r as [u []]. Qed.

Lemma poll_read_lims u n : lims (poll_read u n).1 = lims u.
Proof. unfold poll_read, take_cur. by repeat (case_match; try done). Qed.

Lemma step_lims u e u' o : uplink_step u e = Some (u', o) -> lims u' = lims u.
Proof.
  destruct e as [seq p| | | |n| |]; unfold uplink_step.
  5: { case_match; [|done]. pose proof (poll_read_lims u n). destruct (poll_read u n). by intros [= <- <-]. }
  all: repeat (case_match; try done); intros [= <- <-]; try done.
  - cbn [out_push fst]. rewrite settle_lims. unfold push_begin, advance_all.
    repeat (case_match; try done). by rewrite advance_lims.
  - cbn [out_push fst]. rewrite settle_lims. unfold send_ok, advance_all. by rewrite advance_lims.
  - unfold close. by case_match.
Qed.

Lemma run_lims evs u h u' h' : run evs u h = Some (u', h') -> lims u' = lims u.
Proof.
  revert u h. induction evs as [|e evs IH]; intros u h Hr; cbn in *; [by simplify_eq|].
  destruct (uplink_step u e) as [[u1 o]|] eqn:Es; [|done].
  rewrite (IH _ _ Hr). by apply step_lims in Es.
Qed.

(** * Budget conservation *)

Definition cost (c : chunk) : Z := default 0 (charge c).
Definition costs (l : list chunk) : Z := foldr (fun c s => cost c + s) 0 l.

(** What the chunks of this uplink have reserved, wherever they are. *)
Definition owed (u : uplink) : Z :=
  map_sum cost (pending u) + costs (chan u) + costs (option_list (cur u))
  + costs (option_list (holder u)).

Definition costs_ok (u : uplink) : Prop :=
  map_Forall (fun _ c => 0 <= cost c) (pending u) /\
  Forall (fun c => 0 <= cost c) (chan u ++ option_list (cur u) ++ option_list (holder u)).

(** The shared counter is [base] (the other sessions) plus what this uplink owes
    plus [x], the cost of a chunk that is about to be dropped or stored. *)
Record paid (base x : Z) (u : uplink) : Prop := {
  paid_mem : exists b, mem u = Some b /\ 0 < limit b < u64_max /\
    used b = base + owed u + x /\ used b <= limit b;
  paid_costs : costs_ok u;
  paid_sign : 0 <= base /\ 0 <= x }.

Lemma costs_app a b : costs (a ++ b) = costs a + costs b.
Proof. induction a as [|c a IH]; cbn; [done|]. unfold costs in *. lia. Qed.

(** Compare what two states owe. *)
Ltac owed_solve :=
  unfold owed; cbn -[map_sum]; rewrite ?costs_app; cbn -[map_sum]; unfold costs in *; cbn -[map_sum]; lia.

Lemma costs_nonneg l : Forall (fun c => 0 <= cost c) l -> 0 <= costs l.
Proof. induction 1; cbn; unfold costs in *; lia. Qed.

Lemma map_sum_cost_nonneg (m : gmap Z chunk) :
  map_Forall (fun _ c => 0 <= cost c) m -> 0 <= map_sum cost m.
Proof.
  intros H. rewrite map_sum_list. apply costs_nonneg, Forall_forall.
  intros c Hc. apply list_elem_of_In, list_elem_of_fmap in Hc as (kc & -> & Hin). destruct kc as [k c].
  apply elem_of_map_to_list in Hin. by apply (H k c).
Qed.

Lemma owed_nonneg u : costs_ok u -> 0 <= owed u.
Proof.
  intros [Hp Hl]. apply Forall_app in Hl as [H1 [H2 H3]%Forall_app]. unfold owed.
  pose proof (map_sum_cost_nonneg _ Hp). pose proof (costs_nonneg _ H1).
  pose proof (costs_nonneg _ H2). pose proof (costs_nonneg _ H3). lia.
Qed.

Lemma costs_ok_mem u m : costs_ok (set_mem u m) <-> costs_ok u.
Proof. done. Qed.

(** Dropping chunks gives their reservations back. *)
Lemma paid_drop base x u c :
  paid base (x + cost c) u -> 0 <= x -> 0 <= cost c ->
  paid base x (set_mem u (drop_chunk (mem u) c)).
Proof.
  intros [(b & Hb & Hl & Hu & Hle) Hc [Hs1 Hs2]] Hx Hcc. split; [|done|done].
  pose proof (owed_nonneg _ Hc). cbn. rewrite Hb. unfold drop_chunk.
  change (owed (set_mem u _)) with (owed u). unfold cost in *.
  destruct (charge c) as [r|]; cbn in *.
  - exists (release b r). split; [done|]. unfold release, wrap. cbn.
    rewrite Z.mod_small by (unfold u64_max in *; lia). lia.
  - exists b. split; [done|]. lia.
Qed.

Lemma paid_drops base x u l :
  paid base (x + costs l) u -> 0 <= x -> Forall (fun c => 0 <= cost c) l ->
  paid base x (set_mem u (drop_chunks (mem u) l)).
Proof.
  revert u. unfold drop_chunks. induction l as [|c l IH]; intros u Hp Hx Hl; cbn in *.
  - replace (x + 0) with x in Hp by lia. destruct Hp as [(b & -> & ?) ? ?]. split; eauto.
  - apply Forall_cons_iff in Hl as [Hc Hl]. pose proof (costs_nonneg _ Hl).
    apply (IH (set_mem u (drop_chunk (mem u) c))); [|done|done].
    apply paid_drop; [|unfold costs in *; lia|done].
    unfold costs in *. by replace (x + foldr _ 0 l + cost c) with (x + (cost c + foldr (fun c s => cost c + s) 0 l)) by lia.
Qed.

(** Reserving a payload charges its length. *)
Lemma paid_reserve base u p m c :
  paid base 0 u -> reserve_payload (mem u) p = Some (m, c) -> uint_ok 64 (len p) ->
  paid base (cost c) (set_mem u m) /\ 0 <= cost c.
Proof.
  intros [(b & Hb & Hl & Hu & Hle) Hc Hs] Hr Hp. rewrite Hb in Hr. cbn in Hr.
  pose proof (owed_nonneg _ Hc).
  pose proof (try_reserve_exact b (len p) Hl ltac:(lia) Hp) as Ht.
  destruct (try_reserve b (len p)) as [[b' r]|] eqn:Et; simplify_eq.
  assert (r = len p /\ limit b' = limit b) as [-> Hlim].
  { unfold try_reserve in Et. by repeat (case_match; simplify_eq/=). }
  unfold cost. cbn. split; [|apply len_nonneg]. split; [|done|split; [lia|apply len_nonneg]].
  exists b'. destruct Ht as (? & ? & _). rewrite Hlim.
  change (owed (set_mem u _)) with (owed u). split; [done|]. lia.
Qed.

(** Rebuilding [paid] for a state with the same counter. *)
Lemma paid_move base x x' u u' :
  paid base x u -> mem u' = mem u -> owed u' + x' = owed u + x -> costs_ok u' -> 0 <= x' ->
  paid base x' u'.
Proof.
  intros [(b & Hb & Hl & Hu & Hle) Hc Hs] Hm Ho Hc' Hx. split; [|done|lia].
  exists b. rewrite Hm. split; [done|]. lia.
Qed.

Definition progress_cost (p : progress) : Z := match p with Sending c => cost c | _ => 0 end.

(** A push in progress: the counter includes the chunk it is sending. *)
Definition paid_push (base : Z) (r : uplink * progress) : Prop :=
  paid base (progress_cost r.2) (set_holder r.1 None) /\ 0 <= progress_cost r.2.

Lemma costs_ok_delete u k c n x b cnt :
  costs_ok u -> pending u !! k = Some c ->
  costs_ok (set_pending (set_seq u n x) (delete k (pending u)) b cnt) /\ 0 <= cost c.
Proof.
  intros [Hp Hl] Hk. split; [|by apply (Hp k c)]. split; [|done]. cbn.
  by apply map_Forall_delete.
Qed.

Lemma advance_paid fuel base u :
  paid base 0 (set_holder u None) ->
  paid_push base (advance fuel u).
Proof.
  revert u. induction fuel as [|f IH]; intros u Hp; cbn [advance]; [by split|].
  case_match; [split; [|done]; apply (paid_move _ _ _ _ _ Hp); [done|done|apply Hp|done]|]. cbn [pending set_seq].
  destruct (pending u !! (next_seq u + 1)) as [c|] eqn:Ec;
    [|split; [|done]; apply (paid_move _ _ _ _ _ Hp); [done|done|apply Hp|done]].
  set (u2 := set_pending _ _ _ _).
  destruct (costs_ok_delete (set_holder u None) _ c (next_seq u + 1) (sequence_exhausted u)
    (pending_bytes u2) (pending_count u2) (paid_costs _ _ _ Hp) Ec) as [Hc2 Hcc].
  assert (paid base (cost c) (set_holder u2 None)) as Hp2.
  { apply (paid_move _ _ _ _ _ Hp); [done| |exact Hc2|done].
    unfold owed, u2. cbn -[map_sum costs]. rewrite (map_sum_delete _ _ _ _ Ec). lia. }
  destruct (is_empty c); [|by split].
  apply IH. apply (paid_drop base 0 (set_holder u2 None)); [done|done|done].
Qed.

Lemma settle_paid base r : paid_push base r -> r.2 <> Stuck -> paid base 0 (settle r).1.
Proof.
  destruct r as [u p]. intros [Hp Hc] Hs. destruct p as [r|c|]; cbn in *; [done| |done].
  apply (paid_move _ _ _ _ _ Hp); [done| | |lia]; pose proof (paid_costs _ _ _ Hp) as [H1 H2].
  - owed_solve.
  - split; [done|]. cbn in *. rewrite !app_nil_r in H2. rewrite app_assoc. apply Forall_app; auto.
Qed.

Lemma advance_not_stuck fuel u : (size (pending u) < fuel)%nat -> (advance fuel u).2 <> Stuck.
Proof.
  revert u. induction fuel as [|f IH]; intros u Hf; [lia|]. cbn [advance].
  case_match; [done|]. cbn [pending set_seq].
  destruct (pending u !! (next_seq u + 1)) as [c|] eqn:Ec; [|done].
  destruct (is_empty c); [|done]. apply IH. cbn.
  rewrite (map_size_delete_S _ _ _ Ec) in Hf. lia.
Qed.

Lemma push_not_stuck u seq p : (push_begin u seq p).2 <> Stuck.
Proof.
  unfold push_begin. repeat (case_match; try done). apply advance_not_stuck. cbn. lia.
Qed.

Lemma push_paid base u seq p :
  paid base 0 u -> holder u = None -> uint_ok 64 (len p) ->
  paid_push base (push_begin u seq p).
Proof.
  intros Hp Hh Hl. assert (set_holder u None = u) as Hu by (destruct u; cbn in *; by subst).
  assert (forall r, paid_push base (u, Finished r)) as Hsame by (intros r; split; cbn; by rewrite ?Hu).
  unfold push_begin. case_match; [done|]. case_match.
  - case_bool_decide as Hin; [done|]. case_match; [done|]. case_match; [|done]. case_match; [done|].
    destruct (reserve_payload _ _) as [[m c]|] eqn:Er; [|done].
    destruct (paid_reserve _ _ _ _ _ Hp Er Hl) as [Hr Hcc]. split; [|done]. cbn.
    apply eq_None_not_Some in Hin. pose proof (paid_costs _ _ _ Hr) as [Hc1 Hc2].
    apply (paid_move _ _ _ _ _ Hr); [done| | |lia].
    + unfold owed. cbn -[map_sum]. rewrite Hh, map_sum_insert by done. cbn -[map_sum]. lia.
    + split; cbn in *; [by apply map_Forall_insert_2|]. by rewrite Hh in Hc2.
  - destruct (reserve_payload _ _) as [[m c]|] eqn:Er; [|done].
    destruct (paid_reserve _ _ _ _ _ Hp Er Hl) as [Hr Hcc].
    assert (set_holder (set_mem u m) None = set_mem u m) as Hu' by (destruct u; cbn in *; by subst).
    destruct (is_empty c); [|by split; cbn [fst snd]; rewrite ?Hu'].
    apply advance_paid. apply (paid_drop base 0 (set_holder (set_mem u m) None)); [|done|done].
    by rewrite Hu'.
Qed.

Lemma take_cur_paid base u c n :
  paid base 0 (set_cur u (Some c)) -> paid base 0 (take_cur u c n).1.
Proof.
  intros Hp. pose proof (paid_costs _ _ _ Hp) as [Hc1 Hc2]. cbn in Hc2.
  apply Forall_app in Hc2 as [Hch Hc2]. apply Forall_cons_iff in Hc2 as [Hcc Hh].
  unfold take_cur. cbn [fst]. case_match.
  - apply (paid_drop base 0 (set_cur u None)); [|done|done].
    apply (paid_move _ _ _ _ _ Hp); [done| | |done].
    + owed_solve.
    + split; [done|]. cbn. by apply Forall_app.
  - apply (paid_move _ _ _ _ _ Hp); [done| | |done].
    + unfold owed. cbn -[map_sum]. unfold cost. cbn. lia.
    + split; [done|]. cbn. apply Forall_app. split; [done|]. by constructor.
Qed.

Lemma poll_read_paid base u n : paid base 0 u -> paid base 0 (poll_read u n).1.
Proof.
  intros Hp. pose proof (paid_costs _ _ _ Hp) as [Hc1 Hc2].
  apply Forall_app in Hc2 as [Hch Hc2]. apply Forall_app in Hc2 as [Hcu Hh].
  assert (forall c rest, chan u = c :: rest ->
    paid base 0 (take_cur (set_mem (set_chan u (tx_live u) rest (rx_live u))
      (drop_chunks (mem u) (option_list (cur u)))) c n).1) as Hnext.
  { intros c rest Ech. apply take_cur_paid. rewrite Ech in Hch.
    apply Forall_cons_iff in Hch as [Hcc Hr].
    apply (paid_drops base 0 (set_cur (set_chan u (tx_live u) rest (rx_live u)) (Some c)));
      [|done|done].
    apply (paid_move _ _ _ _ _ Hp); [done| | |].
    - unfold owed. rewrite Ech. cbn -[map_sum]. lia.
    - split; [done|]. cbn. apply Forall_app. split; [done|]. by constructor.
    - by apply costs_nonneg. }
  unfold poll_read. destruct (cur u) as [[[|b r] ch]|] eqn:Ec.
  - destruct (chan u) as [|c rest]; [done|]. by apply Hnext.
  - apply take_cur_paid. replace (set_cur u _) with u; [done|]. destruct u; cbn in *. by rewrite Ec.
  - destruct (chan u) as [|c rest]; [done|]. by apply Hnext.
Qed.

Definition sized_event (e : event) : bool :=
  match e with EPush _ p => len p <? 2 ^ 64 | _ => true end.

(** A push that fails or is dropped gives back the chunk it was sending. *)
Lemma drop_holder_paid base u c :
  paid base 0 u -> holder u = Some c ->
  paid base 0 (set_holder (set_mem u (drop_chunk (mem u) c)) None).
Proof.
  intros Hp Eh. pose proof (paid_costs _ _ _ Hp) as [Hc1 Hc2]. rewrite Eh in Hc2.
  rewrite app_assoc in Hc2. apply Forall_app in Hc2 as [Hcc Hc]. apply Forall_cons_iff in Hc as [Hc _].
  apply (paid_drop base 0 (set_holder u None)); [|done|done].
  apply (paid_move _ _ _ _ _ Hp); [done| | |done].
  - unfold owed. rewrite Eh. owed_solve.
  - split; [done|]. cbn. by rewrite app_nil_r.
Qed.

Lemma step_paid base u e u' o :
  sized_event e = true -> paid base 0 u -> uplink_step u e = Some (u', o) -> paid base 0 u'.
Proof.
  intros He Hp. pose proof (paid_costs _ _ _ Hp) as [Hc1 Hc2].
  apply Forall_app in Hc2 as [Hch Hc2]. apply Forall_app in Hc2 as [Hcu Hho].
  destruct e as [seq p| | | |n| |]; unfold uplink_step.
  - destruct (holder u) eqn:Eh; [done|]. intros [= <- <-]. cbn in He. split_bool.
    apply settle_paid; [|apply push_not_stuck]. apply push_paid; [done|done|].
    split; [apply len_nonneg|done].
  - destruct (holder u) as [c|] eqn:Eh; [|done]. case_match; [|done]. intros [= <- <-].
    apply settle_paid; [|apply advance_not_stuck; cbn; lia]. apply advance_paid.
    apply (paid_move _ _ _ _ _ Hp); [done| | |done].
    + unfold owed. rewrite Eh. owed_solve.
    + split; [done|]. cbn in *. rewrite app_nil_r. apply Forall_app. split; [|done].
      by apply Forall_app.
  - destruct (holder u) as [c|] eqn:Eh; [|done]. case_match; [done|]. intros [= <- <-].
    by apply drop_holder_paid.
  - destruct (holder u) as [c|] eqn:Eh; [|done]. intros [= <- <-]. by apply drop_holder_paid.
  - case_match; [|done]. pose proof (poll_read_paid base u n Hp).
    destruct (poll_read u n). by intros [= <- <-].
  - intros [= <- <-]. unfold close. destruct (holder u) eqn:Eh; [done|].
    set (l := (map_to_list (pending u)).*2).
    assert (costs l = map_sum cost (pending u)) as Hl by (unfold costs, l; by rewrite map_sum_list).
    apply (paid_drops base 0 (set_pending (set_chan u false (chan u) (rx_live u)) ∅
      (pending_bytes u) (pending_count u))); [|done|].
    + apply (paid_move _ _ _ _ _ Hp); [done| | |].
      * unfold owed. cbn -[map_sum costs]. rewrite map_sum_empty, Hl. lia.
      * split; [apply map_Forall_empty|]. cbn. rewrite Eh. by repeat apply Forall_app_2.
      * rewrite Hl. pose proof (map_sum_cost_nonneg _ Hc1). lia.
    + apply Forall_forall. intros c Hin. apply list_elem_of_In, list_elem_of_fmap in Hin as ([k c'] & -> & Hin).
      apply elem_of_map_to_list in Hin. by apply (Hc1 k c').
  - case_match; [|done]. intros [= <- <-]. unfold drop_reader.
    apply (paid_drops base 0 (set_cur (set_chan u (tx_live u) [] false) None)); [|done|by apply Forall_app].
    apply (paid_move _ _ _ _ _ Hp); [done| | |].
    + owed_solve.
    + by split.
    + rewrite costs_app. pose proof (costs_nonneg _ Hch). pose proof (costs_nonneg _ Hcu). lia.
Qed.

Lemma run_paid base evs u h u' h' :
  forallb sized_event evs = true -> paid base 0 u -> run evs u h = Some (u', h') -> paid base 0 u'.
Proof.
  revert u h. induction evs as [|e evs IH]; intros u h Hop Ha Hr; cbn in *; [by simplify_eq|].
  apply andb_true_iff in Hop as [He Hop].
  destruct (uplink_step u e) as [[u1 o]|] eqn:Es; [|done].
  apply (IH u1 (record_event e o h) Hop); [|done]. by apply (step_paid base u e u1 o).
Qed.

(** The limit of the shared budget never changes. *)
Definition mem_limit (u : uplink) : option Z := limit <$> mem u.

Lemma drop_chunk_limit m c : limit <$> drop_chunk m c = limit <$> m.
Proof. unfold drop_chunk. by repeat case_match. Qed.

Lemma drop_chunks_limit m l : limit <$> drop_chunks m l = limit <$> m.
Proof.
  unfold drop_chunks. revert m. induction l as [|c l IH]; intros m; [done|]. cbn.
  by rewrite IH, drop_chunk_limit.
Qed.

Lemma reserve_payload_limit m p m' c : reserve_payload m p = Some (m', c) -> limit <$> m' = limit <$> m.
Proof. unfold reserve_payload, try_reserve. intros H. by repeat (case_match; simplify_eq/=). Qed.

Lemma advance_limit fuel u : mem_limit (advance fuel u).1 = mem_limit u.
Proof.
  revert u. induction fuel as [|f IH]; intros u; [done|]. cbn [advance].
  repeat (case_match; try done). rewrite IH. apply drop_chunk_limit.
Qed.

Lemma push_limit u seq p : mem_limit (push_begin u seq p).1 = mem_limit u.
Proof.
  unfold push_begin, advance_all. repeat (case_match; try done);
    try (rewrite advance_limit; unfold mem_limit; cbn [mem set_mem]; rewrite drop_chunk_limit);
    by eapply reserve_payload_limit.
Qed.

Lemma settle_limit r : mem_limit (settle r).1 = mem_limit r.1.
Proof. by destruct r as [u []]. Qed.

Lemma poll_read_limit u n : mem_limit (poll_read u n).1 = mem_limit u.
Proof.
  unfold poll_read, take_cur, mem_limit.
  repeat (case_match; try done); cbn [fst mem set_mem set_cur set_chan];
    by rewrite ?drop_chunk_limit, ?drop_chunks_limit.
Qed.

Lemma uplink_step_limit u e u' o : uplink_step u e = Some (u', o) -> mem_limit u' = mem_limit u.
Proof.
  destruct e as [seq p| | | |n| |]; unfold uplink_step.
  5: { case_match; [|done]. pose proof (poll_read_limit u n). destruct (poll_read u n). by intros [= <- <-]. }
  all: repeat (case_match; try done); intros [= <- <-]; unfold mem_limit.
  - cbn [out_push fst]. etransitivity; [apply settle_limit|]. apply push_limit.
  - cbn [out_push fst]. etransitivity; [apply settle_limit|]. etransitivity; [apply advance_limit|done].
  - apply drop_chunk_limit.
  - apply drop_chunk_limit.
  - unfold close. case_match; [done|]. apply drop_chunks_limit.
  - apply drop_chunks_limit.
Qed.

Lemma run_limit evs u h u' h' : run evs u h = Some (u', h') -> mem_limit u' = mem_limit u.
Proof.
  revert u h. induction evs as [|e evs IH]; intros u h Hr; cbn in *; [by simplify_eq|].
  destruct (uplink_step u e) as [[u1 o]|] eqn:Es; [|done].
  rewrite (IH _ _ Hr). by apply uplink_step_limit in Es.
Qed.

Lemma channel_paid mp mb cd b :
  0 < limit b < u64_max -> 0 <= used b <= limit b ->
  paid (used b) 0 (channel_with_budget mp mb cd (Some b)).
Proof.
  intros Hl Hu. split; [|split; [apply map_Forall_empty|constructor]|lia]. exists b. split; [done|].
  unfold owed. cbn -[map_sum]. rewrite map_sum_empty. lia.
Qed.

(** * Empty chunks never reach the reader *)

Definition solid (c : chunk) : Prop := is_empty c = false.

(** Every chunk on its way to the reader carries bytes. *)
Definition solid_path (u : uplink) : Prop :=
  Forall solid (chan u) /\ Forall solid (option_list (cur u)) /\ Forall solid (option_list (holder u)).

Definition solid_push (r : uplink * progress) : Prop :=
  Forall solid (chan r.1) /\ Forall solid (option_list (cur r.1)) /\
  match r.2 with Sending c => solid c | Finished _ => True | Stuck => False end.

Lemma advance_solid fuel u :
  (size (pending u) < fuel)%nat ->
  Forall solid (chan u) -> Forall solid (option_list (cur u)) -> solid_push (advance fuel u).
Proof.
  revert u. induction fuel as [|f IH]; intros u Hf Hc Hr; [lia|]. cbn [advance].
  case_match; [done|]. cbn [pending set_seq].
  destruct (pending u !! (next_seq u + 1)) as [c|] eqn:Ec; [|done].
  destruct (is_empty c) eqn:Ee; [|done]. apply IH; [|done|done]. cbn.
  rewrite (map_size_delete_S _ _ _ Ec) in Hf. lia.
Qed.

Lemma push_solid u seq p : solid_path u -> solid_push (push_begin u seq p).
Proof.
  intros (Hc & Hr & _). unfold push_begin. case_match; [done|]. case_match.
  - case_bool_decide; [done|]. by repeat (case_match; try done).
  - destruct (reserve_payload _ _) as [[m c]|]; [|done].
    destruct (is_empty c) eqn:Ee; [|done]. apply advance_solid; [cbn; lia|done|done].
Qed.

Lemma settle_solid r : solid_push r -> solid_path (settle r).1.
Proof. destruct r as [u []]; intros (? & ? & ?); cbn in *; try done. by repeat constructor. Qed.

Lemma take_cur_solid u c n : Forall solid (chan u) -> Forall solid (option_list (holder u)) ->
  solid_path (take_cur u c n).1.
Proof. intros Hc Hh. unfold take_cur. cbn. case_match; repeat split; cbn; auto. by constructor. Qed.

Lemma step_solid u e u' o : solid_path u -> uplink_step u e = Some (u', o) -> solid_path u'.
Proof.
  intros Hs. pose proof Hs as (Hc & Hr & Hh). destruct e as [seq p| | | |n| |]; unfold uplink_step.
  - case_match; [done|]. intros [= <- <-]. by apply settle_solid, push_solid.
  - destruct (holder u) as [c|] eqn:Eh; [|done]. case_match; [|done]. intros [= <- <-].
    apply settle_solid, advance_solid; cbn; [lia| |done]. by apply Forall_app.
  - case_match; [|done]. case_match; [done|]. intros [= <- <-]. repeat split; cbn; auto.
  - case_match; [|done]. intros [= <- <-]. repeat split; cbn; auto.
  - case_match; [|done]. assert (solid_path (poll_read u n).1) as Hp.
    { unfold poll_read. destruct (cur u) as [[[|b r] ch]|]; [|by apply take_cur_solid|];
        (destruct (chan u) as [|c rest] eqn:Ec; [done|]);
        apply Forall_cons_iff in Hc as [_ Hc]; by apply take_cur_solid. }
    destruct (poll_read u n). by intros [= <- <-].
  - intros [= <- <-]. unfold close. by case_match.
  - case_match; [|done]. intros [= <- <-]. repeat split; cbn; auto.
Qed.

Lemma run_solid evs u h u' h' : solid_path u -> run evs u h = Some (u', h') -> solid_path u'.
Proof.
  revert u h. induction evs as [|e evs IH]; intros u h Hs Hr; cbn in *; [by simplify_eq|].
  destruct (uplink_step u e) as [[u1 o]|] eqn:Es; [|done].
  apply (IH u1 (record_event e o h)); [|done]. by apply (step_solid u e u1 o).
Qed.

Lemma channel_solid mp mb cd b : solid_path (channel_with_budget mp mb cd b).
Proof. repeat split; constructor. Qed.

Lemma take_cur_bytes u c n : solid c -> (0 < n)%nat -> (take_cur u c n).2 <> Some [].
Proof.
  unfold solid, is_empty, take_cur. cbn. intros Hc Hn [= Ht].
  destruct (data c) as [|b r]; [done|]. destruct n; [lia|done].
Qed.

(** * Properties *)

(** The trace [evs] of a fresh uplink ends in [u] with the history [h]. *)
Definition reaches (mp mb cd : Z) (b : option budget) (evs : list event) (u : uplink) (h : history) : Prop :=
  run evs (channel_with_budget mp mb cd b) (mk_history ∅ []) = Some (u, h).

Section traces.
Context {mp mb cd : Z} {b : option budget} {evs : list event} {u : uplink} {h : history}.
Context (Hr : reaches mp mb cd b evs u h).

(** C3: strict sequence order without gaps.  After any interleaving of pushes (in any
    order, duplicated, refused or suspended on a full channel) and reads of any size,
    the bytes read so far followed by the bytes in flight are exactly the payloads of
    the packets 0 .. d-1 in sequence order, every one of which has been admitted, where
    d is the number handed over; and every other admitted packet is in the buffer with
    its payload.  Nothing is lost, skipped, repeated or reordered. *)
Theorem uplink_in_order :
  forallb open_event evs = true ->
  0 <= delivered u /\
  (forall k, 0 <= k < delivered u -> is_Some (admitted h !! k)) /\
  read_out h ++ in_flight u = in_order (admitted h) (Z.to_nat (delivered u)) /\
  (forall k p, admitted h !! k = Some p ->
     0 <= k < delivered u \/ exists c, pending u !! k = Some c /\ data c = p).
Proof.
  intros Hop. destruct (run_ordered _ _ _ _ _ Hop (channel_inv mp mb cd b) Hr) as [[Hn Hk Hd Hs] _ _].
  split; [unfold delivered; case_match; lia|]. split; [intros k Hkd; apply Hd; by left|]. split; [exact Hs|].
  intros k p Hp. destruct (proj1 (Hd k)) as [?|[c Hc]]; [by rewrite Hp|by left|].
  right. exists c. split; [done|]. destruct (Hk _ _ Hc) as [_ Ha]. congruence.
Qed.

(** C9: whatever the clients were told is delivered.  When no push is suspended and each of
    the packets 0 .. n-1 was pushed and answered [Accepted] or [Duplicate], in whatever
    order and however often, the bytes read followed by those that wait for the reader
    start with the payloads of all of them, in sequence order and each with the
    payload of its first such push. *)
Theorem uplink_complete n :
  let acc := answered evs (channel_with_budget mp mb cd b) ∅ in
  forallb open_event evs = true -> holder u = None -> (forall k, 0 <= k < n -> is_Some (acc !! k)) -> n <= 2 ^ 64 ->
  in_order acc (Z.to_nat n) `prefix_of` read_out h ++ in_flight u.
Proof.
  intros acc Hop Hh Hall Hn. pose proof (run_ordered _ _ _ _ _ Hop (channel_inv mp mb cd b) Hr) as Hi.
  assert (acc = admitted h) as -> by (exact (run_answered _ _ _ _ _ Hop (channel_inv mp mb cd b) Hr)).
  pose proof (inv_complete _ _ _ Hi Hh Hall Hn) as Hle. destruct Hi as [[_ _ _ Hs] _ _].
  unfold in_flight. rewrite Hs. apply in_order_prefix. lia.
Qed.

(** Duplicates are dropped idempotently.  In any reachable open state whose
    lock is free, pushing a sequence number that was already admitted, with any
    payload, returns [Duplicate] and changes nothing, the memory budget
    included. *)
Theorem duplicate_push_is_noop seq payload :
  forallb open_event evs = true -> holder u = None -> is_Some (admitted h !! seq) ->
  uplink_step u (EPush seq payload) = Some (u, OPush Duplicate).
Proof.
  intros Hop Hh Ha. pose proof (run_ordered _ _ _ _ _ Hop (channel_inv mp mb cd b) Hr) as Hi.
  cbn [uplink_step]. rewrite Hh, (inv_duplicate u h seq payload Hi Hh Ha). cbn.
  assert (set_holder u None = u) as -> by (destruct u; cbn in *; by subst). done.
Qed.

(** C35: the out-of-order buffer is bounded and its counters are exact.  Along
    every trace without a close, [pending_bytes] and [pending_count] are the
    bytes and packets really buffered, at most [max_packets] packets and (unless
    [max_bytes] is 0) [max_bytes] bytes, and the channel holds at most its
    depth. *)
Theorem uplink_bounded :
  0 <= mb -> mp <= usize_max -> forallb not_close evs = true ->
  pending_count u = Z.of_nat (size (pending u)) /\
  pending_bytes u = map_sum (fun c => len (data c)) (pending u) /\
  pending_count u <= Z.max mp 1 /\ (mb <> 0 -> pending_bytes u <= mb) /\
  len (chan u) <= Z.max cd 1.
Proof.
  intros Hmb Hmp Hop.
  assert (lims u = mk_limits (Z.max mp 1) mb (Z.max cd 1)) as Hl by exact (run_lims _ _ _ _ _ Hr).
  destruct (run_accounted _ _ _ _ _ Hop (channel_accounted mp mb cd b Hmb Hmp) Hr)
    as [H1 H2 H3 [_ H4] H5 H6].
  rewrite Hl in H3, H4, H6. cbn in *. repeat split; auto; lia.
Qed.

(** End of file is reported exactly when the sender is gone and every byte
    has been drained: an empty packet or a gap in the sequence never looks like
    the end of the stream, on any trace. *)
Theorem eof_iff_closed_and_drained n :
  (0 < n)%nat ->
  (poll_read u n).2 = Some [] <->
  tx_live u = false /\ opt_data (cur u) ++ concat (data <$> chan u) = [].
Proof.
  intros Hn.
  assert (solid_path u) as (Hc & Hcu & _) by exact (run_solid _ _ _ _ _ (channel_solid mp mb cd b) Hr).
  assert (forall c l, Forall solid (c :: l) -> data c ++ concat (data <$> l) <> []) as Hne.
  { intros c l [Hs _]%Forall_cons_iff. unfold solid, is_empty in Hs. by destruct (data c). }
  unfold poll_read. destruct (cur u) as [[[|x r] ch]|] eqn:Ec; cbn [opt_data data].
  - apply Forall_cons_iff in Hcu as [Hcu _]. done.
  - split; [|by intros [_ ?]]. intros Ht. by apply take_cur_bytes in Ht.
  - destruct (chan u) as [|c rest].
    + split; destruct (tx_live u); try done. by intros [? _].
    + split; [|intros [_ Ht]; by apply Hne in Ht]. intros Ht.
      apply Forall_cons_iff in Hc as [Hc _]. by apply take_cur_bytes in Ht.
Qed.

End traces.

(** Memory accounting is exact and leak free.  On every trace, closes,
    cancelled and failed sends and a dropped reader included, the shared budget
    is what it was at the start plus the reservations of the chunks this uplink
    still holds, and never above its limit; so an uplink that holds nothing has
    given everything back. *)
Theorem uplink_budget_conserved mp mb cd b evs u h :
  0 < limit b < u64_max -> 0 <= used b <= limit b -> forallb sized_event evs = true ->
  reaches mp mb cd (Some b) evs u h ->
  exists b', mem u = Some b' /\ limit b' = limit b /\ used b' = used b + owed u /\
    used b' <= limit b.
Proof.
  intros Hl Hu Hs Hr.
  destruct (run_paid (used b) _ _ _ _ _ Hs (channel_paid mp mb cd b Hl Hu) Hr)
    as [(b' & Hm & _ & Hused & Hle) _ _].
  pose proof (run_limit _ _ _ _ _ Hr) as Hlim. unfold mem_limit in Hlim. rewrite Hm in Hlim.
  cbn in Hlim. injection Hlim as Hlim. exists b'. split; [done|]. lia.
Qed.

(** * Concrete traces *)

Definition trace_budget : budget := {| limit := 100; used := 7 |}.

(** Out of order, a duplicate, an empty packet, a full channel and short reads. *)
Definition trace_evs : list event :=
  [EPush 2 [5; 6]; EPush 1 []; EPush 0 [1; 2; 3]; ESent; ESent; EPush 2 [9]; ERead 2; ERead 4;
   EPush 4 [8]; ERead 1].

Definition trace_end : option (uplink * history) :=
  run trace_evs (channel_with_budget 4 10 2 (Some trace_budget)) (mk_history ∅ []).

Definition trace_state : uplink := default (channel 0 0 0) (fst <$> trace_end).
Definition trace_history : history := default (mk_history ∅ []) (snd <$> trace_end).

Lemma trace_reaches :
  reaches 4 10 2 (Some trace_budget) trace_evs trace_state trace_history.
Proof. vm_compute. reflexivity. Qed.

Lemma uplink_in_order_witness :
  read_out trace_history = [1; 2; 3; 5] /\ delivered trace_state = 3 /\
  (forall k, 0 <= k < delivered trace_state -> is_Some (admitted trace_history !! k)) /\
  read_out trace_history ++ in_flight trace_state
  = in_order (admitted trace_history) (Z.to_nat (delivered trace_state)).
Proof.
  split; [vm_compute; reflexivity|]. split; [vm_compute; reflexivity|].
  destruct (uplink_in_order trace_reaches) as (_ & Hall & Hs & _); [vm_compute; reflexivity|].
  split; [exact Hall|exact Hs].
Defined.

Definition trace_answers : gmap Z bytes := answered trace_evs (channel_with_budget 4 10 2 (Some trace_budget)) ∅.

Lemma uplink_complete_witness :
  in_order trace_answers 3 = [1; 2; 3; 5; 6] /\
  in_order trace_answers 3 `prefix_of` read_out trace_history ++ in_flight trace_state.
Proof.
  split; [vm_compute; reflexivity|].
  apply (uplink_complete trace_reaches 3); [vm_compute; reflexivity|vm_compute; reflexivity| |lia].
  intros k Hk. assert (k = 0 \/ k = 1 \/ k = 2) as [->|[->| ->]] by lia; vm_compute; eauto.
Defined.

Lemma duplicate_push_is_noop_witness :
  uplink_step trace_state (EPush 4 [7; 7]) = Some (trace_state, OPush Duplicate).
Proof.
  apply (duplicate_push_is_noop trace_reaches); [vm_compute; reflexivity|vm_compute; reflexivity|].
  vm_compute. eauto.
Defined.

Lemma uplink_bounded_witness :
  pending_count trace_state = 1 /\ (10 <> 0 -> pending_bytes trace_state <= 10).
Proof.
  destruct (uplink_bounded trace_reaches) as (_ & _ & _ & H & _);
    [lia|vm_compute; discriminate|vm_compute; reflexivity|].
  split; [vm_compute; reflexivity|exact H].
Defined.

Lemma eof_iff_closed_and_drained_witness :
  (poll_read trace_state 8).2 = Some [] <->
  tx_live trace_state = false /\ opt_data (cur trace_state) ++ concat (data <$> chan trace_state) = [].
Proof. apply (eof_iff_closed_and_drained trace_reaches). lia. Defined.

Lemma uplink_budget_conserved_witness :
  exists b', mem trace_state = Some b' /\ limit b' = limit trace_budget /\
    used b' = used trace_budget + owed trace_state /\ used b' <= limit trace_budget.
Proof.
  apply (uplink_budget_conserved 4 10 2 trace_budget trace_evs trace_state trace_history).
  - vm_compute. auto.
  - vm_compute. split; discriminate.
  - vm_compute. reflexivity.
  - exact trace_reaches.
Defined.

(** * What [close] and cancellation leave behind *)

(** [close] empties the out-of-order buffer but leaves both counters as they
    were: [pending_packets] and [pending_bytes] keep reporting the packets that
    are gone. *)
Theorem close_leaves_counters_stale u :
  holder u = None ->
  pending (close u) = ∅ /\ pending_bytes (close u) = pending_bytes u /\
  pending_count (close u) = pending_count u.
Proof. intros Hh. unfold close. by rewrite Hh. Qed.

(** [close] does nothing while a push is suspended in its send: the buffered
    packets stay and the reader's channel stays open. *)
Theorem close_during_push u c : holder u = Some c -> close u = u.
Proof. intros Hh. unfold close. by rewrite Hh. Qed.

(** A push that is dropped while it forwards a buffered packet loses it: packet
    1 had been answered [Accepted], the push of packet 0 is cancelled while it
    forwards packet 1, and a retry of packet 1 is needed to unblock the stream. *)
Theorem cancelled_push_loses_packet :
  match run [EPush 1 [5]; EPush 0 [4]; ESent; ECancel; ERead 8; EPush 2 [6]; ERead 8]
          (channel 4 0 1) (mk_history ∅ []) with
  | Some (u, h) => admitted h !! 1 = Some [5] /\ read_out h = [4] /\ in_flight u = [] /\
      next_seq u = 1 /\ size (pending u) = 1%nat
  | None => False
  end.
Proof. vm_compute. auto 6. Qed.
