(* ===== verification/Session.v ===== *)
(** [src/session/mod.rs] and [src/session/downlink.rs]: the sharded session table.

    A session is a heap object (an [Arc<Session>]) named by its index in [heap];
    the shards map session ids to heap objects.  The operations are cut where
    another thread can interleave: [upsert] holds its shard's lock between the
    look-up and the insertion, spawns the grace reaper afterwards; the reaper
    checks [fully_connected] before it takes the lock; [remove_inner] lowers the
    counter after it released the lock.  [table_step] is one such step. *)

From S2P Require Import Prelude Budget Reorder.

(** * Downlink *)

(** [downlink::channel]: the bounded chunk queue of the stream-down GET, with
    the receiver's [session_key]. *)
Record downlink := mk_downlink {
  dl_cap : Z; dl_chan : list bytes; dl_tx : bool; dl_rx : bool;
  session_key : option (bytes * Z) }.

Definition downlink_channel (capacity : Z) : downlink :=
  mk_downlink (Z.max capacity 1) [] true true None.

(** [DownlinkSink::send]: [None] while the queue is full. *)
Definition downlink_send (d : downlink) (b : bytes) : option (downlink * result unit unit) :=
  match b with
  | [] => Some (d, Ok tt)
  | _ =>
      if negb (dl_rx d) then Some (d, Err tt)
      else if len (dl_chan d) <? dl_cap d
      then Some (mk_downlink (dl_cap d) (dl_chan d ++ [b]) (dl_tx d) (dl_rx d) (session_key d), Ok tt)
      else None
  end.

(** [DownlinkReader::recv]: [None] while it waits, [Some None] at the end. *)
Definition downlink_recv (d : downlink) : option (downlink * option bytes) :=
  match dl_chan d with
  | b :: r => Some (mk_downlink (dl_cap d) r (dl_tx d) (dl_rx d) (session_key d), Some b)
  | [] => if dl_tx d then None else Some (d, None)
  end.

Definition set_session_key (d : downlink) (id : bytes) (h : Z) : downlink :=
  mk_downlink (dl_cap d) (dl_chan d) (dl_tx d) (dl_rx d) (Some (id, h)).

Definition take_session_key (d : downlink) : downlink * option (bytes * Z) :=
  (mk_downlink (dl_cap d) (dl_chan d) (dl_tx d) (dl_rx d) None, session_key d).

(** * Data *)

(** The grace reaper of a session: not spawned, sleeping, past its check of
    [fully_connected] and about to remove, finished (or aborted). *)
Inductive reaper : Type := NoReaper | Sleeping | Woken | Done.

Record session := mk_session {
  id : bytes;
  id_hash : Z;
  up : uplink;
  down : downlink;
  downlink_reader : bool;      (* the Mutex<Option<DownlinkReader>> still holds it *)
  fully_connected : bool;
  grace_reaper : bool;         (* the Mutex<Option<AbortHandle>> holds a handle *)
  task : reaper }.

(** [SessionConfig]; the grace period is the time a reaper sleeps. *)
Record config := mk_config {
  cfg_shards : Z;
  max_sessions : Z;
  max_pending_packets : Z;
  max_pending_bytes : Z;
  downlink_capacity : Z }.

Definition config_default : config := mk_config 64 65536 30 (16 * 1024 * 1024) 32.

(** A [Shard]: its map, and the creation in progress under its lock. *)
Record shard := mk_shard { smap : gmap bytes nat; creating : option (bytes * bool) }.

(** What an [upsert] that inserted still has to do. *)
Inductive phase : Type := SpawnReaper | StoreHandle | CheckCurrent.

Record table := mk_table {
  cfg : config;
  shards : list shard;
  heap : list session;
  active : Z;
  active_sessions_gauge : Z;
  session_timeouts : Z;
  shared_budget : option budget;
  finishing : list (nat * phase);    (* upserts after their insertion *)
  removing : list (nat * bool) }.    (* remove_inner after map.remove, with cancel_reaper *)

Definition set_shards (t : table) (sh : list shard) : table :=
  mk_table (cfg t) sh (heap t) (active t) (active_sessions_gauge t) (session_timeouts t)
    (shared_budget t) (finishing t) (removing t).
Definition set_heap (t : table) (h : list session) : table :=
  mk_table (cfg t) (shards t) h (active t) (active_sessions_gauge t) (session_timeouts t)
    (shared_budget t) (finishing t) (removing t).
Definition set_active (t : table) (a g : Z) : table :=
  mk_table (cfg t) (shards t) (heap t) a g (session_timeouts t)
    (shared_budget t) (finishing t) (removing t).
Definition set_timeouts (t : table) (n : Z) : table :=
  mk_table (cfg t) (shards t) (heap t) (active t) (active_sessions_gauge t) n
    (shared_budget t) (finishing t) (removing t).
Definition set_budget (t : table) (b : option budget) : table :=
  mk_table (cfg t) (shards t) (heap t) (active t) (active_sessions_gauge t) (session_timeouts t)
    b (finishing t) (removing t).
Definition set_finishing (t : table) (l : list (nat * phase)) : table :=
  mk_table (cfg t) (shards t) (heap t) (active t) (active_sessions_gauge t) (session_timeouts t)
    (shared_budget t) l (removing t).
Definition set_removing (t : table) (l : list (nat * bool)) : table :=
  mk_table (cfg t) (shards t) (heap t) (active t) (active_sessions_gauge t) (session_timeouts t)
    (shared_budget t) (finishing t) l.

Definition set_up (s : session) (u : uplink) : session :=
  mk_session (id s) (id_hash s) u (down s) (downlink_reader s) (fully_connected s)
    (grace_reaper s) (task s).
Definition set_reader (s : session) (d : downlink) (r : bool) : session :=
  mk_session (id s) (id_hash s) (up s) d r (fully_connected s) (grace_reaper s) (task s).
Definition set_connected (s : session) : session :=
  mk_session (id s) (id_hash s) (up s) (down s) (downlink_reader s) true (grace_reaper s) (task s).
Definition set_reaper (s : session) (h : bool) (k : reaper) : session :=
  mk_session (id s) (id_hash s) (up s) (down s) (downlink_reader s) (fully_connected s) h k.

(** * Operations *)

Definition fnv1a (l : bytes) : Z :=
  fold_left (fun h b => wrap 64 (Z.lxor h b * 0x100000001b3)) l 0xcbf29ce484222325.

Definition table_new (c : config) (b : option budget) : table :=
  mk_table c (replicate (Z.to_nat (Z.max (cfg_shards c) 1)) (mk_shard ∅ None)) [] 0 0 0 b [] [].

(** [&self.shards[(id_hash as usize) % self.shards.len()]]. *)
Definition shard_index (t : table) (h : Z) : nat := Z.to_nat (h mod len (shards t)).

(** [abort]: a sleeping task ends, one that is past its await does not. *)
Definition abort (k : reaper) : reaper := match k with Sleeping => Done | _ => k end.

(** [if let Some(reaper) = s.grace_reaper.lock().take() { reaper.abort() }]. *)
Definition take_and_abort (s : session) : session :=
  if grace_reaper s then set_reaper s false (abort (task s)) else s.

(** The session object [upsert] builds. *)
Definition new_session (t : table) (i : bytes) (fc : bool) : session :=
  let c := cfg t in
  let depth := Z.min (Z.max (max_pending_packets c) 1) 256 in
  mk_session i (fnv1a i)
    (channel_with_budget (max_pending_packets c) (max_pending_bytes c) depth (shared_budget t))
    (downlink_channel (downlink_capacity c)) true fc false NoReaper.

(** [map.get(id).is_none_or(|current| !Arc::ptr_eq(current, expected))]. *)
Definition not_current (sh : shard) (i : bytes) (sid : nat) : bool :=
  negb (bool_decide (smap sh !! i = Some sid)).

(** An operation of the uplink runs against the shared budget. *)
Definition on_uplink (t : table) (sid : nat) (s : session) (f : uplink -> uplink) : table :=
  let u := f (set_mem (up s) (shared_budget t)) in
  set_budget (set_heap t (<[sid := set_up s u]> (heap t))) (mem u).

(** Steps of the threads that use the table. *)
Inductive event : Type :=
| EUpsert (i : bytes) (fc : bool)   (* upsert: lock, look up, check the cap *)
| EInsert (k : nat)                 (* upsert in shard k: build, insert, count, unlock *)
| EFinish (j : nat)                 (* upsert: next phase of the j-th finishing one *)
| EConnect (sid : nat)              (* open_download after its upsert *)
| EReap (sid : nat) (alive : bool)  (* the reaper wakes; alive: weak.upgrade() *)
| EReapRemove (sid : nat)           (* the reaper's remove_inner up to map.remove *)
| ERemove (i : bytes) (h : Z)       (* remove, remove_hashed up to map.remove *)
| ERemoved (j : nat)                (* remove_inner after map.remove *)
| EUplink (sid : nat) (e : Reorder.event).

Inductive output : Type :=
| OFound (sid : nat)
| OCapacity
| OCreating (k : nat)
| OCreated (sid : nat)
| OOpened (d : downlink)
| OConflict
| OUplink (o : Reorder.output)
| ONothing.

(** [remove_inner] up to [map.remove]. *)
Definition unlink (t : table) (i : bytes) (h : Z) (expected : option nat) (cancel : bool) :
    option table :=
  let k := shard_index t h in
  match shards t !! k with
  | Some sh =>
      match creating sh with
      | Some _ => None
      | None =>
          let stop := match expected with Some e => not_current sh i e | None => false end in
          if stop then Some t
          else match smap sh !! i with
               | Some sid =>
                   Some (set_removing (set_shards t (<[k := mk_shard (delete i (smap sh)) None]> (shards t)))
                           ((sid, cancel) :: removing t))
               | None => Some t
               end
      end
  | None => None
  end.

(** The rest of [upsert], one phase at a time. *)
Definition finish_phase (t : table) (j : nat) (sid : nat) (p : phase) (s : session) : option table :=
  match p with
  | SpawnReaper =>
      Some (set_finishing (set_heap t (<[sid := set_reaper s (grace_reaper s) Sleeping]> (heap t)))
              (<[j := (sid, StoreHandle)]> (finishing t)))
  | StoreHandle =>
      Some (set_finishing (set_heap t (<[sid := set_reaper s true (task s)]> (heap t)))
              (<[j := (sid, CheckCurrent)]> (finishing t)))
  | CheckCurrent =>
      match shards t !! shard_index t (id_hash s) with
      | Some sh =>
          match creating sh with
          | Some _ => if fully_connected s
                      then Some (set_finishing (set_heap t (<[sid := set_reaper s false (abort (task s))]> (heap t)))
                                   (delete j (finishing t)))
                      else None
          | None =>
              let s' := if fully_connected s || not_current sh (id s) sid
                        then set_reaper s false (abort (task s)) else s in
              Some (set_finishing (set_heap t (<[sid := s']> (heap t))) (delete j (finishing t)))
          end
      | None => None
      end
  end.

Definition upsert_begin (t : table) (i : bytes) (fc : bool) : option (table * output) :=
  let k := shard_index t (fnv1a i) in
  match shards t !! k with
  | Some sh =>
      match creating sh with
      | Some _ => None
      | None =>
          match smap sh !! i with
          | Some sid => Some (t, OFound sid)
          | None =>
              if max_sessions (cfg t) <=? active t then Some (t, OCapacity)
              else Some (set_shards t (<[k := mk_shard (smap sh) (Some (i, fc))]> (shards t)), OCreating k)
          end
      end
  | None => None
  end.

Definition upsert_insert (t : table) (k : nat) : option (table * output) :=
  match shards t !! k with
  | Some sh =>
      match creating sh with
      | Some (i, fc) =>
          let sid := length (heap t) in
          let t1 := set_shards t (<[k := mk_shard (<[i := sid]> (smap sh)) None]> (shards t)) in
          let t2 := set_heap t1 (heap t ++ [new_session t i fc]) in
          let t3 := set_active t2 (wrap 64 (active t + 1)) (active_sessions_gauge t + 1) in
          Some (set_finishing t3 (if fc then finishing t else (sid, SpawnReaper) :: finishing t), OCreated sid)
      | None => None
      end
  | None => None
  end.

(** [open_download] after its [upsert]. *)
Definition connect (t : table) (sid : nat) (s : session) : table * output :=
  let s1 := take_and_abort (set_connected s) in
  if downlink_reader s1 then
    let d := set_session_key (down s1) (id s1) (id_hash s1) in
    (set_heap t (<[sid := set_reader s1 d false]> (heap t)), OOpened d)
  else (set_heap t (<[sid := s1]> (heap t)), OConflict).

Definition reap (t : table) (sid : nat) (s : session) : table :=
  if fully_connected s then set_heap t (<[sid := set_reaper s (grace_reaper s) Done]> (heap t))
  else set_timeouts (set_heap t (<[sid := set_reaper s (grace_reaper s) Woken]> (heap t)))
         (wrap 64 (session_timeouts t + 1)).

Definition removed (t : table) (j : nat) (sid : nat) (cancel : bool) (s : session) : table :=
  let s1 := if cancel then take_and_abort s else s in
  let t1 := on_uplink t sid s1 close in
  set_removing (set_active t1 (wrap 64 (active t1 - 1)) (active_sessions_gauge t1 - 1))
    (delete j (removing t1)).

Definition table_step (t : table) (e : event) : option (table * output) :=
  match e with
  | EUpsert i fc => upsert_begin t i fc
  | EInsert k => upsert_insert t k
  | EFinish j =>
      '(sid, p) ← finishing t !! j;
      s ← heap t !! sid;
      t' ← finish_phase t j sid p s;
      Some (t', ONothing)
  | EConnect sid => s ← heap t !! sid; Some (connect t sid s)
  | EReap sid alive =>
      s ← heap t !! sid;
      match task s with
      | Sleeping =>
          if alive then Some (reap t sid s, ONothing)
          else match shards t !! shard_index t (id_hash s) with
               | Some sh =>
                   (* the Arc in the map keeps the session alive *)
                   if not_current sh (id s) sid
                   then Some (set_heap t (<[sid := set_reaper s (grace_reaper s) Done]> (heap t)), ONothing)
                   else None
               | None => None
               end
      | _ => None
      end
  | EReapRemove sid =>
      s ← heap t !! sid;
      match task s with
      | Woken =>
          t' ← unlink t (id s) (id_hash s) (Some sid) false;
          s' ← heap t' !! sid;
          Some (set_heap t' (<[sid := set_reaper s' (grace_reaper s') Done]> (heap t')), ONothing)
      | _ => None
      end
  | ERemove i h => t' ← unlink t i h None true; Some (t', ONothing)
  | ERemoved j =>
      '(sid, cancel) ← removing t !! j;
      s ← heap t !! sid;
      Some (removed t j sid cancel s, ONothing)
  | EUplink sid ev =>
      s ← heap t !! sid;
      '(u, o) ← uplink_step (set_mem (up s) (shared_budget t)) ev;
      Some (on_uplink t sid s (fun _ => u), OUplink o)
  end.

Fixpoint table_run (evs : list event) (t : table) : option table :=
  match evs with
  | [] => Some t
  | e :: evs' => '(t', _) ← table_step t e; table_run evs' t'
  end.

(** * The invariant of the table *)

Definition session_count (sh : shard) : Z := Z.of_nat (size (smap sh)).
Definition creator_count (sh : shard) : Z := if creating sh then 1 else 0.

(** The sessions the shards hold, and the upserts between their check of the cap
    and their insertion. *)
Definition sessions (t : table) : Z := list_sum session_count (shards t).
Definition creators (t : table) : Z := list_sum creator_count (shards t).

(** The identity of every session object. *)
Definition idents (t : table) : list (bytes * Z) := (fun s => (id s, id_hash s)) <$> heap t.

(** The flat map the shards implement. *)
Definition lookup_session (t : table) (i : bytes) : option nat :=
  sh ← shards t !! shard_index t (fnv1a i); smap sh !! i.

Record table_inv (t : table) : Prop := {
  ti_len : 0 < len (shards t);
  ti_keys : forall k sh i sid, shards t !! k = Some sh -> smap sh !! i = Some sid ->
    k = shard_index t (fnv1a i) /\ idents t !! sid = Some (i, fnv1a i);
  ti_creating : forall k sh i fc, shards t !! k = Some sh -> creating sh = Some (i, fc) ->
    k = shard_index t (fnv1a i) /\ smap sh !! i = None;
  ti_active : active t = sessions t + len (removing t) /\ active_sessions_gauge t = active t;
  ti_cap : active t + creators t <= max_sessions (cfg t) + len (shards t) - 1;
  ti_bound : max_sessions (cfg t) + len (shards t) < 2 ^ 64 }.

Lemma shard_index_eq t t' h : length (shards t') = length (shards t) -> shard_index t' h = shard_index t h.
Proof. intros H. unfold shard_index, len. by rewrite H. Qed.

Lemma idents_insert t sid s s' :
  heap t !! sid = Some s -> id s' = id s -> id_hash s' = id_hash s ->
  (fun s => (id s, id_hash s)) <$> <[sid := s']> (heap t) = idents t.
Proof.
  intros Hs Hi Hh. rewrite list_fmap_insert, Hi, Hh. apply list_insert_id.
  unfold idents. by rewrite list_lookup_fmap, Hs.
Qed.

(** A step that leaves the shards, the counters and the identities alone. *)
Lemma inv_frame t t' :
  table_inv t -> cfg t' = cfg t -> shards t' = shards t -> idents t' = idents t ->
  active t' = active t -> active_sessions_gauge t' = active_sessions_gauge t ->
  removing t' = removing t -> table_inv t'.
Proof.
  intros [H1 H2 H3 [H4 H4'] H5 H6] Hc Hs Hi Ha Hg Hr.
  split; unfold sessions, creators, shard_index in *; rewrite ?Hc, ?Hs, ?Hi, ?Ha, ?Hg, ?Hr; auto.
Qed.

Lemma inv_heap t sid s s' :
  table_inv t -> heap t !! sid = Some s -> id s' = id s -> id_hash s' = id_hash s ->
  table_inv (set_heap t (<[sid := s']> (heap t))).
Proof. intros Ht Hs Hi Hh. apply (inv_frame t); try done. by apply (idents_insert t sid s). Qed.

Lemma session_count_nonneg sh : 0 <= session_count sh.
Proof. unfold session_count. lia. Qed.

Lemma creator_count_bounds sh : 0 <= creator_count sh <= 1.
Proof. unfold creator_count. destruct (creating sh); lia. Qed.

Lemma sessions_nonneg t : 0 <= sessions t.
Proof.
  unfold sessions. transitivity (list_sum (fun _ : shard => 0) (shards t)).
  - rewrite list_sum_const. lia.
  - apply list_sum_le. intros. apply session_count_nonneg.
Qed.

Lemma creators_bounds t : 0 <= creators t <= len (shards t).
Proof.
  unfold creators. split.
  - transitivity (list_sum (fun _ : shard => 0) (shards t)); [rewrite list_sum_const; lia|].
    apply list_sum_le. intros. apply creator_count_bounds.
  - transitivity (list_sum (fun _ : shard => 1) (shards t)); [|rewrite list_sum_const; lia].
    apply list_sum_le. intros. apply creator_count_bounds.
Qed.

Lemma sessions_insert t t' k sh sh' :
  shards t !! k = Some sh -> shards t' = <[k := sh']> (shards t) ->
  sessions t' = sessions t - session_count sh + session_count sh'.
Proof. intros H Ht. unfold sessions. rewrite Ht. by apply list_sum_insert. Qed.

Lemma creators_insert t t' k sh sh' :
  shards t !! k = Some sh -> shards t' = <[k := sh']> (shards t) ->
  creators t' = creators t - creator_count sh + creator_count sh'.
Proof. intros H Ht. unfold creators. rewrite Ht. by apply list_sum_insert. Qed.

(** What holds of every key and creation after shard [k] is replaced. *)
Lemma keys_insert t k sh' :
  (forall k' sh i sid, shards t !! k' = Some sh -> smap sh !! i = Some sid ->
    k' = shard_index t (fnv1a i) /\ idents t !! sid = Some (i, fnv1a i)) ->
  (forall i sid, smap sh' !! i = Some sid ->
    k = shard_index t (fnv1a i) /\ idents t !! sid = Some (i, fnv1a i)) ->
  forall k' sh i sid, <[k := sh']> (shards t) !! k' = Some sh -> smap sh !! i = Some sid ->
    k' = shard_index t (fnv1a i) /\ idents t !! sid = Some (i, fnv1a i).
Proof.
  intros Hold Hnew k' sh i sid Hk Hi. apply list_lookup_insert_Some in Hk as [(<- & <- & _)|(_ & Hk)].
  - by apply Hnew.
  - by apply (Hold k' sh).
Qed.

Lemma table_new_inv c b :
  0 <= max_sessions c -> max_sessions c + Z.max (cfg_shards c) 1 < 2 ^ 64 ->
  table_inv (table_new c b).
Proof.
  intros Hm Hb.
  assert (forall k sh, shards (table_new c b) !! k = Some sh -> sh = mk_shard ∅ None) as Hsh.
  { intros k sh H. cbn in H. by apply lookup_replicate in H as [-> _]. }
  assert (len (shards (table_new c b)) = Z.max (cfg_shards c) 1) as Hl.
  { cbn. unfold len. rewrite length_replicate. lia. }
  assert (sessions (table_new c b) = 0 /\ creators (table_new c b) = 0) as [Hse Hcr].
  { unfold sessions, creators. cbn. by induction (Z.to_nat _) as [|n [IH1 IH2]]; cbn; [done|]. }
  split; rewrite ?Hl, ?Hse, ?Hcr; cbn; try lia.
  - intros k sh i sid Hk Hi. apply Hsh in Hk. subst. cbn in Hi. by rewrite lookup_empty in Hi.
  - intros k sh i fc Hk Hi. apply Hsh in Hk. by subst.
  - by split.
Qed.

(** * Preservation *)

Lemma unlink_inv t i h e c t' : table_inv t -> unlink t i h e c = Some t' -> table_inv t'.
Proof.
  intros Ht. unfold unlink. destruct (shards t !! _) as [sh|] eqn:Es; [|done].
  destruct (creating sh) eqn:Ec; [done|]. destruct (match e with Some _ => _ | None => _ end);
    [by intros [= <-]|]. destruct (smap sh !! i) as [sid|] eqn:Ei; [|by intros [= <-]].
  intros [= <-]. destruct Ht as [H1 H2 H3 [H4 H4'] H5 H6].
  split; cbn [shards cfg active active_sessions_gauge removing set_removing set_shards];
    rewrite ?len_insert; auto.
  - intros k' sh' i' sid' Hk' Hi'. rewrite (shard_index_eq t) by (cbn; by rewrite length_insert).
    revert Hk' Hi'. apply (keys_insert t _ _ H2). cbn. intros i'' sid'' [_ Hi'']%lookup_delete_Some.
    by apply (H2 _ sh).
  - intros k' sh' i' fc' Hk' Hc'. rewrite (shard_index_eq t) by (cbn; by rewrite length_insert).
    apply list_lookup_insert_Some in Hk' as [(<- & <- & _)|(_ & Hk')]; [done|]. by apply (H3 k' sh' i' fc').
  - split; [|done]. erewrite (sessions_insert t) by done.
    unfold session_count. cbn [smap]. rewrite (map_size_delete_S (smap sh) i sid Ei), len_cons. lia.
  - erewrite (creators_insert t) by done. unfold creator_count. rewrite Ec. cbn [creating]. lia.
Qed.

Lemma upsert_begin_inv t i fc t' o :
  table_inv t -> upsert_begin t i fc = Some (t', o) -> table_inv t'.
Proof.
  intros Ht. unfold upsert_begin. destruct (shards t !! _) as [sh|] eqn:Es; [|done].
  destruct (creating sh) eqn:Ec; [done|]. destruct (smap sh !! i) as [sid|] eqn:Ei; [by intros [= <- <-]|].
  destruct (_ <=? _) eqn:Ecap; [by intros [= <- <-]|]. intros [= <- <-]. split_bool.
  pose proof Ht as [H1 H2 H3 [H4 H4'] H5 H6]. set (t' := set_shards _ _).
  pose proof (creators_bounds t') as Hcr. unfold t' in Hcr. cbn [shards set_shards] in Hcr.
  rewrite len_insert in Hcr.
  split; unfold t'; cbn [shards cfg active active_sessions_gauge removing set_shards];
    rewrite ?len_insert; auto; try lia.
  - intros k' sh' i' sid' Hk' Hi'. rewrite (shard_index_eq t) by (cbn; by rewrite length_insert).
    revert Hk' Hi'. apply (keys_insert t _ _ H2). cbn. intros i'' sid'' Hi''. by apply (H2 _ sh).
  - intros k' sh' i' fc' Hk' Hc'. rewrite (shard_index_eq t) by (cbn; by rewrite length_insert).
    apply list_lookup_insert_Some in Hk' as [(<- & <- & _)|(_ & Hk')]; [by simplify_eq/=|].
    by apply (H3 k' sh' i' fc').
  - split; [|done]. erewrite (sessions_insert t) by done. unfold session_count. cbn [smap]. lia.
Qed.

Lemma upsert_insert_inv t k t' o :
  table_inv t -> upsert_insert t k = Some (t', o) -> table_inv t'.
Proof.
  intros Ht. unfold upsert_insert. destruct (shards t !! k) as [sh|] eqn:Es; [|done].
  destruct (creating sh) as [[i fc]|] eqn:Ec; [|done]. intros [= <- <-].
  pose proof Ht as [H1 H2 H3 [H4 H4'] H5 H6]. destruct (H3 _ _ _ _ Es Ec) as [Hk Hnone].
  pose proof (sessions_nonneg t). pose proof (len_nonneg (removing t)).
  pose proof (creators_bounds t).
  assert (1 <= creators t) as Hone.
  { pose proof (creators_insert t (set_shards t (<[k := mk_shard ∅ None]> (shards t))) k sh _ Es eq_refl) as Hc.
    pose proof (creators_bounds (set_shards t (<[k := mk_shard ∅ None]> (shards t)))) as Hb.
    unfold creator_count in Hc. rewrite Ec in Hc. cbn [creating] in Hc. lia. }
  assert (wrap 64 (active t + 1) = active t + 1) as Hw by (unfold wrap; apply Z.mod_small; lia).
  split; cbn [shards cfg active active_sessions_gauge removing set_shards set_heap set_active set_finishing];
    rewrite ?len_insert, ?Hw; auto; try lia.
  - intros k' sh' i' sid' Hk' Hi'. rewrite (shard_index_eq t) by (cbn; by rewrite length_insert).
    unfold idents. cbn [heap set_heap set_active set_finishing]. rewrite fmap_app.
    apply list_lookup_insert_Some in Hk' as [(<- & <- & _)|(_ & Hk')].
    + cbn in Hi'. apply lookup_insert_Some in Hi' as [[<- <-]|[_ Hi']].
      * split; [done|]. rewrite lookup_app_r, length_fmap, Nat.sub_diag by (by rewrite length_fmap). done.
      * destruct (H2 _ _ _ _ Es Hi') as [-> Hid]. split; [done|]. by apply lookup_app_l_Some.
    + destruct (H2 _ _ _ _ Hk' Hi') as [-> Hid]. split; [done|]. by apply lookup_app_l_Some.
  - intros k' sh' i' fc' Hk' Hc'. rewrite (shard_index_eq t) by (cbn; by rewrite length_insert).
    apply list_lookup_insert_Some in Hk' as [(<- & <- & _)|(_ & Hk')]; [done|]. by apply (H3 k' sh' i' fc').
  - split; [|lia]. erewrite (sessions_insert t) by done. unfold session_count. cbn [smap].
    rewrite map_size_insert_None by done. lia.
  - erewrite (creators_insert t) by done. unfold creator_count. rewrite Ec. cbn [creating]. lia.
Qed.

Lemma take_and_abort_id s : id (take_and_abort s) = id s /\ id_hash (take_and_abort s) = id_hash s.
Proof. unfold take_and_abort. by case_match. Qed.

Lemma finish_phase_inv t j sid p s t' :
  table_inv t -> heap t !! sid = Some s -> finish_phase t j sid p s = Some t' -> table_inv t'.
Proof.
  intros Ht Hs. unfold finish_phase.
  assert (forall s', id s' = id s -> id_hash s' = id_hash s -> forall l,
    table_inv (set_finishing (set_heap t (<[sid := s']> (heap t))) l)) as Hset.
  { intros s' Hi Hh l. by apply (inv_frame _ _ (inv_heap t sid s s' Ht Hs Hi Hh)). }
  destruct p; [intros [= <-]; by apply Hset|intros [= <-]; by apply Hset|].
  repeat (case_match; try done); intros [= <-]; by apply Hset.
Qed.

Lemma connect_inv t sid s : table_inv t -> heap t !! sid = Some s -> table_inv (connect t sid s).1.
Proof.
  intros Ht Hs. unfold connect. destruct (take_and_abort_id (set_connected s)) as [Hi Hh].
  destruct (downlink_reader _); by apply (inv_heap t sid s).
Qed.

Lemma removed_inv t j sid c s :
  table_inv t -> heap t !! sid = Some s -> removing t !! j = Some (sid, c) ->
  table_inv (removed t j sid c s).
Proof.
  intros Ht Hs Hj. unfold removed. set (s1 := if c then _ else _).
  assert (id s1 = id s /\ id_hash s1 = id_hash s) as [Hi Hh]
    by (unfold s1; destruct c; [apply take_and_abort_id|done]).
  set (t1 := on_uplink t sid s1 close).
  assert (table_inv t1) as Ht1.
  { apply (inv_frame _ _ (inv_heap t sid s (set_up s1 (close (set_mem (up s1) (shared_budget t)))) Ht Hs Hi Hh)); done. }
  destruct Ht1 as [H1 H2 H3 [H4 H4'] H5 H6].
  pose proof (sessions_nonneg t1). pose proof (creators_bounds t1).
  assert (len (removing t1) = 1 + len (delete j (removing t1))) as Hd.
  { unfold len. rewrite length_delete by (by eexists). apply lookup_lt_Some in Hj.
    change (removing t1) with (removing t). lia. }
  pose proof (len_nonneg (delete j (removing t1))).
  assert (wrap 64 (active t1 - 1) = active t1 - 1) as Hw by (unfold wrap; apply Z.mod_small; lia).
  split; auto; cbn [active active_sessions_gauge removing set_removing set_active]; rewrite ?Hw.
  - change (sessions _) with (sessions t1). lia.
  - change (creators _) with (creators t1). cbn [cfg shards set_removing set_active]. lia.
Qed.

Lemma step_table_inv t e t' o : table_inv t -> table_step t e = Some (t', o) -> table_inv t'.
Proof.
  intros Ht. destruct e as [i fc|k|j|sid|sid al|sid|i h|j|sid ev]; cbn [table_step].
  - by apply upsert_begin_inv.
  - by apply upsert_insert_inv.
  - destruct (finishing t !! j) as [[sid p]|]; [|done]. cbn.
    destruct (heap t !! sid) as [s|] eqn:Es; [|done]. cbn.
    destruct (finish_phase t j sid p s) as [t1|] eqn:Ef; [|done]. intros [= <- <-].
    by apply (finish_phase_inv t j sid p s).
  - destruct (heap t !! sid) as [s|] eqn:Es; [|done]. cbn. intros [= He].
    pose proof (connect_inv t sid s Ht Es) as Hc. by rewrite He in Hc.
  - destruct (heap t !! sid) as [s|] eqn:Es; [|done]. cbn. destruct (task s); try done.
    destruct al; [intros [= <- <-]|repeat (case_match; try done); intros [= <- <-]; by apply (inv_heap t sid s)].
    unfold reap. destruct (fully_connected s); [by apply (inv_heap t sid s)|].
    by apply (inv_frame _ _ (inv_heap t sid s (set_reaper s (grace_reaper s) Woken) Ht Es eq_refl eq_refl)).
  - destruct (heap t !! sid) as [s|]; [|done]. cbn. destruct (task s); try done.
    destruct (unlink t _ _ _ _) as [t1|] eqn:Eu; [|done]. cbn.
    destruct (heap t1 !! sid) as [s'|] eqn:Es'; [|done]. cbn. intros [= <- <-].
    by apply (inv_heap t1 sid s'); [apply (unlink_inv _ _ _ _ _ _ Ht Eu)|..].
  - destruct (unlink t _ _ _ _) as [t1|] eqn:Eu; [|done]. cbn. intros [= <- <-].
    by apply (unlink_inv _ _ _ _ _ _ Ht Eu).
  - destruct (removing t !! j) as [[sid c]|] eqn:Ej; [|done]. cbn.
    destruct (heap t !! sid) as [s|] eqn:Es; [|done]. cbn. intros [= <- <-]. by apply removed_inv.
  - destruct (heap t !! sid) as [s|] eqn:Es; [|done]. cbn.
    destruct (uplink_step _ ev) as [[u' o']|]; [|done]. cbn. intros [= <- <-].
    by apply (inv_frame _ _ (inv_heap t sid s (set_up s u') Ht Es eq_refl eq_refl)).
Qed.

Lemma run_table_inv evs t t' : table_inv t -> table_run evs t = Some t' -> table_inv t'.
Proof.
  revert t. induction evs as [|e evs IH]; intros t Ht; cbn; [by intros [= <-]|].
  destruct (table_step t e) as [[t1 o]|] eqn:Es; [|done]. cbn. apply IH.
  by apply (step_table_inv t e t1 o).
Qed.

(** * A connected session *)

(** The session object [sid] is the one registered for [i], its GET is open and
    its reaper has not decided to remove it. *)
Definition linked (t : table) (i : bytes) (sid : nat) : Prop := lookup_session t i = Some sid.
Definition settled (h : list session) (sid : nat) : Prop :=
  exists s, h !! sid = Some s /\ fully_connected s = true /\ task s <> Woken.

Definition settled_connected (h : list session) (sid : nat) : Prop :=
  exists s, h !! sid = Some s /\ fully_connected s = true /\ downlink_reader s = false.

Lemma linked_insert t t' k sh sh' i sid :
  shards t !! k = Some sh -> shards t' = <[k := sh']> (shards t) ->
  (k = shard_index t (fnv1a i) -> smap sh !! i = Some sid -> smap sh' !! i = Some sid) ->
  linked t i sid -> linked t' i sid.
Proof.
  intros Hk Ht Hi. unfold linked, lookup_session.
  rewrite (shard_index_eq t t') by (by rewrite Ht, length_insert). rewrite Ht.
  destruct (decide (k = shard_index t (fnv1a i))) as [->|Hne].
  - rewrite Hk, list_lookup_insert_eq by (by eapply lookup_lt_Some). cbn. auto.
  - by rewrite list_lookup_insert_ne.
Qed.

Lemma settled_insert h sid sid' s s' :
  settled h sid -> h !! sid' = Some s ->
  (fully_connected s = true -> task s <> Woken -> fully_connected s' = true /\ task s' <> Woken) ->
  settled (<[sid' := s']> h) sid.
Proof.
  intros (x & Hx & Hf & Hw) Hs Hs'. destruct (decide (sid' = sid)) as [->|Hne].
  - simplify_eq. destruct (Hs' Hf Hw). exists s'. split; [|done].
    apply list_lookup_insert_eq. by eapply lookup_lt_Some.
  - exists x. by rewrite list_lookup_insert_ne.
Qed.

Lemma abort_not_woken k : k <> Woken -> abort k <> Woken.
Proof. by destruct k. Qed.

Lemma take_and_abort_connected s :
  fully_connected (take_and_abort s) = fully_connected s /\
  (task s <> Woken -> task (take_and_abort s) <> Woken).
Proof. unfold take_and_abort. case_match; cbn; auto using abort_not_woken. Qed.

Lemma unlink_heap t i h e c t' : unlink t i h e c = Some t' -> heap t' = heap t.
Proof. unfold unlink. intros H. by repeat (case_match; simplify_eq/=). Qed.

(** Unlinking leaves [i] alone unless it names [i], or when it expects another
    session object. *)
Lemma unlink_linked t i sid i' h e c t' :
  table_inv t -> unlink t i' h e c = Some t' ->
  i' <> i \/ (exists e', e = Some e' /\ e' <> sid) -> linked t i sid -> linked t' i sid.
Proof.
  intros Ht Hu Hor. unfold unlink in Hu. destruct (shards t !! _) as [sh|] eqn:Es; [|done].
  destruct (creating sh); [done|].
  destruct (match e with Some _ => _ | None => _ end) eqn:Estop; [by simplify_eq|].
  destruct (smap sh !! i') as [x|] eqn:Ei; [|by simplify_eq]. injection Hu as <-.
  eapply (linked_insert t _ _ sh _ i sid Es); [reflexivity|]. cbn. intros Hk Hi.
  apply lookup_delete_Some. split; [|done]. intros ->. destruct Hor as [?|(e' & -> & Hne)]; [done|].
  unfold not_current in Estop. split_bool. congruence.
Qed.

Definition not_remove (i : bytes) (e : event) : bool :=
  match e with ERemove i' _ => negb (bytes_eqb i' i) | _ => true end.

Lemma step_heap_settled t e t' o sid :
  settled (heap t) sid -> table_step t e = Some (t', o) -> settled (heap t') sid.
Proof.
  intros Hc. destruct e as [i fc|k|j|n|n al|n|i h|j|n ev]; cbn [table_step].
  - unfold upsert_begin. intros H. by repeat (case_match; simplify_eq/=).
  - unfold upsert_insert. intros H. repeat (case_match; simplify_eq/=).
    destruct Hc as (x & Hx & ?). exists x. split; [|done]. by apply lookup_app_l_Some.
  - destruct (finishing t !! j) as [[n p]|]; [|done]. cbn. destruct (heap t !! n) as [s|] eqn:Es; [|done].
    cbn. destruct (finish_phase t j n p s) as [t1|] eqn:Ef; [|done]. intros [= <- <-].
    unfold finish_phase in Ef. repeat (case_match; simplify_eq/=);
      apply (settled_insert _ _ _ s _ Hc Es); cbn; auto using abort_not_woken.
  - destruct (heap t !! n) as [s|] eqn:Es; [|done]. cbn. unfold connect. intros [= He].
    destruct (take_and_abort_connected (set_connected s)) as [Hf Hw].
    destruct (downlink_reader _); injection He as <- <-; cbn;
      apply (settled_insert _ _ _ s _ Hc Es); intros _ Hs; cbn; auto.
  - destruct (heap t !! n) as [s|] eqn:Es; [|done]. cbn. unfold reap. intros H.
    repeat (case_match; simplify_eq/=); apply (settled_insert _ _ _ s _ Hc Es); cbn; auto; congruence.
  - destruct (heap t !! n) as [s|] eqn:Es; [|done]. cbn. destruct (task s); try done.
    destruct (unlink t _ _ _ _) as [t1|] eqn:Eu; [|done]. cbn. apply unlink_heap in Eu.
    rewrite Eu, Es. cbn. intros [= <- <-]. cbn.
    apply (settled_insert _ _ _ s _ Hc Es). cbn. auto.
  - destruct (unlink t _ _ _ _) as [t1|] eqn:Eu; [|done]. cbn. intros [= <- <-].
    by rewrite (unlink_heap _ _ _ _ _ _ Eu).
  - destruct (removing t !! j) as [[n c]|]; [|done]. cbn. destruct (heap t !! n) as [s|] eqn:Es; [|done].
    cbn. intros [= <- <-]. cbn. apply (settled_insert _ _ _ s _ Hc Es). intros Hf Hw.
    destruct (take_and_abort_connected s) as [Hf' Hw']. destruct c; cbn; auto. rewrite Hf'. auto.
  - destruct (heap t !! n) as [s|] eqn:Es; [|done]. cbn. destruct (uplink_step _ ev) as [[u' o']|]; [|done].
    cbn. intros [= <- <-]. cbn. apply (settled_insert _ _ _ s _ Hc Es). cbn. auto.
Qed.

Lemma step_linked t e t' o i sid :
  table_inv t -> settled (heap t) sid -> not_remove i e = true -> linked t i sid ->
  table_step t e = Some (t', o) -> linked t' i sid.
Proof.
  intros Ht Hc Hnr Hl. destruct e as [i' fc|k|j|n|n al|n|i' h|j|n ev]; cbn [table_step].
  - unfold upsert_begin. destruct (shards t !! _) as [sh|] eqn:Es; [|done].
    destruct (creating sh); [done|]. destruct (smap sh !! i'); [by intros [= <- <-]|].
    destruct (_ <=? _); intros [= <- <-]; [done|]. revert Hl.
    by eapply (linked_insert t _ _ sh _ i sid Es); [reflexivity|].
  - unfold upsert_insert. destruct (shards t !! k) as [sh|] eqn:Es; [|done].
    destruct (creating sh) as [[i' fc]|] eqn:Ec; [|done]. intros [= <- <-].
    revert Hl. eapply (linked_insert t _ _ sh _ i sid Es); [reflexivity|]. cbn. intros _ Hi.
    destruct (ti_creating _ Ht _ _ _ _ Es Ec) as [_ Hn]. rewrite lookup_insert_ne by congruence. done.
  - destruct (finishing t !! j) as [[n p]|]; [|done]. cbn. destruct (heap t !! n) as [s|]; [|done].
    cbn. destruct (finish_phase t j n p s) as [t1|] eqn:Ef; [|done]. intros [= <- <-].
    unfold finish_phase in Ef. by repeat (case_match; simplify_eq/=).
  - destruct (heap t !! n) as [s|]; [|done]. cbn. unfold connect. intros [= He].
    by destruct (downlink_reader _); injection He as <- <-.
  - destruct (heap t !! n) as [s|]; [|done]. cbn. unfold reap. intros H.
    by repeat (case_match; simplify_eq/=).
  - destruct (heap t !! n) as [s|] eqn:Es; [|done]. cbn. destruct (task s) eqn:Ek; try done.
    destruct (unlink t _ _ _ _) as [t1|] eqn:Eu; [|done]. cbn.
    destruct (heap t1 !! n); [|done]. cbn. intros [= <- <-].
    apply (unlink_linked _ _ _ _ _ _ _ _ Ht Eu); [|done]. right. exists n. split; [done|].
    intros ->. destruct Hc as (x & Hx & _ & Hw). congruence.
  - destruct (unlink t _ _ _ _) as [t1|] eqn:Eu; [|done]. cbn. intros [= <- <-].
    apply (unlink_linked _ _ _ _ _ _ _ _ Ht Eu); [|done]. left. intros ->.
    cbn in Hnr. by rewrite bytes_eqb_refl in Hnr.
  - destruct (removing t !! j) as [[n c]|]; [|done]. cbn. destruct (heap t !! n) as [s|]; [|done].
    cbn. by intros [= <- <-].
  - destruct (heap t !! n) as [s|]; [|done]. cbn. destruct (uplink_step _ ev) as [[u' o']|]; [|done].
    cbn. by intros [= <- <-].
Qed.

Lemma run_linked evs t t' i sid :
  table_inv t -> settled (heap t) sid -> forallb (not_remove i) evs = true -> linked t i sid ->
  table_run evs t = Some t' -> linked t' i sid.
Proof.
  revert t. induction evs as [|e evs IH]; intros t Ht Hc Hnr Hl; cbn; [by intros [= <-]|].
  cbn in Hnr. apply andb_true_iff in Hnr as [He Hnr].
  destruct (table_step t e) as [[t1 o]|] eqn:Es; [|done]. cbn. apply IH; [| |done|].
  - by apply (step_table_inv t e t1 o).
  - by apply (step_heap_settled t e t1 o).
  - by apply (step_linked t e t1 o).
Qed.

(** * The download side is handed out once *)

Definition taken (h : list session) (sid : nat) : Prop :=
  exists s, h !! sid = Some s /\ downlink_reader s = false.

Lemma taken_insert h sid sid' s s' :
  taken h sid -> h !! sid' = Some s -> (downlink_reader s = false -> downlink_reader s' = false) ->
  taken (<[sid' := s']> h) sid.
Proof.
  intros (x & Hx & Hf) Hs Hs'. destruct (decide (sid' = sid)) as [->|Hne].
  - simplify_eq. exists s'. split; [|auto]. apply list_lookup_insert_eq. by eapply lookup_lt_Some.
  - exists x. by rewrite list_lookup_insert_ne.
Qed.

Lemma take_and_abort_reader s : downlink_reader (take_and_abort s) = downlink_reader s.
Proof. unfold take_and_abort. by case_match. Qed.

Lemma step_taken t e t' o sid :
  taken (heap t) sid -> table_step t e = Some (t', o) -> taken (heap t') sid.
Proof.
  intros Hc. destruct e as [i fc|k|j|n|n al|n|i h|j|n ev]; cbn [table_step].
  - unfold upsert_begin. intros H. by repeat (case_match; simplify_eq/=).
  - unfold upsert_insert. intros H. repeat (case_match; simplify_eq/=).
    destruct Hc as (x & Hx & ?). exists x. split; [|done]. by apply lookup_app_l_Some.
  - destruct (finishing t !! j) as [[n p]|]; [|done]. cbn. destruct (heap t !! n) as [s|] eqn:Es; [|done].
    cbn. destruct (finish_phase t j n p s) as [t1|] eqn:Ef; [|done]. intros [= <- <-].
    unfold finish_phase in Ef. by repeat (case_match; simplify_eq/=); apply (taken_insert _ _ _ s _ Hc Es).
  - destruct (heap t !! n) as [s|] eqn:Es; [|done]. cbn. unfold connect.
    rewrite take_and_abort_reader.
    destruct (downlink_reader (set_connected s)) eqn:Er; intros [= <- <-]; cbn;
      apply (taken_insert _ _ _ s _ Hc Es); [done|]. by rewrite take_and_abort_reader.
  - destruct (heap t !! n) as [s|] eqn:Es; [|done]. cbn. unfold reap. intros H.
    by repeat (case_match; simplify_eq/=); apply (taken_insert _ _ _ s _ Hc Es).
  - destruct (heap t !! n) as [s|] eqn:Es; [|done]. cbn. destruct (task s); try done.
    destruct (unlink t _ _ _ _) as [t1|] eqn:Eu; [|done]. cbn. apply unlink_heap in Eu.
    rewrite Eu, Es. cbn. intros [= <- <-]. cbn. by apply (taken_insert _ _ _ s _ Hc Es).
  - destruct (unlink t _ _ _ _) as [t1|] eqn:Eu; [|done]. cbn. intros [= <- <-].
    by rewrite (unlink_heap _ _ _ _ _ _ Eu).
  - destruct (removing t !! j) as [[n c]|]; [|done]. cbn. destruct (heap t !! n) as [s|] eqn:Es; [|done].
    cbn. intros [= <- <-]. cbn. apply (taken_insert _ _ _ s _ Hc Es).
    destruct c; cbn; by rewrite ?take_and_abort_reader.
  - destruct (heap t !! n) as [s|] eqn:Es; [|done]. cbn. destruct (uplink_step _ ev) as [[u' o']|]; [|done].
    cbn. intros [= <- <-]. by apply (taken_insert _ _ _ s _ Hc Es).
Qed.

Lemma run_taken evs t t' sid : taken (heap t) sid -> table_run evs t = Some t' -> taken (heap t') sid.
Proof.
  revert t. induction evs as [|e evs IH]; intros t Hc; cbn; [by intros [= <-]|].
  destruct (table_step t e) as [[t1 o]|] eqn:Es; [|done]. cbn. apply IH. by apply (step_taken t e t1 o).
Qed.

(** * Whole operations *)

(** [upsert], uninterrupted. *)
Definition upsert (t : table) (i : bytes) (fc : bool) : option (table * option nat) :=
  '(t1, o) ← upsert_begin t i fc;
  match o with
  | OFound sid => Some (t1, Some sid)
  | OCreating k =>
      '(t2, o2) ← upsert_insert t1 k;
      match o2 with
      | OCreated sid =>
          if fc then Some (t2, Some sid)
          else t3 ← table_run [EFinish 0; EFinish 0; EFinish 0] t2; Some (t3, Some sid)
      | _ => None
      end
  | _ => Some (t1, None)
  end.

(** [open_download]: [OCapacity], [OOpened] or [OConflict]. *)
Definition open_download (t : table) (i : bytes) : option (table * output) :=
  '(t1, r) ← upsert t i true;
  match r with
  | None => Some (t1, OCapacity)
  | Some sid => table_step t1 (EConnect sid)
  end.

(** [push_uplink] up to the first suspension of its push; [OCapacity] is [None]. *)
Definition push_uplink (t : table) (i : bytes) (seq : Z) (payload : bytes) : option (table * output) :=
  '(t1, r) ← upsert t i false;
  match r with
  | None => Some (t1, OCapacity)
  | Some sid => table_step t1 (EUplink sid (EPush seq payload))
  end.

(** [remove], uninterrupted. *)
Definition remove (t : table) (i : bytes) : option table :=
  t1 ← unlink t i (fnv1a i) None true;
  match lookup_session t i with
  | Some _ => table_run [ERemoved 0] t1
  | None => Some t1
  end.

(** No upsert is between its look-up and its insertion. *)
Definition quiet (t : table) : Prop := Forall (fun sh => creating sh = None) (shards t).

Lemma shard_of t i : table_inv t -> quiet t ->
  exists sh, shards t !! shard_index t (fnv1a i) = Some sh /\ creating sh = None.
Proof.
  intros Ht Hq. assert (shard_index t (fnv1a i) < length (shards t))%nat as Hlt.
  { pose proof (ti_len _ Ht). unfold shard_index, len in *.
    pose proof (Z.mod_pos_bound (fnv1a i) (Z.of_nat (length (shards t)))). lia. }
  destruct (lookup_lt_is_Some_2 _ _ Hlt) as [sh Hsh]. exists sh. split; [done|].
  by apply (Forall_lookup_1 _ _ _ _ Hq Hsh).
Qed.

Lemma idents_lookup t sid i h : idents t !! sid = Some (i, h) ->
  exists s, heap t !! sid = Some s /\ id s = i /\ id_hash s = h.
Proof.
  unfold idents. rewrite list_lookup_fmap. destruct (heap t !! sid) as [s|]; [|done].
  cbn. intros [= <- <-]. by exists s.
Qed.

(** Connecting a session: its reader is handed out if it is still there. *)
Lemma connect_spec t sid s :
  heap t !! sid = Some s ->
  exists t' o, table_step t (EConnect sid) = Some (t', o) /\ shards t' = shards t /\
    settled_connected (heap t') sid /\
    if downlink_reader s
    then o = OOpened (set_session_key (down s) (id s) (id_hash s)) else o = OConflict.
Proof.
  intros Hs. cbn. rewrite Hs. cbn. unfold connect. rewrite take_and_abort_reader. cbn.
  destruct (take_and_abort_id (set_connected s)) as [Hi Hh].
  destruct (take_and_abort_connected (set_connected s)) as [Hf _].
  assert (down (take_and_abort (set_connected s)) = down s) as Hd
    by (unfold take_and_abort; by case_match).
  assert (sid < length (heap t))%nat as Hlt by (by eapply lookup_lt_Some).
  destruct (downlink_reader s) eqn:Er; (do 2 eexists; split; [reflexivity|]; split; [done|]; split).
  - eexists. split; [by apply list_lookup_insert_eq|done].
  - by rewrite Hd, Hi, Hh.
  - eexists. split; [by apply list_lookup_insert_eq|]. by rewrite take_and_abort_reader.
  - done.
Qed.

(** * Properties *)

Section reachable.
Context {c : config} {b : option budget} {evs : list event} {t : table}.
Context (Hcap : 0 <= max_sessions c) (Hsmall : max_sessions c + Z.max (cfg_shards c) 1 < 2 ^ 64).
Context (Hrun : table_run evs (table_new c b) = Some t).

Local Lemma reachable_inv : table_inv t.
Proof. exact (run_table_inv _ _ _ (table_new_inv c b Hcap Hsmall) Hrun). Qed.

(** C16: the session counter is exact.  Whatever the interleaving of upserts,
    removals and reapers, the counter and the gauge are the registered sessions
    plus the removals that have not counted down yet, so they never underflow;
    and at most [max_sessions + shards - 1] sessions are registered, one extra
    for each other shard whose creator passed the check of the cap. *)
Theorem session_counter_exact :
  active t = sessions t + len (removing t) /\ active_sessions_gauge t = active t /\
  sessions t <= max_sessions (cfg t) + len (shards t) - 1.
Proof.
  destruct reachable_inv as [_ _ _ [Ha Hg] Hc _].
  pose proof (creators_bounds t). pose proof (len_nonneg (removing t)).
  split; [done|]. split; [done|]. lia.
Qed.

(** The shards implement one flat map.  A session found in any shard is the
    session its id looks up, carries that id and its hash, and so no id is
    registered twice. *)
Theorem shards_are_one_map k sh i sid :
  shards t !! k = Some sh -> smap sh !! i = Some sid ->
  lookup_session t i = Some sid /\
  exists s, heap t !! sid = Some s /\ id s = i /\ id_hash s = fnv1a i.
Proof.
  intros Hk Hi. destruct (ti_keys _ reachable_inv _ _ _ _ Hk Hi) as [-> Hid].
  split; [|by apply idents_lookup]. unfold lookup_session. by rewrite Hk.
Qed.

(** C29: an open download keeps its session.  From any reachable state in which
    the session registered for [i] is fully connected and its reaper has not
    already decided to remove it, no interleaving of other requests, reapers,
    removals of other ids and uplink activity unregisters it. *)
Theorem connected_session_survives i sid evs' t' :
  linked t i sid -> settled (heap t) sid -> forallb (not_remove i) evs' = true ->
  table_run evs' t = Some t' -> lookup_session t' i = Some sid.
Proof. intros Hl Hs Hn Hr. exact (run_linked _ _ _ _ _ reachable_inv Hs Hn Hl Hr). Qed.

(** [open_download] on a table no upsert is creating in: an unknown id is
    refused exactly when the cap is reached, else a session is created and its
    reader handed out; a known id gets the reader if nobody took it, otherwise
    [Conflict].  Whoever gets it, the session is marked connected. *)
Theorem open_download_spec i :
  quiet t ->
  exists t' o, open_download t i = Some (t', o) /\
  match lookup_session t i with
  | Some sid =>
      exists s, heap t !! sid = Some s /\ lookup_session t' i = Some sid /\
        settled_connected (heap t') sid /\
        if downlink_reader s then o = OOpened (set_session_key (down s) i (fnv1a i)) else o = OConflict
  | None =>
      if max_sessions (cfg t) <=? active t then t' = t /\ o = OCapacity
      else exists sid d, lookup_session t' i = Some sid /\ settled_connected (heap t') sid /\
             o = OOpened (set_session_key d i (fnv1a i))
  end.
Proof.
  intros Hq. destruct (shard_of t i reachable_inv Hq) as (sh & Hsh & Hcr).
  unfold open_download, upsert, upsert_begin, lookup_session. rewrite Hsh, Hcr. cbn [mbind option_bind].
  destruct (smap sh !! i) as [sid|] eqn:Ei.
  - destruct (ti_keys _ reachable_inv _ _ _ _ Hsh Ei) as [_ Hid].
    destruct (idents_lookup _ _ _ _ Hid) as (s & Hs & Hi & Hh).
    destruct (connect_spec t sid s Hs) as (t' & o & Hstep & Hshards & Hset & Ho).
    exists t', o. split; [done|]. exists s. split; [done|]. rewrite Hshards.
    rewrite (shard_index_eq t t') by (by rewrite Hshards). rewrite Hsh, Hi, Hh in *. done.
  - destruct (_ <=? _); [by exists t, OCapacity|].
    unfold upsert_insert. cbn [shards set_shards mbind option_bind].
    rewrite list_lookup_insert_eq by (by eapply lookup_lt_Some). cbn [creating smap].
    set (t2 := set_finishing _ _).
    assert (heap t2 !! length (heap t) = Some (new_session t i true)) as Hs by (cbn; by apply list_lookup_middle).
    destruct (connect_spec t2 _ _ Hs) as (t' & o & Hstep & Hshards & Hset & Ho).
    exists t', o. split; [exact Hstep|]. exists (length (heap t)), (down (new_session t i true)).
    rewrite (shard_index_eq t t') by (rewrite Hshards; cbn; by rewrite !length_insert).
    rewrite Hshards. cbn [shards t2 set_finishing set_active set_heap set_shards].
    rewrite list_insert_insert_eq, list_lookup_insert_eq by (by eapply lookup_lt_Some).
    cbn. rewrite lookup_insert_eq. done.
Qed.

End reachable.

(** The download side is exclusive.  Once a GET has been given the reader of
    a session object, every later attempt to open it is a [Conflict], whatever
    happens in between. *)
Theorem download_opened_once t sid t1 d evs t2 t3 o :
  table_step t (EConnect sid) = Some (t1, OOpened d) -> table_run evs t1 = Some t2 ->
  table_step t2 (EConnect sid) = Some (t3, o) -> o = OConflict.
Proof.
  intros H1 Hr H2. assert (taken (heap t1) sid) as Ht.
  { cbn in H1. destruct (heap t !! sid) as [s|] eqn:Es; [|done]. cbn in H1. unfold connect in H1.
    destruct (downlink_reader _); simplify_eq. cbn. eexists.
    split; [apply list_lookup_insert_eq; by eapply lookup_lt_Some|done]. }
  destruct (run_taken _ _ _ _ Ht Hr) as (s & Hs & Hd).
  destruct (connect_spec t2 sid s Hs) as (t' & o' & Hstep & _ & _ & Ho).
  rewrite Hd in Ho. congruence.
Qed.

(** * Concrete tables *)

Definition id_a : bytes := [97].
Definition id_b : bytes := [98].
Definition small_config : config := mk_config 2 1 4 100 4.

Lemma fnv1a_a : fnv1a id_a = 0xaf63dc4c8601ec8c.
Proof. vm_compute. reflexivity. Qed.

(** Two uploads create sessions at once; the first one's GET opens. *)
Definition table_evs : list event :=
  [EUpsert id_a false; EUpsert id_b true; EInsert 0; EInsert 1; EFinish 0; EFinish 0; EFinish 0;
   EConnect 0; EUplink 0 (EPush 0 [1; 2])].

Definition table_end : table :=
  default (table_new small_config None) (table_run table_evs (table_new small_config None)).

Lemma table_end_reached : table_run table_evs (table_new small_config None) = Some table_end.
Proof. vm_compute. reflexivity. Qed.

Lemma session_counter_exact_witness :
  sessions table_end = 2 /\ active table_end = sessions table_end + len (removing table_end).
Proof.
  split; [vm_compute; reflexivity|].
  exact (proj1 (session_counter_exact (c := small_config) (b := None) (evs := table_evs)
    ltac:(vm_compute; discriminate) ltac:(vm_compute; reflexivity) table_end_reached)).
Defined.

Definition shard_a : shard := mk_shard (<[id_a := 0%nat]> ∅) None.

Lemma shards_are_one_map_witness : lookup_session table_end id_a = Some 0%nat.
Proof.
  exact (proj1 (shards_are_one_map (c := small_config) (b := None) (evs := table_evs)
    ltac:(vm_compute; discriminate) ltac:(vm_compute; reflexivity) table_end_reached 0%nat
    shard_a id_a 0%nat ltac:(vm_compute; reflexivity) ltac:(vm_compute; reflexivity))).
Defined.

Lemma connected_session_survives_witness :
  lookup_session (default table_end (table_run [ERemove id_b (fnv1a id_b); ERemoved 0] table_end)) id_a
  = Some 0%nat.
Proof.
  apply (connected_session_survives (c := small_config) (b := None) (evs := table_evs)
    ltac:(vm_compute; discriminate) ltac:(vm_compute; reflexivity) table_end_reached id_a 0%nat
    [ERemove id_b (fnv1a id_b); ERemoved 0]).
  - vm_compute. reflexivity.
  - eexists. split; [vm_compute; reflexivity|]. split; [vm_compute; reflexivity|vm_compute; discriminate].
  - vm_compute. reflexivity.
  - vm_compute. reflexivity.
Defined.

Lemma open_download_spec_witness :
  exists t' o, open_download table_end id_a = Some (t', o) /\ o = OConflict.
Proof.
  destruct (open_download_spec (c := small_config) (b := None) (evs := table_evs)
    ltac:(vm_compute; discriminate) ltac:(vm_compute; reflexivity) table_end_reached id_a)
    as (t' & o & H & Ho); [vm_compute; repeat constructor|].
  exists t', o. split; [exact H|]. vm_compute in H. by injection H.
Defined.

Lemma download_opened_once_witness :
  snd <$> table_step (default table_end (table_run [ERemove id_a (fnv1a id_a); ERemoved 0] table_end)) (EConnect 0)
  = Some OConflict.
Proof.
  set (t2 := default table_end _).
  destruct (table_step t2 (EConnect 0)) as [[t3 o]|] eqn:E; [|vm_compute in E; discriminate].
  cbn. f_equal.
  set (t0 := default table_end (table_run (take 7 table_evs) (table_new small_config None))).
  destruct (table_step t0 (EConnect 0)) as [[t1 o1]|] eqn:E1; [|vm_compute in E1; discriminate].
  assert (exists d, o1 = OOpened d) as [d ->] by (vm_compute in E1; injection E1 as _ <-; eauto).
  apply (download_opened_once t0 0 t1 d
    [EUplink 0 (EPush 0 [1; 2]); ERemove id_a (fnv1a id_a); ERemoved 0] t2 t3 o E1); [|exact E].
  vm_compute in E1. injection E1 as <- _. vm_compute. reflexivity.
Defined.

(** * Races *)

(** The cap is checked under the lock of one shard only: two creators in
    different shards both pass it. *)
Theorem session_cap_overshoots :
  exists t, table_run [EUpsert id_a true; EUpsert id_b true; EInsert 0; EInsert 1]
              (table_new small_config None) = Some t /\
    max_sessions (cfg t) < sessions t.
Proof. eexists. split; vm_compute; reflexivity. Qed.

(** [remove_hashed] does not say which session object it means: after an upload
    error removed the first session of an id and a second one was opened, the
    end of the first GET unregisters the second session, whose GET is open. *)
Theorem stale_download_end_removes_new_session :
  exists t, table_run [EUpsert id_a true; EInsert 0; EConnect 0; ERemove id_a (fnv1a id_a); ERemoved 0;
                       EUpsert id_a true; EInsert 0; EConnect 1; ERemove id_a (fnv1a id_a)]
              (table_new small_config None) = Some t /\
    settled_connected (heap t) 1 /\ lookup_session t id_a = None.
Proof.
  eexists. split; [vm_compute; reflexivity|]. split; [|vm_compute; reflexivity].
  eexists. split; [vm_compute; reflexivity|split; reflexivity].
Qed.

(** The reaper reads [fully_connected] before it takes the lock: a GET that
    opens in between is given the reader of a session that is then removed. *)
Theorem reaper_removes_session_just_opened :
  exists t, table_run [EUpsert id_a false; EInsert 0; EFinish 0; EFinish 0; EFinish 0;
                       EReap 0 true; EConnect 0; EReapRemove 0]
              (table_new small_config None) = Some t /\
    settled_connected (heap t) 0 /\ lookup_session t id_a = None.
Proof.
  eexists. split; [vm_compute; reflexivity|]. split; [|vm_compute; reflexivity].
  eexists. split; [vm_compute; reflexivity|split; reflexivity].
Qed.
