(* ===== verification/Address.v ===== *)
(** [src/vless/address.rs]: the port-then-address codec of VLESS. *)

From S2P Require Import Prelude.

(** * Data *)

Definition ADDR_TYPE_IPV4 : Z := 1.
Definition ADDR_TYPE_DOMAIN : Z := 2.
Definition ADDR_TYPE_IPV6 : Z := 3.

(** [Address]: the IP addresses by their octets, a domain by its UTF-8 bytes. *)
Inductive address : Type :=
| Ipv4 (octets : bytes)
| Ipv6 (octets : bytes)
| Domain (name : bytes).

#[global] Instance address_eq_dec : EqDecision address.
Proof. solve_decision. Defined.

Inductive addr_error : Type :=
| Underrun
| UnknownType (t : Z)
| EmptyDomain
| BadDomainUtf8.

(** The values the Rust types admit: 4 and 16 octets, a valid [String]. *)
Definition address_wf (a : address) : Prop :=
  match a with
  | Ipv4 o => length o = 4%nat /\ bytes_ok o
  | Ipv6 o => length o = 16%nat /\ bytes_ok o
  | Domain d => bytes_ok d /\ utf8_valid d = true
  end.

(** The domains the one-byte length can carry. *)
Definition encodable (a : address) : Prop :=
  match a with Domain d => 0 < len d <= 255 | _ => True end.

(** * Operations *)

Definition parse_port_then_address (buf : bytes) : comp addr_error (Z * address * Z) :=
  _ ← fail_if (len buf <? 3) Underrun;
  b0 ← index buf 0;
  b1 ← index buf 1;
  atype ← index buf 2;
  let port := be_val [b0; b1] in
  let off := 3 in
  if atype =? ADDR_TYPE_IPV4 then
    _ ← fail_if (len buf <? off + 4) Underrun;
    o0 ← index buf off; o1 ← index buf (off + 1);
    o2 ← index buf (off + 2); o3 ← index buf (off + 3);
    mret (port, Ipv4 [o0; o1; o2; o3], off + 4)
  else if atype =? ADDR_TYPE_IPV6 then
    _ ← fail_if (len buf <? off + 16) Underrun;
    o ← slice buf off (off + 16);
    mret (port, Ipv6 o, off + 16)
  else if atype =? ADDR_TYPE_DOMAIN then
    _ ← fail_if (len buf <? off + 1) Underrun;
    dlen ← index buf off;
    let off := off + 1 in
    _ ← fail_if (dlen =? 0) EmptyDomain;
    _ ← fail_if (len buf <? off + dlen) Underrun;
    d ← slice buf off (off + dlen);
    _ ← fail_if (negb (utf8_valid d)) BadDomainUtf8;
    mret (port, Domain d, off + dlen)
  else Fail (UnknownType atype).

Definition write_port_then_address (out : bytes) (port : Z) (a : address) : bytes :=
  out ++ be_bytes 2 port ++
  match a with
  | Ipv4 o => [ADDR_TYPE_IPV4] ++ o
  | Ipv6 o => [ADDR_TYPE_IPV6] ++ o
  | Domain d => [ADDR_TYPE_DOMAIN] ++ [as_u8 (len d)] ++ d
  end.

(** * Lemmas *)

Lemma be_bytes_2 n : exists a b, be_bytes 2 n = [a; b].
Proof. cbn. eauto. Qed.

Lemma length_is_4 {A} (l : list A) : length l = 4%nat -> exists a b c d, l = [a; b; c; d].
Proof. destruct l as [|a [|b [|c [|d [|]]]]]; try done. eauto 6. Qed.

(** Parsing what was written, with anything after it. *)
Lemma parse_write port a rest :
  uint_ok 16 port -> address_wf a -> encodable a ->
  parse_port_then_address (write_port_then_address [] port a ++ rest)
  = Val (port, a, len (write_port_then_address [] port a)).
Proof.
  intros Hp Hw He. unfold write_port_then_address, parse_port_then_address.
  assert (be_val (be_bytes 2 port) = port) as Hval by (by apply be_val_be_bytes).
  destruct (be_bytes_2 port) as (x & y & Exy). rewrite Exy in *. pose proof (len_nonneg rest).
  destruct a as [o|o|d]; cbn [app] in *.
  - destruct Hw as [Hl Ho]. destruct (length_is_4 o Hl) as (a & b & c & e & ->). cbn [app].
    rewrite !len_cons. comp_run. by rewrite Hval.
  - destruct Hw as [Hl Ho]. assert (len o = 16) as Hlo by (unfold len; lia).
    rewrite !len_cons, len_app. comp_run. rewrite Hval.
    rewrite (slice_app [x; y; 3] o rest) by (rewrite ?len_cons, ?len_nil; lia). comp_run.
    unfold mret, comp_ret. do 2 f_equal. lia.
  - destruct Hw as [Ho Hu]. cbn in He.
    assert (as_u8 (len d) = len d) as Has by (unfold as_u8; apply Z.mod_small; lia).
    rewrite Has, !len_cons, len_app. comp_run.
    rewrite (slice_app [x; y; 2; len d] d rest) by (rewrite ?len_cons, ?len_nil; lia).
    comp_run. rewrite Hval. unfold mret, comp_ret. do 2 f_equal. lia.
Qed.

(** The parser as a case analysis on the address type and the bytes that are
    there: no index or slice of it is out of bounds. *)
Definition parse_view (x y t : Z) (rest : bytes) : comp addr_error (Z * address * Z) :=
  let port := be_val [x; y] in
  if t =? ADDR_TYPE_IPV4 then
    if len rest <? 4 then Fail Underrun else Val (port, Ipv4 (take 4 rest), 7)
  else if t =? ADDR_TYPE_IPV6 then
    if len rest <? 16 then Fail Underrun else Val (port, Ipv6 (take 16 rest), 19)
  else if t =? ADDR_TYPE_DOMAIN then
    match rest with
    | [] => Fail Underrun
    | l :: r =>
        if l =? 0 then Fail EmptyDomain
        else if len r <? l then Fail Underrun
        else let d := take (Z.to_nat l) r in
             if utf8_valid d then Val (port, Domain d, 4 + l) else Fail BadDomainUtf8
    end
  else Fail (UnknownType t).

Lemma parse_short buf : len buf < 3 -> parse_port_then_address buf = Fail Underrun.
Proof. intros H. unfold parse_port_then_address. by comp_run. Qed.

Lemma take_4 {A} (l : list A) : 4 <= len l -> exists a b c d r, l = a :: b :: c :: d :: r.
Proof. destruct l as [|a [|b [|c [|d r]]]]; unfold len; cbn; try lia. eauto 7. Qed.

Lemma parse_long x y t rest :
  bytes_ok (x :: y :: t :: rest) ->
  parse_port_then_address (x :: y :: t :: rest) = parse_view x y t rest.
Proof.
  intros Hok. unfold parse_port_then_address, parse_view. pose proof (len_nonneg rest).
  rewrite !len_cons. comp_run. destruct (t =? ADDR_TYPE_IPV4).
  { destruct (len rest <? 4) eqn:E; split_bool.
    - by comp_run.
    - destruct (take_4 _ E) as (a & b & c & d & r & ->). comp_run. done. }
  destruct (t =? ADDR_TYPE_IPV6).
  { destruct (len rest <? 16) eqn:E; split_bool.
    - by comp_run.
    - comp_run. rewrite slice_in by (rewrite ?len_cons; lia). comp_run. done. }
  destruct (t =? ADDR_TYPE_DOMAIN); [|done]. destruct rest as [|l r]; [done|].
  rewrite len_cons in *. pose proof (len_nonneg r). comp_run.
  do 3 apply Forall_cons_iff in Hok as [_ Hok]. apply Forall_cons_iff in Hok as [Hl _].
  unfold byte_ok in Hl. destruct (l =? 0) eqn:E0; [done|]. split_bool. comp_run.
  destruct (len r <? l) eqn:E; split_bool; [by comp_run|].
  comp_run. rewrite slice_in by (rewrite ?len_cons; lia). replace (3 + 1 + l - (3 + 1)) with l by lia.
  cbn [Z.to_nat Z.add Pos.to_nat Pos.iter_op Nat.add drop]. cbn [drop Nat.add Pos.add Pos.succ Pos.to_nat Pos.iter_op Init.Nat.add].
  comp_run. by destruct (utf8_valid _).
Qed.

Lemma port_of_bytes x y : byte_ok x -> byte_ok y ->
  uint_ok 16 (be_val [x; y]) /\ be_bytes 2 (be_val [x; y]) = [x; y].
Proof.
  intros Hx Hy. assert (bytes_ok [x; y]) as Hok by (by repeat apply Forall_cons_2; try apply Forall_nil_2).
  split; [exact (be_val_bound _ Hok)|exact (be_bytes_be_val _ Hok)].
Qed.

Lemma length_take_len {A} n (l : list A) : Z.of_nat n <= len l -> length (take n l) = n.
Proof. unfold len. intros. rewrite length_take. lia. Qed.

Lemma parse_sound buf port a n :
  bytes_ok buf -> parse_port_then_address buf = Val (port, a, n) ->
  uint_ok 16 port /\ address_wf a /\ encodable a /\
  buf = write_port_then_address [] port a ++ drop (Z.to_nat n) buf /\
  n = len (write_port_then_address [] port a).
Proof.
  intros Hok Hp. destruct buf as [|x [|y [|t rest]]]; try (by rewrite parse_short in Hp).
  rewrite parse_long in Hp by done. unfold parse_view in Hp.
  apply Forall_cons_iff in Hok as [Hx Hok]. apply Forall_cons_iff in Hok as [Hy Hok].
  apply Forall_cons_iff in Hok as [_ Hok]. pose proof (port_of_bytes x y Hx Hy) as Hport.
  generalize dependent (be_val [x; y]). intros p0 Hp [Hport Hpb]. unfold write_port_then_address. repeat (case_match; try done); simplify_eq; split_bool; subst;
    (split; [done|]); rewrite Hpb; cbn [address_wf encodable app].
  - pose proof (length_take_len 4 rest ltac:(lia)) as Hl. repeat split; auto with bytes.
    + change (Z.to_nat 7) with (3 + 4)%nat. cbn [app drop Nat.add]. by rewrite take_drop.
    + rewrite !len_cons. unfold len. rewrite Hl. done.
  - pose proof (length_take_len 16 rest ltac:(lia)) as Hl. repeat split; auto with bytes.
    + change (Z.to_nat 19) with (3 + 16)%nat. cbn [app drop Nat.add]. by rewrite take_drop.
    + rewrite !len_cons. unfold len. rewrite Hl. done.
  - apply Forall_cons_iff in Hok as [Hb Hok]. unfold byte_ok in Hb.
    match goal with |- context [take (Z.to_nat ?v) ?r] => rename v into v0; rename r into r0 end.
    pose proof (length_take_len (Z.to_nat v0) r0 ltac:(lia)) as Hl.
    assert (len (take (Z.to_nat v0) r0) = v0) as Hlen by (unfold len; rewrite Hl; lia).
    unfold as_u8. rewrite Hlen, Z.mod_small by lia.
    repeat split; auto with bytes; try lia.
    + replace (Z.to_nat (4 + v0)) with (4 + Z.to_nat v0)%nat by lia. cbn [app drop Nat.add].
      by rewrite take_drop.
    + rewrite !len_cons, Hlen. lia.
Qed.

Lemma parse_graceful buf : bytes_ok buf -> graceful (parse_port_then_address buf).
Proof.
  intros Hok. destruct buf as [|x [|y [|t rest]]]; try (by rewrite parse_short).
  rewrite parse_long by done. unfold parse_view. by repeat (case_match; try done).
Qed.

(** * Theorems *)

(** The address codec is exact.  [parse_port_then_address] never panics, and
    it returns a port, an address and a length exactly when the buffer starts
    with what [write_port_then_address] writes for them, that many bytes long:
    every parsed value is well formed (IP addresses of 4 or 16 octets, valid
    UTF-8 domains of 1 to 255 bytes) and every well-formed value parses back,
    whatever follows it. *)
Theorem address_codec_exact buf :
  bytes_ok buf ->
  graceful (parse_port_then_address buf) /\
  forall port a n,
    parse_port_then_address buf = Val (port, a, n) <->
    uint_ok 16 port /\ address_wf a /\ encodable a /\
    n = len (write_port_then_address [] port a) /\
    exists rest, buf = write_port_then_address [] port a ++ rest.
Proof.
  intros Hok. split; [by apply parse_graceful|]. intros port a n. split.
  - intros Hp. destruct (parse_sound _ _ _ _ Hok Hp) as (? & ? & ? & ? & ?). eauto 7.
  - intros (Hp & Hw & He & -> & rest & ->). by apply parse_write.
Qed.

Lemma address_codec_exact_witness :
  parse_port_then_address [1; 187; 2; 3; 97; 46; 98; 255] = Val (443, Domain [97; 46; 98], 7).
Proof.
  apply (address_codec_exact [1; 187; 2; 3; 97; 46; 98; 255]).
  - by apply bytes_okb_ok.
  - split; [done|]. split; [split; [by apply bytes_okb_ok|done]|].
    split; [vm_compute; split; congruence|]. split; [done|]. by exists [255].
Defined.

(** A domain of more than 255 bytes is written with its length truncated to one
    byte, so what is written does not parse back. *)
Theorem long_domain_is_truncated :
  let a := Domain (replicate 258 97) in
  address_wf a /\
  parse_port_then_address (write_port_then_address [] 443 a) = Val (443, Domain [97; 97], 6).
Proof.
  split; [|vm_compute; reflexivity]. split; [|vm_compute; reflexivity].
  apply bytes_ok_replicate. by unfold byte_ok.
Qed.
