(* ===== verification/Addons.v ===== *)
(** [src/vless/addons.rs]: the hand-written protobuf codec of the header addons.

    The release build wraps on overflow, so the index arithmetic of the decoder
    is written out modulo [2 ^ 64]. *)

From S2P Require Import Prelude.

(** * Data *)

Definition XRV : bytes := bytes_of_string "xtls-rprx-vision".

Record addons := mk_addons { flow : bytes; seed : bytes }.

Definition addons_default : addons := mk_addons [] [].

Inductive addons_error : Type :=
| Truncated
| TooLong (n : Z)
| BadWire
| BadUtf8.

(** * Operations *)

(** [read_varint] from position [i] of the iteration on. *)
Fixpoint read_varint_from (b : bytes) (i shift result : Z) : option (Z * Z) :=
  match b with
  | [] => None
  | byte :: b' =>
      if 64 <=? shift then None
      else
        let result' := Z.lor result (wrap 64 (Z.shiftl (Z.land byte 0x7f) shift)) in
        if Z.land byte 0x80 =? 0 then Some (result', i + 1)
        else read_varint_from b' (i + 1) (shift + 7) result'
  end.

Definition read_varint (b : bytes) : option (Z * Z) := read_varint_from b 0 0 0.

(** [write_varint]; a [u64] takes at most ten rounds. *)
Fixpoint write_varint_fuel (fuel : nat) (out : bytes) (v : Z) : bytes :=
  match fuel with
  | O => out
  | S f =>
      let byte := Z.land v 0x7f in
      let v' := Z.shiftr v 7 in
      if v' =? 0 then out ++ [byte]
      else write_varint_fuel f (out ++ [Z.lor byte 0x80]) v'
  end.

Definition write_varint (out : bytes) (v : Z) : bytes := write_varint_fuel 10 out v.

(** The loop of [decode_addons_body] at index [i]. *)
Fixpoint decode_loop (fuel : nat) (body : bytes) (i : Z) (a : addons) : comp addons_error addons :=
  match fuel with
  | O => Diverge
  | S f =>
      if i <? len body then
        tag ← index body i;
        let i := wrap 64 (i + 1) in
        let field := Z.shiftr tag 3 in
        let wire := Z.land tag 0x7 in
        if ((field =? 1) || (field =? 2)) && (wire =? 2) then
          rest ← slice body i (len body);
          '(n, adv) ← lift (fun e => e) (ok_or (read_varint rest) BadWire);
          let i := wrap 64 (i + adv) in
          _ ← fail_if (len body <? wrap 64 (i + n)) Truncated;
          part ← slice body i (wrap 64 (i + n));
          let i := wrap 64 (i + n) in
          if field =? 1 then
            _ ← fail_if (negb (utf8_valid part)) BadUtf8;
            decode_loop f body i (mk_addons part (seed a))
          else decode_loop f body i (mk_addons (flow a) part)
        else if wire =? 0 then
          rest ← slice body i (len body);
          '(_, adv) ← lift (fun e => e) (ok_or (read_varint rest) BadWire);
          decode_loop f body (wrap 64 (i + adv)) a
        else if wire =? 2 then
          rest ← slice body i (len body);
          '(n, adv) ← lift (fun e => e) (ok_or (read_varint rest) BadWire);
          decode_loop f body (wrap 64 (i + wrap 64 (adv + n))) a
        else Fail BadWire
      else Val a
  end.

(** Every round of the loop that does not wrap moves past at least two bytes,
    so as many rounds as there are bytes, and one to leave, are enough. *)
Definition decode_addons_body (body : bytes) : comp addons_error addons :=
  decode_loop (S (length body)) body 0 addons_default.

Definition encode_body (a : addons) : bytes :=
  let body := write_varint [10] (len (flow a)) ++ flow a in
  match seed a with
  | [] => body
  | _ => write_varint (body ++ [18]) (len (seed a)) ++ seed a
  end.

Definition encode_addons (a : addons) : result addons_error bytes :=
  if negb (bytes_eqb (flow a) XRV) then Ok [0]
  else
    let body := encode_body a in
    if 255 <? len body then Err (TooLong (len body))
    else Ok (as_u8 (len body) :: body).

(** * Lemmas *)

Example read_varint_300 : read_varint [0xac; 2; 7] = Some (300, 2).
Proof. reflexivity. Qed.

(** The continuation bit of a byte. *)
Lemma low_byte b : 0 <= b < 128 ->
  Z.land b 0x7f = b /\ Z.land b 0x80 = 0 /\
  Z.land (Z.lor b 0x80) 0x7f = b /\ Z.land (Z.lor b 0x80) 0x80 = 128.
Proof.
  intros Hb. pose proof (by_enumeration (fun b =>
    (Z.land b 0x7f =? b) && (Z.land b 0x80 =? 0) && (Z.land (Z.lor b 0x80) 0x7f =? b)
    && (Z.land (Z.lor b 0x80) 0x80 =? 128)) 128 ltac:(vm_compute; reflexivity) b Hb) as H. cbv beta in H. split_bool. by repeat split.
Qed.

Lemma land_127 v : 0 <= v -> Z.land v 0x7f = v mod 128.
Proof. intros. change 0x7f with (Z.ones 7). by rewrite Z.land_ones. Qed.

Lemma write_varint_fuel_app f out v :
  write_varint_fuel f out v = out ++ write_varint_fuel f [] v.
Proof.
  revert out v. induction f as [|f IH]; intros out v; cbn; [by rewrite app_nil_r|].
  case_match; [done|]. rewrite IH, (IH [_]). by rewrite <- app_assoc.
Qed.

(** Reading back what was written, with [s] bits collected in [r]. *)
Lemma read_write_varint_fuel f v i s r rest :
  0 <= v < 2 ^ (7 * Z.of_nat f) -> 0 <= s -> 0 <= r < 2 ^ s -> v * 2 ^ s < 2 ^ 64 ->
  (f <> 0)%nat -> s < 64 ->
  read_varint_from (write_varint_fuel f [] v ++ rest) i s r
  = Some (r + v * 2 ^ s, i + len (write_varint_fuel f [] v)).
Proof.
  revert v i s r. induction f as [|f IH]; intros v i s r Hv Hs Hr Hb Hf Hs64; [done|].
  cbn [write_varint_fuel]. rewrite land_127, Z.shiftr_div_pow2 by lia. change (2 ^ 7) with 128.
  pose proof (Z.mod_pos_bound v 128 ltac:(lia)) as Hm. pose proof (Z.div_mod v 128 ltac:(lia)) as Hd.
  destruct (low_byte (v mod 128) Hm) as (H1 & H2 & H3 & H4).
  assert (0 < 2 ^ s) by (apply Z.pow_pos_nonneg; lia).
  assert (0 <= v / 128) by (apply Z.div_pos; lia).
  assert (wrap 64 (Z.shiftl (v mod 128) s) = Z.shiftl (v mod 128) s) as Hw.
  { unfold wrap. rewrite Z.shiftl_mul_pow2 by done. apply Z.mod_small. nia. }
  destruct (v / 128 =? 0) eqn:E; split_bool.
  - cbn [app read_varint_from]. rewrite (proj2 (Z.leb_gt _ _)) by lia. rewrite H1, H2, Hw. cbn [Z.eqb].
    rewrite lor_shiftl by done. do 2 f_equal. lia.
  - rewrite write_varint_fuel_app. cbn [app read_varint_from].
    rewrite (proj2 (Z.leb_gt _ _)) by lia. rewrite H3, H4, Hw. cbn [Z.eqb].
    rewrite lor_shiftl by done. rewrite len_cons.
    assert (2 ^ (7 * Z.of_nat (S f)) = 128 * 2 ^ (7 * Z.of_nat f)) as Hp7
      by (rewrite <- Z.pow_add_r with (a := 2) (b := 7) by lia; f_equal; lia).
    assert (2 ^ (s + 7) = 128 * 2 ^ s) as Hps by (rewrite Z.pow_add_r by lia; lia).
    assert (s + 7 < 64) as Hs7.
    { apply (Z.pow_lt_mono_r_iff 2); [lia|lia|]. rewrite Hps. nia. }
    rewrite IH; [| |lia| | | |done].
    + rewrite Hps. do 2 f_equal; [nia|lia].
    + split; [done|]. apply Z.div_lt_upper_bound; lia.
    + rewrite Hps. nia.
    + rewrite Hps. nia.
    + intros ->. cbn in Hp7. rewrite Z.div_small in E; lia.
Qed.

Lemma read_write_varint v rest :
  uint_ok 64 v -> read_varint (write_varint [] v ++ rest) = Some (v, len (write_varint [] v)).
Proof.
  intros Hv. unfold uint_ok in Hv. unfold read_varint, write_varint.
  assert (v < 2 ^ (7 * Z.of_nat 10)) by (transitivity (2 ^ 64); [lia|done]).
  rewrite read_write_varint_fuel by (done || lia). do 2 f_equal. lia.
Qed.

Lemma write_varint_app out v : write_varint out v = out ++ write_varint [] v.
Proof. apply write_varint_fuel_app. Qed.

Lemma write_varint_ok v : 0 <= v -> bytes_ok (write_varint [] v).
Proof.
  unfold write_varint. generalize 10%nat. intros f. revert v.
  induction f as [|f IH]; intros v Hv; cbn; [constructor|].
  pose proof (Z.mod_pos_bound v 128 ltac:(lia)) as Hm. rewrite land_127 by done.
  case_match; [constructor; [unfold byte_ok; lia|constructor]|].
  rewrite write_varint_fuel_app. cbn. constructor; [|apply IH; apply Z.shiftr_nonneg; lia].
  pose proof (by_enumeration (fun b => (0 <=? Z.lor b 0x80) && (Z.lor b 0x80 <? 256)) 128
    ltac:(vm_compute; reflexivity) _ Hm) as Hl. cbv beta in Hl. split_bool. done.
Qed.

Lemma wrap_small n : 0 <= n < 2 ^ 64 -> wrap 64 n = n.
Proof. apply Z.mod_small. Qed.

(** One field of the message, from the start of its tag. *)
Lemma decode_field f pre tag part rest a :
  tag = 10 \/ tag = 18 -> (tag = 10 -> utf8_valid part = true) ->
  let body := pre ++ tag :: write_varint [] (len part) ++ part ++ rest in
  len body < 2 ^ 63 ->
  decode_loop (S f) body (len pre) a
  = decode_loop f body (len body - len rest)
      (if tag =? 10 then mk_addons part (seed a) else mk_addons (flow a) part).
Proof.
  intros Htag Hutf body Hlen. cbn [decode_loop]. unfold body in *.
  set (w := write_varint [] (len part)) in *. set (b := pre ++ _) in *.
  assert (len b = len pre + 1 + len w + len part + len rest) as Hb
    by (unfold b; rewrite !len_app, len_cons, !len_app; lia).
  pose proof (len_nonneg pre). pose proof (len_nonneg w). pose proof (len_nonneg part).
  pose proof (len_nonneg rest).
  comp_step. rewrite (comp_bind_val tag) by (by apply index_app). cbv zeta.
  rewrite (wrap_small (len pre + 1)) by lia.
  assert (@slice addons_error Z b (len pre + 1) (len b) = Val (w ++ part ++ rest)) as Hs1.
  { unfold b. change (tag :: w ++ part ++ rest) with ([tag] ++ w ++ part ++ rest).
    rewrite (app_assoc pre). apply slice_tail; rewrite !len_app, ?len_cons, ?len_nil; lia. }
  assert (read_varint (w ++ part ++ rest) = Some (len part, len w)) as Hr
    by (apply read_write_varint; unfold uint_ok; lia).
  assert (@slice addons_error Z b (len pre + 1 + len w) (len pre + 1 + len w + len part) = Val part) as Hs2.
  { unfold b. change (tag :: w ++ part ++ rest) with ([tag] ++ w ++ part ++ rest).
    rewrite (app_assoc pre), (app_assoc (pre ++ [tag])).
    apply slice_app; rewrite ?len_app, ?len_cons, ?len_nil; lia. }
  assert (len b - len rest = len pre + 1 + len w + len part) as -> by lia.
  destruct Htag as [-> | ->];
    change (Z.shiftr 10 3) with 1; change (Z.shiftr 18 3) with 2;
    change (Z.land 10 7) with 2; change (Z.land 18 7) with 2; cbn [Z.eqb Pos.eqb orb andb];
    rewrite Hs1, (comp_bind_val (w ++ part ++ rest)), Hr, (comp_bind_val (len part, len w)) by done; cbv zeta;
    rewrite !(wrap_small (len pre + 1 + len w)) by lia;
    rewrite !(wrap_small (len pre + 1 + len w + len part)) by lia; comp_step;
    rewrite (comp_bind_val part) by done; cbv zeta; [|done].
  rewrite Hutf by done. done.
Qed.

Lemma decode_done f body i a : len body <= i -> decode_loop (S f) body i a = Val a.
Proof. intros H. cbn [decode_loop]. by rewrite (proj2 (Z.ltb_ge _ _)) by lia. Qed.

Lemma decode_encode_body a :
  utf8_valid (flow a) = true -> len (encode_body a) <= 255 ->
  decode_addons_body (encode_body a) = Val a.
Proof.
  destruct a as [fl sd]. unfold encode_body, decode_addons_body. cbn [flow seed]. intros Hu Hlen.
  destruct sd as [|s0 sd].
  - rewrite (write_varint_app [10]) in *. rewrite <- ?app_assoc in *. cbn [app length] in *.
    pose proof (decode_field (S (length (write_varint [] (len fl) ++ fl))) [] 10 fl [] addons_default
      (or_introl eq_refl) (fun _ => Hu)) as Hf. cbv zeta in Hf. rewrite app_nil_r in Hf.
    rewrite len_nil in Hf. cbn [app] in Hf. rewrite Hf by lia.
    rewrite Z.sub_0_r. by apply decode_done.
  - set (sd' := s0 :: sd) in *. rewrite (write_varint_app [10]), (write_varint_app (_ ++ [18])) in *.
    rewrite <- ?app_assoc in *. cbn [app length] in *.
    set (w1 := write_varint [] (len fl)) in *. set (w2 := write_varint [] (len sd')) in *.
    pose proof (decode_field (S (length (w1 ++ fl ++ 18 :: w2 ++ sd'))) [] 10 fl (18 :: w2 ++ sd')
      addons_default (or_introl eq_refl) (fun _ => Hu)) as Hf. cbv zeta in Hf.
    rewrite len_nil in Hf. cbn [app] in Hf. fold w1 in Hf. rewrite Hf by lia. clear Hf.
    cbn [Z.eqb Pos.eqb]. set (n := S _).
    assert (exists m, n = S (S m)) as [m ->].
    { exists (length w1 + length fl + length (w2 ++ sd'))%nat. unfold n. rewrite !length_app. cbn [length].
      rewrite !length_app. lia. }
    pose proof (decode_field (S m) (10 :: w1 ++ fl) 18 sd' []
      (mk_addons fl []) (or_intror eq_refl) ltac:(done)) as Hf. cbv zeta in Hf. fold w2 in Hf.
    rewrite app_nil_r in Hf. cbn [app] in Hf. rewrite <- !app_assoc in Hf.
    replace (len (10 :: w1 ++ fl ++ 18 :: w2 ++ sd') - len (18 :: w2 ++ sd')) with (len (10 :: w1 ++ fl))
      by (change (10 :: w1 ++ fl ++ 18 :: w2 ++ sd') with ((10 :: w1) ++ fl ++ 18 :: w2 ++ sd');
          rewrite app_assoc, len_app; cbn [app]; lia).
    cbn [seed addons_default]. rewrite Hf by lia. rewrite len_nil, Z.sub_0_r. by apply decode_done.
Qed.

(** ** Termination *)

Lemma read_varint_from_bounds b i s r n adv :
  0 <= r -> read_varint_from b i s r = Some (n, adv) -> 0 <= n /\ i + 1 <= adv <= i + len b.
Proof.
  revert i s r. induction b as [|x b IH]; intros i s r Hr; cbn [read_varint_from]; [done|].
  case_match; [done|]. rewrite len_cons. pose proof (len_nonneg b).
  assert (0 <= Z.lor r (wrap 64 (Z.shiftl (Z.land x 127) s))) as Hr'
    by (apply Z.lor_nonneg; split; [done|]; apply Z.mod_pos_bound; lia).
  case_match; [intros [= <- <-]; lia|]. intros H'. apply IH in H'; [lia|done].
Qed.

Lemma read_varint_bounds b n adv :
  read_varint b = Some (n, adv) -> 0 <= n /\ 1 <= adv <= len b.
Proof. intros H. apply read_varint_from_bounds in H; lia. Qed.

(** No length in the body reaches half the address space. *)
Definition sane_lengths (body : bytes) : Prop :=
  forall k n adv, read_varint (drop k body) = Some (n, adv) -> n < 2 ^ 63.

Lemma decode_loop_graceful f body i a :
  sane_lengths body -> len body < 2 ^ 32 -> 0 <= i -> len body - i < Z.of_nat f -> (f <> 0)%nat ->
  graceful (decode_loop f body i a).
Proof.
  intros Hs Hl. revert i a. induction f as [|f IH]; intros i a Hi Hf Hf0; [done|].
  cbn [decode_loop]. destruct (i <? len body) eqn:E; [|done]. split_bool.
  destruct (index_in (E := addons_error) body i) as (tag & -> & _); [lia|]. cbn [mbind comp_bind].
  unfold mbind, comp_bind. rewrite (wrap_small (i + 1)) by lia.
  rewrite slice_in by lia. set (rest := take _ _).
  assert (rest = drop (Z.to_nat (i + 1)) body) as Hrest
    by (unfold rest; apply take_ge; rewrite length_drop; unfold len; lia).
  assert (len rest = len body - (i + 1)) as Hlr by (rewrite Hrest; unfold len in *; rewrite length_drop; lia).
  clearbody rest.
  destruct (read_varint rest) as [[n adv]|] eqn:Er; cbn [ok_or lift]; [|by repeat case_match].
  pose proof (read_varint_bounds _ _ _ Er) as [Hn Hadv]. rewrite Hrest in Er. apply Hs in Er.
  rewrite !(wrap_small (i + 1 + adv)), !(wrap_small (i + 1 + adv + n)), !(wrap_small (adv + n)),
    !(wrap_small (i + 1 + (adv + n))) by lia.
  repeat case_match; try done; try (apply IH; lia).
  all: unfold fail_if in *; repeat case_match; try done; split_bool; simplify_eq; try (apply IH; lia).
  all: match goal with H : slice _ _ _ = _ |- _ => rewrite slice_in in H by lia; simplify_eq; try (apply IH; lia) end.
Qed.

(** * Theorems *)

(** Addons round trip.  For a Vision flow whose message fits its one-byte
    length, decoding the body [encode_addons] wrote gives the addons back; any
    other flow is written as the single byte 0. *)
Theorem addons_roundtrip a :
  match encode_addons a with
  | Ok (n :: body) =>
      if bytes_eqb (flow a) XRV
      then n = len body /\ decode_addons_body body = Val a
      else n = 0 /\ body = []
  | Ok [] => False
  | Err e => flow a = XRV /\ 255 < len (encode_body a) /\ e = TooLong (len (encode_body a))
  end.
Proof.
  unfold encode_addons. destruct (bytes_eqb (flow a) XRV) eqn:E; cbn [negb]; [|done].
  apply bytes_eqb_eq in E. destruct (255 <? len (encode_body a)) eqn:El; split_bool; [done|].
  pose proof (len_nonneg (encode_body a)). split; [unfold as_u8; apply Z.mod_small; lia|].
  apply decode_encode_body; [by rewrite E|lia].
Qed.

(** The decoder terminates without a panic on every body in which no length
    field reaches 2^63, however malformed it is otherwise. *)
Theorem addons_decoder_total body :
  sane_lengths body -> len body < 2 ^ 32 -> graceful (decode_addons_body body).
Proof.
  intros Hs Hl. unfold decode_addons_body. apply decode_loop_graceful; auto; unfold len in *; lia.
Qed.

(** A skipped field of length 2^64 - 11 moves the index back to the start: the
    decoder never leaves this 11-byte body, whatever the fuel. *)
Definition looping_body : bytes := [0x1a; 0xf5; 0xff; 0xff; 0xff; 0xff; 0xff; 0xff; 0xff; 0xff; 0x01].

(** The decoder loops forever on an 11-byte body whose unknown field claims
    2^64 - 11 bytes, because the index wraps around to 0. *)
Theorem addons_decoder_loops fuel : decode_loop fuel looping_body 0 addons_default = Diverge.
Proof. induction fuel as [|f IH]; [done|]. exact IH. Qed.

(** A flow field that claims 2^64 - 1 bytes passes the bounds check, because
    the sum wraps around, and the slice that follows panics. *)
Theorem addons_decoder_panics :
  decode_addons_body [0x0a; 0xff; 0xff; 0xff; 0xff; 0xff; 0xff; 0xff; 0xff; 0xff; 0x01] = Crash.
Proof. vm_compute. reflexivity. Qed.

Lemma addons_decoder_total_witness : graceful (decode_addons_body [0x0a; 0x03; 0x61; 0x62; 0x63; 0x1b]).
Proof.
  apply addons_decoder_total; [|done]. intros k n adv H.
  do 7 (destruct k as [|k]; [vm_compute in H; by simplify_eq|]). by destruct k.
Defined.
