(* ===== verification/Header.v ===== *)
(** [src/vless/validator.rs] and [src/vless/header.rs]: the user table, and the
    decoding and authentication of a VLESS request header. *)

From S2P Require Import Prelude Address Addons.

(** * The user table *)

Record user := mk_user { uid : bytes; email : bytes; user_flow : bytes }.

(** [process_uuid]: bytes 6 and 7 carry a route hint and are zeroed. *)
Definition process_uuid (i : bytes) : bytes := <[7%nat := 0]> (<[6%nat := 0]> i).

(** [Inner]: users by processed id.  [replace] swaps in a whole new table. *)
Abbreviation validator := (gmap bytes user) (only parsing).

Definition validator_new (users : list user) : validator :=
  fold_left (fun m u =>
    let u' := mk_user (process_uuid (uid u)) (email u) (user_flow u) in <[uid u' := u']> m) users ∅.

Definition validator_replace (v : validator) (users : list user) : validator := validator_new users.

(** [get_shared]; [get] clones its result.  [ct_eq] on equal-length arrays is
    equality. *)
Definition get_shared (v : validator) (raw_id : bytes) : option user :=
  let key := process_uuid raw_id in
  match v !! key with
  | Some candidate => if bytes_eqb (uid candidate) key then Some candidate else None
  | None => None
  end.

(** * The request header *)

Definition VERSION : Z := 0.

Inductive command : Type := Tcp | Udp | Mux | Reverse.

#[global] Instance command_eq_dec : EqDecision command.
Proof. solve_decision. Defined.

Definition from_byte (b : Z) : option command :=
  if b =? 1 then Some Tcp else if b =? 2 then Some Udp
  else if b =? 3 then Some Mux else if b =? 4 then Some Reverse else None.

Record request_header := mk_request_header {
  version : Z; raw_id : bytes; cmd : command; req_address : option address; port : Z }.

Inductive header_error : Type :=
| Io (k : io_kind)
| BadVersion (v : Z)
| AuthFailed
| BadCommand (b : Z)
| ReverseUnsupported
| AddonsErr (e : addons_error)
| AddressErr (e : addr_error).

(** The addons decoder inside the header decoder: its panic and its endless
    loop are the caller's. *)
Definition lift_comp {E F A} (f : E -> F) (m : comp E A) : comp F A :=
  match m with Val a => Val a | Fail e => Fail (f e) | Crash => Crash | Diverge => Diverge end.

Definition read_address_port (s : source) : comp header_error (Z * address * source) :=
  '(head, s) ← lift Io (read_exact 3 s);
  h0 ← index head 0; h1 ← index head 1; t ← index head 2;
  let port := be_val [h0; h1] in
  if t =? ADDR_TYPE_IPV4 then
    '(octets, s) ← lift Io (read_exact 4 s); mret (port, Ipv4 octets, s)
  else if t =? ADDR_TYPE_IPV6 then
    '(octets, s) ← lift Io (read_exact 16 s); mret (port, Ipv6 octets, s)
  else if t =? ADDR_TYPE_DOMAIN then
    '(dlen, s) ← lift Io (read_u8 s);
    _ ← fail_if (dlen =? 0) (AddressErr EmptyDomain);
    '(domain, s) ← lift Io (read_exact (Z.to_nat dlen) s);
    _ ← fail_if (negb (utf8_valid domain)) (AddressErr BadDomainUtf8);
    mret (port, Domain domain, s)
  else Fail (AddressErr (UnknownType t)).

(** [decode_request_header_shared]; the reader's remaining bytes come back. *)
Definition decode_request_header (s : source) (v : validator) :
    comp header_error (user * request_header * addons * source) :=
  '(ver, s) ← lift Io (read_u8 s);
  _ ← fail_if (negb (ver =? VERSION)) (BadVersion ver);
  '(rid, s) ← lift Io (read_exact 16 s);
  u ← lift (fun e => e) (ok_or (get_shared v rid) AuthFailed);
  '(addons_len, s) ← lift Io (read_u8 s);
  '(a, s) ← (if negb (addons_len =? 0) then
               '(body, s) ← lift Io (read_exact (Z.to_nat addons_len) s);
               a ← lift_comp AddonsErr (decode_addons_body body);
               mret (a, s)
             else mret (addons_default, s));
  '(cmd_byte, s) ← lift Io (read_u8 s);
  c ← lift (fun e => e) (ok_or (from_byte cmd_byte) (BadCommand cmd_byte));
  _ ← fail_if (bool_decide (c = Reverse)) ReverseUnsupported;
  '(a_p, s) ← (match c with
               | Tcp | Udp =>
                   '(p, addr, s) ← read_address_port s; mret ((Some addr, p), s)
               | Mux | Reverse => mret ((None, 0), s)
               end);
  mret (u, mk_request_header ver rid c (fst a_p) (snd a_p), a, s).

Definition encode_response_header (ver : Z) (a : addons) : result header_error bytes :=
  out ← map_err AddonsErr (encode_addons a); mret (ver :: out).

(** * Specification: the wire layout of a request *)

Definition command_byte (c : command) : Z :=
  match c with Tcp => 1 | Udp => 2 | Mux => 3 | Reverse => 4 end.

(** [version | uuid | addonsLen | addons | command | port+addr]. *)
Definition request_bytes (h : request_header) (addons_bytes : bytes) : bytes :=
  [version h] ++ raw_id h ++ addons_bytes ++ [command_byte (cmd h)] ++
  match req_address h with Some a => write_port_then_address [] (port h) a | None => [] end.

(** The headers a client may send: TCP and UDP carry an address, Mux none. *)
Definition request_wf (h : request_header) : Prop :=
  version h = VERSION /\ length (raw_id h) = 16%nat /\
  match cmd h, req_address h with
  | (Tcp | Udp), Some a => uint_ok 16 (port h) /\ address_wf a /\ encodable a
  | Mux, None => port h = 0
  | _, _ => False
  end.

(** * Lemmas *)

Lemma process_uuid_length i : length (process_uuid i) = length i.
Proof. unfold process_uuid. by rewrite !length_insert. Qed.

Lemma process_uuid_idem i : process_uuid (process_uuid i) = process_uuid i.
Proof.
  unfold process_uuid. rewrite (list_insert_insert_ne _ 7 6) by done.
  rewrite list_insert_insert_eq. rewrite (list_insert_insert_ne _ 6 7) by done. by rewrite list_insert_insert_eq.
Qed.

(** ** The user table *)

Definition processed (u : user) : user := mk_user (process_uuid (uid u)) (email u) (user_flow u).

Definition matches (r : bytes) (u : user) : Prop := process_uuid (uid u) = process_uuid r.
#[global] Instance matches_dec r u : Decision (matches r u).
Proof. unfold matches. apply _. Defined.

Lemma validator_new_app us u :
  validator_new (us ++ [u]) = <[process_uuid (uid u) := processed u]> (validator_new us).
Proof. unfold validator_new. by rewrite fold_left_app. Qed.

Lemma validator_lookup us r :
  validator_new us !! process_uuid r = processed <$> list.last (filter (matches r) us).
Proof.
  induction us as [|u us IH] using rev_ind; [done|].
  rewrite validator_new_app, list.filter_app. cbn [map fmap].
  destruct (decide (matches r u)) as [Hm|Hm].
  - rewrite filter_cons_True by done. change (filter (matches r) []) with (@nil user).
    rewrite last_snoc. cbn. unfold matches in Hm. rewrite Hm.
    apply lookup_insert_eq.
  - rewrite filter_cons_False by done. change (filter (matches r) []) with (@nil user).
    rewrite app_nil_r, lookup_insert_ne by done. done.
Qed.

Lemma get_shared_spec us r :
  get_shared (validator_new us) r = processed <$> list.last (filter (matches r) us).
Proof.
  unfold get_shared. rewrite validator_lookup.
  destruct (list.last (filter (matches r) us)) as [u|] eqn:E; [|done]. cbn.
  apply last_Some_elem_of, list_elem_of_filter in E as [Hm _]. unfold matches in Hm.
  by rewrite Hm, bytes_eqb_refl.
Qed.

Lemma get_shared_uuid v r u : get_shared v r = Some u -> uid u = process_uuid r.
Proof.
  unfold get_shared. destruct (v !! _) as [c|]; [|done].
  destruct (bytes_eqb _ _) eqn:E; [|done]. intros [= <-]. by apply bytes_eqb_eq.
Qed.

(** ** Reading addresses *)

Lemma lift_ok {E F A} (f : E -> F) (m : result E A) a : m = Ok a -> lift f m = Val a.
Proof. by intros ->. Qed.

(** The two address parsers agree: the streaming one on a source that ends is
    the slice parser on its content. *)
Definition stream_error (e : addr_error) : header_error :=
  match e with Underrun => Io UnexpectedEof | _ => AddressErr e end.

Definition of_slice (b : bytes) (r : comp addr_error (Z * address * Z)) :
    comp header_error (Z * address * source) :=
  match r with
  | Val (p, a, n) => Val (p, a, mk_source (drop (Z.to_nat n) b) AtEof)
  | Fail e => Fail (stream_error e)
  | Crash => Crash
  | Diverge => Diverge
  end.

Lemma read_exact_short n b : (length b < n)%nat -> read_exact n (mk_source b AtEof) = Err UnexpectedEof.
Proof. intros H. unfold read_exact. cbn. by rewrite decide_False by lia. Qed.

Lemma read_exact_take n b e : (n <= length b)%nat ->
  read_exact n (mk_source b e) = Ok (take n b, mk_source (drop n b) e).
Proof. intros H. unfold read_exact. cbn. by rewrite decide_True by lia. Qed.

Lemma read_address_port_slice b :
  bytes_ok b -> read_address_port (mk_source b AtEof) = of_slice b (parse_port_then_address b).
Proof.
  intros Hok. unfold read_address_port.
  destruct b as [|x [|y [|t rest]]]; [by rewrite parse_short, read_exact_short by (done || (cbn [length]; lia))..|].
  rewrite parse_long by done. rewrite read_exact_take by (cbn; lia). cbn [lift].
  comp_run. change (drop 3 (x :: y :: t :: rest)) with rest. unfold parse_view. generalize (be_val [x; y]). intros p.
  destruct (t =? ADDR_TYPE_IPV4).
  { destruct (len rest <? 4) eqn:E; split_bool; unfold len in E.
    - by rewrite read_exact_short by lia.
    - rewrite read_exact_take by lia. done. }
  destruct (t =? ADDR_TYPE_IPV6).
  { destruct (len rest <? 16) eqn:E; split_bool; unfold len in E.
    - by rewrite read_exact_short by lia.
    - rewrite read_exact_take by lia. done. }
  destruct (t =? ADDR_TYPE_DOMAIN); [|done]. destruct rest as [|l r]; [done|].
  rewrite read_u8_cons. cbn [lift]. comp_run.
  do 3 apply Forall_cons_iff in Hok as [_ Hok]. apply Forall_cons_iff in Hok as [Hl _].
  unfold byte_ok in Hl. destruct (l =? 0) eqn:E0; [done|]. split_bool. comp_run.
  destruct (len r <? l) eqn:E; split_bool; unfold len in E.
  - by rewrite read_exact_short by lia.
  - rewrite read_exact_take by lia. cbn [lift]. comp_run.
    destruct (utf8_valid _); [|done]. cbn. do 2 f_equal. f_equal.
    replace (Z.to_nat (4 + l)) with (4 + Z.to_nat l)%nat by lia. done.
Qed.

(** ** Decoding what a client writes *)

Lemma read_exact_lift {F} (f : io_kind -> F) n a b e :
  n = length a -> lift f (read_exact n (mk_source (a ++ b) e)) = Val (a, mk_source b e).
Proof. intros. by rewrite read_exact_app. Qed.

Lemma read_u8_lift {F} (f : io_kind -> F) b r e :
  lift f (read_u8 (mk_source (b :: r) e)) = Val (b, mk_source r e).
Proof. by rewrite read_u8_cons. Qed.

Lemma read_address_port_write p a rest e :
  uint_ok 16 p -> address_wf a -> encodable a ->
  read_address_port (mk_source (write_port_then_address [] p a ++ rest) e)
  = Val (p, a, mk_source rest e).
Proof.
  intros Hp Hw He. unfold read_address_port, write_port_then_address.
  assert (be_val (be_bytes 2 p) = p) as Hval by (by apply be_val_be_bytes).
  destruct (be_bytes_2 p) as (x & y & Exy). rewrite Exy in *. cbn [app].
  destruct a as [o|o|d]; cbn [app address_wf encodable] in *;
    match goal with |- context [mk_source (x :: y :: ?t :: ?r) e] =>
      change (x :: y :: t :: r) with ([x; y; t] ++ r) end;
    rewrite read_exact_lift by done; comp_run; rewrite Hval.
  - destruct Hw as [Hl _]. by rewrite read_exact_lift.
  - destruct Hw as [Hl _]. by rewrite read_exact_lift.
  - unfold as_u8. rewrite Z.mod_small, read_u8_lift by lia. comp_run.
    rewrite read_exact_lift by (unfold len; lia). comp_run. destruct Hw as [_ ->]. done.
Qed.

Lemma encode_addons_shape a enc :
  encode_addons a = Ok enc -> flow a = XRV \/ a = addons_default ->
  exists n body, enc = n :: body /\ n = len body /\
    if n =? 0 then a = addons_default else decode_addons_body body = Val a.
Proof.
  intros He Ha. unfold encode_addons in He. destruct (bytes_eqb (flow a) XRV) eqn:E; cbn in He.
  - apply bytes_eqb_eq in E. destruct (255 <? len (encode_body a)) eqn:El; split_bool; [done|].
    injection He as <-. pose proof (len_nonneg (encode_body a)).
    assert (as_u8 (len (encode_body a)) = len (encode_body a)) as Has by (unfold as_u8; apply Z.mod_small; lia).
    eexists _, _. split; [done|]. split; [done|]. rewrite Has.
    assert (0 < len (encode_body a)) as Hpos.
    { unfold encode_body. destruct (seed a) as [|s0 s].
      - rewrite len_app, E. change (len XRV) with 16.
        match goal with |- 0 < len ?l + _ => pose proof (len_nonneg l); lia end.
      - rewrite len_app, len_cons. pose proof (len_nonneg s).
        match goal with |- 0 < len ?l + _ => pose proof (len_nonneg l); lia end. }
    rewrite (proj2 (Z.eqb_neq _ _)) by lia. apply decode_encode_body; [by rewrite E|lia].
  - injection He as <-. exists 0, []. destruct Ha as [Ha|Ha]; [|done].
    by rewrite Ha, bytes_eqb_refl in E.
Qed.

Lemma from_command_byte c : from_byte (command_byte c) = Some c.
Proof. by destruct c. Qed.

Lemma decode_request_bytes v h u a enc rest e :
  request_wf h -> get_shared v (raw_id h) = Some u ->
  encode_addons a = Ok enc -> flow a = XRV \/ a = addons_default ->
  decode_request_header (mk_source (request_bytes h enc ++ rest) e) v
  = Val (u, h, a, mk_source rest e).
Proof.
  intros (Hv & Hl & Hw) Hu Henc Ha.
  destruct (encode_addons_shape a enc Henc Ha) as (n & body & -> & Hn & Hbody).
  destruct h as [ver rid c ad p]. cbn [version raw_id cmd req_address port] in *. subst ver.
  unfold request_bytes. cbn [version raw_id cmd req_address port].
  rewrite <- !app_assoc. cbn [app]. rewrite <- ?app_assoc. cbn [app]. unfold decode_request_header.
  rewrite read_u8_lift. comp_run. rewrite read_exact_lift by done. comp_run. rewrite Hu. cbn [ok_or lift].
  comp_run. rewrite read_u8_lift. comp_run. set (tl := match ad with Some _ => _ | None => _ end ++ rest).
  match goal with |- mbind _ ?m = _ => assert (m = Val (a, mk_source (command_byte c :: tl) e)) as -> end.
  { destruct (n =? 0) eqn:E; cbn [negb]; split_bool.
    - subst a. destruct body as [|b0 body]; [done|]. rewrite len_cons in Hn. pose proof (len_nonneg body). lia.
    - rewrite read_exact_lift by (unfold len in Hn; lia). comp_run. by rewrite Hbody. }
  comp_run. rewrite read_u8_lift. comp_run. rewrite from_command_byte. cbn [ok_or lift]. comp_run.
  destruct c, ad as [ad|]; try done; rewrite (fail_if_pass _ _ _ eq_refl); unfold tl;
    [destruct Hw as (? & ? & ?); by rewrite read_address_port_write..|by rewrite Hw].
Qed.

(** ** Whatever is accepted is a request *)

Lemma read_u8_inv s b s' :
  read_u8 s = Ok (b, s') -> content s = b :: content s' /\ at_end s' = at_end s.
Proof.
  unfold read_u8. destruct (read_exact 1 s) as [[l s1]|] eqn:E; [|done]. cbn. intros [= <- <-].
  destruct (read_exact_inv _ _ _ _ E) as (-> & Hl & Ha). destruct l as [|x [|]]; try done.
  cbn. split; [|done]. f_equal. lia.
Qed.

Lemma read_address_port_sound s p a s' :
  bytes_ok (content s) -> read_address_port s = Val (p, a, s') ->
  content s = write_port_then_address [] p a ++ content s' /\ at_end s' = at_end s /\
  uint_ok 16 p /\ address_wf a /\ encodable a.
Proof.
  intros Hok H. unfold read_address_port in H. comp_inv H.
  destruct (read_exact_inv _ _ _ _ Hm) as (Hc & Hl & He).
  destruct l as [|x [|y [|t [|]]]]; try done. cbn in Hm0, Hm1, Hm2. injection Hm0 as <-. injection Hm1 as <-. injection Hm2 as <-.
  rewrite Hc in Hok |- *. apply bytes_ok_app in Hok as [Hh Hok].
  do 2 (apply Forall_cons_iff in Hh as [? Hh]). destruct (port_of_bytes x y) as [Hp Hpb]; [done|done|].
  revert H Hp Hpb. generalize (be_val [x; y]). intros p0 H Hp Hpb.
  unfold write_port_then_address. cbn [app].
  destruct (t =? ADDR_TYPE_IPV4) eqn:E4; [|destruct (t =? ADDR_TYPE_IPV6) eqn:E6;
    [|destruct (t =? ADDR_TYPE_DOMAIN) eqn:Ed; [|done]]]; comp_inv H; split_bool; subst t; destruct Hp.
  - destruct (read_exact_inv _ _ _ _ Hm0) as (Hc' & Hl' & He'). rewrite Hc' in Hok |- *.
    apply bytes_ok_app in Hok as [Hok _]. rewrite Hpb. repeat split; auto; cbn [app]; congruence.
  - destruct (read_exact_inv _ _ _ _ Hm0) as (Hc' & Hl' & He'). rewrite Hc' in Hok |- *.
    apply bytes_ok_app in Hok as [Hok _]. rewrite Hpb. repeat split; auto; cbn [app]; congruence.
  - destruct (read_u8_inv _ _ _ Hm0) as [Hc1 He1]. rewrite Hc1 in Hok |- *.
    apply Forall_cons_iff in Hok as [Hb Hok].
    destruct (read_exact_inv _ _ _ _ Hm2) as (Hc' & Hl' & He'). rewrite Hc' in Hok |- *.
    apply bytes_ok_app in Hok as [Hok _]. split_bool. unfold byte_ok in Hb.
    assert (len l = z) as Hlz by (unfold len; lia).
    rewrite Hpb. cbn. rewrite Hlz. unfold as_u8. rewrite Z.mod_small by lia. repeat split; auto; try lia; congruence.
Qed.

Lemma from_byte_inv b c : from_byte b = Some c -> b = command_byte c.
Proof. unfold from_byte. repeat (case_match; split_bool; subst); by intros [= <-]. Qed.

Lemma decode_request_sound s v u h a s' :
  bytes_ok (content s) -> decode_request_header s v = Val (u, h, a, s') ->
  get_shared v (raw_id h) = Some u /\ request_wf h /\ at_end s' = at_end s /\
  exists body, content s = request_bytes h (len body :: body) ++ content s' /\ len body <= 255 /\
    (body = [] /\ a = addons_default \/ decode_addons_body body = Val a).
Proof.
  intros Hok H. unfold decode_request_header in H. comp_inv H.
  destruct (read_u8_inv _ _ _ Hm) as [Hc1 He1]. rewrite Hc1 in Hok. apply Forall_cons_iff in Hok as [Hv Hok].
  destruct (read_exact_inv _ _ _ _ Hm1) as (Hc2 & Hl2 & He2). rewrite Hc2 in Hok. apply bytes_ok_app in Hok as [_ Hok].
  destruct (read_u8_inv _ _ _ Hm3) as [Hc3 He3]. rewrite Hc3 in Hok. apply Forall_cons_iff in Hok as [Hn Hok].
  unfold byte_ok in Hn.
  match type of Hm4 with _ = Val (?aa, ?ss) => assert (exists body, content s2 = body ++ content ss /\
    at_end ss = at_end s2 /\ z0 = len body /\ (body = [] /\ aa = addons_default \/ decode_addons_body body = Val aa))
    as (body & Hc4 & He4 & Hz & Hbody) end.
  { destruct (z0 =? 0) eqn:E; cbn [negb] in Hm4; split_bool.
    - comp_inv Hm4. exists []. by repeat split; auto.
    - comp_inv Hm4. match goal with X : read_exact _ s2 = Ok _ |- _ => destruct (read_exact_inv _ _ _ _ X) as (? & ? & ?) end.
      match goal with X : lift_comp _ (decode_addons_body ?l) = Val _ |- _ => exists l; destruct (decode_addons_body l) eqn:?; try done; injection X as -> end.
      repeat split; auto. unfold len. lia. }
  rewrite Hc4 in Hok. apply bytes_ok_app in Hok as [_ Hok].
  destruct (read_u8_inv _ _ _ Hm5) as [Hc5 He5]. rewrite Hc5 in Hok. apply Forall_cons_iff in Hok as [_ Hok].
  split_bool. apply from_byte_inv in Hm6. unfold request_bytes, request_wf.
  cbn [raw_id version cmd req_address port].
  match type of Hm8 with _ = Val (?ap, ?ss) => assert (content s4 = match fst ap with Some ad => write_port_then_address [] (snd ap) ad | None => [] end ++ content ss /\
    at_end ss = at_end s4 /\ match a2, fst ap with
      | (Tcp | Udp), Some ad => uint_ok 16 (snd ap) /\ address_wf ad /\ encodable ad
      | Mux, None => snd ap = 0 | _, _ => False end) as (Hc6 & He6 & Hwf) end.
  { destruct a2; try done; comp_inv Hm8; cbn [fst snd]; [..|done].
    all: match goal with X : read_address_port _ = _ |- _ => apply read_address_port_sound in X as (? & ? & ? & ? & ?); [|done] end; auto. }
  split; [done|]. split; [by repeat split|]. split; [congruence|].
  exists body. split; [|split; [lia|done]].
  rewrite Hc1, Hc2, Hc3, Hc4, Hc5, Hc6, Hm6, Hz, Hm0. cbn [app]. rewrite <- !app_assoc. cbn [app].
  rewrite <- !app_assoc. done.
Qed.

(** * Theorems *)

(** The user table.  A raw id is matched with its bytes 6 and 7 ignored, the
    last configured user with that processed id wins, and the user returned
    carries the processed id. *)
Theorem validator_spec us r :
  get_shared (validator_new us) r = processed <$> list.last (filter (matches r) us).
Proof. apply get_shared_spec. Qed.

(** C30: request header round trip.  Every well-formed request of a configured
    user, with Vision or empty addons, decodes to itself and to that user, and
    the decoder leaves exactly the bytes that follow the header, whatever they
    are and however the stream ends. *)
Theorem request_roundtrip v h u a enc rest e :
  request_wf h -> get_shared v (raw_id h) = Some u ->
  encode_addons a = Ok enc -> flow a = XRV \/ a = addons_default ->
  decode_request_header (mk_source (request_bytes h enc ++ rest) e) v
  = Val (u, h, a, mk_source rest e).
Proof. apply decode_request_bytes. Qed.

(** Whatever the decoder accepts is a request of a configured user: the user
    is the one the id on the wire looks up, the header is well formed (a TCP or
    UDP command with a valid address, or Mux without one), and the bytes consumed
    are exactly the wire layout of that header with an addons body of at most 255
    bytes that decodes to the addons returned. *)
Theorem accepted_request_sound s v u h a s' :
  bytes_ok (content s) -> decode_request_header s v = Val (u, h, a, s') ->
  get_shared v (raw_id h) = Some u /\ request_wf h /\ at_end s' = at_end s /\
  exists body, content s = request_bytes h (len body :: body) ++ content s' /\ len body <= 255 /\
    (body = [] /\ a = addons_default \/ decode_addons_body body = Val a).
Proof. apply decode_request_sound. Qed.

(** Authentication failure is uniform.  An id that no configured user has is
    answered [AuthFailed] whatever follows it on the wire, complete or not. *)
Theorem unknown_user_uniform v rid rest e :
  length rid = 16%nat -> get_shared v rid = None ->
  decode_request_header (mk_source (VERSION :: rid ++ rest) e) v = Fail AuthFailed.
Proof.
  intros Hl Hg. unfold decode_request_header. rewrite read_u8_lift. comp_run.
  rewrite read_exact_lift by done. comp_run. by rewrite Hg.
Qed.

(** The two address parsers agree.  Reading an address from a stream that
    ends gives what parsing its bytes as a slice gives, the consumed length
    included; the only difference is that a short stream is an unexpected end of
    file instead of an underrun. *)
Theorem address_parsers_agree b :
  bytes_ok b -> read_address_port (mk_source b AtEof) = of_slice b (parse_port_then_address b).
Proof. apply read_address_port_slice. Qed.

(** * Witnesses *)

Definition sample_id : bytes := [1; 2; 3; 4; 5; 6; 0xaa; 0xbb; 9; 10; 11; 12; 13; 14; 15; 16].
Definition sample_users : list user := [mk_user (process_uuid sample_id) [116] XRV].
Definition sample_validator : validator := validator_new sample_users.
Definition sample_header : request_header :=
  mk_request_header 0 sample_id Tcp (Some (Domain (bytes_of_string "a.example"))) 443.
Definition sample_addons : addons := mk_addons XRV [7; 8].
Definition sample_addons_bytes : bytes :=
  match encode_addons sample_addons with Ok b => b | Err _ => [] end.

Lemma sample_header_wf : request_wf sample_header.
Proof.
  split; [done|]. split; [done|]. split; [vm_compute; split; congruence|].
  split; [split; [by apply bytes_okb_ok|done]|vm_compute; split; congruence].
Qed.

Lemma request_roundtrip_witness :
  decode_request_header (mk_source (request_bytes sample_header sample_addons_bytes ++ [22; 3]) AtEof) sample_validator
  = Val (mk_user (process_uuid sample_id) [116] XRV, sample_header, sample_addons, mk_source [22; 3] AtEof).
Proof.
  apply request_roundtrip; [exact sample_header_wf|vm_compute; reflexivity|vm_compute; reflexivity|].
  left. reflexivity.
Defined.

Definition sample_source : source :=
  mk_source (request_bytes sample_header sample_addons_bytes ++ [22; 3]) AtEof.

Lemma accepted_request_sound_witness :
  get_shared sample_validator sample_id = Some (mk_user (process_uuid sample_id) [116] XRV).
Proof.
  refine (proj1 (accepted_request_sound sample_source sample_validator _ sample_header sample_addons
    (mk_source [22; 3] AtEof) _ _)); [by apply bytes_okb_ok|vm_compute; reflexivity].
Defined.

Lemma unknown_user_uniform_witness :
  decode_request_header (mk_source (VERSION :: replicate 16 9 ++ []) AtEof) sample_validator = Fail AuthFailed.
Proof. apply unknown_user_uniform; vm_compute; reflexivity. Defined.

Lemma address_parsers_agree_witness :
  read_address_port (mk_source [1; 187; 1; 10; 0; 0; 1; 99] AtEof)
  = of_slice [1; 187; 1; 10; 0; 0; 1; 99] (parse_port_then_address [1; 187; 1; 10; 0; 0; 1; 99]).
Proof. apply address_parsers_agree. by apply bytes_okb_ok. Defined.

(** An authenticated client can make the decoder panic, or never return, with
    the addons of its request. *)
Theorem authenticated_request_can_panic :
  decode_request_header
    (mk_source ([0] ++ sample_id ++ [11; 0x0a; 0xff; 0xff; 0xff; 0xff; 0xff; 0xff; 0xff; 0xff; 0xff; 0x01]) AtEof)
    sample_validator = Crash.
Proof. vm_compute. reflexivity. Qed.
