(* ===== verification/Xudp.v ===== *)
(** [src/xudp.rs]: the XUDP mux frames and the plain VLESS UDP datagrams. *)

From S2P Require Import Prelude Address Header.

(** * Data *)

Definition STATUS_NEW : Z := 1.
Definition STATUS_KEEP : Z := 2.
Definition STATUS_END : Z := 3.
Definition STATUS_KEEP_ALIVE : Z := 4.
Definition OPTION_DATA : Z := 1.
Definition NETWORK_UDP : Z := 2.
Definition MAX_METADATA_LEN : Z := 512.

Record target := mk_target { t_address : address; t_port : Z }.

Record frame := mk_frame {
  session_id : Z; status : Z; option_bits : Z;
  f_target : option target; global_id : option bytes; payload : bytes }.

Inductive xudp_error : Type :=
| XIo (k : io_kind)
| MetadataLength (n : Z)
| PayloadLength (n : Z)
| Status (s : Z)
| Network (n : Z)
| XAddress (e : addr_error).

(** * Operations *)

Definition has_data (opt : Z) : bool := negb (Z.land opt OPTION_DATA =? 0).

(** The target of a frame, from the metadata. *)
Definition read_target (metadata : bytes) (st opt : Z) :
    comp xudp_error (option target * option bytes) :=
  let fourth := get_at metadata 4 in
  let has_target := (st =? STATUS_NEW)
    || ((st =? STATUS_KEEP) && bool_decide (fourth = Some NETWORK_UDP)) in
  if has_target then
    _ ← fail_if (negb (bool_decide (fourth = Some NETWORK_UDP))) (Network (default 0 fourth));
    buf ← slice metadata 5 (len metadata);
    '(p, a, consumed) ← lift_comp XAddress (parse_port_then_address buf);
    tail ← slice metadata (5 + consumed) (len metadata);
    if (st =? STATUS_NEW) && has_data opt && (8 <=? len tail) then
      i ← slice tail 0 8; mret (Some (mk_target a p), Some i)
    else mret (Some (mk_target a p), None)
  else mret (None, None).

Definition read_frame (s : source) : comp xudp_error (frame * source) :=
  '(metadata_len, s) ← lift XIo (read_u16 s);
  _ ← fail_if (negb ((4 <=? metadata_len) && (metadata_len <=? MAX_METADATA_LEN))) (MetadataLength metadata_len);
  '(metadata, s) ← lift XIo (read_exact (Z.to_nat metadata_len) s);
  m0 ← index metadata 0; m1 ← index metadata 1;
  st ← index metadata 2; opt ← index metadata 3;
  _ ← fail_if (negb ((st =? STATUS_NEW) || (st =? STATUS_KEEP) || (st =? STATUS_END)
                       || (st =? STATUS_KEEP_ALIVE))) (Status st);
  tg ← read_target metadata st opt;
  '(pl, s) ← (if has_data opt then
                '(payload_len, s) ← lift XIo (read_u16 s);
                lift XIo (read_exact (Z.to_nat payload_len) s)
              else mret ([], s));
  mret (mk_frame (be_val [m0; m1]) st opt (fst tg) (snd tg) pl, s).

Definition frame_metadata (f : frame) : bytes :=
  let metadata := be_bytes 2 (session_id f) ++ [status f] ++ [option_bits f] in
  match f_target f with
  | Some t =>
      let metadata := write_port_then_address (metadata ++ [NETWORK_UDP]) (t_port t) (t_address t) in
      match global_id f with
      | Some g => if status f =? STATUS_NEW then metadata ++ g else metadata
      | None => metadata
      end
  | None => metadata
  end.

Definition encode_frame (f : frame) : result xudp_error bytes :=
  let metadata := frame_metadata f in
  if MAX_METADATA_LEN <? len metadata then Err (MetadataLength (len metadata))
  else if u16_max <? len (payload f) then Err (PayloadLength (len (payload f)))
  else
    Ok (be_bytes 2 (wrap 16 (len metadata)) ++ metadata ++
        if has_data (option_bits f)
        then be_bytes 2 (wrap 16 (len (payload f))) ++ payload f else []).

Definition read_plain_datagram (s : source) : comp xudp_error (bytes * source) :=
  '(n, s) ← lift XIo (read_u16 s); lift XIo (read_exact (Z.to_nat n) s).

Definition encode_plain_datagram (p : bytes) : result xudp_error bytes :=
  if u16_max <? len p then Err (PayloadLength (len p))
  else Ok (be_bytes 2 (wrap 16 (len p)) ++ p).

(** * Well-formed frames *)

(** A new session names its target, a kept one may; only a new session with data
    carries a global id; a payload needs the data bit. *)
Definition frame_wf (f : frame) : Prop :=
  uint_ok 16 (session_id f) /\ byte_ok (option_bits f) /\
  (has_data (option_bits f) = false -> payload f = []) /\
  match f_target f with
  | Some t =>
      (status f = STATUS_NEW \/ status f = STATUS_KEEP) /\
      uint_ok 16 (t_port t) /\ address_wf (t_address t) /\ encodable (t_address t)
  | None => status f = STATUS_KEEP \/ status f = STATUS_END \/ status f = STATUS_KEEP_ALIVE
  end /\
  match global_id f with
  | Some g => length g = 8%nat /\ status f = STATUS_NEW /\ has_data (option_bits f) = true /\ f_target f <> None
  | None => True
  end.

(** * Lemmas *)

Lemma read_u16_lift {F} (g : io_kind -> F) n r e :
  uint_ok 16 n -> lift g (read_u16 (mk_source (be_bytes 2 n ++ r) e)) = Val (n, mk_source r e).
Proof. intros. by rewrite read_u16_app. Qed.

Lemma wrap_16 n : 0 <= n <= u16_max -> wrap 16 n = n.
Proof. intros. apply Z.mod_small. unfold u16_max in *. lia. Qed.

Lemma read_plain_write p rest e :
  len p <= u16_max ->
  read_plain_datagram (mk_source ((be_bytes 2 (wrap 16 (len p)) ++ p) ++ rest) e) = Val (p, mk_source rest e).
Proof.
  intros Hl. pose proof (len_nonneg p). rewrite wrap_16, <- app_assoc by lia. unfold read_plain_datagram.
  rewrite read_u16_lift by (unfold uint_ok, u16_max in *; lia). comp_run.
  rewrite read_exact_lift by (unfold len; lia). done.
Qed.

(** The metadata after the fixed four bytes. *)
Lemma read_target_write pre f :
  length pre = 4%nat -> frame_wf f ->
  read_target (pre ++ match f_target f with
                      | Some t => [NETWORK_UDP] ++ write_port_then_address [] (t_port t) (t_address t) ++
                                  match global_id f with Some g => g | None => [] end
                      | None => []
                      end) (status f) (option_bits f)
  = Val (f_target f, global_id f).
Proof.
  intros Hl (Hs & Ho & _ & Ht & Hg). unfold read_target.
  destruct pre as [|p0 [|p1 [|p2 [|p3 [|]]]]]; try done. clear Hl.
  destruct (f_target f) as [[a p]|] eqn:Et; cbn [t_port t_address] in *.
  - destruct Ht as (Hst & Hp & Hw & He). set (w := write_port_then_address [] p a).
    set (g := match global_id f with Some g => g | None => [] end). cbn [app].
    change (get_at (p0 :: p1 :: p2 :: p3 :: NETWORK_UDP :: w ++ g) 4) with (Some NETWORK_UDP).
    rewrite bool_decide_eq_true_2 by done. rewrite andb_true_r.
    replace ((status f =? STATUS_NEW) || (status f =? STATUS_KEEP)) with true
      by (destruct Hst as [-> | ->]; done).
    rewrite fail_if_pass by done.
    assert (forall l : bytes, len (p0 :: p1 :: p2 :: p3 :: NETWORK_UDP :: l) = 5 + len l) as Hlen
      by (intros; rewrite !len_cons; lia).
    rewrite (comp_bind_val (w ++ g)) by (change (p0 :: p1 :: p2 :: p3 :: NETWORK_UDP :: w ++ g)
      with ([p0; p1; p2; p3; NETWORK_UDP] ++ w ++ g); apply slice_tail; [done|]; cbn [app]; by rewrite Hlen).
    pose proof (parse_write p a g Hp Hw He) as Hpw. fold w in Hpw. rewrite Hpw. cbn [lift_comp].
    rewrite (comp_bind_val (p, a, len w)) by done. cbv beta iota zeta.
    rewrite (comp_bind_val g) by (change (p0 :: p1 :: p2 :: p3 :: NETWORK_UDP :: w ++ g)
      with ([p0; p1; p2; p3; NETWORK_UDP] ++ w ++ g); rewrite app_assoc; apply slice_tail;
      rewrite ?len_app; [done|]; cbn [app]; done).
    unfold g in *. destruct (global_id f) as [g0|].
    + destruct Hg as (Hl & -> & -> & _). cbn [andb Z.eqb Pos.eqb STATUS_NEW].
      assert (len g0 = 8) as Hl8 by (unfold len; lia). rewrite Hl8. cbn [andb Z.leb Z.compare Pos.compare Pos.compare_cont].
      rewrite (comp_bind_val g0); [done|]. rewrite slice_in by lia. cbn. f_equal.
      apply take_ge. lia.
    + by rewrite len_nil, andb_false_r.
  - rewrite app_nil_r. destruct Ht as [-> | [-> | ->]];
      (destruct (global_id f); [by destruct Hg as (_ & _ & _ & ?)|done]).
Qed.

Definition target_bytes (f : frame) : bytes :=
  match f_target f with
  | Some t => [NETWORK_UDP] ++ write_port_then_address [] (t_port t) (t_address t) ++
              match global_id f with Some g => g | None => [] end
  | None => []
  end.

Lemma frame_metadata_eq f :
  frame_wf f ->
  frame_metadata f = (be_bytes 2 (session_id f) ++ [status f; option_bits f]) ++ target_bytes f.
Proof.
  intros (_ & _ & _ & _ & Hg). unfold frame_metadata, target_bytes, write_port_then_address.
  destruct (f_target f) as [t|]; [|by rewrite app_nil_r].
  destruct (global_id f) as [g|]; [destruct Hg as (_ & -> & _)|]; cbn [Z.eqb Pos.eqb STATUS_NEW];
    rewrite <- ?app_assoc; cbn [app]; rewrite ?app_nil_r, <- ?app_assoc; done.
Qed.

Lemma status_ok f : frame_wf f ->
  (status f =? STATUS_NEW) || (status f =? STATUS_KEEP) || (status f =? STATUS_END)
  || (status f =? STATUS_KEEP_ALIVE) = true.
Proof.
  intros (_ & _ & _ & Ht & _). destruct (f_target f); [destruct Ht as ([-> | ->] & _)|destruct Ht as [-> | [-> | ->]]]; done.
Qed.

Lemma read_write_frame f enc rest e :
  frame_wf f -> encode_frame f = Ok enc ->
  read_frame (mk_source (enc ++ rest) e) = Val (f, mk_source rest e).
Proof.
  intros Hwf He. unfold encode_frame in He. destruct (MAX_METADATA_LEN <? _) eqn:Em; [done|].
  destruct (u16_max <? _) eqn:Ep; [done|]. apply Ok_inj in He. subst enc. split_bool. unfold MAX_METADATA_LEN in Em.
  pose proof (frame_metadata_eq f Hwf) as Hmd. pose proof Hwf as (Hs & Ho & Hd & _ & _).
  set (m := frame_metadata f) in *. set (pre := be_bytes 2 (session_id f) ++ [status f; option_bits f]) in *.
  assert (length pre = 4%nat) as Hpre by done.
  assert (4 <= len m) as Hm4 by (rewrite Hmd, len_app; unfold len at 1; rewrite Hpre; pose proof (len_nonneg (target_bytes f)); lia).
  rewrite !wrap_16 by (pose proof (len_nonneg (payload f)); unfold u16_max in *; lia).
  unfold read_frame. rewrite <- !app_assoc. rewrite read_u16_lift by (unfold uint_ok; lia). comp_run.
  rewrite fail_if_pass by (rewrite !(proj2 (Z.leb_le _ _)) by (unfold MAX_METADATA_LEN; lia); done).
  rewrite read_exact_lift by (unfold len in *; lia). comp_run. rewrite Hmd.
  assert (be_val (be_bytes 2 (session_id f)) = session_id f) as Hval by (by apply be_val_be_bytes).
  destruct (be_bytes_2 (session_id f)) as (x & y & Exy).
  assert (pre = [x; y; status f; option_bits f]) as Hpe by (unfold pre; by rewrite Exy).
  rewrite Exy in Hval. rewrite Hpe. cbn [app]. comp_run.
  rewrite fail_if_pass by (by rewrite status_ok). cbv beta.
  pose proof (read_target_write pre f Hpre Hwf) as Hrt. fold (target_bytes f) in Hrt. rewrite Hpe in Hrt. cbn [app] in Hrt.
  rewrite Hrt. comp_run. rewrite Hval. cbn [fst snd].
  destruct (has_data (option_bits f)) eqn:Edata.
  - rewrite <- app_assoc, read_u16_lift by (pose proof (len_nonneg (payload f)); unfold uint_ok, u16_max in *; lia).
    comp_run. rewrite read_exact_lift by (unfold len; lia). comp_run. by destruct f.
  - comp_run. specialize (Hd eq_refl). destruct f; cbn in Hd |- *. by rewrite Hd.
Qed.

(** ** No input makes the frame reader panic *)

Lemma read_target_graceful m st opt : bytes_ok m -> 4 <= len m -> graceful (read_target m st opt).
Proof.
  intros Hok Hl. unfold read_target. case_match; [|done].
  case_bool_decide as Hf; [|done]. cbn [negb fail_if]. unfold mbind, comp_bind.
  assert (5 <= len m) as Hl5.
  { unfold get_at in Hf. cbn in Hf. apply lookup_lt_Some in Hf. unfold len. lia. }
  rewrite slice_in by lia. set (buf := take _ _).
  assert (buf = drop 5 m) as Hb by (unfold buf; rewrite take_ge; [done|rewrite length_drop; unfold len; lia]).
  assert (bytes_ok buf) as Hbok by (rewrite Hb; auto with bytes).
  pose proof (parse_graceful buf Hbok) as Hg.
  destruct (parse_port_then_address buf) as [[[p a] n]| | |] eqn:Ep; try done. cbn [lift_comp].
  destruct (parse_sound _ _ _ _ Hbok Ep) as (_ & _ & _ & Hbuf & Hn).
  assert (0 <= n <= len m - 5) as Hn5.
  { rewrite Hn. split; [apply len_nonneg|]. apply (f_equal len) in Hbuf. rewrite len_app in Hbuf.
    pose proof (len_nonneg (drop (Z.to_nat n) buf)).
    assert (len buf = len m - 5) by (rewrite Hb; unfold len; rewrite length_drop; unfold len in Hl5; lia). lia. }
  rewrite slice_in by lia. case_match; [|done]. split_bool. by rewrite slice_in by lia.
Qed.

Lemma read_exact_bytes_ok n s b s' :
  bytes_ok (content s) -> read_exact n s = Ok (b, s') -> bytes_ok b /\ bytes_ok (content s').
Proof. intros Hok H. destruct (read_exact_inv _ _ _ _ H) as (Hc & _). rewrite Hc in Hok. by apply bytes_ok_app in Hok. Qed.

(** * Theorems *)

(** XUDP frames round trip.  Whatever [encode_frame] writes for a well-formed
    frame, [read_frame] reads back as the same frame, leaving exactly the bytes
    that follow; so frames written back to back are read back one by one. *)
Theorem xudp_roundtrip f enc rest e :
  frame_wf f -> encode_frame f = Ok enc ->
  read_frame (mk_source (enc ++ rest) e) = Val (f, mk_source rest e).
Proof. apply read_write_frame. Qed.

(** No input makes the frame reader panic: on every byte stream it returns a
    frame or an error. *)
Theorem xudp_reader_graceful s : bytes_ok (content s) -> graceful (read_frame s).
Proof.
  intros Hok. unfold read_frame, mbind, comp_bind. unfold read_u16 at 1.
  destruct (read_exact 2 s) as [[b s1]|] eqn:E1; [|done]. cbn [mbind result_bind mret result_ret lift].
  destruct (read_exact_bytes_ok _ _ _ _ Hok E1) as [_ Hok1].
  destruct ((4 <=? be_val b) && (be_val b <=? MAX_METADATA_LEN)) eqn:El; [|done]. cbn [negb fail_if]. split_bool.
  destruct (read_exact (Z.to_nat (be_val b)) s1) as [[m s2]|] eqn:E2; [|done]. cbn [lift].
  destruct (read_exact_bytes_ok _ _ _ _ Hok1 E2) as [Hm Hok2].
  destruct (read_exact_inv _ _ _ _ E2) as (_ & Hl & _).
  assert (4 <= len m) as Hl4 by (unfold len; lia).
  destruct (index_in (E := xudp_error) m 0) as (x0 & -> & _); [lia|].
  destruct (index_in (E := xudp_error) m 1) as (x1 & -> & _); [lia|].
  destruct (index_in (E := xudp_error) m 2) as (st & -> & _); [lia|].
  destruct (index_in (E := xudp_error) m 3) as (opt & -> & _); [lia|].
  destruct (negb _); cbn [fail_if]; [done|].
  pose proof (read_target_graceful m st opt Hm Hl4). destruct (read_target m st opt); try done.
  destruct (has_data opt); [|done]. destruct (read_u16 s2) as [[n s3]|]; [|done]. cbn [lift].
  by destruct (read_exact _ s3) as [[? ?]|].
Qed.

(** Plain datagrams round trip, and a datagram is refused exactly when its
    length does not fit the two-byte prefix. *)
Theorem datagram_roundtrip p rest e :
  match encode_plain_datagram p with
  | Ok enc => read_plain_datagram (mk_source (enc ++ rest) e) = Val (p, mk_source rest e)
  | Err er => 65535 < len p /\ er = PayloadLength (len p)
  end.
Proof.
  unfold encode_plain_datagram. destruct (u16_max <? len p) eqn:E; split_bool; [done|].
  by apply read_plain_write.
Qed.

Definition sample_frame : frame :=
  mk_frame 7 STATUS_NEW OPTION_DATA (Some (mk_target (Ipv4 [8; 8; 4; 4]) 53)) (Some [1; 2; 3; 4; 5; 6; 7; 8]) [9; 9].

Lemma sample_frame_wf : frame_wf sample_frame.
Proof.
  split; [by vm_compute|]. split; [by vm_compute|]. split; [done|]. split.
  - split; [by left|]. split; [by vm_compute|]. split; [|done]. split; [done|by apply bytes_okb_ok].
  - done.
Qed.

Lemma xudp_roundtrip_witness :
  read_frame (mk_source ((0 :: 20 :: 0 :: 7 :: 1 :: 1 :: 2 :: 0 :: 53 :: 1 :: 8 :: 8 :: 4 :: 4 :: [1; 2; 3; 4; 5; 6; 7; 8] ++ [0; 2; 9; 9]) ++ [255]) AtEof)
  = Val (sample_frame, mk_source [255] AtEof).
Proof. apply xudp_roundtrip; [exact sample_frame_wf|vm_compute; reflexivity]. Defined.

Lemma xudp_reader_graceful_witness : graceful (read_frame (mk_source [0; 5; 0; 1; 1; 1; 2] AtEof)).
Proof. apply xudp_reader_graceful. by apply bytes_okb_ok. Defined.
