(* ===== verification/Vision.v ===== *)
(** [src/vless/vision.rs]: the Vision padding frames, their writer, and the reader
    as a state machine over a fragmented inner stream.

    The inner [AsyncRead] is a polled stream of the prelude.  The random padding
    length is an argument. *)

From S2P Require Import Prelude.

(** * Frames *)

Definition COMMAND_CONTINUE : Z := 0.
Definition COMMAND_END : Z := 1.
Definition COMMAND_DIRECT : Z := 2.
Definition MAX_FRAME_CONTENT : Z := 8192 - 21.

Inductive vision_error : Type :=
| VCommand (c : Z)
| VContentLength (n : Z).

Definition known_command (c : Z) : bool :=
  (c =? COMMAND_CONTINUE) || (c =? COMMAND_END) || (c =? COMMAND_DIRECT).

(** [r] is the value drawn by [gen_range]. *)
Definition encode_frame (content : bytes) (command : Z) (user_uuid : option bytes)
    (long_padding : bool) (r : Z) : result vision_error bytes :=
  if negb (known_command command) then Err (VCommand command)
  else if (MAX_FRAME_CONTENT <? len content) || (u16_max <? len content)
  then Err (VContentLength (len content))
  else
    let max_padding := MAX_FRAME_CONTENT - len content in
    let wanted := if (len content <? 900) && long_padding then r + 900 - len content else r in
    let padding_len := Z.min wanted max_padding in
    Ok (default [] user_uuid ++ [command] ++ be_bytes 2 (wrap 16 (len content))
        ++ be_bytes 2 (wrap 16 padding_len) ++ content ++ replicate (Z.to_nat padding_len) 0).

(** * Reader *)

Inductive read_state : Type :=
| RHeader (got : bytes)                          (* bytes[..read] *)
| RContent (remaining padding command : Z)
| RPadding (remaining command : Z).

Record reader := mk_reader {
  uuid : bytes;
  prefix : bytes;                                (* prefix[..prefix_read] *)
  raw : bool;
  state : read_state;
  output : bytes;
  inner_left : list (option bytes);
  inner_end : ending }.

Definition reader_new (i : inner) (e : ending) (u : bytes) : reader :=
  mk_reader u [] false (RHeader []) [] i e.

Definition set_inner (t : reader) (i : inner) : reader :=
  mk_reader (uuid t) (prefix t) (raw t) (state t) (output t) i (inner_end t).
Definition set_prefix (t : reader) (p : bytes) : reader :=
  mk_reader (uuid t) p (raw t) (state t) (output t) (inner_left t) (inner_end t).
Definition set_raw (t : reader) : reader :=
  mk_reader (uuid t) (prefix t) true (state t) (output t) (inner_left t) (inner_end t).
Definition set_state (t : reader) (s : read_state) : reader :=
  mk_reader (uuid t) (prefix t) (raw t) s (output t) (inner_left t) (inner_end t).
Definition set_output (t : reader) (o : bytes) : reader :=
  mk_reader (uuid t) (prefix t) (raw t) (state t) o (inner_left t) (inner_end t).

(** One poll of the inner stream into a buffer with room for [cap] bytes. *)
Definition poll_inner (t : reader) (cap : nat) : reader * polled :=
  let '(i, p) := poll_source (inner_left t) (inner_end t) cap in (set_inner t i, p).

(** One round of the loop of [poll_read]: either the poll is over, or the loop
    goes on. *)
Inductive round : Type :=
| Return (t : reader) (p : polled)
| Continue (t : reader).

Definition header_round (t : reader) (got : bytes) : round :=
  match poll_inner t (5 - length got) with
  | (t1, Ready []) => Return t1 (Ready [])
  | (t1, Ready b) =>
      match got ++ b with
      | [c; c1; c2; p1; p2] =>
          if negb (known_command c)
          then Return (set_state t1 (RHeader (got ++ b))) (Failed InvalidData)
          else Continue (set_state t1 (RContent (be_val [c1; c2]) (be_val [p1; p2]) c))
      | more => Continue (set_state t1 (RHeader more))
      end
  | (t1, p) => Return t1 p
  end.

Definition content_round (t : reader) (remaining padding command : Z) : round :=
  if remaining =? 0 then Continue (set_state t (RPadding padding command))
  else
    match poll_inner t (Z.to_nat (Z.min remaining (32 * 1024))) with
    | (t1, Ready []) => Return t1 (Failed UnexpectedEof)
    | (t1, Ready b) => Continue (set_output (set_state t1 (RContent (remaining - len b) padding command)) b)
    | (t1, p) => Return t1 p
    end.

Definition padding_round (t : reader) (remaining command : Z) : round :=
  if remaining =? 0 then
    if command =? COMMAND_CONTINUE then Continue (set_state t (RHeader []))
    else Continue (set_raw t)
  else
    match poll_inner t (Z.to_nat (Z.min remaining 8192)) with
    | (t1, Ready []) => Return t1 (Failed UnexpectedEof)
    | (t1, Ready b) => Continue (set_state t1 (RPadding (remaining - len b) command))
    | (t1, p) => Return t1 p
    end.

Definition state_round (t : reader) : round :=
  match state t with
  | RHeader got => header_round t got
  | RContent r p c => content_round t r p c
  | RPadding r c => padding_round t r c
  end.

Definition poll_round (t : reader) (room : nat) : round :=
  match output t with
  | _ :: _ =>
      let n := Nat.min (length (output t)) room in
      Return (set_output t (drop n (output t))) (Ready (take n (output t)))
  | [] =>
      if raw t then let '(t1, p) := poll_inner t room in Return t1 p
      else if decide (length (prefix t) < 16)%nat then
        match poll_inner t (16 - length (prefix t)) with
        | (t1, Ready []) => Return t1 (Failed UnexpectedEof)
        | (t1, Ready b) =>
            let t2 := set_prefix t1 (prefix t1 ++ b) in
            if decide (length (prefix t2) < 16)%nat then Continue t2
            else if bytes_eqb (prefix t2) (uuid t2) then state_round t2
            else Return t2 (Failed InvalidData)
        | (t1, p) => Return t1 p
        end
      else state_round t
  end.

(** The loop; [None] when the fuel runs out. *)
Fixpoint poll_read_fuel (fuel : nat) (t : reader) (room : nat) : option (reader * polled) :=
  match fuel with
  | O => None
  | S f =>
      match poll_round t room with
      | Return t' p => Some (t', p)
      | Continue t' => poll_read_fuel f t' room
      end
  end.

(** The bytes the inner stream still delivers; every round that goes on takes
    one of them or leaves a state with nothing left to take. *)
Definition wire (t : reader) : bytes := wire_of (inner_left t).

Definition poll_read (t : reader) (room : nat) : option (reader * polled) :=
  poll_read_fuel (3 * length (wire t) + 5) t room.

(** * Writer *)

Record tls_filter := mk_filter { packets_left : Z; is_tls : bool }.

Definition filter_new : tls_filter := mk_filter 8 false.

Definition observe (f : tls_filter) (data : bytes) : tls_filter :=
  let seen :=
    match data with
    | d0 :: d1 :: d2 :: _ :: _ :: _ :: _ =>
        ((d0 =? 0x16) && (d1 =? 0x03)) || ((d0 =? 0x17) && (d1 =? 0x03) && (d2 =? 0x03))
    | _ => false
    end in
  mk_filter (saturating_sub (packets_left f) 1) (is_tls f || seen).

Record writer := mk_writer { w_uuid : option bytes; w_filter : tls_filter; w_padding : bool }.

Definition writer_new (u : bytes) : writer := mk_writer (Some u) filter_new true.

Definition application_data (chunk : bytes) : bool :=
  match chunk with
  | d0 :: d1 :: d2 :: _ :: _ :: _ => (d0 =? 0x17) && (d1 =? 0x03) && (d2 =? 0x03)
  | _ => false
  end.

(** The loop of [VisionWriter::encode] over the chunks; [rnd k] is the draw for
    chunk [k]. *)
Fixpoint encode_chunks (w : writer) (rnd : nat -> Z) (cs : list bytes) :
    result vision_error (writer * list bytes) :=
  match cs with
  | [] => Ok (w, [])
  | c :: cs' =>
      let f := observe (w_filter w) c in
      let stop := (is_tls f && application_data c) || (packets_left f =? 0) in
      let w1 := mk_writer None f (if stop then false else w_padding w) in
      fr ← encode_frame c (if stop then COMMAND_END else COMMAND_CONTINUE) (w_uuid w) (is_tls f) (rnd O);
      '(w2, rest) ← encode_chunks w1 (fun k => rnd (S k)) cs';
      mret (w2, fr :: rest)
  end.

Definition encode (w : writer) (rnd : nat -> Z) (data : bytes) :
    result vision_error (writer * list bytes) :=
  if negb (w_padding w) then Ok (w, [data])
  else encode_chunks w rnd (chunks (Z.to_nat MAX_FRAME_CONTENT) data).

(** * Specification: a byte automaton *)

(** What the wire means, one byte at a time. *)
Inductive astate : Type :=
| APrefix (got : bytes)
| AHeader (got : bytes)
| AContent (remaining padding command : Z)
| APadding (remaining command : Z)
| ARaw
| ABad.

(** States in which nothing is left to take fall through to the next one. *)
Definition after_padding (remaining command : Z) : astate :=
  if remaining =? 0 then (if command =? COMMAND_CONTINUE then AHeader [] else ARaw)
  else APadding remaining command.

Definition after_content (remaining padding command : Z) : astate :=
  if remaining =? 0 then after_padding padding command else AContent remaining padding command.

Definition after_header (got : bytes) : astate :=
  match got with
  | [c; c1; c2; p1; p2] =>
      if known_command c then after_content (be_val [c1; c2]) (be_val [p1; p2]) c else ABad
  | _ => AHeader got
  end.

Definition after_prefix (u got : bytes) : astate :=
  if decide (length got < 16)%nat then APrefix got
  else if bytes_eqb got u then AHeader [] else ABad.

Definition feed (u : bytes) (s : astate) (b : Z) : astate * bytes :=
  match s with
  | APrefix got => (after_prefix u (got ++ [b]), [])
  | AHeader got => (after_header (got ++ [b]), [])
  | AContent r p c => (after_content (r - 1) p c, [b])
  | APadding r c => (after_padding (r - 1) c, [])
  | ARaw => (ARaw, [b])
  | ABad => (ABad, [])
  end.

Fixpoint feed_all (u : bytes) (s : astate) (w : bytes) : astate * bytes :=
  match w with
  | [] => (s, [])
  | b :: w' =>
      let '(s1, o1) := feed u s b in
      let '(s2, o2) := feed_all u s1 w' in
      (s2, o1 ++ o2)
  end.

(** The automaton state a reader stands for. *)
Definition abs_state (s : read_state) : astate :=
  match s with
  | RHeader got => after_header got
  | RContent r p c => after_content r p c
  | RPadding r c => after_padding r c
  end.

Definition abs (t : reader) : astate :=
  if raw t then ARaw
  else if decide (length (prefix t) < 16)%nat then APrefix (prefix t)
  else if bytes_eqb (prefix t) (uuid t) then abs_state (state t) else ABad.

(** Where the whole wire leads and everything that is still to be output. *)
Definition total (t : reader) : astate * bytes :=
  let '(s, o) := feed_all (uuid t) (abs t) (wire t) in (s, output t ++ o).

(** The inner stream is well formed and the counters are those the code can reach. *)
Record reader_wf (t : reader) : Prop := {
  wf_inner : inner_ok (inner_left t);
  wf_prefix : (length (prefix t) <= 16)%nat;
  wf_start : (length (prefix t) < 16)%nat -> state t = RHeader [] /\ output t = [];
  wf_state : match state t with
             | RHeader got => (length got < 5)%nat /\ bytes_ok got
             | RContent r p c => 0 <= r /\ 0 <= p
             | RPadding r c => 0 <= r
             end;
  wf_good : (16 <= length (prefix t))%nat -> prefix t = uuid t;
  wf_uuid : length (uuid t) = 16%nat }.

(** * Lemmas *)

Ltac feed_pair :=
  match goal with |- context [feed_all ?u ?s ?w] => destruct (feed_all u s w); reflexivity end.

Lemma feed_all_app u s a b :
  feed_all u s (a ++ b) =
  let '(s1, o1) := feed_all u s a in let '(s2, o2) := feed_all u s1 b in (s2, o1 ++ o2).
Proof.
  revert s. induction a as [|x a IH]; intros s; cbn; [by destruct (feed_all u s b)|].
  destruct (feed u s x) as [s1 o1]. rewrite IH. destruct (feed_all u s1 a) as [s2 o2].
  destruct (feed_all u s2 b) as [s3 o3]. by rewrite app_assoc.
Qed.

Lemma feed_content u r p c b :
  0 < r -> len b <= r -> feed_all u (after_content r p c) b = (after_content (r - len b) p c, b).
Proof.
  revert r. induction b as [|x b IH]; intros r Hr Hl; cbn [feed_all].
  - rewrite len_nil, Z.sub_0_r. done.
  - rewrite len_cons in *. pose proof (len_nonneg b).
    assert (feed u (after_content r p c) x = (after_content (r - 1) p c, [x])) as ->.
    { unfold after_content at 1. by rewrite (proj2 (Z.eqb_neq _ _)) by lia. }
    replace (r - (1 + len b)) with (r - 1 - len b) by lia. destruct b as [|y b].
    + rewrite len_nil, Z.sub_0_r. done.
    + rewrite IH; [done| |lia]. rewrite len_cons in *. pose proof (len_nonneg b). lia.
Qed.

Lemma feed_padding u r c b :
  0 < r -> len b <= r -> feed_all u (after_padding r c) b = (after_padding (r - len b) c, []).
Proof.
  revert r. induction b as [|x b IH]; intros r Hr Hl; cbn [feed_all].
  - rewrite len_nil, Z.sub_0_r. done.
  - rewrite len_cons in *. pose proof (len_nonneg b).
    assert (feed u (after_padding r c) x = (after_padding (r - 1) c, [])) as ->.
    { unfold after_padding at 1. by rewrite (proj2 (Z.eqb_neq _ _)) by lia. }
    replace (r - (1 + len b)) with (r - 1 - len b) by lia. destruct b as [|y b].
    + rewrite len_nil, Z.sub_0_r. done.
    + rewrite IH; [done| |lia]. rewrite len_cons in *. pose proof (len_nonneg b). lia.
Qed.

Lemma after_header_short got : length got <> 5%nat -> after_header got = AHeader got.
Proof. intros H. by destruct got as [|? [|? [|? [|? [|? [|]]]]]]. Qed.

Lemma feed_header u got b :
  (length got + length b <= 5)%nat -> (length got < 5)%nat ->
  feed_all u (after_header got) b = (after_header (got ++ b), []).
Proof.
  revert got. induction b as [|x b IH]; intros got Hl Hg; cbn [feed_all length] in *.
  - by rewrite app_nil_r.
  - rewrite after_header_short by lia. cbn [feed].
    replace (got ++ x :: b) with ((got ++ [x]) ++ b) by (by rewrite <- app_assoc).
    destruct b as [|y b].
    + by rewrite app_nil_r.
    + rewrite IH by (rewrite length_app; cbn [length] in *; lia). done.
Qed.

Lemma feed_prefix u got b :
  (length got + length b <= 16)%nat -> (length got < 16)%nat ->
  feed_all u (after_prefix u got) b = (after_prefix u (got ++ b), []).
Proof.
  revert got. induction b as [|x b IH]; intros got Hl Hg; cbn [feed_all length] in *.
  - by rewrite app_nil_r.
  - unfold after_prefix at 1. rewrite decide_True by done. cbn [feed].
    replace (got ++ x :: b) with ((got ++ [x]) ++ b) by (by rewrite <- app_assoc).
    destruct b as [|y b].
    + by rewrite app_nil_r.
    + rewrite IH by (rewrite length_app; cbn [length] in *; lia). done.
Qed.

Lemma feed_raw u b : feed_all u ARaw b = (ARaw, b).
Proof. induction b as [|x b IH]; cbn; [done|]. by rewrite IH. Qed.

Lemma feed_bad u b : feed_all u ABad b = (ABad, []).
Proof. induction b as [|x b IH]; cbn; [done|]. by rewrite IH. Qed.

(** ** Inner polls *)

Lemma poll_inner_spec t cap :
  inner_ok (inner_left t) -> (0 < cap)%nat ->
  match poll_inner t cap with
  | (t1, Ready b) =>
      exists r, t1 = set_inner t r /\ inner_ok r /\ wire t = b ++ wire_of r /\ (length b <= cap)%nat /\
        bytes_ok b /\ (b = [] -> r = [] /\ inner_left t = [] /\ inner_end t = AtEof)
  | (t1, Pending) => exists r, t1 = set_inner t r /\ inner_ok r /\ wire t = wire_of r
  | (t1, Failed k) => t1 = t /\ inner_left t = [] /\ inner_end t = AtError k
  end.
Proof.
  intros Hok Hcap. unfold poll_inner, wire. pose proof (poll_source_spec _ (inner_end t) cap Hok Hcap) as Hp.
  destruct (poll_source _ _ _) as [r [|b|k]]; [naive_solver..|]. destruct Hp as (-> & Hi & He).
  split; [|done]. rewrite <- Hi. by destruct t.
Qed.

(** * One round *)

Definition clean (s : astate) : Prop := match s with AHeader _ | ARaw => True | _ => False end.
Definition truncated (s : astate) : Prop :=
  match s with APrefix _ | AContent _ _ _ | APadding _ _ => True | _ => False end.

(** What a finished poll of [t] that left [t'] means for the wire. *)
Definition outcome_ok (t t' : reader) (p : polled) : Prop :=
  match p with
  | Pending => reader_wf t' /\ total t = total t'
  | Ready b =>
      reader_wf t' /\ total t = (fst (total t'), b ++ snd (total t')) /\
      (b = [] -> inner_left t' = [] /\ inner_end t' = AtEof /\ output t' = [] /\ clean (abs t'))
  | Failed k =>
      (k = InvalidData /\ total t = (ABad, [])) \/
      (reader_wf t' /\ inner_left t' = [] /\ total t = total t' /\
       (inner_end t' = AtError k \/
        inner_end t' = AtEof /\ k = UnexpectedEof /\ truncated (abs t')))
  end.

Definition rank (s : read_state) : nat :=
  match s with RContent _ _ _ => 2 | RPadding _ _ => 1 | RHeader _ => 0 end.
Definition measure (t : reader) : nat :=
  match output t with
  | [] => if raw t then 1 else 2 + 3 * length (wire t) + rank (state t)
  | _ => 0
  end.

Definition round_ok (t : reader) (r : round) : Prop :=
  match r with
  | Return t' p => outcome_ok t t' p
  | Continue t' => reader_wf t' /\ total t = total t' /\ (measure t' < measure t)%nat
  end.

(** A reader past its prefix, with nothing buffered. *)
Record active (t : reader) : Prop := {
  act_wf : reader_wf t;
  act_raw : raw t = false;
  act_out : output t = [];
  act_prefix : length (prefix t) = 16%nat }.

Lemma active_abs t : active t -> abs t = abs_state (state t).
Proof.
  intros [Hw Hr _ Hp]. unfold abs. rewrite Hr, decide_False by lia.
  by rewrite (wf_good _ Hw), bytes_eqb_refl by lia.
Qed.

Lemma active_total t : active t -> total t = feed_all (uuid t) (abs_state (state t)) (wire t).
Proof.
  intros Ha. unfold total. rewrite (active_abs t Ha), (act_out t Ha). feed_pair.
Qed.

(** Replacing the state and the inner stream of such a reader. *)
Lemma active_set t r s :
  active t -> inner_ok r ->
  match s with
  | RHeader got => (length got < 5)%nat /\ bytes_ok got
  | RContent r p c => 0 <= r /\ 0 <= p
  | RPadding r c => 0 <= r
  end -> active (set_state (set_inner t r) s).
Proof.
  intros [[H1 H2 H3 H4 H5 H6] Hr Ho Hp] Hok Hs. split; [|done|done|done].
  split; cbn; auto. intros. lia.
Qed.

Lemma active_set_inner t r : active t -> inner_ok r -> active (set_inner t r).
Proof.
  intros [[H1 H2 H3 H4 H5 H6] Hr Ho Hp] Hok. split; [|done|done|done]. split; cbn; auto.
Qed.

Lemma active_measure t : active t -> measure t = (2 + 3 * length (wire t) + rank (state t))%nat.
Proof. intros [_ Hr Ho _]. unfold measure. by rewrite Ho, Hr. Qed.

Lemma wire_set_inner t r s : wire (set_state (set_inner t r) s) = wire_of r.
Proof. done. Qed.

(** A pending or failed inner poll ends the round without changing anything. *)
Lemma poll_pending t r : active t -> inner_ok r -> wire t = wire_of r -> outcome_ok t (set_inner t r) Pending.
Proof.
  intros Ha Hok Hw. pose proof (active_set_inner t r Ha Hok) as Ha'. split; [apply Ha'|].
  rewrite !active_total by done. cbn. by rewrite Hw.
Qed.

Lemma poll_failed t k : active t -> inner_left t = [] -> inner_end t = AtError k -> outcome_ok t t (Failed k).
Proof. intros Ha Hi He. right. split; [apply Ha|]. auto. Qed.

Lemma header_round_ok t got : active t -> state t = RHeader got -> round_ok t (header_round t got).
Proof.
  intros Ha Hs. pose proof (wf_state _ (act_wf _ Ha)) as Hg. rewrite Hs in Hg. destruct Hg as [Hg Hgok].
  pose proof (poll_inner_spec t (5 - length got) (wf_inner _ (act_wf _ Ha)) ltac:(lia)) as Hpoll.
  unfold header_round. destruct (poll_inner t (5 - length got)) as [t1 [|[|b0 b]|k]].
  - destruct Hpoll as (r & -> & Hok & Hw). by apply poll_pending.
  - destruct Hpoll as (r & -> & Hok & Hw & _ & _ & He). destruct (He eq_refl) as (-> & Hi & Hend).
    pose proof (active_set_inner t [] Ha Hok) as Ha'.
    assert (clean (abs (set_inner t []))) as Hcl.
    { rewrite active_abs by done. cbn [state set_inner]. rewrite Hs. cbn [abs_state]. by rewrite after_header_short by lia. }
    split; [apply Ha'|]. split.
    { rewrite !active_total by done. cbn. unfold wire. rewrite Hi. cbn. done. }
    intros _. split; [done|]. split; [done|]. split; [exact (act_out _ Ha)|exact Hcl].
  - destruct Hpoll as (r & -> & Hok & Hw & Hl & Hbok & _). set (bb := b0 :: b) in *.
    assert (feed_all (uuid t) (after_header got) (wire t)
      = feed_all (uuid t) (after_header (got ++ bb)) (wire_of r)) as Hfeed.
    { rewrite Hw, feed_all_app, feed_header by lia. feed_pair. }
    assert (length (wire t) = length bb + length (wire_of r))%nat as Hlw by (by rewrite Hw, length_app).
    assert (bytes_ok (got ++ bb)) as Hgb by (by apply bytes_ok_app).
    assert (forall s', abs_state s' = after_header (got ++ bb) ->
      match s' with
      | RHeader g => (length g < 5)%nat /\ bytes_ok g
      | RContent r p c => 0 <= r /\ 0 <= p
      | RPadding r c => 0 <= r
      end -> round_ok t (Continue (set_state (set_inner t r) s'))) as Hmore.
    { intros s' Habs Hs'. pose proof (active_set t r s' Ha Hok Hs') as Ha'.
      split; [apply Ha'|]. rewrite !active_total, !active_measure by done. rewrite Hs. cbn [abs_state state set_state].
      rewrite Habs. split; [exact Hfeed|]. rewrite wire_set_inner, Hlw. cbn [rank bb length].
      assert (rank s' <= 2)%nat by (by destruct s'; cbn; lia). lia. }
    assert (length (got ++ bb) <= 5)%nat as Hl5 by (rewrite length_app; lia).
    destruct (got ++ bb) as [|c [|c1 [|c2 [|p1 [|p2 [|]]]]]] eqn:Eg;
      try (apply Hmore; [done|split; [cbn; lia|done]]); [|cbn in Hl5; lia].
    destruct (known_command c) eqn:Ec; cbn [negb].
    + apply Hmore; [cbn [after_header]; by rewrite Ec|].
      do 5 apply Forall_cons_iff in Hgb as [? Hgb]. cbn. unfold byte_ok in *. lia.
    + left. split; [done|]. rewrite active_total, Hs by done. cbn [abs_state]. rewrite Hfeed. cbn [after_header].
      rewrite Ec. apply feed_bad.
  - destruct Hpoll as (-> & Hi & He). by apply poll_failed.
Qed.

(** An inner stream that ended inside a frame. *)
Lemma poll_truncated t r :
  active t -> inner_ok r -> r = [] /\ inner_left t = [] /\ inner_end t = AtEof ->
  truncated (abs_state (state t)) -> outcome_ok t (set_inner t r) (Failed UnexpectedEof).
Proof.
  intros Ha Hok (-> & Hi & He) Htr. pose proof (active_set_inner t [] Ha Hok) as Ha'.
  right. split; [apply Ha'|]. split; [done|]. split.
  - rewrite !active_total by done. cbn. unfold wire. by rewrite Hi.
  - right. split; [done|]. split; [done|]. by rewrite (active_abs _ Ha').
Qed.

Lemma content_round_ok t rem pad c :
  active t -> state t = RContent rem pad c -> round_ok t (content_round t rem pad c).
Proof.
  intros Ha Hs. pose proof (wf_state _ (act_wf _ Ha)) as Hg. rewrite Hs in Hg. destruct Hg as [Hr Hp].
  unfold content_round. destruct (rem =? 0) eqn:E; split_bool.
  - pose proof (active_set t (inner_left t) (RPadding pad c) Ha (wf_inner _ (act_wf _ Ha)) Hp) as Ha'.
    replace (set_inner t (inner_left t)) with t in Ha' by (by destruct t).
    split; [apply Ha'|]. rewrite !active_total, !active_measure by done. rewrite Hs. cbn [abs_state state set_state rank].
    split; [unfold after_content; by rewrite E|]. change (wire (set_state t _)) with (wire t). lia.
  - assert (abs_state (RContent rem pad c) = AContent rem pad c) as Habs
      by (cbn; unfold after_content; by rewrite (proj2 (Z.eqb_neq _ _)) by lia).
    pose proof (poll_inner_spec t (Z.to_nat (Z.min rem (32 * 1024))) (wf_inner _ (act_wf _ Ha)) ltac:(lia)) as Hpoll.
    destruct (poll_inner t _) as [t1 [|[|b0 b]|k]].
    + destruct Hpoll as (r & -> & Hok & Hw). by apply poll_pending.
    + destruct Hpoll as (r & -> & Hok & Hw & _ & _ & He). apply poll_truncated; [done|done|by apply He|].
      by rewrite Hs, Habs.
    + destruct Hpoll as (r & -> & Hok & Hw & Hl & Hbok & _). set (bb := b0 :: b) in *.
      assert (len bb <= rem) as Hlb by (unfold len; lia).
      pose proof (active_set t r (RContent (rem - len bb) pad c) Ha Hok ltac:(cbv beta iota; lia)) as Ha'.
      split; [|split].
      * pose proof (act_wf _ Ha') as [H1 H2 H3 H4 H5 H6]. split; cbn; auto.
        intros Hlt. rewrite (act_prefix _ Ha) in Hlt. lia.
      * rewrite (active_total t Ha), Hs. rewrite Hw, feed_all_app. cbn [abs_state]. rewrite (feed_content _ rem pad c bb) by lia.
        pose proof (active_abs _ Ha') as Habs'. unfold total.
        change (abs (set_output _ bb)) with (abs (set_state (set_inner t r) (RContent (rem - len bb) pad c))).
        rewrite Habs'. change (wire (set_output _ _)) with (wire_of r). cbn [uuid set_output set_state set_inner output abs_state state].
        feed_pair.
      * rewrite (active_measure t Ha). unfold measure. cbn. lia.
    + destruct Hpoll as (-> & Hi & He). by apply poll_failed.
Qed.

Lemma padding_round_ok t rem c :
  active t -> state t = RPadding rem c -> round_ok t (padding_round t rem c).
Proof.
  intros Ha Hs. pose proof (wf_state _ (act_wf _ Ha)) as Hr. rewrite Hs in Hr.
  unfold padding_round. destruct (rem =? 0) eqn:E; split_bool.
  - subst rem. destruct (c =? COMMAND_CONTINUE) eqn:Ec.
    + pose proof (active_set t (inner_left t) (RHeader []) Ha (wf_inner _ (act_wf _ Ha)) ltac:(split; [cbn; lia|constructor])) as Ha'.
      replace (set_inner t (inner_left t)) with t in Ha' by (by destruct t).
      split; [apply Ha'|]. rewrite !active_total, !active_measure by done. rewrite Hs. cbn [abs_state state set_state rank].
      split; [unfold after_padding; by rewrite Ec|]. change (wire (set_state t _)) with (wire t). lia.
    + split; [|split].
      * pose proof (act_wf _ Ha) as [H1 H2 H3 H4 H5 H6]. by split.
      * rewrite (active_total t Ha), Hs. unfold total. cbn [abs raw set_raw uuid]. change (wire (set_raw t)) with (wire t).
        cbn [abs_state]. unfold after_padding. cbn [Z.eqb]. rewrite Ec. cbn [output set_raw]. rewrite (act_out _ Ha).
        feed_pair.
      * rewrite (active_measure t Ha). unfold measure. cbn. rewrite (act_out _ Ha). lia.
  - assert (abs_state (RPadding rem c) = APadding rem c) as Habs
      by (cbn; unfold after_padding; by rewrite (proj2 (Z.eqb_neq _ _)) by lia).
    pose proof (poll_inner_spec t (Z.to_nat (Z.min rem 8192)) (wf_inner _ (act_wf _ Ha)) ltac:(lia)) as Hpoll.
    destruct (poll_inner t _) as [t1 [|[|b0 b]|k]].
    + destruct Hpoll as (r & -> & Hok & Hw). by apply poll_pending.
    + destruct Hpoll as (r & -> & Hok & Hw & _ & _ & He). apply poll_truncated; [done|done|by apply He|].
      by rewrite Hs, Habs.
    + destruct Hpoll as (r & -> & Hok & Hw & Hl & Hbok & _). set (bb := b0 :: b) in *.
      assert (len bb <= rem) as Hlb by (unfold len; lia).
      pose proof (active_set t r (RPadding (rem - len bb) c) Ha Hok ltac:(cbv beta iota; lia)) as Ha'.
      split; [apply Ha'|]. rewrite !active_total, !active_measure by done. rewrite Hs.
      split.
      * rewrite Hw, feed_all_app. cbn [abs_state]. rewrite (feed_padding _ rem c bb) by lia.
        change (wire (set_state _ _)) with (wire_of r). cbn [uuid set_state set_inner abs_state state].
        feed_pair.
      * rewrite wire_set_inner, Hw, length_app. cbn [rank state set_state bb length]. lia.
    + destruct Hpoll as (-> & Hi & He). by apply poll_failed.
Qed.

Lemma state_round_ok t : active t -> round_ok t (state_round t).
Proof.
  intros Ha. unfold state_round. destruct (state t) eqn:E;
    [by apply header_round_ok|by apply content_round_ok|by apply padding_round_ok].
Qed.

Lemma round_ok_from t t2 r :
  total t = total t2 -> (measure t2 <= measure t)%nat -> round_ok t2 r -> round_ok t r.
Proof.
  intros Ht Hm. destruct r as [t' p|t']; cbn; [|intros (? & ? & ?); split; [done|split; [congruence|lia]]].
  destruct p as [|b|k]; cbn; rewrite Ht; auto.
Qed.

(** The part of [poll_round] that reads the UUID prefix. *)
Lemma prefix_round_ok t room :
  reader_wf t -> output t = [] -> raw t = false -> (length (prefix t) < 16)%nat -> round_ok t (poll_round t room).
Proof.
  intros Hwf Ho Hraw Hp. destruct (wf_start _ Hwf Hp) as [Hst _].
  unfold poll_round. rewrite Ho, Hraw, decide_True by done.
  assert (abs t = after_prefix (uuid t) (prefix t)) as Habs
    by (unfold abs, after_prefix; by rewrite Hraw, !decide_True).
  assert (total t = feed_all (uuid t) (after_prefix (uuid t) (prefix t)) (wire t)) as Htot
    by (unfold total; rewrite Habs, Ho; feed_pair).
  pose proof (poll_inner_spec t (16 - length (prefix t)) (wf_inner _ Hwf) ltac:(lia)) as Hpoll.
  assert (forall r, inner_ok r -> reader_wf (set_inner t r)) as Hset
    by (intros r Hr; destruct Hwf; by split).
  destruct (poll_inner t _) as [t1 [|[|b0 b]|k]].
  - destruct Hpoll as (r & -> & Hok & Hw). split; [by apply Hset|]. unfold total.
    change (abs (set_inner t r)) with (abs t). cbn. by rewrite Hw.
  - destruct Hpoll as (r & -> & Hok & Hw & _ & _ & He). destruct (He eq_refl) as (-> & Hi & Hend).
    right. split; [by apply Hset|]. split; [done|]. split.
    + unfold total. change (abs (set_inner t [])) with (abs t). cbn. unfold wire. by rewrite Hi.
    + right. split; [done|]. split; [done|]. change (abs (set_inner t [])) with (abs t). rewrite Habs.
      unfold after_prefix. by rewrite decide_True.
  - destruct Hpoll as (r & -> & Hok & Hw & Hl & Hbok & _). set (bb := b0 :: b) in *. cbn [prefix set_inner].
    set (t2 := set_prefix (set_inner t r) (prefix t ++ bb)).
    assert (length (prefix t ++ bb) <= 16)%nat as Hl16 by (rewrite length_app; lia).
    assert (length (wire t) = length bb + length (wire_of r))%nat as Hlw by (by rewrite Hw, length_app).
    assert (total t = feed_all (uuid t) (after_prefix (uuid t) (prefix t ++ bb)) (wire_of r)) as Hfeed.
    { rewrite Htot, Hw, feed_all_app, feed_prefix by lia.
      feed_pair. }
    assert (abs t2 = after_prefix (uuid t) (prefix t ++ bb)) as Habs2.
    { unfold abs, after_prefix. cbn. rewrite Hraw, Hst. cbn. done. }
    assert (total t = total t2) as Heq.
    { rewrite Hfeed. unfold total. rewrite Habs2. change (wire t2) with (wire_of r).
      cbn [uuid output t2 set_prefix set_inner]. rewrite Ho. feed_pair. }
    assert (measure t2 < measure t)%nat as Hm.
    { unfold measure. change (wire t2) with (wire_of r). cbn [output raw state t2 set_prefix set_inner].
      rewrite Ho, Hraw, Hst, Hlw. cbn [length bb]. lia. }
    change (prefix t2) with (prefix t ++ bb). change (uuid t2) with (uuid t).
    destruct (decide (length (prefix t ++ bb) < 16)%nat) as [Hlt|Hge].
    + split; [|done]. destruct Hwf as [H1 H2 H3 H4 H5 H6]. split; cbn; auto. lia.
    + destruct (bytes_eqb (prefix t ++ bb) (uuid t)) eqn:Eu.
      * apply (round_ok_from t t2); [done|lia|]. apply state_round_ok. apply bytes_eqb_eq in Eu.
        destruct Hwf as [H1 H2 H3 H4 H5 H6].
        split; [split; cbn; auto; lia|done|done|cbn; lia].
      * left. split; [done|]. rewrite Hfeed. unfold after_prefix. rewrite decide_False by done. rewrite Eu. apply feed_bad.
  - destruct Hpoll as (-> & Hi & He). right. auto.
Qed.

Lemma poll_round_ok t room : reader_wf t -> (0 < room)%nat -> round_ok t (poll_round t room).
Proof.
  intros Hwf Hroom. destruct (output t) as [|o0 o] eqn:Ho.
  - destruct (raw t) eqn:Hraw.
    + unfold poll_round. rewrite Ho, Hraw.
      assert (forall r, abs (set_inner t r) = ARaw) as Habs by (intros; unfold abs; cbn; by rewrite Hraw).
      assert (abs t = ARaw) as Habs0 by (unfold abs; by rewrite Hraw).
      pose proof (poll_inner_spec t room (wf_inner _ Hwf) Hroom) as Hpoll.
      assert (forall r, inner_ok r -> reader_wf (set_inner t r)) as Hset
        by (intros r Hr; destruct Hwf; by split).
      destruct (poll_inner t room) as [t1 [|b|k]].
      * destruct Hpoll as (r & -> & Hok & Hw). split; [by apply Hset|]. unfold total. rewrite Habs, Habs0. cbn. by rewrite Hw.
      * destruct Hpoll as (r & -> & Hok & Hw & _ & _ & He). split; [by apply Hset|]. split.
        -- unfold total. rewrite Habs, Habs0, !feed_raw. cbn. rewrite Ho. cbn. by rewrite Hw.
        -- intros Hb. destruct (He Hb) as (-> & _ & ?). rewrite Habs. by repeat split.
      * destruct Hpoll as (-> & Hi & He). right. auto.
    + destruct (decide (length (prefix t) < 16)%nat) as [Hp|Hp]; [by apply prefix_round_ok|].
      unfold poll_round. rewrite Ho, Hraw, decide_False by done. apply state_round_ok.
      split; [done|done|done|]. pose proof (wf_prefix _ Hwf). lia.
  - unfold poll_round. rewrite Ho. set (n := Nat.min _ _).
    split; [|split].
    + destruct Hwf as [H1 H2 H3 H4 H5 H6]. split; cbn; auto. intros Hlt. destruct (H3 Hlt). congruence.
    + unfold total. change (abs (set_output t _)) with (abs t). change (wire (set_output t _)) with (wire t).
      cbn. rewrite Ho. destruct (feed_all _ _ _) as [s x]. cbn [fst snd]. f_equal.
      by rewrite app_assoc, take_drop.
    + intros Hb. unfold n in Hb. cbn [length] in Hb. destruct room; [lia|done].
Qed.

Lemma poll_read_fuel_ok fuel t room :
  reader_wf t -> (0 < room)%nat -> (measure t < fuel)%nat ->
  exists t' p, poll_read_fuel fuel t room = Some (t', p) /\ outcome_ok t t' p.
Proof.
  revert t. induction fuel as [|f IH]; intros t Hwf Hroom Hf; [lia|]. cbn.
  pose proof (poll_round_ok t room Hwf Hroom) as Hr. destruct (poll_round t room) as [t' p|t'].
  - eauto.
  - destruct Hr as (Hwf' & Ht & Hm). destruct (IH t' Hwf' Hroom ltac:(lia)) as (t2 & p & Hp & Ho).
    exists t2, p. split; [done|]. destruct p as [|b|k]; cbn in *; by rewrite Ht.
Qed.

Lemma measure_bound t : (measure t < 3 * length (wire t) + 5)%nat.
Proof.
  unfold measure. destruct (output t); [|lia]. destruct (raw t); [lia|].
  assert (rank (state t) <= 2)%nat by (by destruct (state t); cbn; lia). lia.
Qed.

(** ** Pending polls use up the inner stream *)

Definition ilen (t : reader) : nat := length (inner_left t).

Lemma poll_inner_ilen t cap :
  match poll_inner t cap with
  | (t1, Pending) => (ilen t1 < ilen t)%nat
  | (t1, _) => (ilen t1 <= ilen t)%nat
  end.
Proof.
  unfold poll_inner, ilen. pose proof (poll_source_length (inner_left t) (inner_end t) cap) as Hl.
  by destruct (poll_source _ _ _) as [r [|b|k]].
Qed.

Lemma state_round_ilen t :
  match state_round t with
  | Return t' Pending => (ilen t' < ilen t)%nat
  | Return t' _ | Continue t' => (ilen t' <= ilen t)%nat
  end.
Proof.
  unfold state_round. destruct (state t) as [got|rem pad c|rem c].
  - unfold header_round. pose proof (poll_inner_ilen t (5 - length got)) as H.
    destruct (poll_inner t _) as [t1 [|[|b0 b]|k]]; try done.
    destruct (got ++ b0 :: b) as [|c [|c1 [|c2 [|p1 [|p2 [|]]]]]]; try done.
    by destruct (negb _).
  - unfold content_round. destruct (rem =? 0); [done|].
    pose proof (poll_inner_ilen t (Z.to_nat (Z.min rem (32 * 1024)))) as H.
    destruct (poll_inner t _) as [t1 [|[|b0 b]|k]]; done.
  - unfold padding_round. destruct (rem =? 0); [by destruct (c =? _)|].
    pose proof (poll_inner_ilen t (Z.to_nat (Z.min rem 8192))) as H.
    destruct (poll_inner t _) as [t1 [|[|b0 b]|k]]; done.
Qed.

Lemma poll_round_ilen t room :
  match poll_round t room with
  | Return t' Pending => (ilen t' < ilen t)%nat
  | Return t' _ | Continue t' => (ilen t' <= ilen t)%nat
  end.
Proof.
  unfold poll_round. destruct (output t); [|done]. destruct (raw t).
  - pose proof (poll_inner_ilen t room). destruct (poll_inner t room) as [t1 []]; done.
  - case_decide; [|apply state_round_ilen].
    pose proof (poll_inner_ilen t (16 - length (prefix t))) as H1.
    destruct (poll_inner t _) as [t1 [|[|b0 b]|k]]; try done. cbv zeta.
    case_decide; [exact H1|]. destruct (bytes_eqb _ _); [|exact H1].
    pose proof (state_round_ilen (set_prefix t1 (prefix t1 ++ b0 :: b))) as H3.
    change (ilen (set_prefix _ _)) with (ilen t1) in H3.
    destruct (state_round _) as [t' []|t']; lia.
Qed.

Lemma poll_read_ilen fuel t room t' p :
  poll_read_fuel fuel t room = Some (t', p) ->
  match p with Pending => (ilen t' < ilen t)%nat | _ => (ilen t' <= ilen t)%nat end.
Proof.
  revert t. induction fuel as [|f IH]; intros t; [done|]. cbn.
  pose proof (poll_round_ilen t room) as Hr. destruct (poll_round t room) as [t1 p1|t1].
  - intros [= <- <-]. by destruct p1.
  - intros H. specialize (IH _ H). destruct p; lia.
Qed.

(** How the inner stream ends never changes. *)
Lemma poll_inner_end t cap : inner_end (poll_inner t cap).1 = inner_end t.
Proof. unfold poll_inner. by repeat case_match. Qed.

Definition round_reader (r : round) : reader := match r with Return t _ | Continue t => t end.

Lemma state_round_end t : inner_end (round_reader (state_round t)) = inner_end t.
Proof.
  unfold state_round. destruct (state t) as [got|rem pad c|rem c].
  - unfold header_round. pose proof (poll_inner_end t (5 - length got)) as H.
    destruct (poll_inner t _) as [t1 [|[|b0 b]|k]]; try done.
    destruct (got ++ b0 :: b) as [|c [|c1 [|c2 [|p1 [|p2 [|]]]]]]; try done.
    by destruct (negb _).
  - unfold content_round. destruct (rem =? 0); [done|].
    pose proof (poll_inner_end t (Z.to_nat (Z.min rem (32 * 1024)))) as H.
    destruct (poll_inner t _) as [t1 [|[|b0 b]|k]]; done.
  - unfold padding_round. destruct (rem =? 0); [by destruct (c =? _)|].
    pose proof (poll_inner_end t (Z.to_nat (Z.min rem 8192))) as H.
    destruct (poll_inner t _) as [t1 [|[|b0 b]|k]]; done.
Qed.

Lemma poll_round_end t room : inner_end (round_reader (poll_round t room)) = inner_end t.
Proof.
  unfold poll_round. destruct (output t); [|done]. destruct (raw t).
  - pose proof (poll_inner_end t room). by destruct (poll_inner t room).
  - case_decide; [|apply state_round_end].
    pose proof (poll_inner_end t (16 - length (prefix t))) as H1.
    destruct (poll_inner t _) as [t1 [|[|b0 b]|k]]; try done. cbv zeta.
    case_decide; [done|]. case_match; [|done]. by rewrite state_round_end.
Qed.

Lemma poll_read_end fuel t room t' p :
  poll_read_fuel fuel t room = Some (t', p) -> inner_end t' = inner_end t.
Proof.
  revert t. induction fuel as [|f IH]; intros t; [done|]. cbn.
  pose proof (poll_round_end t room) as Hr. destruct (poll_round t room) as [t1 p1|t1]; cbn in Hr.
  - by intros [= <- <-].
  - intros H. by rewrite (IH _ H).
Qed.

(** * Reading to the end *)

(** [read_to_end] with reads into [room] bytes: the bytes, and the error if
    there was one; [None] when the fuel runs out. *)
Fixpoint drain (fuel : nat) (t : reader) (room : nat) : option (bytes * option io_kind) :=
  match fuel with
  | O => None
  | S f =>
      match poll_read t room with
      | Some (t', Pending) => drain f t' room
      | Some (t', Ready []) => Some ([], None)
      | Some (t', Ready b) => '(o, e) ← drain f t' room; Some (b ++ o, e)
      | Some (t', Failed k) => Some ([], Some k)
      | None => None
      end
  end.

Lemma poll_read_ok t room :
  reader_wf t -> (0 < room)%nat ->
  exists t' p, poll_read t room = Some (t', p) /\ outcome_ok t t' p.
Proof. intros. apply poll_read_fuel_ok; [done|done|apply measure_bound]. Qed.

Lemma total_ended t : inner_left t = [] -> output t = [] -> total t = (abs t, []).
Proof. intros Hi Ho. unfold total, wire. by rewrite Hi, Ho. Qed.

(** If the whole wire leads to a clean end, draining outputs all it means. *)
Lemma drain_ok fuel t room :
  reader_wf t -> (0 < room)%nat -> inner_end t = AtEof -> clean (fst (total t)) ->
  (length (snd (total t)) + ilen t < fuel)%nat -> drain fuel t room = Some (snd (total t), None).
Proof.
  revert t. induction fuel as [|f IH]; intros t Hwf Hroom He Hc Hf; [lia|]. cbn [drain].
  destruct (poll_read_ok t room Hwf Hroom) as (t' & p & Hp & Ho). rewrite Hp.
  pose proof (poll_read_ilen _ _ _ _ _ Hp) as Hil.
  assert (inner_end t' = inner_end t) as Hend by (by eapply poll_read_end).
  destruct p as [|b|k].
  - destruct Ho as [Hwf' Ht]. rewrite Ht in *. rewrite IH; [done|done|done|congruence|done|lia].
  - destruct Ho as (Hwf' & Ht & Hb). rewrite Ht in *. cbn [fst snd] in *. destruct b as [|b0 b].
    + destruct (Hb eq_refl) as (Hi & _ & Hout & _). by rewrite (total_ended t' Hi Hout).
    + rewrite length_app in Hf. cbn [length] in Hf.
      rewrite IH; [done|done|done|congruence|done|lia].
  - destruct Ho as [(-> & Ht)|(Hwf' & Hi & Ht & Hk)]; [by rewrite Ht in Hc|].
    destruct Hk as [Hk|(_ & -> & Htr)]; [congruence|]. exfalso.
    destruct (output t') as [|o0 o] eqn:Eo.
    + rewrite Ht, (total_ended t' Hi Eo) in Hc. by destruct (abs t').
    + rewrite Ht in Hc. unfold total in Hc. unfold wire in Hc. rewrite Hi in Hc. cbn in Hc. by destruct (abs t').
Qed.

(** * Frames on the wire *)

Lemma feed_exact_prefix u : length u = 16%nat -> feed_all u (APrefix []) u = (AHeader [], []).
Proof.
  intros Hl. pose proof (feed_prefix u [] u ltac:(cbn; lia) ltac:(cbn; lia)) as H.
  unfold after_prefix in H at 1. rewrite decide_True in H by (cbn; lia). rewrite H. cbn [app].
  unfold after_prefix. rewrite decide_False by lia. by rewrite bytes_eqb_refl.
Qed.

Definition start_state (uo : option bytes) : astate := match uo with Some _ => APrefix [] | None => AHeader [] end.
Definition end_state (c : Z) : astate := if c =? COMMAND_CONTINUE then AHeader [] else ARaw.

Lemma feed_padding_all u n c : feed_all u (after_padding (Z.of_nat n) c) (replicate n 0) = (end_state c, []).
Proof.
  destruct n as [|n]; [done|]. rewrite feed_padding by (unfold len; rewrite ?length_replicate; lia).
  unfold len. rewrite length_replicate, Z.sub_diag. done.
Qed.

Lemma feed_content_all u b p c : feed_all u (after_content (len b) p c) b = (after_padding p c, b).
Proof.
  destruct b as [|x b]; [done|]. rewrite feed_content by (rewrite ?len_cons; pose proof (len_nonneg b); lia).
  by rewrite Z.sub_diag.
Qed.

Lemma be_bytes_pair n : exists a b, be_bytes 2 n = [a; b].
Proof. cbn. eauto. Qed.

Lemma feed_full_header u c n p :
  known_command c = true -> 0 <= n < 65536 -> 0 <= p < 65536 ->
  feed_all u (AHeader []) ([c] ++ be_bytes 2 (wrap 16 n) ++ be_bytes 2 (wrap 16 p)) = (after_content n p c, []).
Proof.
  intros Hc Hn Hp.
  assert (be_val (be_bytes 2 (wrap 16 n)) = n /\ be_val (be_bytes 2 (wrap 16 p)) = p) as [H1 H2].
  { unfold wrap. rewrite !be_val_be_bytes_mod. change (256 ^ Z.of_nat 2) with (2 ^ 16).
    rewrite !Z.mod_mod, !Z.mod_small by lia. done. }
  destruct (be_bytes_pair (wrap 16 n)) as (a & b & Eab). destruct (be_bytes_pair (wrap 16 p)) as (x & y & Exy).
  rewrite Eab, Exy in *. change (AHeader []) with (after_header []).
  rewrite feed_header by (cbn; lia). cbn [app after_header]. by rewrite Hc, H1, H2.
Qed.

(** A frame means its content, and leads to the next header or to the raw
    stream. *)
Lemma feed_frame u content c uo long r fr :
  encode_frame content c uo long r = Ok fr -> 0 <= r -> length u = 16%nat -> (uo = Some u \/ uo = None) ->
  feed_all u (start_state uo) fr = (end_state c, content).
Proof.
  intros He Hr Hu Huo. unfold encode_frame in He. destruct (known_command c) eqn:Ec; [|done]. cbn [negb] in He.
  destruct ((_ <? _) || _) eqn:El; [done|]. apply Ok_inj in He. split_bool.
  unfold MAX_FRAME_CONTENT, u16_max in *. pose proof (len_nonneg content).
  set (pad := Z.min _ _) in He.
  assert (0 <= pad < 65536) as Hpad by (unfold pad; case_match; split_bool; lia).
  assert (feed_all u (start_state uo) (default [] uo) = (AHeader [], [])) as Hstart.
  { destruct Huo as [-> | ->]; [by apply feed_exact_prefix|done]. }
  rewrite <- He, feed_all_app, Hstart, (app_assoc (be_bytes 2 _)), (app_assoc [c]), feed_all_app.
  rewrite feed_full_header by (done || lia). rewrite feed_all_app, feed_content_all.
  rewrite <- (Z2Nat.id pad) at 1 by lia. rewrite feed_padding_all. by rewrite app_nil_r.
Qed.

(** ** The writer *)

(** The automaton state that reads what a writer writes next. *)
Definition writer_state (w : writer) : astate :=
  if w_padding w then start_state (w_uuid w) else ARaw.

Definition writer_wf (u : bytes) (w : writer) : Prop := w_uuid w = Some u \/ w_uuid w = None.

Lemma encode_frame_ok content c uo long r :
  known_command c = true -> len content <= MAX_FRAME_CONTENT -> is_ok (encode_frame content c uo long r) = true.
Proof.
  intros Hc Hl. unfold encode_frame. rewrite Hc. cbn [negb].
  rewrite !(proj2 (Z.ltb_ge _ _)) by (unfold MAX_FRAME_CONTENT, u16_max in *; lia). done.
Qed.

Lemma encode_ok w rnd data u :
  writer_wf u w -> length u = 16%nat -> (forall k, 0 <= rnd k) -> len data <= MAX_FRAME_CONTENT ->
  exists w' frames, encode w rnd data = Ok (w', frames) /\ writer_wf u w' /\
    feed_all u (writer_state w) (concat frames) = (writer_state w', data).
Proof.
  intros Hw Hu Hrnd Hl. unfold encode. destruct (w_padding w) eqn:Ep; cbn [negb]; cycle 1.
  { exists w, [data]. split; [done|]. split; [done|]. unfold writer_state. rewrite Ep. cbn. rewrite app_nil_r.
    apply feed_raw. }
  destruct data as [|d0 data].
  { exists w, []. split; [done|]. split; [done|]. done. }
  rewrite chunks_short by (unfold len, MAX_FRAME_CONTENT in *; cbn [length] in *; lia). cbn [encode_chunks].
  set (f := observe _ _). set (stop := _ || _). set (cmd := if stop then COMMAND_END else COMMAND_CONTINUE).
  assert (known_command cmd = true) as Hcmd by (unfold cmd; by destruct stop).
  pose proof (encode_frame_ok (d0 :: data) cmd (w_uuid w) (is_tls f) (rnd 0%nat) Hcmd Hl) as Hok.
  destruct (encode_frame _ _ _ _ _) as [fr|] eqn:Ef; [|done].
  eexists _, [fr]. split; [reflexivity|]. split; [by right|]. cbn [concat]. rewrite app_nil_r.
  assert (writer_state w = start_state (w_uuid w)) as -> by (unfold writer_state; by rewrite Ep).
  rewrite (feed_frame _ _ _ _ _ _ _ Ef (Hrnd 0%nat) Hu Hw). f_equal.
  unfold writer_state, cmd. cbn. rewrite Ep. by destruct stop.
Qed.

(** A sequence of calls. *)
Fixpoint encode_all (w : writer) (rnd : nat -> nat -> Z) (ds : list bytes) : result vision_error (writer * bytes) :=
  match ds with
  | [] => Ok (w, [])
  | d :: ds' =>
      '(w1, frames) ← encode w (rnd O) d;
      '(w2, rest) ← encode_all w1 (fun k => rnd (S k)) ds';
      mret (w2, concat frames ++ rest)
  end.

Lemma encode_all_ok w rnd ds u :
  writer_wf u w -> length u = 16%nat -> (forall i k, 0 <= rnd i k) ->
  Forall (fun d => len d <= MAX_FRAME_CONTENT) ds ->
  exists w' out, encode_all w rnd ds = Ok (w', out) /\
    feed_all u (writer_state w) out = (writer_state w', concat ds).
Proof.
  intros Hw Hu Hr Hds. revert w rnd Hw Hr. induction Hds as [|d ds Hd _ IH]; intros w rnd Hw Hr.
  - exists w, []. done.
  - destruct (encode_ok w (rnd O) d u Hw Hu (Hr O) Hd) as (w1 & frames & He & Hw1 & Hf1).
    destruct (IH w1 (fun k => rnd (S k)) Hw1 (fun i k => Hr (S i) k)) as (w2 & out & He2 & Hf2).
    exists w2, (concat frames ++ out). split; [cbn; rewrite He; cbn; by rewrite He2|].
    rewrite feed_all_app, Hf1, Hf2. done.
Qed.

Lemma writer_state_clean w : w_padding w = false \/ w_uuid w = None -> clean (writer_state w).
Proof. unfold writer_state. intros [-> | ->]; [done|]. by destruct (w_padding w). Qed.

(** The automaton outputs nothing before it leaves the prefix. *)
Lemma feed_prefix_silent u s w g o : feed_all u s w = (APrefix g, o) -> o = [] /\ exists g', s = APrefix g'.
Proof.
  revert s o. induction w as [|b w IH]; intros s o; cbn; [intros [= -> <-]; eauto|].
  destruct (feed u s b) as [s1 o1] eqn:Ef. destruct (feed_all u s1 w) as [s2 o2] eqn:Ea. intros [= -> <-].
  destruct (IH _ _ Ea) as [-> [g' ->]].
  assert (o1 = [] /\ exists g2, s = APrefix g2) as [-> ?]; [|done].
  destruct s as [g2|g2|r p c|r c| |]; cbn in Ef; simplify_eq; eauto; exfalso;
    unfold after_header, after_content, after_padding in *; repeat (case_match; simplify_eq/=).
Qed.

Lemma reader_new_wf i e u : inner_ok i -> length u = 16%nat -> reader_wf (reader_new i e u).
Proof. intros Hi Hu. split; cbn; auto; try lia. split; [lia|constructor]. Qed.

(** * Theorems *)

(** C10: the Vision reader refines the byte automaton, under any fragmentation.
    Every poll returns (within a number of rounds linear in the bytes still to
    come), and what it returns is what the wire means: the bytes given out
    followed by what is left to give out never change; an empty read is reported
    only at a clean end, [InvalidData] only for a wrong prefix or an unknown
    command, [UnexpectedEof] only inside the prefix, a content or a padding (or
    for an error of the inner stream). *)
Theorem vision_reader_refines t room :
  reader_wf t -> (0 < room)%nat ->
  exists t' p, poll_read t room = Some (t', p) /\ outcome_ok t t' p.
Proof. apply poll_read_ok. Qed.

(** C11: Vision round trip.  For any sequence of [encode] calls of at most 8171
    bytes each, any padding lengths, any fragmentation of what they wrote and any
    read size, reading to the end gives back exactly the bytes written, and no
    error. *)
Theorem vision_roundtrip u rnd ds frags room :
  length u = 16%nat -> (forall i k, 0 <= rnd i k) -> Forall (fun d => len d <= MAX_FRAME_CONTENT) ds ->
  concat ds <> [] -> (0 < room)%nat ->
  exists w out, encode_all (writer_new u) rnd ds = Ok (w, out) /\
    (inner_ok frags -> wire_of frags = out ->
     drain (length (concat ds) + length frags + 1) (reader_new frags AtEof u) room = Some (concat ds, None)).
Proof.
  intros Hu Hr Hds Hne Hroom.
  destruct (encode_all_ok (writer_new u) rnd ds u (or_introl eq_refl) Hu Hr Hds) as (w & out & He & Hf).
  exists w, out. split; [done|]. intros Hok Hw.
  set (t := reader_new frags AtEof u).
  assert (total t = (writer_state w, concat ds)) as Htot.
  { unfold total. change (wire t) with (wire_of frags). change (abs t) with (APrefix []).
    change (writer_state (writer_new u)) with (APrefix []) in Hf. rewrite Hw. cbn [uuid t reader_new]. rewrite Hf. done. }
  rewrite (drain_ok _ t room); rewrite ?Htot; try done.
  - by apply reader_new_wf.
  - cbn [fst]. destruct (writer_state w) eqn:Es; try done; try (unfold writer_state, start_state in Es; by repeat case_match).
    change (writer_state (writer_new u)) with (APrefix []) in Hf. by destruct (feed_prefix_silent _ _ _ _ _ Hf).
  - cbn [snd]. unfold ilen. cbn. lia.
Qed.

(** A call of more than 8171 bytes can corrupt the stream.  When its first
    chunk ends the padding, [encode] still frames the chunks after it, and the
    peer, which reads raw bytes from then on, gets their headers and padding as
    data. *)
Theorem vision_writer_corrupts_long_calls :
  exists u data w frames,
    encode (writer_new u) (fun _ => 0) data = Ok (w, frames) /\ length u = 16%nat /\
    fst (feed_all u (APrefix []) (concat frames)) = ARaw /\
    bytes_eqb (snd (feed_all u (APrefix []) (concat frames))) data = false.
Proof.
  exists (replicate 16 7), ([0x17; 3; 3] ++ replicate 8170 0).
  destruct (encode (writer_new (replicate 16 7)) (fun _ => 0) ([0x17; 3; 3] ++ replicate 8170 0)) as [[w frames]|] eqn:E.
  - exists w, frames. vm_compute in E. injection E as <- <-. split; [reflexivity|]. split; [reflexivity|].
    split; vm_compute; reflexivity.
  - vm_compute in E. discriminate.
Qed.

Definition sample_calls : list bytes := [[22; 3; 1; 0; 0; 9]; [65; 66]; [23; 3; 3; 0; 1; 7]; [1; 2; 3]].
Definition sample_uuid : bytes := replicate 16 7.
Definition sample_wire : bytes :=
  match encode_all (writer_new sample_uuid) (fun _ _ => 3) sample_calls with Ok (_, out) => out | Err _ => [] end.

(** Fragments of three bytes. *)
Definition sample_frags : list (option bytes) := Some <$> chunks 3 sample_wire.

Lemma vision_roundtrip_witness :
  drain 30000 (reader_new sample_frags AtEof sample_uuid) 4
  = Some ([22; 3; 1; 0; 0; 9; 65; 66; 23; 3; 3; 0; 1; 7; 1; 2; 3], None)
  /\ drain (length (concat sample_calls) + length sample_frags + 1) (reader_new sample_frags AtEof sample_uuid) 4
     = Some (concat sample_calls, None).
Proof.
  split; [vm_compute; reflexivity|].
  destruct (vision_roundtrip sample_uuid (fun _ _ => 3) sample_calls sample_frags 4) as (w & out & He & Hd).
  - reflexivity.
  - lia.
  - repeat (apply Forall_cons_2 || apply Forall_nil_2); vm_compute; discriminate.
  - discriminate.
  - lia.
  - apply Hd; [apply inner_ok_compute; vm_compute; reflexivity|].
    assert (out = sample_wire) as -> by (unfold sample_wire; by rewrite He). vm_compute. reflexivity.
Defined.

Lemma vision_reader_refines_witness :
  exists t' p, poll_read (reader_new sample_frags AtEof sample_uuid) 4 = Some (t', p) /\
    outcome_ok (reader_new sample_frags AtEof sample_uuid) t' p.
Proof.
  apply vision_reader_refines; [|lia]. apply reader_new_wf; [|reflexivity].
  apply inner_ok_compute. vm_compute. reflexivity.
Defined.
