(* ===== verification/Kdf.v ===== *)
(** [src/vless/encryption/kdf.rs]: BLAKE3 in its derive-key mode.

    The compression function is executable; the tree mode is the code's stack
    algorithm, proved equal to the recursive definition of the BLAKE3 tree for
    any number of chunks. *)

From S2P Require Import Prelude.

(** * Words *)

Definition u32_add (a b : Z) : Z := wrap 32 (a + b).
Definition rotate_right (x n : Z) : Z := Z.lor (Z.shiftr x n) (wrap 32 (Z.shiftl x (32 - n))).
Definition word (l : list Z) (i : nat) : Z := nth i l 0.

(** [u32::from_le_bytes] on consecutive groups of four, and back. *)
Fixpoint le_val (l : bytes) : Z := match l with [] => 0 | b :: l' => b + 256 * le_val l' end.
Fixpoint le_bytes (k : nat) (n : Z) : bytes :=
  match k with O => [] | S k' => n mod 256 :: le_bytes k' (n / 256) end.
Definition bytes_to_words (l : bytes) : list Z := le_val <$> chunks 4 l.
Definition words_to_bytes (l : list Z) : bytes := concat (le_bytes 4 <$> l).

Definition IV : list Z :=
  [0x6A09E667; 0xBB67AE85; 0x3C6EF372; 0xA54FF53A; 0x510E527F; 0x9B05688C; 0x1F83D9AB; 0x5BE0CD19].
Definition CHUNK_START : Z := 1.
Definition CHUNK_END : Z := 2.
Definition PARENT : Z := 4.
Definition ROOT : Z := 8.
Definition DERIVE_KEY_CONTEXT : Z := 32.
Definition DERIVE_KEY_MATERIAL : Z := 64.
Definition BLOCK_LEN : nat := 64.
Definition CHUNK_LEN : nat := 1024.
Definition SCHEDULE : list (list nat) :=
  [[0; 1; 2; 3; 4; 5; 6; 7; 8; 9; 10; 11; 12; 13; 14; 15];
   [2; 6; 3; 10; 7; 0; 4; 13; 1; 11; 12; 5; 9; 14; 15; 8];
   [3; 4; 10; 12; 13; 2; 7; 14; 6; 5; 9; 0; 11; 15; 8; 1];
   [10; 7; 12; 9; 14; 3; 13; 15; 4; 0; 11; 2; 5; 8; 1; 6];
   [12; 13; 9; 11; 15; 10; 14; 8; 7; 2; 5; 3; 0; 1; 6; 4];
   [9; 14; 11; 5; 8; 12; 15; 1; 13; 3; 0; 10; 2; 6; 4; 7];
   [11; 15; 5; 0; 1; 9; 8; 6; 14; 10; 2; 12; 3; 4; 7; 13]]%nat.

(** * The compression function *)

Definition g (st : list Z) (a b c d : nat) (mx my : Z) : list Z :=
  let st := <[a := u32_add (u32_add (word st a) (word st b)) mx]> st in
  let st := <[d := rotate_right (Z.lxor (word st d) (word st a)) 16]> st in
  let st := <[c := u32_add (word st c) (word st d)]> st in
  let st := <[b := rotate_right (Z.lxor (word st b) (word st c)) 12]> st in
  let st := <[a := u32_add (u32_add (word st a) (word st b)) my]> st in
  let st := <[d := rotate_right (Z.lxor (word st d) (word st a)) 8]> st in
  let st := <[c := u32_add (word st c) (word st d)]> st in
  <[b := rotate_right (Z.lxor (word st b) (word st c)) 7]> st.

Definition round (st msg : list Z) (s : list nat) : list Z :=
  let m i := word msg (nth i s O) in
  let st := g st 0 4 8 12 (m 0%nat) (m 1%nat) in
  let st := g st 1 5 9 13 (m 2%nat) (m 3%nat) in
  let st := g st 2 6 10 14 (m 4%nat) (m 5%nat) in
  let st := g st 3 7 11 15 (m 6%nat) (m 7%nat) in
  let st := g st 0 5 10 15 (m 8%nat) (m 9%nat) in
  let st := g st 1 6 11 12 (m 10%nat) (m 11%nat) in
  let st := g st 2 7 8 13 (m 12%nat) (m 13%nat) in
  g st 3 4 9 14 (m 14%nat) (m 15%nat).

Definition compress (cv block : list Z) (counter block_len flags : Z) : list Z :=
  let st := take 8 cv ++ take 4 IV
            ++ [wrap 32 counter; wrap 32 (Z.shiftr counter 32); block_len; flags] in
  let st := fold_left (fun st s => round st block s) SCHEDULE st in
  zip_with Z.lxor (take 8 st) (drop 8 st) ++ zip_with Z.lxor (drop 8 st) cv.

(** * Outputs *)

Record out_node := mk_out_node {
  o_cv : list Z; o_block : list Z; o_counter : Z; o_block_len : Z; o_flags : Z }.

Definition chaining_value (o : out_node) : list Z :=
  take 8 (compress (o_cv o) (o_block o) (o_counter o) (o_block_len o) (o_flags o)).

Definition root_hash (o : out_node) : bytes :=
  words_to_bytes (take 8 (compress (o_cv o) (o_block o) 0 (o_block_len o) (Z.lor (o_flags o) ROOT))).

Definition parent_output (lcv rcv key : list Z) (flags : Z) : out_node :=
  mk_out_node key (lcv ++ rcv) 0 (Z.of_nat BLOCK_LEN) (Z.lor flags PARENT).

(** At least one block or chunk, even of nothing. *)
Definition pieces (n : nat) (l : bytes) : list bytes :=
  match chunks n l with [] => [[]] | ps => ps end.

Definition block_words (b : bytes) : list Z :=
  bytes_to_words (b ++ replicate (BLOCK_LEN - length b) 0).

(** The loop of [chunk_output]; [first] says that no block came before. *)
Fixpoint chunk_loop (blocks : list bytes) (cv : list Z) (counter flags : Z) (first : bool) : option out_node :=
  match blocks with
  | [] => None
  | [b] =>
      let fl := if first then Z.lor flags CHUNK_START else flags in
      Some (mk_out_node cv (block_words b) counter (len b) (Z.lor fl CHUNK_END))
  | b :: bs =>
      let fl := if first then Z.lor flags CHUNK_START else flags in
      chunk_loop bs (take 8 (compress cv (block_words b) counter (Z.of_nat BLOCK_LEN) fl)) counter flags false
  end.

Definition chunk_output (chunk : bytes) (counter : Z) (key : list Z) (flags : Z) : option out_node :=
  chunk_loop (pieces BLOCK_LEN chunk) key counter flags true.

(** * The tree mode *)

Section tree.
Context {W O : Type} (cv : O -> W) (par : W -> W -> O).

(** [while total_chunks & 1 == 0 { cv = parent(stack.pop().unwrap(), cv); .. }]
    and the push; [None] is the panic of [unwrap]. *)
Fixpoint merge (fuel : nat) (total_chunks : Z) (stack : list W) (c : W) : option (list W) :=
  match fuel with
  | 0%nat => None
  | S f =>
      if Z.land total_chunks 1 =? 0 then
        match stack with
        | lcv :: stack' => merge f (Z.shiftr total_chunks 1) stack' (cv (par lcv c))
        | [] => None
        end
      else Some (c :: stack)
  end.

(** The loop over the chunks, from chunk [i] on: the stack when the last chunk is
    reached, and the output of that chunk. *)
Fixpoint absorb (i : Z) (stack : list W) (os : list O) : option (list W * O) :=
  match os with
  | [] => None
  | [o] => Some (stack, o)
  | o :: os' =>
      match merge 65 (i + 1) stack (cv o) with
      | Some stack' => absorb (i + 1) stack' os'
      | None => None
      end
  end.

(** [while let Some(left) = stack.pop() { output = parent(left, output) }]. *)
Definition fold_stack (stack : list W) (o : O) : O :=
  fold_left (fun o lcv => par lcv (cv o)) stack o.

Definition tree_output (os : list O) : option O :=
  match absorb 0 [] os with
  | Some (stack, o) => Some (fold_stack stack o)
  | None => None
  end.

(** The BLAKE3 tree: the left subtree takes the largest power of two of chunks
    that leaves something for the right one. *)
Fixpoint left_size (fuel : nat) (n k : nat) : nat :=
  match fuel with
  | 0%nat => k
  | S f => if (2 * k <? n)%nat then left_size f n (2 * k) else k
  end.

Fixpoint blake_tree (fuel : nat) (os : list O) : option O :=
  match fuel with
  | 0%nat => None
  | S f =>
      match os with
      | [] => None
      | [o] => Some o
      | _ =>
          let k := left_size (length os) (length os) 1 in
          match blake_tree f (take k os), blake_tree f (drop k os) with
          | Some l, Some r => Some (par (cv l) (cv r))
          | _, _ => None
          end
      end
  end.
End tree.

Definition hash_mode (input : bytes) (key : list Z) (flags : Z) : option bytes :=
  os ← mapM (fun ic => chunk_output (snd ic) (Z.of_nat (fst ic)) key flags)
         (imap (fun i c => (i, c)) (pieces CHUNK_LEN input));
  o ← tree_output chaining_value (fun l r => parent_output l r key flags) os;
  Some (root_hash o).

Definition derive_key (context material : bytes) : option bytes :=
  context_key ← hash_mode context IV DERIVE_KEY_CONTEXT;
  hash_mode material (bytes_to_words context_key) DERIVE_KEY_MATERIAL.

(** The known answer the repository's test suite compares with the Go
    implementation, for a binary context. *)
Example derive_key_known_answer :
  derive_key [0; 0xff; 0x80; 88; 0; 1; 2; 3] (bytes_of_string "key material")
  = Some [0x92; 0xe8; 0x38; 0x87; 0x05; 0xbd; 0xdc; 0xee; 0x98; 0x04; 0xd6; 0xd2; 0xd2; 0x94;
          0x83; 0xfd; 0xa3; 0x6c; 0xfe; 0xe9; 0xe9; 0xf5; 0x92; 0x61; 0xe7; 0x12; 0x02; 0x27;
          0x5f; 0x31; 0x44; 0x32].
Proof. vm_compute. reflexivity. Qed.

(** * The stack algorithm computes the tree *)

Lemma left_size_spec f n k :
  (0 < k < n)%nat -> (n <= k * 2 ^ f)%nat ->
  exists a, left_size f n k = (k * 2 ^ a)%nat /\ (k * 2 ^ a < n <= 2 * (k * 2 ^ a))%nat.
Proof.
  revert k. induction f as [|f IH]; intros k Hk Hn; cbn [left_size].
  - exists 0%nat. cbn in *. lia.
  - destruct (2 * k <? n)%nat eqn:E.
    + apply Nat.ltb_lt in E. destruct (IH (2 * k)%nat) as (a & -> & Ha); [lia|cbn in Hn; lia|].
      exists (S a). cbn [Nat.pow]. lia.
    + apply Nat.ltb_ge in E. exists 0%nat. cbn. lia.
Qed.

Lemma pow2_unique a b n : (2 ^ a < n <= 2 * 2 ^ a)%nat -> (2 ^ b < n <= 2 * 2 ^ b)%nat -> a = b.
Proof.
  intros Ha Hb. destruct (Nat.lt_trichotomy a b) as [H|[H|H]]; [|done|].
  - assert (2 ^ S a <= 2 ^ b)%nat by (apply Nat.pow_le_mono_r; lia). cbn in *. lia.
  - assert (2 ^ S b <= 2 ^ a)%nat by (apply Nat.pow_le_mono_r; lia). cbn in *. lia.
Qed.

Lemma left_size_pow a n : (2 ^ a < n <= 2 * 2 ^ a)%nat -> left_size n n 1 = (2 ^ a)%nat.
Proof.
  intros Ha. assert (0 < 2 ^ a)%nat by (apply Nat.neq_0_lt_0, Nat.pow_nonzero; lia).
  destruct (left_size_spec n n 1) as (b & -> & Hb).
  - lia.
  - rewrite Nat.mul_1_l. apply Nat.lt_le_incl, Nat.pow_gt_lin_r. lia.
  - rewrite Nat.mul_1_l in *. by rewrite (pow2_unique a b n Ha Hb).
Qed.

Section tree_proofs.
Context {W O : Type} (cv : O -> W) (par : W -> W -> O).
Local Abbreviation tree := (blake_tree cv par).

(** With as much fuel as there are chunks the tree is defined, and more fuel does
    not change it. *)
Lemma blake_tree_total f os :
  os <> [] -> (length os <= f)%nat -> exists o, tree f os = Some o /\ tree (length os) os = Some o.
Proof.
  revert os. induction f as [f IH] using lt_wf_ind. intros os Hne Hf.
  destruct os as [|o [|o2 os]]; [done|destruct f; [cbn in Hf; lia|eauto]|].
  destruct f as [|f]; [cbn in Hf; lia|]. set (l := o :: o2 :: os) in *.
  assert (2 <= length l)%nat as H2 by (cbn; lia).
  destruct (left_size_spec (length l) (length l) 1) as (a & Hk & Ha);
    [lia|rewrite Nat.mul_1_l; apply Nat.lt_le_incl, Nat.pow_gt_lin_r; lia|].
  rewrite Nat.mul_1_l in *. set (k := (2 ^ a)%nat) in *.
  assert (0 < k)%nat by (apply Nat.neq_0_lt_0, Nat.pow_nonzero; lia).
  assert (length (take k l) = k /\ length (drop k l) = length l - k)%nat as [Hlt Hld]
    by (rewrite length_take, length_drop; lia).
  assert (forall f', (length l <= S f')%nat -> (f' <= f)%nat -> tree (S f') l =
    match tree (length (take k l)) (take k l), tree (length (drop k l)) (drop k l) with
    | Some x, Some y => Some (par (cv x) (cv y)) | _, _ => None end) as Hstep.
  { intros f' Hl Hle. cbn [blake_tree]. fold l. rewrite Hk.
    destruct (IH f' ltac:(lia) (take k l)) as (x & Hx1 & Hx2); [intros E; rewrite E in Hlt; cbn [length] in Hlt; lia|lia|].
    destruct (IH f' ltac:(lia) (drop k l)) as (y & Hy1 & Hy2); [intros E; rewrite E in Hld; cbn [length] in Hld; lia|lia|].
    by rewrite Hx1, Hx2, Hy1, Hy2. }
  destruct (IH f ltac:(lia) (take k l)) as (x & _ & Hx2); [intros E; rewrite E in Hlt; cbn [length] in Hlt; lia|lia|].
  destruct (IH f ltac:(lia) (drop k l)) as (y & _ & Hy2); [intros E; rewrite E in Hld; cbn [length] in Hld; lia|lia|].
  exists (par (cv x) (cv y)). split.
  - rewrite Hstep by lia. by rewrite Hx2, Hy2.
  - change (length l) with (S (length (o2 :: os))). rewrite Hstep by (cbn in *; lia). by rewrite Hx2, Hy2.
Qed.

Local Abbreviation T os := (tree (length os) os).

Lemma blake_tree_fuel f os : os <> [] -> (length os <= f)%nat -> tree f os = T os.
Proof. intros Hne Hf. destruct (blake_tree_total f os Hne Hf) as (o & -> & ->). done. Qed.

Lemma blake_tree_step f os :
  (2 <= length os)%nat ->
  tree (S f) os = let k := left_size (length os) (length os) 1 in
    match tree f (take k os), tree f (drop k os) with
    | Some l, Some r => Some (par (cv l) (cv r)) | _, _ => None end.
Proof. intros H. destruct os as [|o [|o2 os]]; cbn [length] in H; try lia. done. Qed.

(** The tree of a complete block of [2 ^ a] chunks followed by at most as many. *)
Lemma tree_split a l r x y :
  length l = (2 ^ a)%nat -> (0 < length r <= 2 ^ a)%nat -> T l = Some x -> T r = Some y ->
  T (l ++ r) = Some (par (cv x) (cv y)).
Proof.
  intros Hl Hr Hx Hy. assert (0 < 2 ^ a)%nat by (apply Nat.neq_0_lt_0, Nat.pow_nonzero; lia).
  assert (l <> []) by (intros ->; cbn in Hl; lia). assert (r <> []) by (intros ->; cbn in Hr; lia).
  assert (length (l ++ r) = S (length l + length r - 1)) as Hlen by (rewrite length_app; lia).
  rewrite Hlen, blake_tree_step by (rewrite length_app; lia).
  cbv zeta. rewrite (left_size_pow a) by (rewrite length_app; lia).
  rewrite take_app_len, drop_app_len by lia. set (n := (length l + length r - 1)%nat).
  by rewrite (blake_tree_fuel n l), (blake_tree_fuel n r), Hx, Hy by (done || lia).
Qed.

(** The stack after the chunks [os]: complete subtrees of strictly growing sizes
    from the top down, the smallest of at least [2 ^ j] chunks. *)
Inductive stack_ok : nat -> list W -> list O -> Prop :=
| stack_nil j : stack_ok j [] []
| stack_cons j a x stack front blk :
    (j <= a)%nat -> length blk = (2 ^ a)%nat -> T blk = Some x -> stack_ok (S a) stack front ->
    stack_ok j (cv x :: stack) (front ++ blk).

Lemma stack_len j stack os : stack_ok j stack os -> exists q, length os = (q * 2 ^ j)%nat.
Proof.
  induction 1 as [j|j a x stack front blk Hj Hl Hx _ [q Hq]]; [by exists 0%nat|].
  exists (q * 2 ^ (S a - j) + 2 ^ (a - j))%nat. rewrite length_app, Hl, Hq, Nat.mul_add_distr_r.
  rewrite <- Nat.mul_assoc, <- !Nat.pow_add_r. do 2 f_equal; [f_equal|]; lia.
Qed.

(** Folding the stack under the last chunk gives the tree. *)
Lemma fold_stack_ok j stack os rest o :
  stack_ok j stack os -> (0 < length rest <= 2 ^ j)%nat -> T rest = Some o ->
  T (os ++ rest) = Some (fold_stack cv par stack o).
Proof.
  intros Hs. revert rest o. induction Hs as [j|j a x stack front blk Hj Hl Hx _ IH]; intros rest o Hr Ho; [done|].
  assert (2 ^ j <= 2 ^ a)%nat by (apply Nat.pow_le_mono_r; lia).
  rewrite <- app_assoc. apply (IH (blk ++ rest) (par (cv x) (cv o))).
  - rewrite length_app. cbn [Nat.pow]. lia.
  - apply (tree_split a); [done|lia|done|done].
Qed.

(** A stack whose length is a multiple of the next power has no subtree of the
    current one. *)
Lemma stack_lift j stack os q :
  stack_ok j stack os -> length os = (q * 2 ^ S j)%nat -> stack_ok (S j) stack os.
Proof.
  intros Hs Hq. destruct Hs as [j|j a x stack front blk Hj Hl Hx Hs]; [constructor|].
  destruct (decide (j = a)) as [->|Hne]; [|apply (stack_cons _ a); [lia|done|done|done]].
  exfalso. destruct (stack_len _ _ _ Hs) as [q' Hq']. rewrite length_app, Hl, Hq' in Hq.
  assert (0 < 2 ^ a)%nat by (apply Nat.neq_0_lt_0, Nat.pow_nonzero; lia).
  rewrite !Nat.pow_succ_r' in Hq. assert (2 * q' + 1 = 2 * q)%nat; [|lia].
  apply (Nat.mul_cancel_r _ _ (2 ^ a)); lia.
Qed.

Lemma merge_ok fuel j t stack os blk x :
  stack_ok j stack os -> length blk = (2 ^ j)%nat -> T blk = Some x ->
  (t * 2 ^ j = length os + 2 ^ j)%nat -> (0 < t < 2 ^ fuel)%nat ->
  exists stack', merge cv par fuel (Z.of_nat t) stack (cv x) = Some stack' /\ stack_ok 0 stack' (os ++ blk).
Proof.
  revert j t stack os blk x. induction fuel as [|f IH]; intros j t stack os blk x Hs Hl Hx Ht Hf; [cbn in Hf; lia|].
  cbn [merge]. change (Z.land (Z.of_nat t) 1) with (Z.land (Z.of_nat t) (Z.ones 1)).
  rewrite Z.land_ones by lia. change (2 ^ 1) with 2.
  assert (0 < 2 ^ j)%nat by (apply Nat.neq_0_lt_0, Nat.pow_nonzero; lia).
  pose proof (Z.div_mod (Z.of_nat t) 2 ltac:(lia)) as Hdm.
  pose proof (Z.mod_pos_bound (Z.of_nat t) 2 ltac:(lia)) as Hmb.
  destruct (Z.of_nat t mod 2 =? 0) eqn:E; split_bool.
  - assert (exists h, t = 2 * h)%nat as [h ->] by (exists (Z.to_nat (Z.of_nat t / 2)); lia).
    assert (stack_ok j stack os -> stack <> []) as Hne.
    { intros Hs' ->. inversion Hs'; subst. cbn in Ht. nia. }
    destruct Hs as [j|j a x1 stack front blk1 Hj Hl1 Hx1 Hs]; [by exfalso; apply Hne; [constructor|]|].
    assert (j = a) as <-.
    { destruct (decide (j = a)) as [|Hja]; [done|]. exfalso.
      destruct (stack_len _ _ _ Hs) as [q Hq]. rewrite length_app, Hl1, Hq in Ht.
      assert (2 ^ a = 2 * 2 ^ j * 2 ^ (a - S j))%nat as Hpa.
      { change (2 * 2 ^ j)%nat with (2 ^ S j)%nat. rewrite <- Nat.pow_add_r. f_equal. lia. }
      rewrite Nat.pow_succ_r', Hpa in Ht. set (P := (2 ^ j)%nat) in *. set (R := (2 ^ (a - S j))%nat) in *.
      assert (2 * h = 2 * (q * (2 * R)) + 2 * R + 1)%nat; [|lia].
      apply (Nat.mul_cancel_r _ _ P); lia. }
    rewrite Z.shiftr_div_pow2 by lia. change (2 ^ 1) with 2.
    replace (Z.of_nat (2 * h) / 2) with (Z.of_nat h) by lia.
    destruct (IH (S j) h stack front (blk1 ++ blk) (par (cv x1) (cv x)) Hs) as (stack' & Hm & Hok).
    + rewrite length_app. cbn [Nat.pow]. lia.
    + apply (tree_split j); [done|lia|done|done].
    + rewrite length_app in Ht. cbn [Nat.pow]. nia.
    + cbn [Nat.pow] in Hf. lia.
    + exists stack'. split; [done|]. by rewrite <- app_assoc.
  - exists (cv x :: stack). split; [done|].
    assert (exists h, t = 2 * h + 1)%nat as [h ->] by (exists (Z.to_nat (Z.of_nat t / 2)); lia).
    apply (stack_cons _ j); [lia|done|done|]. apply (stack_lift j _ _ h); [done|]. cbn [Nat.pow]. nia.
Qed.

Lemma absorb_ok l pre stack :
  l <> [] -> stack_ok 0 stack pre -> (length pre + length l < 2 ^ 64)%nat ->
  exists stack' body o, absorb cv par (Z.of_nat (length pre)) stack l = Some (stack', o) /\
    pre ++ l = body ++ [o] /\ stack_ok 0 stack' body.
Proof.
  revert pre stack. induction l as [|o l IH]; intros pre stack Hne Hs Hlen; [done|].
  destruct l as [|o2 l].
  - exists stack, pre, o. done.
  - destruct (merge_ok 65 0 (length pre + 1) stack pre [o] o Hs) as (stack' & Hm & Hok).
    + done.
    + done.
    + cbn. lia.
    + cbn [length] in Hlen. assert (2 ^ 65 = 2 * 2 ^ 64)%nat as H65 by (by rewrite <- Nat.pow_succ_r'). lia.
    + destruct (IH (pre ++ [o]) stack') as (stack2 & body & o' & Ha & Hb & Hok2).
      * done.
      * done.
      * rewrite length_app. cbn [length] in *. lia.
      * exists stack2, body, o'. rewrite <- app_assoc in Hb. split; [|done].
        rewrite length_app in Ha. cbn [length] in Ha. cbn [absorb].
        replace (Z.of_nat (length pre) + 1) with (Z.of_nat (length pre + 1)) by lia. rewrite Hm.
        exact Ha.
Qed.

(** Every input below [2 ^ 64] chunks. *)
Lemma tree_output_eq os :
  os <> [] -> (length os < 2 ^ 64)%nat -> tree_output cv par os = T os.
Proof.
  intros Hne Hl. destruct (absorb_ok os [] [] Hne (stack_nil 0) Hl) as (stack & body & o & Ha & Hb & Hok).
  cbn [app] in Hb. unfold tree_output. change (Z.of_nat (length (@nil O))) with 0 in Ha. rewrite Ha, Hb.
  symmetry. apply (fold_stack_ok 0 stack body [o] o); [done|cbn; lia|done].
Qed.
End tree_proofs.

(** ** Every input has a hash *)

Lemma pieces_bounds n l : (0 < n)%nat -> pieces n l <> [] /\ Forall (fun c => length c <= n)%nat (pieces n l)
  /\ (length (pieces n l) <= S (length l))%nat.
Proof.
  intros Hn. pose proof (chunks_bounds n l Hn) as Hb. pose proof (chunks_concat n l Hn) as Hc.
  assert (length (chunks n l) <= length l)%nat as Hl.
  { rewrite <- Hc at 2. clear Hc. induction Hb as [|c cs H _ IH]; cbn; [lia|]. rewrite length_app. lia. }
  unfold pieces. destruct (chunks n l) as [|c cs].
  - split; [done|]. split; [|cbn; lia]. constructor; [cbn; lia|constructor].
  - split; [done|]. split; [|lia]. revert Hb. apply Forall_impl. lia.
Qed.

Lemma chunk_loop_total bs cv counter flags first : bs <> [] -> is_Some (chunk_loop bs cv counter flags first).
Proof.
  revert cv first. induction bs as [|b bs IH]; intros cv first Hne; [done|].
  destruct bs as [|b2 bs]; [cbn; eauto|].
  exact (IH (take 8 (compress cv (block_words b) counter (Z.of_nat BLOCK_LEN)
    (if first then Z.lor flags CHUNK_START else flags))) false ltac:(done)).
Qed.

Lemma chunk_output_total c i key flags : is_Some (chunk_output c i key flags).
Proof. apply chunk_loop_total, pieces_bounds. unfold BLOCK_LEN. lia. Qed.

(** The tree over the outputs of the chunks, by the recursive definition. *)
Definition reference_hash (input : bytes) (key : list Z) (flags : Z) : option bytes :=
  os ← mapM (fun ic => chunk_output (snd ic) (Z.of_nat (fst ic)) key flags)
         (imap (fun i c => (i, c)) (pieces CHUNK_LEN input));
  o ← blake_tree chaining_value (fun l r => parent_output l r key flags) (length os) os;
  Some (root_hash o).

Lemma chunk_outputs input key flags :
  exists os, mapM (fun ic => chunk_output (snd ic) (Z.of_nat (fst ic)) key flags)
    (imap (fun i c => (i, c)) (pieces CHUNK_LEN input)) = Some os /\
    length os = length (pieces CHUNK_LEN input).
Proof.
  assert (is_Some (mapM (fun ic => chunk_output (snd ic) (Z.of_nat (fst ic)) key flags)
    (imap (fun i c => (i, c)) (pieces CHUNK_LEN input)))) as [os Hos].
  { apply mapM_is_Some. apply Forall_forall. intros x _. apply chunk_output_total. }
  exists os. split; [done|]. apply length_mapM in Hos. by rewrite <- Hos, length_imap.
Qed.

(** * Theorems *)

(** C17: the stack algorithm of [hash_mode] computes the BLAKE3 tree.  For every
    input (of less than 2^64 chunks), the hash built with the explicit stack of
    chaining values, merged whenever the chunk count is even, is the hash of the
    recursively defined tree whose left subtrees are the largest powers of two;
    no [unwrap] of the stack can fail, so a hash is always produced. *)
Theorem hash_mode_is_tree_hash input key flags :
  Z.of_nat (length input) < 2 ^ 64 - 1 ->
  hash_mode input key flags = reference_hash input key flags /\ is_Some (hash_mode input key flags).
Proof.
  intros Hl. unfold hash_mode, reference_hash.
  destruct (chunk_outputs input key flags) as (os & -> & Hlen). cbn [mbind option_bind].
  destruct (pieces_bounds CHUNK_LEN input) as (Hne & _ & Hb); [unfold CHUNK_LEN; lia|].
  assert (os <> []) as Hos by (intros ->; destruct (pieces CHUNK_LEN input); done).
  assert (length os < 2 ^ 64)%nat as Hlt.
  { apply Nat2Z.inj_lt. rewrite Nat2Z.inj_pow. change (Z.of_nat 2) with 2. change (Z.of_nat 64) with 64. lia. }
  rewrite tree_output_eq by done. split; [done|].
  destruct (blake_tree_total chaining_value (fun l r => parent_output l r key flags) _ os Hos (Nat.le_refl _))
    as (o & -> & _). by eexists.
Qed.

Lemma hash_mode_is_tree_hash_witness :
  hash_mode (replicate 5000 7) IV DERIVE_KEY_MATERIAL = reference_hash (replicate 5000 7) IV DERIVE_KEY_MATERIAL.
Proof. apply (hash_mode_is_tree_hash (replicate 5000 7) IV DERIVE_KEY_MATERIAL). rewrite length_replicate. lia. Defined.
