(* ===== verification/Record.v ===== *)
(** [src/vless/encryption/record.rs]: the AEAD records of VLESS encryption.

    The AEAD ciphers are third-party code: the class [Aead] has their two
    functions, and [AeadLaws] what the record layer relies on.  The key
    derivation is the modelled [Kdf.derive_key]. *)

From S2P Require Import Prelude Kdf.

(** * The interface of the ciphers *)

Inductive cipher_kind : Type := Aes256Gcm | ChaCha20Poly1305.

#[global] Instance cipher_kind_eq_dec : EqDecision cipher_kind.
Proof. solve_decision. Defined.

Definition TAG_LEN : Z := 16.

(** [Aead::encrypt] and [Aead::decrypt] with their associated data. *)
Class Aead := {
  aead_seal : cipher_kind -> bytes -> bytes -> bytes -> bytes -> option bytes;
  aead_open : cipher_kind -> bytes -> bytes -> bytes -> bytes -> option bytes }.

(** The documented behaviour of both ciphers: the ciphertext is the plaintext
    plus a 16-byte tag, decryption inverts encryption, and what decrypts is the
    encryption of its plaintext. *)
Class AeadLaws `{Aead} := {
  seal_length : forall k key n aad p c, aead_seal k key n aad p = Some c -> len c = len p + TAG_LEN;
  open_of_seal : forall k key n aad p c, aead_seal k key n aad p = Some c -> aead_open k key n aad c = Some p;
  seal_of_open : forall k key n aad p c, aead_open k key n aad c = Some p -> aead_seal k key n aad p = Some c;
  seal_total : forall k key n aad p, len p <= 16384 -> is_Some (aead_seal k key n aad p) }.

(** * Headers *)

Inductive record_error : Type :=
| InvalidHeader (h : bytes)
| InvalidLength (n : Z)
| PlaintextTooLarge (n : Z)
| LengthMismatch
| Authentication.

Definition valid_length (n : Z) : bool := (17 <=? n) && (n <=? 16640).

Definition encode_header (n : Z) : result record_error bytes :=
  if negb (valid_length n) then Err (InvalidLength n)
  else Ok ([0x17; 0x03; 0x03] ++ be_bytes 2 (wrap 16 n)).

Definition decode_header (h : bytes) : result record_error Z :=
  let n := be_val (drop 3 h) in
  if negb (bytes_eqb (take 3 h) [0x17; 0x03; 0x03]) || negb (valid_length n)
  then Err (InvalidHeader h) else Ok n.

(** * Nonces *)

Definition MAX_NONCE : bytes := replicate 12 0xff.

(** [increment_nonce] walks the bytes from the last one; [l] is reversed. *)
Fixpoint increment_rev (l : bytes) : bytes :=
  match l with
  | [] => []
  | b :: l' =>
      let b' := as_u8 (b + 1) in
      if b' =? 0 then b' :: increment_rev l' else b' :: l'
  end.

Definition increment_nonce (n : bytes) : bytes := rev (increment_rev (rev n)).

(** * Ciphers *)

Section cipher.
Context `{Aead}.

(** [derive_key], which never fails ([Kdf.hash_mode_is_tree_hash]). *)
Definition kdf (context material : bytes) : bytes := default [] (derive_key context material).

Record aead_state := mk_aead_state {
  kind : cipher_kind; key : bytes; united_key : bytes; nonce : bytes }.

Definition aead_new (context united : bytes) (k : cipher_kind) : aead_state :=
  mk_aead_state k (kdf context united) united (replicate 12 0).

Definition set_nonce (s : aead_state) (n : bytes) : aead_state :=
  mk_aead_state (kind s) (key s) (united_key s) n.
Definition set_key (s : aead_state) (k : bytes) : aead_state :=
  mk_aead_state (kind s) k (united_key s) (nonce s).

(** [seal_raw] and [open_raw]: the counter moves even when the cipher fails. *)
Definition seal_raw (s : aead_state) (plaintext aad : bytes) (explicit : option bytes) :
    aead_state * result record_error bytes :=
  let s' := match explicit with Some _ => s | None => set_nonce s (increment_nonce (nonce s)) end in
  let n := match explicit with Some n => n | None => nonce s' end in
  (s', ok_or (aead_seal (kind s) (key s) n aad plaintext) Authentication).

Definition open_raw (s : aead_state) (ciphertext aad : bytes) (explicit : option bytes) :
    aead_state * result record_error bytes :=
  let s' := match explicit with Some _ => s | None => set_nonce s (increment_nonce (nonce s)) end in
  let n := match explicit with Some n => n | None => nonce s' end in
  (s', ok_or (aead_open (kind s) (key s) n aad ciphertext) Authentication).

Definition seal (s : aead_state) (plaintext : bytes) : aead_state * result record_error bytes :=
  if 8192 <? len plaintext then (s, Err (PlaintextTooLarge (len plaintext)))
  else
    match encode_header (len plaintext + TAG_LEN) with
    | Err e => (s, Err e)
    | Ok header =>
        let rekey := bytes_eqb (nonce s) MAX_NONCE in
        match seal_raw s plaintext header None with
        | (s1, Err e) => (s1, Err e)
        | (s1, Ok ciphertext) =>
            let out := header ++ ciphertext in
            (if rekey then set_key s1 (kdf out (united_key s1)) else s1, Ok out)
        end
    end.

(** [RecordCipher::open] on a 5-byte header. *)
Definition open (s : aead_state) (header ciphertext : bytes) : aead_state * result record_error bytes :=
  match decode_header header with
  | Err e => (s, Err e)
  | Ok n =>
      if negb (n =? len ciphertext) then (s, Err LengthMismatch)
      else
        let rekey := bytes_eqb (nonce s) MAX_NONCE in
        match open_raw s ciphertext header None with
        | (s1, Err e) => (s1, Err e)
        | (s1, Ok plaintext) =>
            (if rekey then set_key s1 (kdf (header ++ ciphertext) (united_key s1)) else s1, Ok plaintext)
        end
  end.

(** Opening a whole record, as the readers do. *)
Definition open_record (s : aead_state) (record : bytes) : aead_state * result record_error bytes :=
  open s (take 5 record) (drop 5 record).
End cipher.

(** * Lemmas *)

(** ** Headers *)

Lemma header_roundtrip n h rest :
  encode_header n = Ok h -> length h = 5%nat /\ decode_header (take 5 (h ++ rest)) = Ok n /\ drop 5 (h ++ rest) = rest.
Proof.
  unfold encode_header, valid_length. destruct ((17 <=? n) && (n <=? 16640)) eqn:E; [|done]. cbn [negb].
  intros Hh. apply Ok_inj in Hh. subst h. split_bool.
  assert (length ([0x17; 3; 3] ++ be_bytes 2 (wrap 16 n)) = 5%nat) as Hl by done.
  split; [done|]. rewrite take_app_len, drop_app_len by done. split; [|done]. unfold decode_header.
  rewrite drop_app_len, take_app_len by done. rewrite bytes_eqb_refl.
  assert (be_val (be_bytes 2 (wrap 16 n)) = n) as ->.
  { unfold wrap. rewrite be_val_be_bytes_mod, Z.mod_mod, Z.mod_small by lia. done. }
  unfold valid_length. rewrite !(proj2 (Z.leb_le _ _)) by lia. done.
Qed.

Lemma decode_header_inv h n :
  length h = 5%nat -> bytes_ok h -> decode_header h = Ok n -> encode_header n = Ok h /\ 17 <= n <= 16640.
Proof.
  intros Hl Hok Hd. unfold decode_header in Hd. destruct (bytes_eqb (take 3 h) _) eqn:E3; [|done].
  destruct (valid_length (be_val (drop 3 h))) eqn:Ev; [|done]. apply Ok_inj in Hd. subst n.
  unfold encode_header. rewrite Ev. cbn [negb]. apply bytes_eqb_eq in E3.
  unfold valid_length in Ev. split_bool. split; [|done]. f_equal.
  assert (length (drop 3 h) = 2%nat) as Hl3 by (rewrite length_drop; lia).
  pose proof (be_bytes_be_val (drop 3 h) (bytes_ok_drop 3 h Hok)) as Hb. rewrite Hl3 in Hb.
  rewrite <- E3. unfold wrap. rewrite Z.mod_small by lia. rewrite Hb. apply take_drop.
Qed.

(** ** Nonces *)

Lemma increment_rev_ok l : bytes_ok l -> bytes_ok (increment_rev l) /\ length (increment_rev l) = length l.
Proof.
  induction 1 as [|b l Hb Hl [IH1 IH2]]; cbn; [split; [constructor|done]|].
  assert (byte_ok (as_u8 (b + 1))) by (apply Z.mod_pos_bound; lia).
  case_match; cbn; split; try (by constructor); congruence.
Qed.

(** Little-endian value of the reversed bytes. *)
Lemma be_val_rev_cons b l : be_val (rev (b :: l)) = be_val (rev l) * 256 + b.
Proof.
  cbn [rev]. generalize (rev l). clear l. intros l. induction l as [|x l IH]; cbn; [lia|].
  rewrite IH, length_app. cbn [length]. rewrite Nat2Z.inj_add, Z.pow_add_r by lia. cbn. lia.
Qed.

Lemma increment_rev_val l :
  bytes_ok l -> be_val (rev (increment_rev l)) = (be_val (rev l) + 1) mod 256 ^ Z.of_nat (length l).
Proof.
  induction 1 as [|b l Hb Hl IH]; [done|]. cbn [increment_rev length].
  rewrite be_val_rev_cons, pow256_succ. pose proof (pow256_pos (length l)).
  assert (0 <= be_val (rev l) < 256 ^ Z.of_nat (length l)) as Hv.
  { rewrite <- length_rev. apply be_val_bound. by apply Forall_rev. }
  unfold byte_ok, as_u8 in *. destruct ((b + 1) mod 256 =? 0) eqn:E; split_bool.
  - assert (b = 255) as -> by (destruct (decide (b = 255)); [done|]; rewrite Z.mod_small in E by lia; lia).
    rewrite be_val_rev_cons, IH, E.
    replace (be_val (rev l) * 256 + 255 + 1) with ((be_val (rev l) + 1) * 256) by lia.
    rewrite (Z.mul_comm 256), Z.mul_mod_distr_r by lia. lia.
  - assert (b + 1 < 256) by (destruct (decide (b = 255)) as [->|]; [done|lia]).
    rewrite be_val_rev_cons, !Z.mod_small by nia. lia.
Qed.

Lemma increment_nonce_val n :
  bytes_ok n -> be_val (increment_nonce n) = (be_val n + 1) mod 256 ^ Z.of_nat (length n).
Proof.
  intros Hok. unfold increment_nonce. rewrite increment_rev_val by (by apply Forall_rev).
  by rewrite rev_involutive, length_rev.
Qed.

Lemma increment_nonce_ok n : bytes_ok n -> bytes_ok (increment_nonce n) /\ length (increment_nonce n) = length n.
Proof.
  intros Hok. unfold increment_nonce. destruct (increment_rev_ok (rev n)) as [H1 H2]; [by apply Forall_rev|].
  split; [by apply Forall_rev|]. by rewrite length_rev, H2, length_rev.
Qed.

(** ** Records in lockstep *)

Section proofs.
Context `{AeadLaws}.

Lemma open_seal s p s' out :
  seal s p = (s', Ok out) -> open_record s out = (s', Ok p).
Proof.
  unfold seal. destruct (8192 <? len p); [done|].
  destruct (encode_header (len p + TAG_LEN)) as [h|] eqn:Eh; [|done]. unfold seal_raw.
  destruct (aead_seal _ _ _ _ _) as [c|] eqn:Es; cbn [ok_or]; [|done]. intros [= <- <-].
  destruct (header_roundtrip _ _ c Eh) as (Hl & Hd & Hdrop). unfold open_record, open.
  rewrite Hd, Hdrop, take_app_len by done. rewrite (seal_length _ _ _ _ _ _ Es), Z.eqb_refl. cbn [negb].
  unfold open_raw. rewrite (open_of_seal _ _ _ _ _ _ Es). done.
Qed.

(** The shape of a sealed record. *)
Lemma seal_shape s p s' r :
  seal s p = (s', Ok r) -> decode_header (take 5 r) = Ok (len r - 5) /\ 17 <= len r - 5.
Proof.
  unfold seal. destruct (8192 <? len p); [done|].
  destruct (encode_header (len p + TAG_LEN)) as [h|] eqn:Eh; [|done]. unfold seal_raw.
  destruct (aead_seal _ _ _ _ _) as [c|] eqn:Es; cbn [ok_or]; [|done]. intros [= <- <-].
  destruct (header_roundtrip _ _ c Eh) as (Hl & Hd & _). apply seal_length in Es.
  assert (len (h ++ c) - 5 = len p + TAG_LEN) as -> by (rewrite len_app; unfold len in *; lia). split; [done|].
  unfold encode_header, valid_length in Eh. destruct (_ && _) eqn:E; [|done]. split_bool. lia.
Qed.

(** What a receiver accepts is the record a sender in its state would seal. *)
Lemma seal_open s h c p s' :
  length h = 5%nat -> bytes_ok h -> len p <= 8192 ->
  open s h c = (s', Ok p) -> seal s p = (s', Ok (h ++ c)).
Proof.
  intros Hl Hok Hp. unfold open. destruct (decode_header h) as [n|] eqn:Ed; [|done].
  destruct (decode_header_inv _ _ Hl Hok Ed) as [He Hn].
  destruct (n =? len c) eqn:El; [|done]. cbn [negb]. split_bool. unfold open_raw.
  destruct (aead_open _ _ _ _ _) as [p'|] eqn:Eo; cbn [ok_or]; [|done]. intros [= <- <-].
  apply seal_of_open in Eo. pose proof (seal_length _ _ _ _ _ _ Eo) as Hlen.
  unfold seal. rewrite (proj2 (Z.ltb_ge _ _)) by lia. rewrite <- Hlen, <- El, He.
  unfold seal_raw. by rewrite Eo.
Qed.

Lemma seal_succeeds s p : 0 < len p <= 8192 -> exists s' out, seal s p = (s', Ok out).
Proof.
  intros Hp. unfold seal. rewrite (proj2 (Z.ltb_ge _ _)) by lia. unfold encode_header, valid_length, TAG_LEN.
  rewrite !(proj2 (Z.leb_le _ _)) by lia. cbn [andb negb]. unfold seal_raw.
  destruct (seal_total (kind s) (key s) (increment_nonce (nonce s)) ([23; 3; 3] ++ be_bytes 2 (wrap 16 (len p + 16))) p)
    as [c Hc]; [lia|]. cbn [nonce set_nonce]. rewrite Hc. cbn [ok_or]. eauto.
Qed.
End proofs.

(** * Sequences of records *)

Section sequences.
Context `{Aead}.

Fixpoint seal_all (s : aead_state) (ps : list bytes) : aead_state * result record_error (list bytes) :=
  match ps with
  | [] => (s, Ok [])
  | p :: ps' =>
      match seal s p with
      | (s1, Err e) => (s1, Err e)
      | (s1, Ok r) =>
          match seal_all s1 ps' with
          | (s2, Err e) => (s2, Err e)
          | (s2, Ok rs) => (s2, Ok (r :: rs))
          end
      end
  end.

Fixpoint open_all (s : aead_state) (rs : list bytes) : aead_state * result record_error (list bytes) :=
  match rs with
  | [] => (s, Ok [])
  | r :: rs' =>
      match open_record s r with
      | (s1, Err e) => (s1, Err e)
      | (s1, Ok p) =>
          match open_all s1 rs' with
          | (s2, Err e) => (s2, Err e)
          | (s2, Ok ps) => (s2, Ok (p :: ps))
          end
      end
  end.

Lemma open_all_seal_all `{!AeadLaws} s ps s' rs :
  seal_all s ps = (s', Ok rs) -> open_all s rs = (s', Ok ps).
Proof.
  revert s rs. induction ps as [|p ps IH]; intros s rs; cbn; [by intros [= <- <-]|].
  destruct (seal s p) as [s1 [r|e]] eqn:Es; [|done].
  destruct (seal_all s1 ps) as [s2 [rs'|e]] eqn:Ea; [|done]. intros [= <- <-].
  cbn. by rewrite (open_seal _ _ _ _ Es), (IH _ _ Ea).
Qed.

Lemma seal_all_succeeds `{!AeadLaws} s ps :
  Forall (fun p => 0 < len p <= 8192) ps -> exists s' rs, seal_all s ps = (s', Ok rs).
Proof.
  intros Hps. revert s. induction Hps as [|p ps Hp _ IH]; intros s; cbn; [eauto|].
  destruct (seal_succeeds s p Hp) as (s1 & r & ->). destruct (IH s1) as (s2 & rs & ->). eauto.
Qed.
End sequences.

(** ** Nonces along a key epoch *)

Definition nonce_at (n : bytes) (k : nat) : bytes := Nat.iter k increment_nonce n.

Lemma nonce_at_ok n k : bytes_ok n -> bytes_ok (nonce_at n k) /\ length (nonce_at n k) = length n.
Proof.
  intros Hok. induction k as [|k [IH1 IH2]]; [done|].
  change (nonce_at n (S k)) with (increment_nonce (nonce_at n k)).
  destruct (increment_nonce_ok _ IH1) as [H1 H2]. split; [done|]. by rewrite H2.
Qed.

Lemma nonce_at_val n k :
  bytes_ok n -> length n = 12%nat -> be_val (nonce_at n k) = (be_val n + Z.of_nat k) mod 2 ^ 96.
Proof.
  intros Hok Hl. change (2 ^ 96) with (256 ^ Z.of_nat 12). induction k as [|k IH].
  - rewrite Z.add_0_r, Z.mod_small; [done|]. rewrite <- Hl. by apply be_val_bound.
  - change (nonce_at n (S k)) with (increment_nonce (nonce_at n k)).
    destruct (nonce_at_ok n k Hok) as [H1 H2]. rewrite increment_nonce_val, IH, H2, Hl by done.
    rewrite Z.add_mod_idemp_l by lia. f_equal. lia.
Qed.

Lemma max_nonce_val : be_val MAX_NONCE = 2 ^ 96 - 1.
Proof. reflexivity. Qed.

(** Between [i] and [j] increments, more than [2 ^ 96] steps would pass the
    maximal nonce. *)
Lemma epoch_short n i j :
  bytes_ok n -> length n = 12%nat -> (i <= j)%nat ->
  (forall k, (i <= k < j)%nat -> nonce_at n k <> MAX_NONCE) -> Z.of_nat (j - i) < 2 ^ 96.
Proof.
  intros Hok Hl Hij Hmax. destruct (Z.lt_ge_cases (Z.of_nat (j - i)) (2 ^ 96)) as [|Hge]; [done|exfalso].
  pose proof (Z.mod_pos_bound (be_val n + Z.of_nat i) (2 ^ 96) ltac:(lia)) as Hb.
  set (v := (be_val n + Z.of_nat i) mod 2 ^ 96) in *.
  set (k := (i + Z.to_nat (2 ^ 96 - 1 - v))%nat).
  assert (i <= k < j)%nat as Hk by lia. apply (Hmax k Hk).
  destruct (nonce_at_ok n k Hok) as [H1 H2].
  rewrite <- (be_bytes_be_val (nonce_at n k) H1), nonce_at_val, H2, Hl by done.
  replace (be_val n + Z.of_nat k) with (be_val n + Z.of_nat i + (2 ^ 96 - 1 - v)) by lia.
  rewrite <- Z.add_mod_idemp_l by lia. fold v. rewrite Z.mod_small by lia.
  replace (v + (2 ^ 96 - 1 - v)) with (2 ^ 96 - 1) by lia. reflexivity.
Qed.

(** * Theorems *)

(** Sealed records open in order.  A sender and a receiver that start in the
    same state stay in the same state: every sequence of plaintexts of 1 to 8192
    bytes is sealed, and opening the records one after the other gives exactly
    those plaintexts and leaves the receiver in the sender's state, through any
    number of rekeyings. *)
Theorem records_lockstep `{AeadLaws} s ps :
  Forall (fun p => 0 < len p <= 8192) ps ->
  exists s' rs, seal_all s ps = (s', Ok rs) /\ open_all s rs = (s', Ok ps).
Proof.
  intros Hps. destruct (seal_all_succeeds s ps Hps) as (s' & rs & Hs). exists s', rs.
  split; [done|]. by apply open_all_seal_all.
Qed.

(** Only the next record is accepted.  If a receiver opens a record, then a
    sender in the receiver's state seals exactly that record for that plaintext
    and ends in the receiver's new state: a reordered, replayed or altered record
    is never accepted in place of the next one. *)
Theorem accepted_record_is_next `{AeadLaws} s r p s' :
  (5 <= length r)%nat -> bytes_ok r -> len p <= 8192 ->
  open_record s r = (s', Ok p) -> seal s p = (s', Ok r).
Proof.
  intros Hl Hok Hp Ho. rewrite <- (take_drop 5 r) at 1. apply seal_open; auto with bytes.
  rewrite length_take. lia.
Qed.

(** No nonce is used twice under one key.  The records of a key epoch (the
    records up to and including the one that finds the counter at its maximum,
    after which the key changes) use pairwise different nonces. *)
Theorem nonce_never_reused n i j :
  bytes_ok n -> length n = 12%nat -> (i < j)%nat ->
  (forall k, (i <= k < j)%nat -> nonce_at n k <> MAX_NONCE) ->
  increment_nonce (nonce_at n i) <> increment_nonce (nonce_at n j).
Proof.
  intros Hok Hl Hij Hmax Heq. pose proof (epoch_short n i j Hok Hl ltac:(lia) Hmax) as Hshort.
  change (nonce_at n (S i) = nonce_at n (S j)) in Heq. apply (f_equal be_val) in Heq.
  rewrite !nonce_at_val in Heq by done.
  assert ((Z.of_nat (S j) - Z.of_nat (S i)) mod 2 ^ 96 = 0) as Hz.
  { replace (Z.of_nat (S j) - Z.of_nat (S i))
      with ((be_val n + Z.of_nat (S j)) - (be_val n + Z.of_nat (S i))) by lia.
    rewrite Zminus_mod, Heq, Z.sub_diag. done. }
  rewrite Z.mod_small in Hz; lia.
Qed.

(** * A cipher for the witnesses *)

(** The tag is the nonce, padded: enough to tell records apart. *)
Definition toy_tag (n : bytes) : bytes := take 16 (n ++ replicate 16 0).

Definition toy_open (c n : bytes) : option bytes :=
  let k := (length c - 16)%nat in
  if bytes_eqb (drop k c) (toy_tag n) then Some (take k c) else None.

#[local] Instance toy_aead : Aead := {
  aead_seal := fun _ _ n _ p => Some (p ++ toy_tag n);
  aead_open := fun _ _ n _ c => toy_open c n }.

Lemma toy_tag_length n : length (toy_tag n) = 16%nat.
Proof. unfold toy_tag. rewrite length_take, length_app, length_replicate. lia. Qed.

#[local] Instance toy_laws : AeadLaws.
Proof.
  split; cbn.
  - intros _ _ n _ p c [= <-]. rewrite len_app. unfold len at 2. by rewrite toy_tag_length.
  - intros _ _ n _ p c [= <-]. unfold toy_open.
    replace (length (p ++ toy_tag n) - 16)%nat with (length p) by (rewrite length_app, toy_tag_length; lia).
    rewrite drop_app_length, take_app_length. by rewrite bytes_eqb_refl.
  - intros _ _ n _ p c. unfold toy_open. destruct (bytes_eqb _ _) eqn:E; [|done].
    apply bytes_eqb_eq in E. intros [= <-]. by rewrite <- E, take_drop.
  - eauto.
Qed.

Definition toy_state : aead_state := mk_aead_state Aes256Gcm [1] [2] (replicate 11 0xff ++ [0xfe]).

(** Three records, the second of which finds the counter at its maximum. *)
Lemma records_lockstep_witness :
  exists s' rs, seal_all toy_state [[1; 2]; [3]; [4; 5]] = (s', Ok rs) /\
    open_all toy_state rs = (s', Ok [[1; 2]; [3]; [4; 5]]).
Proof.
  apply records_lockstep. repeat (apply Forall_cons_2 || apply Forall_nil_2); vm_compute; split; congruence.
Defined.

Lemma accepted_record_is_next_witness :
  seal toy_state [9] = ((seal toy_state [9]).1, Ok ([0x17; 3; 3; 0; 17; 9] ++ replicate 12 0xff ++ replicate 4 0)).
Proof.
  apply accepted_record_is_next.
  - vm_compute. lia.
  - by apply bytes_okb_ok.
  - vm_compute. discriminate.
  - vm_compute. reflexivity.
Defined.

Lemma nonce_never_reused_witness :
  increment_nonce (nonce_at (replicate 12 0) 0) <> increment_nonce (nonce_at (replicate 12 0) 300).
Proof.
  apply nonce_never_reused; [by apply bytes_okb_ok|reflexivity|lia|].
  intros k Hk Heq. apply (f_equal be_val) in Heq.
  rewrite nonce_at_val in Heq by (reflexivity || by apply bytes_okb_ok).
  change (be_val (replicate 12 0)) with 0 in Heq. rewrite max_nonce_val, Z.mod_small in Heq; lia.
Defined.
