(* ===== verification/Xor.v ===== *)
(** [src/vless/encryption/xor.rs]: the keystream over record headers only.

    AES-256-CTR is third-party code: the class [KeyStream] gives the byte it
    XORs at each position. *)

From S2P Require Import Prelude Kdf Record.

Class KeyStream := { keystream : bytes -> bytes -> nat -> Z }.

Section xor.
Context `{KeyStream}.

(** [HeaderXor]; [pos] is the position of the CTR cipher. *)
Record header_xor := mk_header_xor {
  x_key : bytes; x_iv : bytes; pos : nat; skip : Z; header : bytes; decrypt : bool }.

Definition xor_new (united iv : bytes) (sk : Z) (dec : bool) : header_xor :=
  mk_header_xor (kdf (bytes_of_string "VLESS") united) iv 0 sk [] dec.
Definition outbound (united iv : bytes) (sk : Z) : header_xor := xor_new united iv sk false.
Definition inbound (united iv : bytes) (sk : Z) : header_xor := xor_new united iv sk true.

Definition set_skip (x : header_xor) (n : Z) : header_xor :=
  mk_header_xor (x_key x) (x_iv x) (pos x) n (header x) (decrypt x).
Definition set_header (x : header_xor) (p : nat) (h : bytes) : header_xor :=
  mk_header_xor (x_key x) (x_iv x) p (skip x) h (decrypt x).

(** [apply_keystream] on a slice. *)
Fixpoint apply_keystream (key iv : bytes) (p : nat) (l : bytes) : bytes :=
  match l with
  | [] => []
  | b :: l' => Z.lxor b (keystream key iv p) :: apply_keystream key iv (S p) l'
  end.

(** The loop of [apply]: [out] is the part of the buffer already transformed.  The
    buffer is changed in place, so it comes back with an error too. *)
Fixpoint apply_loop (fuel : nat) (x : header_xor) (out rest : bytes) :
    option (header_xor * bytes * result record_error unit) :=
  match fuel with
  | O => None
  | S f =>
      match rest with
      | [] => Some (x, out, Ok tt)
      | _ =>
          let skipped := Z.min (skip x) (len rest) in
          let x := set_skip x (skip x - skipped) in
          let out := out ++ take (Z.to_nat skipped) rest in
          let rest := drop (Z.to_nat skipped) rest in
          match rest with
          | [] => Some (x, out, Ok tt)
          | _ =>
              let needed := (5 - length (header x))%nat in
              let n := Nat.min needed (length rest) in
              let part := take n rest in
              let changed := apply_keystream (x_key x) (x_iv x) (pos x) part in
              let x := set_header x (pos x + n) (header x ++ if decrypt x then changed else part) in
              if decide (length (header x) = 5%nat) then
                match decode_header (header x) with
                | Err e => Some (x, out ++ changed ++ drop n rest, Err e)
                | Ok k => apply_loop f (set_skip (set_header x (pos x) []) k) (out ++ changed) (drop n rest)
                end
              else apply_loop f x (out ++ changed) (drop n rest)
          end
      end
  end.

(** Every round takes at least one byte, or fails. *)
Definition apply (x : header_xor) (l : bytes) : option (header_xor * bytes * result record_error unit) :=
  apply_loop (S (length l)) x [] l.

(** * Specification: one byte at a time *)

Definition byte_step (x : header_xor) (b : Z) : header_xor * Z * result record_error unit :=
  if 0 <? skip x then (set_skip x (skip x - 1), b, Ok tt)
  else
    let o := Z.lxor b (keystream (x_key x) (x_iv x) (pos x)) in
    let x := set_header x (S (pos x)) (header x ++ [if decrypt x then o else b]) in
    if decide (length (header x) = 5%nat) then
      match decode_header (header x) with
      | Err e => (x, o, Err e)
      | Ok k => (set_skip (set_header x (pos x) []) k, o, Ok tt)
      end
    else (x, o, Ok tt).

Fixpoint byte_fold (x : header_xor) (l : bytes) : header_xor * bytes * result record_error unit :=
  match l with
  | [] => (x, [], Ok tt)
  | b :: l' =>
      match byte_step x b with
      | (x1, o, Err e) => (x1, o :: l', Err e)
      | (x1, o, Ok _) => let '(x2, os, r) := byte_fold x1 l' in (x2, o :: os, r)
      end
  end.

(** A connection applies the transform to fragment after fragment and gives up at
    the first error. *)
Fixpoint apply_all (x : header_xor) (frags : list bytes) :
    option (header_xor * list bytes * result record_error unit) :=
  match frags with
  | [] => Some (x, [], Ok tt)
  | l :: frags' =>
      match apply x l with
      | None => None
      | Some (x1, o, Err e) => Some (x1, [o], Err e)
      | Some (x1, o, Ok _) =>
          match apply_all x1 frags' with
          | None => None
          | Some (x2, os, r) => Some (x2, o :: os, r)
          end
      end
  end.

(** The transform of the other end of the connection. *)
Definition peer (x : header_xor) : header_xor :=
  mk_header_xor (x_key x) (x_iv x) (pos x) (skip x) (header x) (negb (decrypt x)).

(** What the wire should look like: the five header bytes of every record are
    masked with the next five bytes of the keystream, the bodies are untouched. *)
Fixpoint masked (key iv : bytes) (p : nat) (rs : list (bytes * bytes)) : bytes :=
  match rs with
  | [] => []
  | (h, c) :: rs' => apply_keystream key iv p h ++ c ++ masked key iv (p + 5) rs'
  end.

Definition record_ok (r : bytes * bytes) : Prop :=
  length r.1 = 5%nat /\ decode_header r.1 = Ok (len r.2).

Definition xor_wf (x : header_xor) : Prop := 0 <= skip x /\ (length (header x) < 5)%nat.

(** * Lemmas *)

Lemma byte_fold_app x a b :
  byte_fold x (a ++ b) =
  match byte_fold x a with
  | (x1, o, Err e) => (x1, o ++ b, Err e)
  | (x1, o, Ok _) => let '(x2, os, r) := byte_fold x1 b in (x2, o ++ os, r)
  end.
Proof.
  revert x. induction a as [|c a IH]; intros x; cbn; [by destruct (byte_fold x b) as [[? ?] ?]|].
  destruct (byte_step x c) as [[x1 o] [[]|e]]; [|done]. rewrite IH.
  destruct (byte_fold x1 a) as [[x2 os] [[]|e]]; [|done]. by destruct (byte_fold x2 b) as [[? ?] ?].
Qed.

Lemma byte_fold_skip x l : 0 <= skip x -> len l <= skip x -> byte_fold x l = (set_skip x (skip x - len l), l, Ok tt).
Proof.
  revert x. induction l as [|b l IH]; intros x Hs Hl; cbn [byte_fold].
  - rewrite len_nil, Z.sub_0_r. by destruct x.
  - rewrite len_cons in *. pose proof (len_nonneg l). unfold byte_step.
    rewrite (proj2 (Z.ltb_lt _ _)) by lia. rewrite IH by (cbn; lia). cbn. unfold set_skip. cbn. do 3 f_equal. lia.
Qed.

Lemma apply_keystream_length key iv p l : length (apply_keystream key iv p l) = length l.
Proof. revert p. induction l as [|b l IH]; intros p; cbn; [done|]. by rewrite IH. Qed.

(** A run of header bytes that does not complete the header. *)
Lemma byte_fold_header x l :
  skip x = 0 -> (length (header x) + length l < 5)%nat ->
  byte_fold x l = (set_header x (pos x + length l)
    (header x ++ if decrypt x then apply_keystream (x_key x) (x_iv x) (pos x) l else l),
    apply_keystream (x_key x) (x_iv x) (pos x) l, Ok tt).
Proof.
  revert x. induction l as [|b l IH]; intros x Hs Hl; cbn [byte_fold length] in *.
  - cbn. rewrite Nat.add_0_r. assert (header x ++ (if decrypt x then [] else []) = header x) as ->
      by (destruct (decrypt x); apply app_nil_r). by destruct x.
  - unfold byte_step. rewrite Hs. cbn [Z.ltb Z.compare]. rewrite decide_False by (cbn; rewrite length_app; cbn; lia).
    rewrite IH by (cbn; rewrite ?length_app; cbn; lia). cbn. unfold set_header. cbn. rewrite Nat.add_succ_r.
    rewrite <- app_assoc. cbn. by destruct (decrypt x).
Qed.

(** The header bytes that complete it. *)
Lemma byte_fold_complete x l :
  skip x = 0 -> (length (header x) + length l = 5)%nat -> l <> [] ->
  let changed := apply_keystream (x_key x) (x_iv x) (pos x) l in
  let x' := set_header x (pos x + length l) (header x ++ if decrypt x then changed else l) in
  byte_fold x l =
  match decode_header (header x') with
  | Err e => (x', changed, Err e)
  | Ok k => (set_skip (set_header x' (pos x') []) k, changed, Ok tt)
  end.
Proof.
  intros Hs Hl Hne. destruct l as [|b l _] using rev_ind; [done|].
  rewrite length_app in Hl. cbn [length] in Hl. cbv zeta.
  assert (apply_keystream (x_key x) (x_iv x) (pos x) (l ++ [b])
    = apply_keystream (x_key x) (x_iv x) (pos x) l ++ [Z.lxor b (keystream (x_key x) (x_iv x) (pos x + length l)%nat)]) as Happ.
  { generalize (pos x). clear. induction l as [|c l IH]; intros p; cbn; [by rewrite Nat.add_0_r|].
    rewrite IH. by rewrite Nat.add_succ_r. }
  rewrite byte_fold_app, byte_fold_header by (done || lia). cbn [byte_fold]. unfold byte_step at 1. cbn [skip set_header].
  rewrite Hs. cbn [Z.ltb Z.compare].
  assert (forall z, (header x ++ (if decrypt x then apply_keystream (x_key x) (x_iv x) (pos x) l else l))
     ++ [if decrypt x then z else b] = header x ++ (if decrypt x then apply_keystream (x_key x) (x_iv x) (pos x) l ++ [z] else l ++ [b])) as Hh.
  { intros z. rewrite <- app_assoc. by destruct (decrypt x). }
  cbn [header decrypt set_header x_key x_iv pos]. rewrite Hh.
  assert (length (header x ++ (if decrypt x then apply_keystream (x_key x) (x_iv x) (pos x) l
     ++ [Z.lxor b (keystream (x_key x) (x_iv x) (pos x + length l)%nat)] else l ++ [b])) = 5%nat) as Hlen.
  { rewrite length_app. destruct (decrypt x); rewrite length_app, ?apply_keystream_length; cbn [length]; lia. }
  rewrite decide_True by exact Hlen. rewrite Happ, length_app. cbn [length]. rewrite Nat.add_1_r, Nat.add_succ_r.
  destruct (decode_header _); reflexivity.
Qed.

Lemma decode_header_nonneg h k : decode_header h = Ok k -> 17 <= k.
Proof.
  unfold decode_header. destruct (bytes_eqb _ _), (valid_length _) eqn:E; cbn; try done.
  intros Hk. apply Ok_inj in Hk. unfold valid_length in E. split_bool. lia.
Qed.

Lemma byte_fold_length x l x' o r : byte_fold x l = (x', o, r) -> length o = length l.
Proof.
  revert x o. induction l as [|b l IH]; intros x o; cbn; [by intros [= <- <- <-]|].
  destruct (byte_step x b) as [[x1 o1] [[]|e]]; [|by intros [= <- <- <-]].
  destruct (byte_fold x1 l) as [[x2 os] r2] eqn:E2. intros [= -> <- ->]. cbn. by rewrite (IH _ _ E2).
Qed.

(** ** The loop is the byte automaton *)

Lemma byte_fold_wf x l x' o : xor_wf x -> byte_fold x l = (x', o, Ok tt) -> xor_wf x'.
Proof.
  revert x o. induction l as [|b l IH]; intros x o Hx; cbn; [by intros [= <- <-]|].
  destruct (byte_step x b) as [[x1 o1] [[]|e]] eqn:E; [|done].
  destruct (byte_fold x1 l) as [[x2 os] r] eqn:E2. intros [= -> <- ->]. refine (IH _ _ _ E2).
  destruct Hx as [Hs Hh]. unfold byte_step in E. destruct (0 <? skip x) eqn:E0; split_bool.
  - injection E as <- <-. split; cbn; [lia|done].
  - cbv zeta in E. case_decide as Hd.
    + destruct (decode_header _) as [k|] eqn:Ek; [|done]. injection E as <- <-.
      apply decode_header_nonneg in Ek. split; cbn; lia.
    + injection E as <- <-. cbn [header set_header] in Hd. rewrite length_app in Hd. cbn [length] in Hd.
      split; cbn [skip header set_header]; [done|]. rewrite length_app. cbn [length]. lia.
Qed.

Definition fold_out (out : bytes) (r : header_xor * bytes * result record_error unit) :
    option (header_xor * bytes * result record_error unit) :=
  let '(x, o, e) := r in Some (x, out ++ o, e).

Lemma apply_loop_fold fuel x out rest :
  xor_wf x -> (length rest < fuel)%nat -> apply_loop fuel x out rest = fold_out out (byte_fold x rest).
Proof.
  revert x out rest. induction fuel as [|f IH]; intros x out rest Hx Hf; [lia|].
  cbn [apply_loop]. destruct rest as [|b rest]; [cbn; by rewrite app_nil_r|].
  cbv iota. remember (b :: rest) as l eqn:El. assert (0 < len l) by (subst l; rewrite len_cons; pose proof (len_nonneg rest); lia).
  clear El. destruct Hx as [Hs Hh]. set (k := Z.min (skip x) (len l)).
  assert (0 <= k <= len l) as Hk by lia. assert (len (take (Z.to_nat k) l) = k) as Hlt
    by (unfold len in *; rewrite length_take; lia).
  replace (byte_fold x l) with (byte_fold x (take (Z.to_nat k) l ++ drop (Z.to_nat k) l)) by (by rewrite take_drop).
  rewrite byte_fold_app, byte_fold_skip by lia. rewrite Hlt.
  destruct (drop (Z.to_nat k) l) as [|c rest'] eqn:Ed; [cbn; by rewrite app_nil_r|].
  assert (k = skip x) as Ek.
  { assert (len (drop (Z.to_nat k) l) = len l - k) as Hd by (unfold len in *; rewrite length_drop; lia).
    rewrite Ed, len_cons in Hd. pose proof (len_nonneg rest'). lia. }
  set (l2 := c :: rest') in *. set (x1 := set_skip x (skip x - k)). set (o1 := take (Z.to_nat k) l) in *.
  assert (length l2 <= length l)%nat as Hl2 by (rewrite <- Ed, length_drop; lia).
  assert (skip x1 = 0) as Hs1 by (cbn; lia).
  set (n := Nat.min (5 - length (header x1)) (length l2)).
  assert (0 < n <= length l2)%nat as Hn by (subst n l2 x1; cbn in *; lia).
  assert (length (take n l2) = n) as Htn by (rewrite length_take; lia).
  replace (byte_fold x1 l2) with (byte_fold x1 (take n l2 ++ drop n l2)) by (by rewrite take_drop).
  rewrite byte_fold_app. cbv zeta.
  assert (decrypt x1 = decrypt x) as Edec by done.
  case_decide as Hd; cbn [header set_header] in Hd.
  - assert (length (header x1) + n = 5)%nat as H5.
    { rewrite length_app in Hd. destruct (decrypt x1); rewrite ?apply_keystream_length, Htn in Hd; lia. }
    rewrite byte_fold_complete by (rewrite ?Htn; try done; intros Hz; rewrite Hz in Htn; cbn in Htn; lia).
    rewrite Htn. destruct (decode_header _) as [q|e] eqn:Eq.
    + rewrite IH.
      * destruct (byte_fold _ (drop n l2)) as [[x2 os] r]. cbn. by rewrite !app_assoc.
      * split; cbn; [apply decode_header_nonneg in Eq; lia|lia].
      * rewrite length_drop. lia.
    + cbn. by rewrite !app_assoc.
  - assert (length (header x1) + n < 5)%nat as H5.
    { rewrite length_app in Hd. subst n. destruct (decrypt x1); rewrite ?apply_keystream_length, ?Htn in Hd; lia. }
    rewrite byte_fold_header by (rewrite ?Htn; done || lia). rewrite Htn, IH.
    + destruct (byte_fold _ (drop n l2)) as [[x2 os] r]. cbn. by rewrite !app_assoc.
    + split; cbn [skip header set_header]; [lia|]. rewrite length_app.
      destruct (decrypt x1); rewrite ?apply_keystream_length, ?Htn; lia.
    + rewrite length_drop. lia.
Qed.

Lemma apply_is_fold x l : xor_wf x -> apply x l = Some (byte_fold x l).
Proof.
  intros Hx. unfold apply. rewrite apply_loop_fold by (done || lia).
  by destruct (byte_fold x l) as [[? ?] ?].
Qed.

Lemma apply_all_fold x frags x' o :
  xor_wf x -> byte_fold x (concat frags) = (x', o, Ok tt) ->
  exists outs, apply_all x frags = Some (x', outs, Ok tt) /\ concat outs = o.
Proof.
  revert x o. induction frags as [|l frags IH]; intros x o Hx; cbn [concat apply_all].
  - intros [= <- <-]. by exists [].
  - rewrite byte_fold_app, apply_is_fold by done. destruct (byte_fold x l) as [[x1 o1] [[]|e]] eqn:E1; [|done].
    destruct (byte_fold x1 (concat frags)) as [[x2 os] r] eqn:E2. intros [= -> <- ->].
    destruct (IH x1 os (byte_fold_wf _ _ _ _ Hx E1) E2) as (outs & -> & <-). by exists (o1 :: outs).
Qed.

(** ** The two directions *)

Lemma byte_step_peer x b x1 o r :
  decrypt x = false -> byte_step x b = (x1, o, r) -> byte_step (peer x) o = (peer x1, b, r) /\ decrypt x1 = false.
Proof.
  intros Hd. unfold byte_step. change (skip (peer x)) with (skip x). destruct (0 <? skip x).
  - intros [= <- <- <-]. done.
  - cbv zeta. cbn [header set_header peer decrypt x_key x_iv pos skip negb]. rewrite Hd. cbn [negb].
    intros Hs. assert (o = Z.lxor b (keystream (x_key x) (x_iv x) (pos x))) as -> by (repeat case_match; by inversion Hs).
    rewrite Z.lxor_assoc, Z.lxor_nilpotent, Z.lxor_0_r. revert Hs.
    case_decide; [|intros [= <- <-]; done]. by destruct (decode_header _); intros [= <- <-].
Qed.

Lemma byte_fold_peer x l x1 o r :
  decrypt x = false -> byte_fold x l = (x1, o, r) -> byte_fold (peer x) o = (peer x1, l, r).
Proof.
  revert x o. induction l as [|b l IH]; intros x o Hd; cbn; [by intros [= <- <- <-]|].
  destruct (byte_step x b) as [[x2 o2] [[]|e]] eqn:E; destruct (byte_step_peer _ _ _ _ _ Hd E) as [Hp Hd2].
  - destruct (byte_fold x2 l) as [[x3 o3] r3] eqn:E3. intros [= -> <- ->]. cbn. rewrite Hp.
    by rewrite (IH _ _ Hd2 E3).
  - intros [= <- <- <-]. cbn. by rewrite Hp.
Qed.

Lemma byte_fold_records x rs :
  decrypt x = false -> skip x = 0 -> header x = [] -> Forall record_ok rs ->
  byte_fold x (concat (map (fun r => r.1 ++ r.2) rs))
  = (set_header x (pos x + 5 * length rs) [], masked (x_key x) (x_iv x) (pos x) rs, Ok tt).
Proof.
  intros Hd Hs Hh Hrs. revert x Hd Hs Hh. induction Hrs as [|[h c] rs [Hl Hdec] _ IH]; intros x Hd Hs Hh.
  - cbn. rewrite Nat.add_0_r, <- Hh. by destruct x.
  - cbn [map concat fst snd] in *. cbn [length masked]. rewrite <- app_assoc, byte_fold_app.
    rewrite byte_fold_complete by (rewrite ?Hh, ?Hl; try done; by intros ->). cbv zeta. rewrite Hh, Hd. cbn [app].
    cbn [header set_header]. rewrite Hdec, byte_fold_app.
    pose proof (len_nonneg c). rewrite byte_fold_skip by (cbn; lia).
    rewrite IH by (cbn; lia || done). cbn. rewrite Hl. unfold set_header, set_skip. cbn.
    rewrite Z.sub_diag, Hs. do 3 f_equal. lia.
Qed.

Lemma byte_fold_stream x pre rs :
  decrypt x = false -> skip x = len pre -> header x = [] -> Forall record_ok rs ->
  byte_fold x (pre ++ concat (map (fun r => r.1 ++ r.2) rs))
  = (set_skip (set_header x (pos x + 5 * length rs) []) 0, pre ++ masked (x_key x) (x_iv x) (pos x) rs, Ok tt).
Proof.
  intros Hd Hs Hh Hrs. pose proof (len_nonneg pre). rewrite byte_fold_app, byte_fold_skip by lia.
  rewrite byte_fold_records by (cbn; lia || done). rewrite Hs, Z.sub_diag. done.
Qed.

(** * Theorem *)

(** The header mask.  The sender of a stream that starts with the [skip]
    unmasked bytes of the handshake and continues with records masks exactly the
    five header bytes of each record, in whatever fragments it is given the
    stream; and the receiver, in whatever other fragments the wire delivers it,
    gets the original stream back and follows the sender's state. *)
Theorem header_mask_roundtrip (united iv pre : bytes) (rs : list (bytes * bytes)) (frags : list bytes) :
  Forall record_ok rs -> concat frags = pre ++ concat (map (fun r => r.1 ++ r.2) rs) ->
  exists x' outs, apply_all (outbound united iv (len pre)) frags = Some (x', outs, Ok tt) /\
    concat outs = pre ++ masked (kdf (bytes_of_string "VLESS") united) iv 0 rs /\
    forall wire, concat wire = concat outs -> exists back,
      apply_all (inbound united iv (len pre)) wire = Some (peer x', back, Ok tt) /\ concat back = concat frags.
Proof.
  intros Hrs Hfr. set (x := outbound united iv (len pre)).
  pose proof (byte_fold_stream x pre rs eq_refl eq_refl eq_refl Hrs) as Hf. rewrite <- Hfr in Hf.
  assert (xor_wf x) as Hx by (split; cbn; [apply len_nonneg|lia]).
  destruct (apply_all_fold _ _ _ _ Hx Hf) as (outs & Ha & Hc). eexists _, outs. split; [exact Ha|].
  split; [exact Hc|]. intros wire Hw. rewrite <- Hc in Hf.
  apply (byte_fold_peer _ _ _ _ _ (eq_refl : decrypt x = false)) in Hf. rewrite <- Hw in Hf.
  exact (apply_all_fold (peer x) wire _ _ Hx Hf).
Qed.
End xor.

(** * A keystream for the witness *)

#[local] Instance toy_keystream : KeyStream := { keystream := fun _ _ p => (Z.of_nat p * 37 + 11) mod 256 }.

Definition toy_records : list (bytes * bytes) :=
  [([0x17; 3; 3; 0; 17], map Z.of_nat (seq 0 17)); ([0x17; 3; 3; 0; 18], replicate 18 0x17)].

(** Two records after two unmasked bytes, cut inside both headers. *)
Lemma header_mask_roundtrip_witness :
  exists x' outs,
    apply_all (outbound [7] [8] 2) [[1]; [2; 0x17; 3]; [3; 0] ++ 17 :: map Z.of_nat (seq 0 17) ++ [0x17];
      [3; 3; 0; 18]; replicate 18 0x17] = Some (x', outs, Ok tt) /\
    concat outs = [1; 2] ++ masked (kdf (bytes_of_string "VLESS") [7]) [8] 0 toy_records /\
    forall wire, concat wire = concat outs -> exists back,
      apply_all (inbound [7] [8] 2) wire = Some (peer x', back, Ok tt) /\
      concat back = concat [[1]; [2; 0x17; 3]; [3; 0] ++ 17 :: map Z.of_nat (seq 0 17) ++ [0x17];
      [3; 3; 0; 18]; replicate 18 0x17].
Proof.
  apply (header_mask_roundtrip [7] [8] [1; 2] toy_records).
  - repeat (apply Forall_cons_2 || apply Forall_nil_2); split; reflexivity.
  - reflexivity.
Defined.
