(* ===== verification/Stream.v ===== *)
(** [src/vless/encryption/stream.rs]: [EncryptedReader], the record layer over a
    polled stream with an optional header mask. *)

From S2P Require Import Prelude Kdf Record Xor.

Section stream.
Context `{Aead} `{KeyStream}.

Record enc_reader := mk_enc_reader {
  inner_left : list (option bytes);
  inner_end : ending;
  e_cipher : aead_state;
  e_xor : option header_xor;
  encrypted : bytes;
  plaintext : bytes;
  expected : option Z }.

Definition enc_reader_new (i : inner) (e : ending) (c : aead_state) (x : option header_xor) : enc_reader :=
  mk_enc_reader i e c x [] [] None.

Definition set_inner (t : enc_reader) (i : inner) : enc_reader :=
  mk_enc_reader i (inner_end t) (e_cipher t) (e_xor t) (encrypted t) (plaintext t) (expected t).
Definition set_plaintext (t : enc_reader) (p : bytes) : enc_reader :=
  mk_enc_reader (inner_left t) (inner_end t) (e_cipher t) (e_xor t) (encrypted t) p (expected t).
Definition set_expected (t : enc_reader) (n : option Z) : enc_reader :=
  mk_enc_reader (inner_left t) (inner_end t) (e_cipher t) (e_xor t) (encrypted t) (plaintext t) n.
Definition set_opened (t : enc_reader) (c : aead_state) (rest p : bytes) : enc_reader :=
  mk_enc_reader (inner_left t) (inner_end t) c (e_xor t) rest p None.
Definition set_cipher (t : enc_reader) (c : aead_state) (rest : bytes) : enc_reader :=
  mk_enc_reader (inner_left t) (inner_end t) c (e_xor t) rest (plaintext t) (expected t).
Definition set_received (t : enc_reader) (x : option header_xor) (b : bytes) : enc_reader :=
  mk_enc_reader (inner_left t) (inner_end t) (e_cipher t) x (encrypted t ++ b) (plaintext t) (expected t).

(** One round of the loop of [poll_read]. *)
Inductive enc_round : Type :=
| Return (t : enc_reader) (p : polled)
| Continue (t : enc_reader)
| OutOfFuel.

(** The [match] on the inner poll. *)
Definition receive_round (t : enc_reader) : enc_round :=
  let '(i, p) := poll_source (inner_left t) (inner_end t) (Z.to_nat 8192) in
  let t := set_inner t i in
  match p with
  | Ready [] =>
      match encrypted t with
      | [] => Return t (Ready [])
      | _ => Return t (Failed UnexpectedEof)
      end
  | Ready b =>
      match e_xor t with
      | None => Continue (set_received t None b)
      | Some x =>
          match apply x b with
          | None => OutOfFuel
          | Some (x', _, Err _) =>
              Return (mk_enc_reader (inner_left t) (inner_end t) (e_cipher t) (Some x') (encrypted t)
                        (plaintext t) (expected t)) (Failed InvalidData)
          | Some (x', b', Ok _) => Continue (set_received t (Some x') b')
          end
      end
  | p => Return t p
  end.

(** A record that is complete is opened; otherwise the loop polls. *)
Definition record_round (t : enc_reader) : enc_round :=
  match expected t with
  | Some n =>
      if 5 + n <=? len (encrypted t) then
        let k := Z.to_nat (5 + n) in
        let record := take k (encrypted t) in
        match open (e_cipher t) (take 5 record) (drop 5 record) with
        | (c, Err _) => Return (set_cipher t c (drop k (encrypted t))) (Failed InvalidData)
        | (c, Ok p) => Continue (set_opened t c (drop k (encrypted t)) p)
        end
      else receive_round t
  | None => receive_round t
  end.

Definition poll_round (t : enc_reader) (room : nat) : enc_round :=
  match plaintext t with
  | _ :: _ =>
      let n := Nat.min (length (plaintext t)) room in
      Return (set_plaintext t (drop n (plaintext t))) (Ready (take n (plaintext t)))
  | [] =>
      match expected t with
      | None =>
          if 5 <=? len (encrypted t) then
            match decode_header (take 5 (encrypted t)) with
            | Err _ => Return t (Failed InvalidData)
            | Ok n => record_round (set_expected t (Some n))
            end
          else record_round t
      | Some _ => record_round t
      end
  end.

Fixpoint poll_read_fuel (fuel : nat) (t : enc_reader) (room : nat) : option (enc_reader * polled) :=
  match fuel with
  | O => None
  | S f =>
      match poll_round t room with
      | Return t' p => Some (t', p)
      | Continue t' => poll_read_fuel f t' room
      | OutOfFuel => None
      end
  end.

(** Every round that goes on takes a byte from the inner stream or a record from
    the buffer. *)
Definition fuel_of (t : enc_reader) : nat := 2 * length (wire_of (inner_left t)) + length (encrypted t).

Definition poll_read (t : enc_reader) (room : nat) : option (enc_reader * polled) :=
  poll_read_fuel (S (fuel_of t)) t room.

(** [read_to_end] with reads into [room] bytes. *)
Fixpoint drain (fuel : nat) (t : enc_reader) (room : nat) : option (bytes * option io_kind) :=
  match fuel with
  | O => None
  | S f =>
      match poll_read t room with
      | Some (t', Pending) => drain f t' room
      | Some (t', Ready []) => Some ([], None)
      | Some (t', Ready b) => '(o, e) ← drain f t' room; Some (b ++ o, e)
      | Some (t', Failed k) => Some ([], Some k)
      | None => None
      end
  end.

(** * What is still to come *)

(** Unmasking the rest of the wire. *)
Definition unmasked (x : option header_xor) (w plain : bytes) : Prop :=
  match x with
  | None => plain = w
  | Some x => xor_wf x /\ exists x', byte_fold x w = (x', plain, Ok tt)
  end.

(** [cut] bytes of a further record at the end of a stream of whole records. *)
Definition partial_record (s : aead_state) (cut : bytes) : Prop :=
  exists p s' r k, seal s p = (s', Ok r) /\ cut = take k r /\ (k < length r)%nat.

(** The reader still has [todo] to give out, and its stream then ends inside a
    record exactly when [cut] is not empty. *)
Record coming (t : enc_reader) (todo cut : bytes) : Prop := mk_coming {
  co_inner : inner_ok (inner_left t);
  co_stream : exists ps rs s' plain,
    seal_all (e_cipher t) ps = (s', Ok rs) /\ Forall (fun p => p <> []) ps /\ partial_record s' cut /\
    unmasked (e_xor t) (wire_of (inner_left t)) plain /\
    encrypted t ++ plain = concat rs ++ cut /\ todo = plaintext t ++ concat ps;
  co_expected : match expected t with
                | None => True
                | Some n => 5 <= len (encrypted t) /\ decode_header (take 5 (encrypted t)) = Ok n
                end }.

(** What a finished poll of [t] means when [t] had [todo] to give out. *)
Definition outcome_ok (t : enc_reader) (todo cut : bytes) (t' : enc_reader) (p : polled) : Prop :=
  inner_end t' = inner_end t /\
  match p with
  | Pending => coming t' todo cut /\ (length (inner_left t') < length (inner_left t))%nat
  | Ready b =>
      (length (inner_left t') <= length (inner_left t))%nat /\
      (exists todo', todo = b ++ todo' /\ coming t' todo' cut) /\
      (b = [] -> inner_end t = AtEof /\ todo = [] /\ cut = [])
  | Failed k =>
      todo = [] /\ (inner_end t = AtError k \/ inner_end t = AtEof /\ k = UnexpectedEof /\ cut <> [])
  end.

Definition round_ok (t : enc_reader) (todo cut : bytes) (r : enc_round) : Prop :=
  match r with
  | Return t' p => outcome_ok t todo cut t' p
  | Continue t' =>
      coming t' todo cut /\ (fuel_of t' < fuel_of t)%nat /\ inner_end t' = inner_end t /\
      (length (inner_left t') <= length (inner_left t))%nat
  | OutOfFuel => False
  end.

(** * Lemmas *)

Context `{!AeadLaws}.

(** The head of a stream of records is a valid header, and the stream holds the
    whole record it announces only if the record was sealed as a whole. *)
Lemma stream_head s ps s' rs cut :
  seal_all s ps = (s', Ok rs) -> partial_record s' cut -> (5 <= length (concat rs ++ cut))%nat ->
  exists n, decode_header (take 5 (concat rs ++ cut)) = Ok n /\ 17 <= n /\
    (5 + n <= len (concat rs ++ cut) ->
     exists p ps' r rs' s1, ps = p :: ps' /\ rs = r :: rs' /\ seal s p = (s1, Ok r) /\
       seal_all s1 ps' = (s', Ok rs') /\ len r = 5 + n).
Proof.
  intros Hs (pc & s2 & rc & k & Hc & -> & Hk) Hl. destruct ps as [|p ps]; cbn in Hs.
  - injection Hs as <- <-. cbn [concat app] in *. destruct (seal_shape _ _ _ _ Hc) as [Hd H17].
    rewrite length_take in Hl. exists (len rc - 5). rewrite take_take. replace (5 `min` k)%nat with 5%nat by lia.
    split; [done|]. split; [done|]. intros Hle. exfalso. unfold len in Hle. rewrite length_take in Hle. lia.
  - destruct (seal s p) as [s1 [r|]] eqn:Ep; [|done]. destruct (seal_all s1 ps) as [s3 [rs'|]] eqn:Ea; [|done].
    injection Hs as <- <-. destruct (seal_shape _ _ _ _ Ep) as [Hd H17]. exists (len r - 5).
    cbn [concat]. rewrite <- app_assoc, take_app_le by (unfold len in *; lia). split; [done|]. split; [done|].
    intros _. exists p, ps, r, rs', s1. repeat (split; [done|]). lia.
Qed.

Lemma take_app_prefix (a b c : bytes) k : a ++ b = c -> (k <= length a)%nat -> take k a = take k c.
Proof. intros <- Hk. by rewrite take_app_le. Qed.

(** A buffered byte of a complete record. *)
Lemma record_round_opens t todo cut n :
  coming t todo cut -> plaintext t = [] -> expected t = Some n -> 5 + n <= len (encrypted t) ->
  round_ok t todo cut (record_round t).
Proof.
  intros [Hi (ps & rs & s' & plain & Hs & Hne & Hc & Hx & He & Ht) Hex] Hp En Hn. rewrite En in Hex. destruct Hex as [H5 Hd].
  assert (5 <= length (concat rs ++ cut))%nat as Hl by (rewrite <- He, length_app; unfold len in *; lia).
  destruct (stream_head _ _ _ _ _ Hs Hc Hl) as (n' & Hd' & H17 & Hw).
  rewrite (take_app_prefix _ _ _ _ He) in Hd by (unfold len in *; lia). rewrite Hd in Hd'. apply Ok_inj in Hd'. subst n'.
  destruct Hw as (p & ps' & r & rs' & s1 & -> & -> & Hsl & Hsa & Hlr).
  { rewrite <- He, len_app. pose proof (len_nonneg plain). lia. }
  unfold record_round. rewrite En, (proj2 (Z.leb_le _ _)) by lia. cbv zeta.
  set (k := Z.to_nat (5 + n)). assert (length r = k) as Hk by (unfold len in *; lia).
  assert (take k (encrypted t) = r) as Hr.
  { rewrite (take_app_prefix _ _ _ _ He) by (unfold len in *; lia). cbn [concat].
    by rewrite <- app_assoc, take_app_len. }
  rewrite Hr. pose proof (open_seal _ _ _ _ Hsl) as Ho. unfold open_record in Ho. rewrite Ho.
  apply Forall_cons_iff in Hne as [_ Hne]. split; [|split; [|done]].
  - split; cbn; [done| |done]. exists ps', rs', s', plain. repeat (split; [done|]). split.
    + apply (f_equal (drop k)) in He. rewrite drop_app_le in He by (unfold len in *; lia). rewrite He. cbn [concat].
      by rewrite <- app_assoc, drop_app_len.
    + by rewrite Hp in Ht.
  - unfold fuel_of. cbn [inner_left encrypted set_opened]. rewrite length_drop. clear -Hk Hlr Hn H17. unfold len in *. lia.
Qed.

(** Without a complete record the rest of the stream is still to be received. *)
Definition waiting (t : enc_reader) : Prop :=
  match expected t with None => len (encrypted t) < 5 | Some n => len (encrypted t) < 5 + n end.

Lemma waiting_ended t todo cut :
  coming t todo cut -> plaintext t = [] -> waiting t -> inner_left t = [] -> todo = [] /\ cut = encrypted t.
Proof.
  intros [Hi (ps & rs & s' & plain & Hs & Hne & Hc & Hx & He & Ht) Hex] Hp Hw Hil.
  assert (plain = []) as ->.
  { rewrite Hil in Hx. cbn in Hx. destruct (e_xor t); [|done]. by destruct Hx as (_ & x' & [= _ <-]). }
  rewrite app_nil_r in He. destruct ps as [|p ps]; [cbn in Hs; injection Hs as <- <-; rewrite Ht, Hp; done|exfalso].
  cbn in Hs. destruct (seal _ p) as [s1 [r|]] eqn:Ep; [|done]. destruct (seal_all s1 ps) as [s3 [rs'|]]; [|done].
  injection Hs as _ <-. destruct (seal_shape _ _ _ _ Ep) as [Hd H17].
  assert (len r <= len (encrypted t)) as Hle.
  { rewrite He. cbn [concat]. rewrite !len_app. pose proof (len_nonneg (concat rs')). pose proof (len_nonneg cut). lia. }
  unfold waiting in Hw. destruct (expected t) as [n|]; [|lia]. destruct Hex as [_ Hdn].
  rewrite He in Hdn. cbn [concat] in Hdn. rewrite <- app_assoc, take_app_le, Hd in Hdn by (unfold len in *; lia).
  apply Ok_inj in Hdn. lia.
Qed.

Lemma unmasked_step x b rest plain :
  unmasked (Some x) (b ++ rest) plain ->
  exists x' b' plain', apply x b = Some (x', b', Ok tt) /\ plain = b' ++ plain' /\ length b' = length b /\
    unmasked (Some x') rest plain'.
Proof.
  intros (Hx & x2 & Hf). rewrite byte_fold_app in Hf. rewrite apply_is_fold by done.
  destruct (byte_fold x b) as [[x1 b'] [[]|e]] eqn:E1; [|done].
  destruct (byte_fold x1 rest) as [[x3 plain'] r] eqn:E2. injection Hf as -> <- ->.
  exists x1, b', plain'. repeat (split; [done|]). split; [by eapply byte_fold_length|].
  split; [by eapply byte_fold_wf|eauto].
Qed.

Lemma receive_round_ok t todo cut :
  coming t todo cut -> plaintext t = [] -> waiting t -> round_ok t todo cut (receive_round t).
Proof.
  intros Hco Hp Hw. pose proof Hco as [Hi (ps & rs & s' & plain & Hs & Hne & Hc & Hx & He & Ht) Hex].
  unfold receive_round. pose proof (poll_source_spec (inner_left t) (inner_end t) (Z.to_nat 8192) Hi ltac:(lia)) as Hps.
  pose proof (poll_source_length (inner_left t) (inner_end t) (Z.to_nat 8192)) as Hpl.
  destruct (poll_source _ _ _) as [r [|b|k]].
  - destruct Hps as [Hok Hwire]. split; [done|]. split; [|done]. split; [done| |done]. cbn [e_cipher e_xor encrypted plaintext inner_left set_inner]. rewrite <- Hwire.
    exists ps, rs, s', plain. done.
  - destruct Hps as (Hok & Hwire & Hcap & Hbok & Hemp). destruct b as [|b0 b].
    + destruct (Hemp eq_refl) as (-> & Hil & Hend).
      destruct (waiting_ended _ _ _ Hco Hp Hw Hil) as [-> ->]. cbn [encrypted set_inner].
      destruct (encrypted t) as [|e0 e] eqn:Ee; (split; [done|]).
      * split; [done|]. split; [|done]. exists []. split; [done|].
        split; cbn [inner_left e_cipher e_xor encrypted plaintext expected set_inner]; rewrite ?Ee; [done| |done].
        rewrite Hil in Hx. exists ps, rs, s', plain. done.
      * split; [done|]. right. done.
    + cbv iota. assert (0 < length (b0 :: b))%nat as Hbl by (cbn; lia). clear Hemp Hcap Hbok. revert Hwire Hbl.
      generalize (b0 :: b). intros bb Hwire Hbl. rewrite Hwire in Hx. cbn [e_xor set_inner].
      assert (forall x' b' plain', length b' = length bb -> plain = b' ++ plain' -> unmasked x' (wire_of r) plain' ->
        round_ok t todo cut (Continue (set_received (set_inner t r) x' b'))) as Hgo.
      { intros x' b' plain' Hlen -> Hun. split; [|split; [|done]].
        - split; cbn; [done| |].
          + exists ps, rs, s', plain'. repeat (split; [done|]). by rewrite <- app_assoc.
          + destruct (expected t) as [n|]; [|done]. destruct Hex as [H5 Hd]. rewrite len_app.
            pose proof (len_nonneg b'). split; [lia|]. rewrite take_app_le by (unfold len in *; lia). done.
        - unfold fuel_of. cbn [inner_left encrypted set_received set_inner]. rewrite Hwire, !length_app. lia. }
      destruct (e_xor t) as [x|].
      * destruct (unmasked_step _ _ _ _ Hx) as (x' & b' & plain' & -> & Hpl' & Hlen & Hun). by eapply Hgo.
      * cbn in Hx. by eapply Hgo.
  - destruct Hps as (-> & Hil & Hend). destruct (waiting_ended _ _ _ Hco Hp Hw Hil) as [-> ->].
    split; [done|]. split; [done|]. by left.
Qed.

Lemma record_round_ok t todo cut :
  coming t todo cut -> plaintext t = [] -> (expected t = None -> len (encrypted t) < 5) ->
  round_ok t todo cut (record_round t).
Proof.
  intros Hco Hp H5. destruct (expected t) as [n|] eqn:En.
  - destruct (Z.le_gt_cases (5 + n) (len (encrypted t))) as [Hle|Hgt]; [by eapply record_round_opens|].
    unfold record_round. rewrite En, (proj2 (Z.leb_gt _ _)) by lia.
    apply receive_round_ok; [done|done|]. unfold waiting. by rewrite En.
  - unfold record_round. rewrite En. apply receive_round_ok; [done|done|]. unfold waiting. rewrite En. auto.
Qed.

Lemma enc_poll_round_ok t todo cut room :
  coming t todo cut -> (0 < room)%nat -> round_ok t todo cut (poll_round t room).
Proof.
  intros Hco Hroom. pose proof Hco as [Hi (ps & rs & s' & plain & Hs & Hne & Hc & Hx & He & Ht) Hex].
  unfold poll_round. destruct (plaintext t) as [|p0 p] eqn:Ep.
  - destruct (expected t) as [n|] eqn:En; [apply record_round_ok; [done|done|by rewrite En]|].
    destruct (Z.le_gt_cases 5 (len (encrypted t))) as [Hle|Hgt].
    + rewrite (proj2 (Z.leb_le _ _)) by lia.
      destruct (stream_head _ _ _ _ _ Hs Hc) as (n & Hd & _);
        [rewrite <- He, length_app; unfold len in *; lia|].
      rewrite <- (take_app_prefix _ _ _ _ He) in Hd by (unfold len in *; lia). rewrite Hd.
      apply (record_round_ok (set_expected t (Some n))); [|done|done].
      split; cbn; [done| |done]. exists ps, rs, s', plain. by rewrite Ep.
    + rewrite (proj2 (Z.leb_gt _ _)) by lia. by apply record_round_ok.
  - cbv zeta. set (m := Nat.min _ room). split; [done|]. split; [done|]. split.
    + exists (drop m (p0 :: p) ++ concat ps). split; [by rewrite app_assoc, take_drop|].
      split; cbn; [done| |done]. exists ps, rs, s', plain. done.
    + subst m. cbn [length]. destruct room; [lia|done].
Qed.

Lemma outcome_mono t t1 todo cut t' p :
  inner_end t1 = inner_end t -> (length (inner_left t1) <= length (inner_left t))%nat ->
  outcome_ok t1 todo cut t' p -> outcome_ok t todo cut t' p.
Proof.
  intros He Hl [He' Ho]. unfold outcome_ok. rewrite <- He, He'. split; [done|].
  destruct p as [|b|k]; [|..]; intuition lia.
Qed.

Lemma enc_poll_read_ok t todo cut room :
  coming t todo cut -> (0 < room)%nat ->
  exists t' p, poll_read t room = Some (t', p) /\ outcome_ok t todo cut t' p.
Proof.
  intros Hco Hroom. unfold poll_read. assert (fuel_of t < S (fuel_of t))%nat as Hf by lia.
  revert Hf. generalize (S (fuel_of t)). intros fuel. revert t Hco.
  induction fuel as [|f IH]; intros t Hco Hf; [lia|]. cbn [poll_read_fuel].
  pose proof (enc_poll_round_ok t todo cut room Hco Hroom) as Hr. destruct (poll_round t room) as [t' p|t'|]; [eauto| |done].
  destruct Hr as (Hco' & Hm & Hend & Hl). destruct (IH t' Hco' ltac:(lia)) as (t2 & p & Hp & Ho).
  exists t2, p. split; [done|]. by eapply outcome_mono.
Qed.

Lemma enc_drain_ok fuel t todo cut room :
  coming t todo cut -> (0 < room)%nat -> inner_end t = AtEof ->
  (length todo + length (inner_left t) < fuel)%nat ->
  drain fuel t room = Some (todo, match cut with [] => None | _ => Some UnexpectedEof end).
Proof.
  revert t todo. induction fuel as [|f IH]; intros t todo Hco Hroom He Hf; [lia|]. cbn [drain].
  destruct (enc_poll_read_ok t todo cut room Hco Hroom) as (t' & p & -> & Hend & Ho). destruct p as [|b|k].
  - destruct Ho as [Hco' Hl]. apply IH; [done|done|congruence|lia].
  - destruct Ho as (Hl & (todo' & -> & Hco') & Hb). destruct b as [|b0 b].
    + by destruct (Hb eq_refl) as (_ & -> & ->).
    + rewrite length_app in Hf. cbn [length] in Hf. rewrite (IH t' todo'); [done|done|done|congruence|lia].
  - destruct Ho as [-> [Hk|(_ & -> & Hc)]]; [congruence|]. by destruct cut.
Qed.

(** * Theorem *)

(** The stream the sender puts on the wire: as it is, or masked from the first
    byte with the key and the initial vector [mask]. *)
Definition on_wire (mask : option (bytes * bytes)) (plain sent : bytes) : Prop :=
  match mask with
  | None => sent = plain
  | Some (united, iv) => exists x, apply (outbound united iv 0) plain = Some (x, sent, Ok tt)
  end.

Definition reader_mask (mask : option (bytes * bytes)) : option header_xor :=
  match mask with None => None | Some (united, iv) => Some (inbound united iv 0) end.

Lemma on_wire_unmasked mask plain sent : on_wire mask plain sent -> unmasked (reader_mask mask) sent plain.
Proof.
  destruct mask as [[united iv]|]; [|done]. intros [x Ha].
  assert (xor_wf (outbound united iv 0)) as Hx by (split; cbn; lia).
  rewrite apply_is_fold in Ha by done. injection Ha as Ha. split; [split; cbn; lia|]. exists (peer x).
  exact (byte_fold_peer _ _ _ _ _ (eq_refl : decrypt (outbound united iv 0) = false) Ha).
Qed.

(** C12: what is sealed is what is read, and a cut stream is noticed.  For every
    sequence of plaintexts of 1 to 8192 bytes sealed by a sender in the reader's
    state, with or without the header mask, however the wire is fragmented and
    whatever the size of the reads: reading to the end gives exactly the
    plaintexts, then end of file if the wire ended between two records and
    [UnexpectedEof] if it ended inside one. *)
Theorem sealed_stream_delivered c ps frags mask room :
  Forall (fun p => 0 < len p <= 8192) ps -> (0 < room)%nat ->
  exists s' rs, seal_all c ps = (s', Ok rs) /\
    forall cut, partial_record s' cut -> inner_ok frags -> on_wire mask (concat rs ++ cut) (wire_of frags) ->
    drain (length (concat ps) + length frags + 1) (enc_reader_new frags AtEof c (reader_mask mask)) room
    = Some (concat ps, match cut with [] => None | _ => Some UnexpectedEof end).
Proof.
  intros Hps Hroom. destruct (seal_all_succeeds c ps Hps) as (s' & rs & Hs). exists s', rs. split; [done|].
  intros cut Hc Hok Hw. apply enc_drain_ok; [|done|done|cbn; lia].
  split; cbn [inner_left e_cipher e_xor encrypted plaintext expected enc_reader_new]; [done| |done].
  exists ps, rs, s', (concat rs ++ cut). split; [done|]. split.
  - revert Hps. apply Forall_impl. intros p Hp ->. by destruct Hp.
  - split; [done|]. split; [by apply on_wire_unmasked|done].
Qed.
End stream.

(** * Witness: two records and eight bytes of a third, masked, in fragments of
    three bytes with a pending poll in between *)

#[local] Instance toy_aead : Aead := Record.toy_aead.
#[local] Instance toy_laws : AeadLaws := Record.toy_laws.
#[local] Instance toy_keystream : KeyStream := Xor.toy_keystream.

Definition toy_plain : list bytes := [[1; 2; 3]; [4]].
Definition toy_sealed : aead_state * list bytes :=
  match seal_all toy_state toy_plain with (s, Ok rs) => (s, rs) | (s, Err _) => (s, []) end.
Definition toy_cut : bytes := match seal toy_sealed.1 [5] with (_, Ok r) => take 8 r | (_, Err _) => [] end.
Definition toy_wire : bytes :=
  match apply (outbound [7] [8] 0) (concat toy_sealed.2 ++ toy_cut) with
  | Some (_, w, Ok _) => w
  | _ => []
  end.
Definition toy_frags : list (option bytes) := (Some <$> chunks 3 toy_wire) ++ [None].

Lemma sealed_stream_delivered_witness :
  drain 60 (enc_reader_new (None :: toy_frags) AtEof toy_state (reader_mask (Some ([7], [8])))) 2
    = Some ([1; 2; 3; 4], Some UnexpectedEof) /\
  drain (length (concat toy_plain) + length toy_frags + 1)
    (enc_reader_new toy_frags AtEof toy_state (reader_mask (Some ([7], [8])))) 2
    = Some (concat toy_plain, match toy_cut with [] => None | _ => Some UnexpectedEof end).
Proof.
  split; [vm_compute; reflexivity|].
  destruct (sealed_stream_delivered toy_state toy_plain toy_frags (Some ([7], [8])) 2) as (s' & rs & Hs & Hd).
  - repeat (apply Forall_cons_2 || apply Forall_nil_2); vm_compute; split; congruence.
  - lia.
  - assert (toy_sealed = (s', rs)) as E by (unfold toy_sealed; by rewrite Hs).
    assert (s' = toy_sealed.1) as -> by (by rewrite E). assert (rs = toy_sealed.2) as -> by (by rewrite E).
    apply Hd.
    + exists [5]. eexists _, _, 8%nat. split; [vm_compute; reflexivity|]. split; [vm_compute; reflexivity|].
      vm_compute. lia.
    + apply inner_ok_compute. vm_compute. reflexivity.
    + eexists. vm_compute. reflexivity.
Defined.
