(* ===== verification/Xhttp.v ===== *)
(** [src/xhttp/mod.rs] and [src/xhttp/padding.rs]: the request layer of XHTTP.

    [Uri], [Method] and [HeaderMap] belong to the http crate: the model has
    their observers as record fields, and [HeaderValue::to_str] as a class. *)

From S2P Require Import Prelude.

(** * Requests *)

Class HeaderText := { to_str : bytes -> option bytes }.

Record header_map := mk_header_map {
  hm_get : bytes -> option bytes;
  hm_get_all : bytes -> list bytes;
  hm_iter : list (bytes * bytes) }.

Record uri := mk_uri {
  u_path : bytes;
  u_query : option bytes;
  u_host : option bytes;
  u_path_and_query : option bytes }.

Inductive method : Type := GET | HEAD | POST | OPTIONS | OtherMethod (name : bytes).

#[global] Instance method_eq_dec : EqDecision method.
Proof. solve_decision. Defined.

Definition HOST : bytes := bytes_of_string "host".
Definition REFERER : bytes := bytes_of_string "referer".
Definition X_PADDING : bytes := bytes_of_string "x_padding".

Definition slash : Z := 47.
Definition colon : Z := 58.

(** [split(c).next()] and the one after it. *)
Definition segment (c : Z) (k : nat) (l : bytes) : bytes := default [] (split_on c l !! k).

(** * Metadata and classification *)

Record meta := mk_meta { session_id : bytes; seq_str : bytes }.

Definition extract_meta_from_path_borrowed (base : bytes) (u : uri) : meta :=
  let rest := default [] (strip_prefix base (u_path u)) in
  mk_meta (segment slash 0 rest) (segment slash 1 rest).

(** The owned variant copies the two strings. *)
Definition extract_meta_from_path (base : bytes) (u : uri) : meta :=
  let m := extract_meta_from_path_borrowed base u in mk_meta (session_id m) (seq_str m).

Definition path_matches (base : bytes) (u : uri) : bool := starts_with base (u_path u).

Definition host_matches `{HeaderText} (configured : bytes) (h : header_map) (u : uri) : bool :=
  match configured with
  | [] => true
  | _ =>
      let host := default [] (match hm_get h HOST ≫= to_str with
                              | Some v => Some v
                              | None => u_host u
                              end) in
      eq_ignore_ascii_case (segment colon 0 host) (segment colon 0 configured)
  end.

Inductive request_kind : Type :=
| PacketUpload (session : bytes) (seq : Z)
| StreamDownload (session : bytes)
| StreamUp (session : bytes)
| StreamOne
| Options
| Unsupported.

Definition nonempty (l : bytes) : bool := match l with [] => false | _ => true end.

Definition classify_borrowed (m : method) (mt : meta) : request_kind :=
  if decide (m = OPTIONS) then Options
  else
    let has_session := nonempty (session_id mt) in
    let has_seq := nonempty (seq_str mt) in
    let is_uplink := if decide (m = GET) then has_seq else true in
    if is_uplink && has_session then
      if has_seq then
        match parse_uint u64_max (seq_str mt) with
        | Some seq => PacketUpload (session_id mt) seq
        | None => Unsupported
        end
      else StreamUp (session_id mt)
    else if bool_decide (m = GET) || negb has_session then
      if has_session then StreamDownload (session_id mt) else StreamOne
    else Unsupported.

Definition classify (m : method) (mt : meta) : request_kind :=
  match classify_borrowed m (mk_meta (session_id mt) (seq_str mt)) with
  | PacketUpload s q => PacketUpload s q
  | StreamDownload s => StreamDownload s
  | StreamUp s => StreamUp s
  | StreamOne => StreamOne
  | Options => Options
  | Unsupported => Unsupported
  end.

(** * Padding of the request *)

(** The loop over [query.split('&')]. *)
Fixpoint find_param (key : bytes) (pairs : list bytes) : option bytes :=
  match pairs with
  | [] => None
  | kv :: pairs' =>
      let '(k, v) := default (kv, []) (split_once 61 kv) in
      if bytes_eqb k key then Some v else find_param key pairs'
  end.

Definition query_param_ref (query key : bytes) : option bytes := find_param key (split_on 38 query).

Definition query_value_ref (url key : bytes) : option bytes :=
  match split_once 63 url with
  | None => None
  | Some (_, query) => query_param_ref (segment 35 0 query) key
  end.

Definition hex_value (b : Z) : option Z :=
  if (48 <=? b) && (b <=? 57) then Some (b - 48)
  else if (97 <=? b) && (b <=? 102) then Some (b - 97 + 10)
  else if (65 <=? b) && (b <=? 70) then Some (b - 65 + 10)
  else None.

(** [char::to_digit(16)]: the letters are folded to lower case. *)
Definition to_digit_16 (b : Z) : option Z :=
  if (48 <=? b) && (b <=? 57) then Some (b - 48)
  else
    let lower := Z.lor b 0x20 in
    if (97 <=? lower) && (lower <=? 102) then Some (lower - 97 + 10) else None.

Fixpoint percent_decoded_len (value : bytes) : Z :=
  match value with
  | [] => 0
  | c :: r =>
      match r with
      | a :: b :: r2 =>
          if (c =? 37) && bool_decide (is_Some (hex_value a)) && bool_decide (is_Some (hex_value b))
          then 1 + percent_decoded_len r2 else 1 + percent_decoded_len r
      | _ => 1 + percent_decoded_len r
      end
  end.

(** The bytes [percent_decode] collects. *)
Fixpoint percent_decoded (s : bytes) : bytes :=
  match s with
  | [] => []
  | c :: r =>
      match r with
      | a :: b :: r2 =>
          if c =? 37 then
            match to_digit_16 a, to_digit_16 b with
            | Some h, Some l => as_u8 (h * 16 + l) :: percent_decoded r2
            | _, _ => 37 :: percent_decoded r
            end
          else (if c =? 43 then 32 else c) :: percent_decoded r
      | _ => (if c =? 43 then 32 else c) :: percent_decoded r
      end
  end.

Definition percent_decode (s : bytes) : bytes := utf8_lossy (percent_decoded s).

Definition query_value (url key : bytes) : option bytes := percent_decode <$> query_value_ref url key.
Definition query_param (query key : bytes) : option bytes := percent_decode <$> query_param_ref query key.

(** The [Referer] that counts: present, text and not empty. *)
Definition referer_of `{HeaderText} (h : header_map) : option bytes :=
  match hm_get h REFERER ≫= to_str with
  | Some (b :: r) => Some (b :: r)
  | _ => None
  end.

Definition extract_padding `{HeaderText} (h : header_map) (u : uri) : bytes :=
  match referer_of h with
  | Some referer => default [] (query_value referer X_PADDING)
  | None =>
      match u_query u with
      | Some q => default [] (query_param q X_PADDING)
      | None => []
      end
  end.

Definition extract_padding_len `{HeaderText} (h : header_map) (u : uri) : option Z :=
  match referer_of h with
  | Some referer => percent_decoded_len <$> query_value_ref referer X_PADDING
  | None => percent_decoded_len <$> (u_query u ≫= fun q => query_param_ref q X_PADDING)
  end.

Definition is_padding_valid (value : bytes) (from to : Z) : bool :=
  match value with
  | [] => false
  | _ => let n := wrap 32 (len value) in (from <=? n) && (n <=? to)
  end.

Definition is_padding_len_valid (value : option Z) (from to : Z) : bool :=
  match value with
  | None => false
  | Some n => negb (n =? 0) && (from <=? n) && (n <=? to)
  end.

(** * Padding of the response *)

Definition MAX_CACHED_LENGTHS : Z := 2048.

(** [draw] is what [gen_range] returned. *)
Definition random_length (from to draw : Z) : Z := if to <=? from then from else draw.

Definition padding_header_value (n : Z) : bytes := replicate (Z.to_nat n) 88.

Definition generate_response_padding (from to draw : Z) : bytes :=
  replicate (Z.to_nat (random_length from to draw)) 88.

(** [cache] holds the values initialised so far. *)
Record response_padding := mk_response_padding {
  rp_from : Z; rp_to : Z; rp_cache : option (list (option bytes)) }.

Definition response_padding_new (from to : Z) : response_padding :=
  let width := Z.max 0 (to - from) + 1 in
  mk_response_padding from to
    (if width <=? MAX_CACHED_LENGTHS then Some (replicate (Z.to_nat width) None) else None).

(** [header_value]: the cache index can be out of bounds ([Crash]). *)
Definition header_value (rp : response_padding) (draw : Z) : comp unit (response_padding * bytes) :=
  let n := random_length (rp_from rp) (rp_to rp) draw in
  match rp_cache rp with
  | None => Val (rp, padding_header_value n)
  | Some cache =>
      let k := Z.to_nat (n - rp_from rp) in
      match cache !! k with
      | None => Crash
      | Some (Some v) => Val (rp, v)
      | Some None =>
          let v := padding_header_value n in
          Val (mk_response_padding (rp_from rp) (rp_to rp) (Some (<[k := Some v]> cache)), v)
      end
  end.

(** A cache of the right size whose values are right. *)
Definition padding_cache_ok (rp : response_padding) : Prop :=
  match rp_cache rp with
  | None => True
  | Some cache =>
      len cache = Z.max 0 (rp_to rp - rp_from rp) + 1 /\
      forall k v, cache !! k = Some (Some v) -> v = padding_header_value (rp_from rp + Z.of_nat k)
  end.

(** The values of a sequence of draws. *)
Fixpoint header_values (rp : response_padding) (draws : list Z) : comp unit (list bytes) :=
  match draws with
  | [] => Val []
  | r :: draws' =>
      '(rp', v) ← header_value rp r;
      vs ← header_values rp' draws';
      mret (v :: vs)
  end.

(** * Lemmas *)

Lemma digit_agrees b : byte_ok b -> to_digit_16 b = hex_value b.
Proof.
  intros Hb. assert (bool_decide (to_digit_16 b = hex_value b) = true) as He; [|by apply bool_decide_eq_true in He].
  revert b Hb. apply (by_enumeration (fun b => bool_decide (to_digit_16 b = hex_value b)) 256). vm_compute. reflexivity.
Qed.

(** The shared shape of the two traversals of a percent-encoded value. *)
Lemma percent_decoded_length v : bytes_ok v -> len (percent_decoded v) = percent_decoded_len v.
Proof.
  remember (length v) as n eqn:Hn. revert v Hn. induction (lt_wf n) as [n _ IH]. intros v -> Hok.
  destruct v as [|c r]; [done|]. apply Forall_cons_iff in Hok as [_ Hok].
  assert (len (percent_decoded r) = percent_decoded_len r) as IHr by (eapply IH; [|done|done]; cbn; lia).
  cbn [percent_decoded percent_decoded_len]. destruct r as [|a [|b r2]].
  1,2: rewrite len_cons, IHr; lia.
  pose proof Hok as Hok'. apply Forall_cons_iff in Hok' as [Ha Hok']. apply Forall_cons_iff in Hok' as [Hb Hr2].
  rewrite !digit_agrees by done. destruct (c =? 37); cbn [andb]; [|rewrite len_cons, IHr; lia].
  assert (len (percent_decoded r2) = percent_decoded_len r2) as IHr2 by (eapply IH; [|done|done]; cbn; lia).
  destruct (hex_value a), (hex_value b); cbn [andb]; rewrite len_cons;
    repeat ((rewrite bool_decide_true by eauto) || (rewrite bool_decide_false by (intros [? ?]; done))); cbn [andb]; lia.
Qed.

Lemma bytes_ok_query_param q key v : bytes_ok q -> query_param_ref q key = Some v -> bytes_ok v.
Proof.
  intros Hq. unfold query_param_ref. pose proof (bytes_ok_split_on 38 q Hq) as Hp. revert Hp.
  induction (split_on 38 q) as [|kv pairs IH]; [done|]. intros [Hkv Hp]%Forall_cons_iff.
  cbn [find_param]. destruct (split_once 61 kv) as [[k w]|] eqn:E; cbn [from_option id].
  - destruct (bytes_eqb k key); [|by apply IH]. intros [= <-]. by eapply bytes_ok_split_once.
  - destruct (bytes_eqb kv key); [|by apply IH]. intros [= <-]. constructor.
Qed.

Lemma bytes_ok_query_value url key v : bytes_ok url -> query_value_ref url key = Some v -> bytes_ok v.
Proof.
  intros Hu. unfold query_value_ref. destruct (split_once 63 url) as [[p q]|] eqn:E; [|done].
  intros Hv. eapply bytes_ok_query_param; [|exact Hv]. unfold segment.
  destruct (split_on 35 q !! 0%nat) as [w|] eqn:Ew; cbn [from_option id]; [|constructor].
  eapply (Forall_lookup_1 _ _ _ _ (bytes_ok_split_on 35 q _) Ew).
  Unshelve. by eapply bytes_ok_split_once.
Qed.

(** ** The undecoded padding of a request *)

Definition raw_padding `{HeaderText} (h : header_map) (u : uri) : option bytes :=
  match referer_of h with
  | Some referer => query_value_ref referer X_PADDING
  | None => u_query u ≫= fun q => query_param_ref q X_PADDING
  end.

Lemma extract_padding_raw `{HeaderText} h u : extract_padding h u = default [] (percent_decode <$> raw_padding h u).
Proof. unfold extract_padding, raw_padding. destruct (referer_of h); [done|]. by destruct (u_query u). Qed.

Lemma extract_padding_len_raw `{HeaderText} h u : extract_padding_len h u = percent_decoded_len <$> raw_padding h u.
Proof. unfold extract_padding_len, raw_padding. by destruct (referer_of h). Qed.

Lemma raw_padding_ok `{HeaderText} h u v :
  (forall r, referer_of h = Some r -> bytes_ok r) -> (forall q, u_query u = Some q -> bytes_ok q) ->
  raw_padding h u = Some v -> bytes_ok v.
Proof.
  intros Hr Hq. unfold raw_padding. destruct (referer_of h) as [r|].
  - apply bytes_ok_query_value. auto.
  - destruct (u_query u) as [q|]; [|done]. apply bytes_ok_query_param. auto.
Qed.

Lemma padding_cache_new from to : padding_cache_ok (response_padding_new from to).
Proof.
  unfold padding_cache_ok, response_padding_new. cbn. destruct (_ <=? _); [|done]. split.
  - unfold len. rewrite length_replicate. lia.
  - intros k v Hk. by apply lookup_replicate in Hk as [Hk _].
Qed.

Lemma random_length_range from to r : (from < to -> from <= r <= to) ->
  from <= random_length from to r <= Z.max from to.
Proof. unfold random_length. destruct (to <=? from) eqn:E; split_bool; lia. Qed.

Lemma header_value_ok rp r :
  padding_cache_ok rp -> (rp_from rp < rp_to rp -> rp_from rp <= r <= rp_to rp) ->
  exists rp', header_value rp r = Val (rp', generate_response_padding (rp_from rp) (rp_to rp) r) /\
    padding_cache_ok rp' /\ rp_from rp' = rp_from rp /\ rp_to rp' = rp_to rp.
Proof.
  intros Hc Hr. pose proof (random_length_range _ _ _ Hr) as Hn. unfold header_value, generate_response_padding, padding_cache_ok in *.
  set (n := random_length _ _ _) in *. destruct (rp_cache rp) as [cache|] eqn:Ec; [|exists rp; by rewrite Ec].
  destruct Hc as [Hl Hv]. set (k := Z.to_nat (n - rp_from rp)).
  destruct (lookup_lt_is_Some_2 cache k) as [[v|] Hk]; [unfold len in Hl; lia| |]; rewrite Hk.
  - exists rp. rewrite Ec. split; [|done]. rewrite (Hv k v Hk). unfold padding_header_value. do 4 f_equal. lia.
  - eexists. split; [done|]. cbn. split; [|done]. split; [unfold len in *; by rewrite length_insert|].
    intros k' v' Hk'. destruct (decide (k' = k)) as [->|Hne].
    + rewrite list_lookup_insert_eq in Hk' by (by eapply lookup_lt_Some). injection Hk' as <-. f_equal. lia.
    + rewrite list_lookup_insert_ne in Hk' by done. auto.
Qed.

(** * Theorems *)

(** The allocation-free padding check is the reference check.  On every request
    whose decoded padding is UTF-8 and shorter than 4 GiB, validating the length
    from [extract_padding_len] gives the verdict that decoding the value with
    [extract_padding] and validating it gives. *)
Theorem padding_check_equiv `{HeaderText} h u from to :
  (forall r, referer_of h = Some r -> bytes_ok r) -> (forall q, u_query u = Some q -> bytes_ok q) ->
  (forall v, raw_padding h u = Some v -> utf8_valid (percent_decoded v) = true /\ len (percent_decoded v) < 2 ^ 32) ->
  is_padding_len_valid (extract_padding_len h u) from to = is_padding_valid (extract_padding h u) from to.
Proof.
  intros Hr Hq Hv. rewrite extract_padding_raw, extract_padding_len_raw.
  destruct (raw_padding h u) as [v|] eqn:Ev; [|done]. destruct (Hv v eq_refl) as [Hu Hl].
  pose proof (percent_decoded_length v (raw_padding_ok _ _ _ Hr Hq Ev)) as Hd. cbn [fmap option_fmap option_map from_option id].
  unfold percent_decode. rewrite utf8_lossy_valid by done. cbn [is_padding_len_valid]. rewrite <- Hd.
  destruct (percent_decoded v) as [|b l]; [done|]. cbn [is_padding_valid]. pose proof (len_nonneg l).
  unfold wrap. rewrite Z.mod_small by (rewrite len_cons in *; lia).
  rewrite len_cons. destruct (1 + len l =? 0) eqn:E; split_bool; [lia|done].
Qed.

(** The URL of a packet is read back.  A packet of session [sid] with sequence
    number [n], sent to [base/sid/n] by any method but OPTIONS, is classified as
    exactly that upload, whatever follows as further path segments. *)
Theorem packet_url_roundtrip base sid n tail m u :
  0 <= n <= u64_max -> sid <> [] -> Forall (fun b => b <> slash) sid ->
  u_path u = base ++ sid ++ slash :: decimal n ++ tail -> (tail = [] \/ exists t, tail = slash :: t) ->
  m <> OPTIONS ->
  path_matches base u = true /\
  classify_borrowed m (extract_meta_from_path_borrowed base u) = PacketUpload sid n.
Proof.
  intros Hn Hne Hsid Hu Ht Hm. unfold path_matches, starts_with, extract_meta_from_path_borrowed.
  rewrite Hu, strip_prefix_app. cbn [from_option id]. split; [done|].
  assert (Forall (fun b => b <> slash) (decimal n)) as Hd.
  { eapply Forall_impl; [|apply decimal_digits_fuel; lia]. unfold slash. intros b Hb. cbn in Hb. lia. }
  assert (segment slash 0 (sid ++ slash :: decimal n ++ tail) = sid
    /\ segment slash 1 (sid ++ slash :: decimal n ++ tail) = decimal n) as [-> ->].
  { unfold segment. rewrite split_on_app by done. split; [done|].
    destruct Ht as [->|[t ->]]; [rewrite app_nil_r, split_on_nodelim by done|rewrite split_on_app by done]; done. }
  unfold classify_borrowed. rewrite decide_False by done. cbn [session_id seq_str].
  rewrite decimal_parse by done. destruct sid; [done|]. pose proof (decimal_nonempty n).
  destruct (decimal n); [done|]. cbn. by case_decide.
Qed.

(** The classification table.  A request is an upload exactly when it names a
    session and a sequence number that is a u64 (for any method but OPTIONS); a
    download exactly when it is a GET that names a session and no sequence number;
    it is reported as unsupported exactly when it names a session and a sequence
    number that is not a u64. *)
Theorem classify_exact m mt :
  (forall s n, classify m mt = PacketUpload s n <->
     m <> OPTIONS /\ s = session_id mt /\ s <> [] /\ seq_str mt <> [] /\ parse_uint u64_max (seq_str mt) = Some n) /\
  (forall s, classify m mt = StreamDownload s <-> m = GET /\ s = session_id mt /\ s <> [] /\ seq_str mt = []) /\
  (forall s, classify m mt = StreamUp s <->
     m <> OPTIONS /\ m <> GET /\ s = session_id mt /\ s <> [] /\ seq_str mt = []) /\
  (classify m mt = StreamOne <-> m <> OPTIONS /\ session_id mt = []) /\
  (classify m mt = Options <-> m = OPTIONS) /\
  (classify m mt = Unsupported <->
     m <> OPTIONS /\ session_id mt <> [] /\ seq_str mt <> [] /\ parse_uint u64_max (seq_str mt) = None).
Proof.
  assert (GET <> OPTIONS) as Hgo by done. unfold classify, classify_borrowed.
  destruct (decide (m = OPTIONS)) as [Ho|Ho]; destruct (decide (m = GET)) as [Hg|Hg];
    rewrite ?(bool_decide_true _ Hg), ?(bool_decide_false _ Hg); [congruence|..];
    destruct mt as [[|s0 s] [|q0 q]]; cbn [session_id seq_str nonempty andb orb negb];
    try destruct (parse_uint u64_max (q0 :: q)); repeat split; intros; destruct_and?; simplify_eq; auto.
Qed.

(** Response padding.  Whatever lengths are drawn and whatever the cache
    already holds, [header_value] never indexes outside the cache and returns what
    the cache-free [generate_response_padding] returns for the draw: X repeated
    between [from] and [to] times. *)
Theorem response_padding_equiv from to draws :
  from <= to -> Forall (fun r => from <= r <= to) draws ->
  header_values (response_padding_new from to) draws = Val (generate_response_padding from to <$> draws) /\
  Forall (fun r => from <= random_length from to r <= to) draws.
Proof.
  intros Hft Hd. split.
  - assert (forall rp, padding_cache_ok rp -> rp_from rp = from -> rp_to rp = to ->
      header_values rp draws = Val (generate_response_padding from to <$> draws)) as Hg.
    { induction Hd as [|r draws Hr _ IH]; intros rp Hc Hf Ht; [done|]. cbn [header_values].
      destruct (header_value_ok rp r Hc) as (rp' & Hv & Hc' & Hf' & Ht'); [rewrite Hf, Ht; lia|].
      rewrite Hv. cbn. rewrite IH by congruence. by rewrite Hf, Ht. }
    apply Hg; [apply padding_cache_new|done|done].
  - eapply Forall_impl; [|exact Hd]. cbn. intros r Hr. pose proof (random_length_range from to r). lia.
Qed.

(** * Witnesses *)

#[local] Instance plain_text : HeaderText := { to_str := fun v => if is_ascii v then Some v else None }.

Definition sample_headers : header_map := mk_header_map (fun _ => None) (fun _ => []) [].
Definition sample_uri : uri :=
  mk_uri (bytes_of_string "/p/abc/18446744073709551615") (Some (bytes_of_string "before=x&x_padding=X%58+Z&after=y"))
    None None.

Lemma padding_check_equiv_witness :
  is_padding_len_valid (extract_padding_len sample_headers sample_uri) 4 4 = true /\
  is_padding_len_valid (extract_padding_len sample_headers sample_uri) 4 4
  = is_padding_valid (extract_padding sample_headers sample_uri) 4 4.
Proof.
  split; [vm_compute; reflexivity|]. apply padding_check_equiv.
  - done.
  - intros q [= <-]. by apply bytes_okb_ok.
  - intros v Hv. vm_compute in Hv. injection Hv as <-. split; vm_compute; reflexivity.
Defined.

Lemma packet_url_roundtrip_witness :
  path_matches (bytes_of_string "/p/") sample_uri = true /\
  classify_borrowed POST (extract_meta_from_path_borrowed (bytes_of_string "/p/") sample_uri)
  = PacketUpload (bytes_of_string "abc") u64_max.
Proof.
  apply (packet_url_roundtrip _ _ _ []); [by vm_compute|done| |reflexivity|by left|done].
  repeat (apply Forall_cons_2 || apply Forall_nil_2); done.
Defined.

Lemma response_padding_equiv_witness :
  header_values (response_padding_new 4 8) [4; 8; 8; 6] = Val (generate_response_padding 4 8 <$> [4; 8; 8; 6]) /\
  Forall (fun r => 4 <= random_length 4 8 r <= 8) [4; 8; 8; 6].
Proof. apply response_padding_equiv; [lia|]. repeat (apply Forall_cons_2 || apply Forall_nil_2); lia. Defined.
