(* ===== verification/Site.v ===== *)
(** [src/site.rs]: the static site that answers everything that is not XHTTP.

    The directory is a tree as [collect_files] sees it.  The digest of a body
    (blake3 crate) and the formatting of a date (httpdate crate) are parameters. *)

From S2P Require Import Prelude Xhttp.

Class SiteFormat := { body_digest_hex : bytes -> bytes; fmt_http_date : Z -> bytes }.

Definition status_ok : Z := 200.
Definition status_not_found : Z := 404.
Definition status_method_not_allowed : Z := 405.

Record asset := mk_asset {
  a_content_type : bytes; a_body : bytes; a_cache_control : bytes; a_etag : bytes; a_last_modified : bytes }.

Record static_reply := mk_static_reply {
  sr_status : Z; sr_asset : asset; sr_allow : option bytes }.

(** [Asset::reply]: the fields of the asset are copied. *)
Definition reply (a : asset) (status : Z) : static_reply := mk_static_reply status a None.

Record static_site := mk_static_site {
  assets : gmap bytes asset; not_found : asset; method_not_allowed : asset }.

Definition resolve (s : static_site) (m : method) (path : bytes) : static_reply :=
  if negb (bool_decide (m = GET)) && negb (bool_decide (m = HEAD)) then
    mk_static_reply status_method_not_allowed (method_not_allowed s) (Some (bytes_of_string "GET, HEAD"))
  else
    match assets s !! path with
    | Some a => reply a status_ok
    | None => reply (not_found s) status_not_found
    end.

(** * The directory *)

Abbreviation name := bytes (only parsing).
Abbreviation path := (list bytes) (only parsing).

Record file := mk_file { f_len : Z; f_modified : Z; f_body : option bytes }.

Inductive node : Type :=
| NFile (f : file)
| NDir (entries : option (list (name * node)))
| NSymlink
| NOther
| NUnreadable.

Inductive site_error : Type :=
| MissingDirectory
| ReadError (p : path)
| NotDirectory
| Empty
| FileTooLarge (p : path) (length limit : Z)
| SiteTooLarge (length limit : Z)
| Symlink (p : path)
| InvalidPath (p : path)
| MissingIndex (i : bytes)
| MissingNotFound (key : bytes).

(** [collect_files], on one entry at path [p] relative to the root.  All paths
    are built below the root, so the [EscapesRoot] test never fires. *)
Fixpoint collect_node (p : path) (n : node) : result site_error (list (path * file)) :=
  match n with
  | NFile f => Ok [(p, f)]
  | NSymlink => Err (Symlink p)
  | NOther => Ok []
  | NUnreadable => Err (ReadError p)
  | NDir None => Err (ReadError p)
  | NDir (Some es) =>
      (fix go (es : list (name * node)) : result site_error (list (path * file)) :=
         match es with
         | [] => Ok []
         | (x, m) :: es' =>
             match collect_node (p ++ [x]) m with
             | Err e => Err e
             | Ok fs => match go es' with Err e => Err e | Ok gs => Ok (fs ++ gs) end
             end
         end) es
  end.

(** [Path]'s order: component by component, bytewise. *)
Fixpoint bytes_leb (a b : bytes) : bool :=
  match a, b with
  | [], _ => true
  | _ :: _, [] => false
  | x :: a', y :: b' => if x <? y then true else if y <? x then false else bytes_leb a' b'
  end.

Fixpoint path_leb (a b : path) : bool :=
  match a, b with
  | [], _ => true
  | _ :: _, [] => false
  | x :: a', y :: b' => if bytes_eqb x y then path_leb a' b' else bytes_leb x y
  end.

Fixpoint insert_file (x : path * file) (l : list (path * file)) : list (path * file) :=
  match l with
  | [] => [x]
  | y :: l' => if path_leb x.1 y.1 then x :: l else y :: insert_file x l'
  end.

Definition sort_files (l : list (path * file)) : list (path * file) := foldr insert_file [] l.

(** * URLs *)

Definition HEX : bytes := bytes_of_string "0123456789ABCDEF".

Definition unreserved (b : Z) : bool :=
  ((48 <=? b) && (b <=? 57)) || ((65 <=? b) && (b <=? 90)) || ((97 <=? b) && (b <=? 122))
  || (b =? 45) || (b =? 46) || (b =? 95) || (b =? 126).

Definition percent_encode_byte (b : Z) : bytes :=
  if unreserved b then [b]
  else [37; nth (Z.to_nat (Z.shiftr b 4)) HEX 0; nth (Z.to_nat (Z.land b 15)) HEX 0].

Definition percent_encode (l : bytes) : bytes := concat (percent_encode_byte <$> l).

(** [Path::components] of a relative path: the names below the root are all
    normal; [.] and [..] would not be. *)
Definition normal (x : name) : bool := negb (bytes_eqb x [46]) && negb (bytes_eqb x [46; 46]).

Fixpoint url_components (whole p : path) (first : bool) : result site_error bytes :=
  match p with
  | [] => Ok []
  | x :: p' =>
      if negb (normal x) then Err (InvalidPath whole)
      else
        match url_components whole p' false with
        | Err e => Err e
        | Ok rest => Ok ((if first then [] else [slash]) ++ percent_encode x ++ rest)
        end
  end.

Definition url_path (relative : path) : result site_error bytes :=
  match url_components relative relative true with Err e => Err e | Ok u => Ok (slash :: u) end.

(** * Assets *)

Definition CACHE_HTML : bytes := bytes_of_string "public, max-age=300".
Definition CACHE_ASSET : bytes := bytes_of_string "public, max-age=86400, immutable".

(** [rsplit_once('.')]: what follows the last dot. *)
Definition extension (p : bytes) : option bytes :=
  match split_once 46 (rev p) with Some (e, _) => Some (to_ascii_lowercase (rev e)) | None => None end.

Definition content_types : list (list string * string) := [
  (["html"; "htm"], "text/html; charset=utf-8");
  (["css"], "text/css; charset=utf-8");
  (["js"; "mjs"], "text/javascript; charset=utf-8");
  (["json"; "map"], "application/json; charset=utf-8");
  (["txt"], "text/plain; charset=utf-8");
  (["xml"], "application/xml; charset=utf-8");
  (["svg"], "image/svg+xml");
  (["png"], "image/png");
  (["jpg"; "jpeg"], "image/jpeg");
  (["gif"], "image/gif");
  (["webp"], "image/webp");
  (["avif"], "image/avif");
  (["ico"], "image/x-icon");
  (["woff"], "font/woff");
  (["woff2"], "font/woff2");
  (["pdf"], "application/pdf");
  (["wasm"], "application/wasm")]%string.

Definition content_type (p : bytes) : bytes :=
  match extension p with
  | None => bytes_of_string "application/octet-stream"
  | Some e =>
      match find (fun r => existsb (fun s => bytes_eqb e (bytes_of_string s)) r.1) content_types with
      | Some r => bytes_of_string r.2
      | None => bytes_of_string "application/octet-stream"
      end
  end.

(** [default_not_found]: a page of its own. *)
Definition default_not_found (title description : bytes) : bytes :=
  format "<!doctype html><html lang=`en`><head><meta charset=`utf-8`><meta name=`viewport` content=`width=device-width,initial-scale=1`><title>{}</title></head><body><main><h1>{}</h1><p>{}</p><p><a href=`/`>Home</a></p></main></body></html>" [title; title; description].

Section site.
Context `{SiteFormat}.

Definition build_asset (ct body cache : bytes) (modified : Z) : asset :=
  mk_asset ct body cache ([34] ++ take 24 (body_digest_hex body) ++ [34]) (fmt_http_date modified).

Definition file_asset (url body : bytes) (modified : Z) : asset :=
  let ct := content_type url in
  build_asset ct body (if starts_with (bytes_of_string "text/html") ct then CACHE_HTML else CACHE_ASSET) modified.

Definition text_asset (ct body cache : bytes) : asset := build_asset ct body cache 0.

(** * Loading *)

Record fallback_config := mk_fallback_config {
  dist : option (option node);           (* [Some None]: the path does not resolve *)
  index : bytes;
  not_found_path : option bytes;
  max_file_bytes : Z;
  max_total_bytes : Z }.

(** The text of the default error page is a parameter of the load. *)
Definition add_file (c : fallback_config) (m : gmap bytes asset) (total : Z) (pf : path * file) :
    result site_error (gmap bytes asset * Z) :=
  let '(p, f) := pf in
  if max_file_bytes c <? f_len f then Err (FileTooLarge p (f_len f) (max_file_bytes c))
  else
    let total := total + f_len f in
    if u64_max <? total then Err (SiteTooLarge u64_max (max_total_bytes c))
    else if max_total_bytes c <? total then Err (SiteTooLarge total (max_total_bytes c))
    else
      body ← ok_or (f_body f) (ReadError p);
      url ← url_path p;
      let a := file_asset url body (f_modified f) in
      let m := <[url := a]> m in
      match list.last p with
      | Some x =>
          if bytes_eqb x (index c) then
            alias ← url_path (removelast p);
            let alias := if bytes_eqb alias [slash] then alias else alias ++ [slash] in
            mret (<[alias := a]> m, total)
          else mret (m, total)
      | None => mret (m, total)
      end.

Fixpoint add_files (c : fallback_config) (m : gmap bytes asset) (total : Z) (l : list (path * file)) :
    result site_error (gmap bytes asset * Z) :=
  match l with
  | [] => Ok (m, total)
  | pf :: l' => '(m1, t1) ← add_file c m total pf; add_files c m1 t1 l'
  end.

Definition from_directory (c : fallback_config) : result site_error static_site :=
  match dist c with
  | None => Err MissingDirectory
  | Some None => Err (ReadError [])
  | Some (Some (NDir es)) =>
      files ← collect_node [] (NDir es);
      match files with
      | [] => Err Empty
      | _ =>
          '(m, _) ← add_files c ∅ 0 (sort_files files);
          match m !! [slash] with
          | None => Err (MissingIndex (index c))
          | Some _ =>
              nf ← match not_found_path c with
                   | Some p =>
                       let key := if starts_with [slash] p then p else slash :: p in
                       ok_or (m !! key) (MissingNotFound key)
                   | None => Ok (text_asset (bytes_of_string "text/html; charset=utf-8")
                                (default_not_found (bytes_of_string "Page not found") (bytes_of_string "Return to the home page")) CACHE_HTML)
                   end;
              mret (mk_static_site m nf
                (text_asset (bytes_of_string "text/html; charset=utf-8")
                   (default_not_found (bytes_of_string "Method not allowed")
                      (bytes_of_string "This site accepts GET and HEAD requests")) (bytes_of_string "no-store")))
          end
      end
  | Some (Some _) => Err NotDirectory
  end.
End site.

(** * What a directory should be *)

Definition name_ok (x : name) : Prop := x <> [] /\ bytes_ok x.
Definition path_ok (p : path) : Prop := p <> [] /\ Forall name_ok p.

(** The entries of a directory have different names, as a file system has it. *)
Fixpoint node_wf (n : node) : Prop :=
  match n with
  | NDir (Some es) =>
      NoDup es.*1 /\ Forall name_ok es.*1 /\
      (fix all (es : list (name * node)) : Prop :=
         match es with [] => True | (_, m) :: es' => node_wf m /\ all es' end) es
  | _ => True
  end.

Fixpoint has_symlink (n : node) : bool :=
  match n with
  | NSymlink => true
  | NDir (Some es) =>
      (fix any (es : list (name * node)) : bool :=
         match es with [] => false | (_, m) :: es' => has_symlink m || any es' end) es
  | _ => false
  end.

(** The URL of a directory, where its index file is served. *)
Definition directory_url (p : path) : result site_error bytes :=
  match url_path p with
  | Ok u => Ok (if bytes_eqb u [slash] then u else u ++ [slash])
  | Err e => Err e
  end.

Definition is_index (c : fallback_config) (p : path) : bool :=
  match list.last p with Some x => bytes_eqb x (index c) | None => false end.

(** The file [f] at [p] is served: at its URL, and at the URL of its directory if
    it is an index. *)
Definition served `{SiteFormat} (c : fallback_config) (m : gmap bytes asset) (pf : path * file) : Prop :=
  exists url body, url_path pf.1 = Ok url /\ f_body pf.2 = Some body /\
    m !! url = Some (file_asset url body (f_modified pf.2)) /\
    (is_index c pf.1 = true -> exists alias, directory_url (removelast pf.1) = Ok alias /\
      m !! alias = Some (file_asset url body (f_modified pf.2))).

(** * Lemmas *)

(** ** Percent-encoding *)

Definition enc_check (b : Z) : bool :=
  match percent_encode_byte b with
  | [x] => (x =? b) && negb (b =? 37) && negb (b =? 43) && negb (b =? 47)
  | [_; h; l] =>
      match to_digit_16 h, to_digit_16 l with
      | Some x, Some y => (as_u8 (x * 16 + y) =? b) && negb (h =? 47) && negb (l =? 47)
      | _, _ => false
      end
  | _ => false
  end.

Lemma enc_check_ok b : byte_ok b -> enc_check b = true.
Proof. apply (by_enumeration enc_check 256). vm_compute. reflexivity. Qed.

Lemma decode_encode_byte b r : byte_ok b -> percent_decoded (percent_encode_byte b ++ r) = b :: percent_decoded r.
Proof.
  intros Hb. pose proof (enc_check_ok b Hb) as He. unfold enc_check in He. unfold percent_encode_byte in *.
  destruct (unreserved b).
  - cbn [app percent_decoded]. split_bool.
    destruct (b =? 37) eqn:E37, (b =? 43) eqn:E43; split_bool; try done. by destruct r as [|a [|c r]].
  - cbn [app percent_decoded]. destruct (to_digit_16 _) as [x|]; [|done]. destruct (to_digit_16 _) as [y|]; [|done].
    split_bool. change (37 =? 37) with true. cbv iota. congruence.
Qed.

Lemma percent_decode_encode l : bytes_ok l -> percent_decoded (percent_encode l) = l.
Proof.
  unfold percent_encode. induction 1 as [|b l Hb _ IH]; [done|]. cbn [fmap list_fmap concat].
  by rewrite decode_encode_byte, IH.
Qed.

Lemma percent_encode_noslash l : bytes_ok l -> Forall (fun b => b <> slash) (percent_encode l).
Proof.
  unfold percent_encode, slash. induction 1 as [|b l Hb _ IH]; [constructor|]. cbn [fmap list_fmap concat].
  apply Forall_app. split; [|done]. pose proof (enc_check_ok b Hb) as He. unfold enc_check in He.
  unfold percent_encode_byte in *. destruct (unreserved b); split_bool; [by constructor|].
  destruct (to_digit_16 _); [|done]. destruct (to_digit_16 _); [|done]. split_bool. by repeat constructor.
Qed.

Lemma percent_encode_nonempty l : l <> [] -> percent_encode l <> [].
Proof. destruct l as [|b l]; [done|]. unfold percent_encode, percent_encode_byte. cbn. by destruct (unreserved b). Qed.

Lemma percent_encode_inj p q :
  Forall name_ok p -> Forall name_ok q -> percent_encode <$> p = percent_encode <$> q -> p = q.
Proof.
  intros Hp. revert q. induction Hp as [|x p [_ Hx] _ IH]; intros [|y q] Hq; cbn; [done|done|done|].
  intros [= Hxy Hpq]. apply Forall_cons_iff in Hq as [[_ Hy] Hq]. f_equal; [|by apply IH].
  rewrite <- (percent_decode_encode x Hx), Hxy. by apply percent_decode_encode.
Qed.

(** ** URLs and their segments *)

(** The segments after the leading slash tell URLs apart. *)
Definition segments (u : bytes) : list bytes := split_on slash (tail u).

Lemma url_components_spec whole p first u :
  Forall name_ok p -> p <> [] -> url_components whole p first = Ok u ->
  exists v, u = (if first then [] else [slash]) ++ v /\
    forall rest, (rest = [] \/ exists r, rest = slash :: r) ->
      split_on slash (v ++ rest) = (percent_encode <$> p) ++ tail (split_on slash rest).
Proof.
  intros Hp. revert first u. induction Hp as [|x p [Hx1 Hx2] Hp IH]; intros first u Hne; [done|]. cbn [url_components].
  destruct (normal x); [|done]. cbn [negb]. destruct (url_components whole p false) as [r|] eqn:Er; [|done].
  intros Hu. apply Ok_inj in Hu. subst u. eexists. split; [reflexivity|]. intros rest Hrest.
  pose proof (percent_encode_noslash x Hx2) as Hns. destruct p as [|y p].
  - cbn in Er. apply Ok_inj in Er. subst r. rewrite app_nil_r. cbn [fmap list_fmap app].
    destruct Hrest as [->|[r ->]]; [by rewrite app_nil_r, split_on_nodelim|]. rewrite split_on_app by done.
    change (split_on slash (slash :: r)) with ([] :: split_on slash r). done.
  - destruct (IH false r ltac:(done) Er) as (v & -> & Hv). cbn [app]. rewrite <- app_assoc. cbn [app].
    rewrite split_on_app by done. cbn [fmap list_fmap app]. f_equal. apply Hv. done.
Qed.

Lemma url_path_segments p u : path_ok p -> url_path p = Ok u -> segments u = percent_encode <$> p.
Proof.
  intros [Hne Hp]. unfold url_path. destruct (url_components p p true) as [w|] eqn:E; [|done].
  intros Hu. apply Ok_inj in Hu. subst u. destruct (url_components_spec _ _ _ _ Hp Hne E) as (v & -> & Hv).
  unfold segments. cbn [tail app]. specialize (Hv [] (or_introl eq_refl)). rewrite app_nil_r in Hv.
  rewrite Hv. cbn. by rewrite app_nil_r.
Qed.

Lemma directory_url_segments p u :
  Forall name_ok p -> directory_url p = Ok u -> segments u = (percent_encode <$> p) ++ [[]].
Proof.
  intros Hp. unfold directory_url, url_path. destruct p as [|x p]; [by intros [= <-]|].
  destruct (url_components (x :: p) (x :: p) true) as [w|] eqn:E; [|done].
  destruct (url_components_spec _ _ _ _ Hp ltac:(done) E) as (v & -> & Hv).
  assert (v <> []) as Hvne.
  { intros ->. specialize (Hv [] (or_introl eq_refl)). apply (f_equal head) in Hv.
    cbn [split_on app fmap list_fmap head] in Hv.
    apply Forall_cons_iff in Hp as [[Hx _] _]. apply (percent_encode_nonempty x Hx). congruence. }
  destruct (bytes_eqb _ [slash]) eqn:Eb.
  - apply bytes_eqb_eq in Eb. cbn in Eb. by injection Eb as ->.
  - intros Hu. apply Ok_inj in Hu. subst u. unfold segments. cbn [tail app].
    rewrite (Hv [slash]) by (right; by exists []). done.
Qed.

Lemma file_url_not_directory p q : Forall name_ok p -> percent_encode <$> p <> (percent_encode <$> q) ++ [[]].
Proof.
  intros Hp Heq. apply (f_equal list.last) in Heq. rewrite last_snoc, fmap_last in Heq.
  destruct (list.last p) as [x|] eqn:E; rewrite ?E in Heq; [|done]. injection Heq as Heq.
  apply last_Some_elem_of in E. rewrite Forall_forall in Hp. destruct (Hp x) as [Hx _].
  - by apply list_elem_of_In.
  - by apply (percent_encode_nonempty x).
Qed.

Lemma path_snoc (p : path) x : list.last p = Some x -> p = removelast p ++ [x].
Proof.
  intros Hl. destruct p as [|y p _] using rev_ind; [done|]. rewrite last_snoc in Hl. injection Hl as ->.
  by rewrite removelast_last.
Qed.

Lemma removelast_names p : Forall name_ok p -> Forall name_ok (removelast p).
Proof.
  intros Hp. destruct p as [|y p _] using rev_ind; [done|]. rewrite removelast_last. by apply Forall_app in Hp as [? _].
Qed.

(** ** The loading loop *)

Section loading.
Context `{SiteFormat} (c : fallback_config).

Lemma add_file_served m t p f m' t' :
  path_ok p -> add_file c m t (p, f) = Ok (m', t') -> served c m' (p, f).
Proof.
  intros Hp. unfold add_file. destruct (max_file_bytes c <? f_len f); [done|].
  destruct (u64_max <? _); [done|]. destruct (max_total_bytes c <? _); [done|].
  destruct (f_body f) as [body|] eqn:Eb; [|done]. cbn. destruct (url_path p) as [url|] eqn:Eu; [|done]. cbn.
  assert (forall m, m !! url = Some (file_asset url body (f_modified f)) ->
    (is_index c p = true -> exists alias, directory_url (removelast p) = Ok alias /\
      m !! alias = Some (file_asset url body (f_modified f))) -> served c m (p, f)) as Hserved.
  { intros m0 H1 H2. by exists url, body. }
  destruct (list.last p) as [x|] eqn:El.
  - assert (is_index c p = bytes_eqb x (index c)) as Hi by (unfold is_index; by rewrite El). rewrite <- Hi.
    destruct (is_index c p) eqn:Ei.
    + destruct (url_path (removelast p)) as [alias0|] eqn:Ea; [|done]. cbn. intros [= <- <-].
      assert (directory_url (removelast p) = Ok (if bytes_eqb alias0 [slash] then alias0 else alias0 ++ [slash])) as Hd
        by (unfold directory_url; by rewrite Ea).
      apply Hserved.
      * rewrite lookup_insert_ne; [apply lookup_insert_eq|]. intros Heq. apply (f_equal segments) in Heq.
        rewrite (directory_url_segments _ _ (removelast_names _ (proj2 Hp)) Hd), (url_path_segments p) in Heq by done.
        symmetry in Heq. by apply file_url_not_directory in Heq; [|apply Hp].
      * intros _. eexists. split; [exact Hd|]. apply lookup_insert_eq.
    + intros [= <- <-]. apply Hserved; [apply lookup_insert_eq|congruence].
  - intros [= <- <-]. apply Hserved; [apply lookup_insert_eq|]. unfold is_index. by rewrite El.
Qed.

(** The keys [add_file] writes. *)
Definition writes (p : path) (k : bytes) : Prop :=
  url_path p = Ok k \/ (is_index c p = true /\ directory_url (removelast p) = Ok k).

Lemma add_file_frame m t p f m' t' k :
  add_file c m t (p, f) = Ok (m', t') -> ~ writes p k -> m' !! k = m !! k.
Proof.
  unfold add_file. destruct (max_file_bytes c <? f_len f); [done|].
  destruct (u64_max <? _); [done|]. destruct (max_total_bytes c <? _); [done|].
  destruct (f_body f) as [body|]; [|done]. cbn. destruct (url_path p) as [url|] eqn:Eu; [|done]. cbn.
  intros Hm Hw. assert (url <> k) as Hk by (intros ->; apply Hw; by left).
  destruct (list.last p) as [x|] eqn:El; [|injection Hm as <- <-; by apply lookup_insert_ne].
  destruct (bytes_eqb x (index c)) eqn:Ex; [|injection Hm as <- <-; by apply lookup_insert_ne].
  destruct (url_path (removelast p)) as [alias0|] eqn:Ea; [|done]. cbn in Hm. injection Hm as <- <-.
  rewrite lookup_insert_ne; [by apply lookup_insert_ne|]. intros Heq. apply Hw. right.
  unfold is_index, directory_url. rewrite El, Ex, Ea. split; [done|]. by f_equal.
Qed.

Lemma writes_disjoint p q k : path_ok p -> path_ok q -> p <> q -> writes p k -> writes q k -> False.
Proof.
  intros [Hp Hp'] [Hq Hq'] Hne Hw1 Hw2.
  assert (forall r k, path_ok r -> writes r k -> segments k = percent_encode <$> r \/
    segments k = (percent_encode <$> removelast r) ++ [[]] /\ list.last r = Some (index c)) as Hseg.
  { clear. intros r k [Hr Hr'] [Hu|[Hi Hd]]; [left; by apply url_path_segments|right]. split.
    - apply directory_url_segments; [by apply removelast_names|done].
    - unfold is_index in Hi. destruct (list.last r); [|done]. apply bytes_eqb_eq in Hi. congruence. }
  destruct (Hseg p k) as [H1|[H1 L1]], (Hseg q k) as [H2|[H2 L2]]; try done; rewrite H1 in H2.
  - by apply Hne, percent_encode_inj.
  - by apply file_url_not_directory in H2.
  - symmetry in H2. by apply file_url_not_directory in H2.
  - apply app_inv_tail in H2. apply percent_encode_inj in H2; [|by apply removelast_names..].
    apply Hne. by rewrite (path_snoc p _ L1), (path_snoc q _ L2), H2.
Qed.

Lemma served_frame m m' pf :
  (forall k, writes pf.1 k -> m' !! k = m !! k) -> served c m pf -> served c m' pf.
Proof.
  intros Hf (url & body & Hu & Hb & Hm & Hi). exists url, body. split; [done|]. split; [done|]. split.
  - rewrite Hf by (by left). done.
  - intros Hix. destruct (Hi Hix) as (alias & Hd & Ha). exists alias. split; [done|].
    rewrite Hf by (by right). done.
Qed.

Lemma add_files_served l m t m' t' pf :
  NoDup l.*1 -> Forall path_ok l.*1 -> path_ok pf.1 ->
  add_files c m t l = Ok (m', t') -> pf ∈ l \/ (served c m pf /\ pf.1 ∉ l.*1) -> served c m' pf.
Proof.
  revert m t. induction l as [|[q g] l IH]; intros m t Hnd Hok Hpf; cbn [add_files].
  - intros [= <- <-] [Hin|[Hs _]]; [by apply not_elem_of_nil in Hin|done].
  - destruct (add_file c m t (q, g)) as [[m1 t1]|] eqn:Ea; [|done]. cbn. intros Hl.
    cbn [fmap list_fmap fst] in *. apply list.NoDup_cons in Hnd as [Hq Hnd]. apply Forall_cons_iff in Hok as [Hokq Hok].
    intros Hc. apply (IH m1 t1 Hnd Hok Hpf Hl). destruct Hc as [Hin|[Hs Hni]].
    + apply elem_of_cons in Hin as [->|Hin]; [right|by left]. split; [by eapply add_file_served|done].
    + right. apply not_elem_of_cons in Hni as [Hne Hni]. split; [|done]. eapply served_frame; [|exact Hs].
      intros k Hk. eapply add_file_frame; [exact Ea|]. intros Hk'. by eapply (writes_disjoint pf.1 q).
Qed.

Lemma add_files_limits l m t m' t' :
  0 <= t -> Forall (fun pf => 0 <= f_len pf.2) l -> t <= max_total_bytes c ->
  add_files c m t l = Ok (m', t') ->
  t' = t + list_sum (fun pf => f_len pf.2) l /\ t' <= max_total_bytes c /\
  Forall (fun pf => f_len pf.2 <= max_file_bytes c) l.
Proof.
  intros Ht Hl. revert m t Ht. induction Hl as [|[p f] l Hf _ IH]; intros m t Ht Htm; cbn [add_files].
  - intros [= <- <-]. split; [cbn; lia|]. split; [done|constructor].
  - destruct (add_file c m t (p, f)) as [[m1 t1]|] eqn:Ea; [|done]. cbn. intros Hm.
    assert (t1 = t + f_len f /\ t1 <= max_total_bytes c /\ f_len f <= max_file_bytes c) as (-> & Hle & Hfl).
    { unfold add_file in Ea. destruct (max_file_bytes c <? f_len f) eqn:E1; [done|].
      destruct (u64_max <? _); [done|]. destruct (max_total_bytes c <? _) eqn:E2; [done|]. split_bool.
      destruct (f_body f); [|done]. cbn in Ea. destruct (url_path p); [|done]. cbn in Ea.
      destruct (list.last p); [destruct (bytes_eqb _ _); [destruct (url_path _); [|done]|]|]; injection Ea as <- <-; lia. }
    destruct (IH m1 (t + f_len f) ltac:(cbn in Hf; lia) Hle Hm) as (-> & Hle' & Hall). split; [unfold list_sum; cbn [foldr snd]; rewrite Z.add_assoc; reflexivity|]. split; [done|]. by constructor.
Qed.
End loading.

(** ** Collecting and sorting *)

Lemma insert_file_perm x l : insert_file x l ≡ₚ x :: l.
Proof. induction l as [|y l IH]; cbn; [done|]. destruct (path_leb _ _); [done|]. rewrite IH. apply Permutation_swap. Qed.

Lemma sort_files_perm l : sort_files l ≡ₚ l.
Proof. induction l as [|x l IH]; cbn; [done|]. by rewrite insert_file_perm, IH. Qed.

(** The files below an entry at [p] have distinct paths that extend [p]. *)
Definition below (p : path) (n : node) (files : list (path * file)) : Prop :=
  NoDup files.*1 /\
  Forall (fun x => exists q, x = p ++ q /\ Forall name_ok q /\ (q = [] -> exists f, n = NFile f)) files.*1.

Lemma collect_below : forall n p files, node_wf n -> collect_node p n = Ok files -> below p n files.
Proof.
  fix IH 1. intros [f|[es|]| | |] p files Hwf Hc; try done.
  - apply Ok_inj in Hc. subst. split; [apply NoDup_singleton|]. constructor; [|constructor].
    exists []. rewrite app_nil_r. split; [done|]. split; [constructor|]. eauto.
  - destruct Hwf as (Hnd & Hok & Hall). cbn in Hc.
    assert (NoDup files.*1 /\ Forall (fun x => exists y q, y ∈ es.*1 /\ x = p ++ y :: q /\ Forall name_ok q) files.*1)
      as [Hfd Hfp].
    { revert files Hc Hnd Hok Hall. induction es as [|[y m] es IHes]; intros files Hc Hnd Hok Hall.
      - apply Ok_inj in Hc. subst. split; constructor.
      - destruct (collect_node (p ++ [y]) m) as [fs|] eqn:Em; [|done].
        match type of Hc with match ?g with _ => _ end = _ => destruct g as [gs|] eqn:Eg; [|done] end.
        apply Ok_inj in Hc. subst files. cbn [fmap list_fmap fst] in Hnd, Hok.
        apply list.NoDup_cons in Hnd as [Hy Hnd]. apply Forall_cons_iff in Hok as [Hoky Hok].
        destruct Hall as [Hm Hall]. destruct (IHes gs eq_refl Hnd Hok Hall) as [Hgd Hgp].
        destruct (IH m (p ++ [y]) fs Hm Em) as [Hfd Hfp]. rewrite fmap_app. split.
        + apply list.NoDup_app. split; [done|]. split; [|done]. intros x Hx Hx'.
          rewrite Forall_forall in Hfp, Hgp. apply list_elem_of_In in Hx, Hx'.
          destruct (Hfp x Hx) as (q & -> & _). destruct (Hgp _ Hx') as (y' & q' & Hy' & Heq & _).
          rewrite <- app_assoc in Heq. apply app_inv_head in Heq. injection Heq as -> _. done.
        + apply Forall_app. split.
          * eapply Forall_impl; [|exact Hfp]. intros x (q & -> & Hq & _). exists y, q.
            split; [apply elem_of_cons; by left|]. by rewrite <- app_assoc.
          * eapply Forall_impl; [|exact Hgp]. intros x (y' & q & Hy' & -> & Hq). exists y', q.
            split; [apply elem_of_cons; by right|done]. }
    split; [done|]. eapply Forall_impl; [|exact Hfp]. intros x (y & q & Hy & -> & Hq). exists (y :: q).
    split; [done|]. split; [|done]. constructor; [|done]. rewrite Forall_forall in Hok. by apply Hok, list_elem_of_In.
  - apply Ok_inj in Hc. subst. split; constructor.
Qed.

Lemma collect_no_symlink : forall n p files, collect_node p n = Ok files -> has_symlink n = false.
Proof.
  fix IH 1. intros [f|[es|]| | |] p files Hc; try done. cbn in Hc |- *. revert files Hc.
  induction es as [|[y m] es IHes]; intros files Hc; [done|].
  destruct (collect_node (p ++ [y]) m) as [fs|] eqn:Em; [|done].
  match type of Hc with match ?g with _ => _ end = _ => destruct g as [gs|] eqn:Eg; [|done] end.
  rewrite (IH m _ _ Em). exact (IHes gs eq_refl).
Qed.

(** What a successful load did. *)
Lemma from_directory_inv `{SiteFormat} c s :
  from_directory c = Ok s ->
  exists es files t, dist c = Some (Some (NDir es)) /\ collect_node [] (NDir es) = Ok files /\
    add_files c ∅ 0 (sort_files files) = Ok (assets s, t) /\ is_Some (assets s !! [slash]).
Proof.
  unfold from_directory. destruct (dist c) as [[[f|es| | |]|]|]; try done. destruct (collect_node [] (NDir es)) as [files|] eqn:Ec; [|done].
  cbn [mbind result_bind]. destruct files as [|x files]; [done|].
  destruct (add_files c ∅ 0 _) as [[m t]|] eqn:Ea; [|done]. cbn. destruct (m !! [slash]) as [a|] eqn:Es; [|done].
  destruct (match not_found_path c with Some _ => _ | None => _ end); [|done]. cbn. intros Hs.
  apply Ok_inj in Hs. subst s. exists es, (x :: files), t. cbn. rewrite Es. eauto.
Qed.

(** * Theorems *)

(** C40: a loaded directory is served as it is.  Every file the directory holds is
    answered with status 200 and its own bytes at its percent-encoded URL, an
    index file also at the URL of its directory, to GET and HEAD; no file hides
    another one; and the root is always answered. *)
Theorem directory_served `{SiteFormat} c s es files m :
  from_directory c = Ok s -> dist c = Some (Some (NDir (Some es))) -> node_wf (NDir (Some es)) ->
  collect_node [] (NDir (Some es)) = Ok files -> (m = GET \/ m = HEAD) ->
  sr_status (resolve s m [slash]) = status_ok /\
  Forall (fun pf => exists url body, url_path pf.1 = Ok url /\ f_body pf.2 = Some body /\
    resolve s m url = reply (file_asset url body (f_modified pf.2)) status_ok /\
    (is_index c pf.1 = true -> exists alias, directory_url (removelast pf.1) = Ok alias /\
      resolve s m alias = reply (file_asset url body (f_modified pf.2)) status_ok)) files.
Proof.
  intros Hs Hd Hwf Hc Hm. destruct (from_directory_inv _ _ Hs) as (es' & files' & t & Hd' & Hc' & Ha & Hroot).
  rewrite Hd in Hd'. injection Hd' as <-. rewrite Hc in Hc'. apply Ok_inj in Hc'. subst files'.
  assert (forall k a, assets s !! k = Some a -> resolve s m k = reply a status_ok) as Hres.
  { intros k a Hk. unfold resolve. rewrite Hk. destruct Hm as [-> | ->]; done. }
  split; [destruct Hroot as [a Hr]; by rewrite (Hres _ _ Hr)|].
  destruct (collect_below _ _ _ Hwf Hc) as [Hnd Hp].
  assert (Forall path_ok (sort_files files).*1) as Hok.
  { rewrite sort_files_perm. eapply Forall_impl; [|exact Hp]. intros x (q & -> & Hq & Hne). split; [|done].
    cbn. intros Hq0. by destruct (Hne Hq0). }
  apply Forall_forall. intros [p f] Hin. apply list_elem_of_In in Hin.
  assert ((p, f) ∈ sort_files files) as Hin' by (by rewrite sort_files_perm).
  assert (served c (assets s) (p, f)) as (url & body & Hu & Hb & Hl & Hi).
  { eapply add_files_served; [|exact Hok| |exact Ha|by left].
    - by rewrite sort_files_perm.
    - rewrite Forall_forall in Hok. apply Hok. apply list_elem_of_In. apply list_elem_of_fmap. by exists (p, f). }
  exists url, body. split; [done|]. split; [done|]. split; [by apply Hres|].
  intros Hix. destruct (Hi Hix) as (alias & Ha1 & Ha2). exists alias. split; [done|]. by apply Hres.
Qed.

(** The limits of a loaded directory.  A directory that loads holds no symbolic
    link anywhere, no file above the file limit, and not more in total than the
    site limit. *)
Theorem directory_limits `{SiteFormat} c s es files :
  from_directory c = Ok s -> dist c = Some (Some (NDir es)) -> collect_node [] (NDir es) = Ok files ->
  Forall (fun pf => 0 <= f_len pf.2) files -> 0 <= max_total_bytes c ->
  has_symlink (NDir es) = false /\ Forall (fun pf => f_len pf.2 <= max_file_bytes c) files /\
  list_sum (fun pf => f_len pf.2) files <= max_total_bytes c.
Proof.
  intros Hs Hd Hc Hl Hmax. destruct (from_directory_inv _ _ Hs) as (es' & files' & t & Hd' & Hc' & Ha & _).
  rewrite Hd in Hd'. injection Hd' as <-. rewrite Hc in Hc'. apply Ok_inj in Hc'. subst files'.
  split; [by eapply collect_no_symlink|].
  assert (Forall (fun pf : path * file => 0 <= f_len pf.2) (sort_files files)) as Hl' by (by rewrite sort_files_perm).
  destruct (add_files_limits c _ _ _ _ _ (Z.le_refl 0) Hl' Hmax Ha) as (-> & Hle & Hall).
  rewrite sort_files_perm in Hall. split; [done|]. by rewrite (list_sum_perm _ _ _ (sort_files_perm files)) in Hle.
Qed.

(** * Witnesses *)

#[local] Instance toy_format : SiteFormat := { body_digest_hex := fun _ => []; fmt_http_date := decimal }.

Definition toy_tree : list (name * node) :=
  [(bytes_of_string "a b.txt", NFile (mk_file 2 7 (Some [1; 2])));
   (bytes_of_string "docs", NDir (Some [(bytes_of_string "index.html", NFile (mk_file 1 9 (Some [3])))]));
   (bytes_of_string "index.html", NFile (mk_file 3 8 (Some [4; 5; 6])))].

Definition toy_config : fallback_config :=
  mk_fallback_config (Some (Some (NDir (Some toy_tree)))) (bytes_of_string "index.html") None 3 6.

Definition toy_files : list (path * file) :=
  match collect_node [] (NDir (Some toy_tree)) with Ok l => l | Err _ => [] end.

Definition toy_page : asset := mk_asset [] [] [] [] [].
Definition toy_site : static_site :=
  match from_directory toy_config with Ok s => s | Err _ => mk_static_site ∅ toy_page toy_page end.

Lemma toy_tree_wf : node_wf (NDir (Some toy_tree)).
Proof.
  cbn. split; [|split; [|split; [done|]]].
  - apply (bool_decide_unpack _). vm_compute. done.
  - repeat (apply Forall_cons_2 || apply Forall_nil_2); (split; [done|]; by apply bytes_okb_ok).
  - split; [|done]. split; [apply NoDup_singleton|]. split; [|done].
    repeat (apply Forall_cons_2 || apply Forall_nil_2); (split; [done|]; by apply bytes_okb_ok).
Qed.

Lemma directory_served_witness :
  sr_status (resolve toy_site GET (bytes_of_string "/a%20b.txt")) = status_ok /\
  sr_status (resolve toy_site GET (bytes_of_string "/docs/")) = status_ok /\
  sr_status (resolve toy_site GET [slash]) = status_ok /\
  Forall (fun pf => exists url body, url_path pf.1 = Ok url /\ f_body pf.2 = Some body /\
    resolve toy_site GET url = reply (file_asset url body (f_modified pf.2)) status_ok /\
    (is_index toy_config pf.1 = true -> exists alias, directory_url (removelast pf.1) = Ok alias /\
      resolve toy_site GET alias = reply (file_asset url body (f_modified pf.2)) status_ok)) toy_files.
Proof.
  split; [vm_compute; reflexivity|]. split; [vm_compute; reflexivity|].
  apply (directory_served toy_config toy_site toy_tree);
    [vm_compute; reflexivity|reflexivity|exact toy_tree_wf|reflexivity|by left].
Defined.

Lemma directory_limits_witness :
  has_symlink (NDir (Some toy_tree)) = false /\ Forall (fun pf => f_len pf.2 <= max_file_bytes toy_config) toy_files /\
  list_sum (fun pf => f_len pf.2) toy_files <= max_total_bytes toy_config.
Proof.
  apply (directory_limits toy_config toy_site (Some toy_tree));
    [vm_compute; reflexivity|reflexivity|reflexivity| |by vm_compute].
  repeat (apply Forall_cons_2 || apply Forall_nil_2); cbn; lia.
Defined.
