(* ===== verification/Config.v ===== *)
(** [src/config.rs]: the configuration, from the deserialised JSON to the checked
    values the server runs with.

    The JSON text is read by serde: the model starts from the records it fills
    in, with the defaults of the source.  Error messages are reasons. *)

From S2P Require Import Prelude.

(** * Errors *)

Inductive reason : Type :=
| InboundCount | Protocol | Network | ZeroPort | SharedAcmePort | NoClients | BadFlow
| TlsSettingsWithoutTls | TlsWithoutSettings | BadAlpn | CertificateChoice | BadSecurity
| AcmeTerms | AcmeNoDomains | AcmePort | AcmeDomain | AcmeEmail | AcmeDirectory | AcmeRenewBefore | AcmeRenewCheck
| PaddingSyntax | PaddingOrder | UploadLimits | UplinkKey
| Backlog | Graceful | ServerLimits
| FallbackIndex | FallbackLimits | DistWithBuiltin | DirectoryWithoutDist.

Inductive config_error : Type := Invalid (r : reason).

Definition check (c : bool) (r : reason) : result config_error unit := if c then Err (Invalid r) else Ok tt.

(** * The deserialised configuration *)

Record socket_addr := mk_socket_addr { sa_ip : bytes; sa_port : Z }.

Record acme_config := mk_acme_config {
  domains : list bytes; email : bytes; directory_url : bytes; ca_certificate_file : option bytes;
  challenge_listen : socket_addr; cache_dir : bytes; renew_before_days : Z; renew_check_hours : Z;
  accept_terms : bool }.

(** The defaults of the optional fields. *)
Definition default_acme_directory : bytes := bytes_of_string "https://acme-v02.api.letsencrypt.org/directory".
Definition default_acme_challenge_listen : socket_addr := mk_socket_addr [0; 0; 0; 0] 80.
Definition default_acme_cache_dir : bytes := bytes_of_string "/var/lib/rust-xhttp/acme".
Definition default_renew_before_days : Z := 30.
Definition default_renew_check_hours : Z := 12.

Definition acme_default (ds : list bytes) (mail : bytes) : acme_config :=
  mk_acme_config ds mail default_acme_directory None default_acme_challenge_listen default_acme_cache_dir
    default_renew_before_days default_renew_check_hours false.

Inductive placement : Type := Body | Header | Cookie | Auto.

#[global] Instance placement_eq_dec : EqDecision placement.
Proof. solve_decision. Defined.

Record xhttp_settings := mk_xhttp_settings {
  xs_path : bytes; xs_host : bytes; sc_max_each_post_bytes : Z; sc_max_buffered_posts : Z;
  session_grace_seconds : Z; no_sse_header : bool; server_max_header_bytes : Z; x_padding_bytes : bytes;
  xs_placement : placement; xs_key : bytes }.

(** Only the path is required. *)
Definition xhttp_settings_default (p : bytes) : xhttp_settings :=
  mk_xhttp_settings p [] 1000000 30 30 false 8192 (bytes_of_string "100-1000") Body [].

Record user_config := mk_user_config { uc_id : bytes; uc_email : bytes; uc_flow : bytes }.

Record limits := mk_limits {
  max_sessions : Z; max_pending_packets_per_session : Z; max_pending_bytes_per_session : Z;
  global_buffer_bytes : Z; max_concurrent_target_conns : Z; handshake_timeout_seconds : Z;
  target_connect_seconds : Z; udp_association_idle_seconds : Z }.

Definition limits_default : limits :=
  mk_limits 65536 30 (16 * 1024 * 1024) (1024 * 1024 * 1024) 100000 10 10 60.

Record server_config := mk_server_config {
  workers : Z; tcp_nodelay : bool; reuse_port : bool; backlog : Z; tcp_keepalive_seconds : Z;
  graceful_shutdown_seconds : Z; server_limits : limits }.

Definition server_default : server_config := mk_server_config 0 true true 4096 300 30 limits_default.

Inductive fallback_mode : Type := Builtin | Directory.

Record site_config := mk_site_config {
  seed : bytes; title : bytes; author : bytes; description : bytes; language : bytes }.

Record fallback_config := mk_fallback_config {
  fb_mode : fallback_mode; fb_dist : option bytes; fb_index : bytes; fb_not_found : option bytes;
  fb_max_file_bytes : Z; fb_max_total_bytes : Z; fb_site : site_config }.

Definition fallback_default : fallback_config :=
  mk_fallback_config Builtin None (bytes_of_string "index.html") None (8 * 1024 * 1024) (128 * 1024 * 1024)
    (mk_site_config [] [] [] [] []).

Record tls_certificate := mk_tls_certificate { certificate_file : bytes; key_file : bytes }.

Record tls_settings := mk_tls_settings {
  ts_alpn : list bytes; certificates : list tls_certificate; ts_acme : option acme_config }.

Definition default_alpn : list bytes := [bytes_of_string "h2"; bytes_of_string "http/1.1"].

Record stream_settings := mk_stream_settings {
  network : bytes; security : bytes; ss_tls : option tls_settings; ss_xhttp : xhttp_settings }.

Record inbound_config := mk_inbound_config {
  tag : bytes; listen_ip : bytes; port : Z; protocol : bytes; clients : list user_config; decryption : bytes;
  stream : stream_settings }.

Record json_config := mk_json_config {
  loglevel : bytes; inbounds : list inbound_config; server : server_config; fallback : fallback_config }.

(** * The checked configuration *)

Record listen_config := mk_listen_config {
  addr : socket_addr; lc_workers : Z; lc_tcp_nodelay : bool; lc_reuse_port : bool; lc_backlog : Z;
  tcp_keepalive_secs : Z; graceful_shutdown_secs : Z }.

(** [available] is the parallelism the system reports, if it does. *)
Definition worker_threads (l : listen_config) (available : option Z) : Z :=
  if negb (lc_workers l =? 0) then lc_workers l else default 1 available.

Definition tcp_keepalive (l : listen_config) : option Z :=
  if negb (tcp_keepalive_secs l =? 0) then Some (tcp_keepalive_secs l) else None.

Record tls_config := mk_tls_config { cert : bytes; key : bytes; alpn : list bytes; acme : option acme_config }.

Record xhttp_config := mk_xhttp_config {
  x_path : bytes; x_host : bytes; max_each_post_bytes : Z; max_buffered_posts : Z; session_grace_secs : Z;
  sse_header : bool; max_header_bytes : Z; padding_from : Z; padding_to : Z;
  uplink_data_placement : placement; uplink_data_key : bytes }.

Record config := mk_config {
  listen : listen_config; tls : option tls_config; xhttp : xhttp_config; users : list user_config;
  vless_decryption : bytes; cfg_limits : limits; log : bytes; cfg_fallback : fallback_config }.

(** * Checks *)

Definition text (s : string) : bytes := bytes_of_string s.

Definition bad_domain (d : bytes) : bool :=
  match d with [] => true | _ => false end || negb (is_ascii d) || starts_with (text "*.") d
  || existsb (fun c => contains c d) [47; 58; 32; 9; 10] || negb (contains 46 d).

(** The loop over the domains stops at the first bad one. *)
Definition validate_acme (a : acme_config) : result config_error unit :=
  _ ← check (negb (accept_terms a)) AcmeTerms;
  _ ← check (match domains a with [] => true | _ => false end) AcmeNoDomains;
  _ ← check (sa_port (challenge_listen a) =? 0) AcmePort;
  _ ← check (existsb bad_domain (domains a)) AcmeDomain;
  _ ← check (negb (contains 64 (email a))) AcmeEmail;
  _ ← check (negb (starts_with (text "https://") (directory_url a))) AcmeDirectory;
  _ ← check ((renew_before_days a =? 0) || (90 <=? renew_before_days a)) AcmeRenewBefore;
  check (renew_check_hours a =? 0) AcmeRenewCheck.

(** [PathBuf::join] with a relative path. *)
Definition join (base rel : bytes) : bytes :=
  match base with
  | [] => rel
  | _ => if ends_with [47] base then base ++ rel else base ++ 47 :: rel
  end.

Definition bad_alpn (l : list bytes) : bool :=
  match l with [] => true | _ => false end
  || existsb (fun v => negb (bytes_eqb v (text "h2")) && negb (bytes_eqb v (text "http/1.1"))) l.

Definition parse_tls (s : stream_settings) : result config_error (option tls_config) :=
  let sec := to_ascii_lowercase (security s) in
  if bytes_eqb sec [] || bytes_eqb sec (text "none") then
    match ss_tls s with Some _ => Err (Invalid TlsSettingsWithoutTls) | None => Ok None end
  else if bytes_eqb sec (text "tls") then
    settings ← ok_or (ss_tls s) (Invalid TlsWithoutSettings);
    _ ← check (bad_alpn (ts_alpn settings)) BadAlpn;
    match certificates settings, ts_acme settings with
    | [manual], None => Ok (Some (mk_tls_config (certificate_file manual) (key_file manual) (ts_alpn settings) None))
    | [], Some a =>
        _ ← validate_acme a;
        mret (Some (mk_tls_config (join (cache_dir a) (text "current/certificate.pem"))
                 (join (cache_dir a) (text "current/private-key.pem")) (ts_alpn settings) (Some a)))
    | _, _ => Err (Invalid CertificateChoice)
    end
  else Err (Invalid BadSecurity).

Definition parse_range (value : bytes) : result config_error (Z * Z) :=
  let '(from, to) := default (value, value) (split_once 45 value) in
  from ← ok_or (parse_uint u32_max (trim from)) (Invalid PaddingSyntax);
  to ← ok_or (parse_uint u32_max (trim to)) (Invalid PaddingSyntax);
  if (from =? 0) || (to <? from) then Err (Invalid PaddingOrder) else Ok (from, to).

Definition parse_xhttp (raw : xhttp_settings) : result config_error xhttp_config :=
  '(from, to) ← parse_range (x_padding_bytes raw);
  mret (mk_xhttp_config (xs_path raw) (xs_host raw) (sc_max_each_post_bytes raw) (sc_max_buffered_posts raw)
    (session_grace_seconds raw) (negb (no_sse_header raw)) (server_max_header_bytes raw) from to
    (xs_placement raw) (xs_key raw)).

Definition set_path (x : xhttp_config) (p : bytes) : xhttp_config :=
  mk_xhttp_config p (x_host x) (max_each_post_bytes x) (max_buffered_posts x) (session_grace_secs x)
    (sse_header x) (max_header_bytes x) (padding_from x) (padding_to x) (uplink_data_placement x) (uplink_data_key x).

Definition normalize_path (p : bytes) : bytes :=
  let p := if match p with [] => true | _ => false end || negb (starts_with [47] p) then 47 :: p else p in
  if negb (ends_with [47] p) then p ++ [47] else p.

Definition normalize_xhttp (x : xhttp_config) : result config_error xhttp_config :=
  let x := set_path x (normalize_path (x_path x)) in
  _ ← check ((max_each_post_bytes x =? 0) || (max_buffered_posts x =? 0)) UploadLimits;
  _ ← check (negb (bool_decide (uplink_data_placement x = Body))
             && match uplink_data_key x with [] => true | _ => false end) UplinkKey;
  mret x.

Definition validate_server (s : server_config) : result config_error unit :=
  let l := server_limits s in
  _ ← check (backlog s <? 1) Backlog;
  _ ← check ((graceful_shutdown_seconds s =? 0) || (300 <? graceful_shutdown_seconds s)) Graceful;
  check ((handshake_timeout_seconds l =? 0) || (target_connect_seconds l =? 0) || (max_sessions l =? 0)
         || (max_concurrent_target_conns l =? 0) || (global_buffer_bytes l =? 0)) ServerLimits.

Definition bad_index (i : bytes) : bool :=
  match i with [] => true | _ => false end || contains 47 i || contains 92 i || bytes_eqb i [46] || bytes_eqb i [46; 46].

Definition set_seed (f : fallback_config) (s : bytes) : fallback_config :=
  mk_fallback_config (fb_mode f) (fb_dist f) (fb_index f) (fb_not_found f) (fb_max_file_bytes f) (fb_max_total_bytes f)
    (mk_site_config s (title (fb_site f)) (author (fb_site f)) (description (fb_site f)) (language (fb_site f))).

Definition validate_fallback (f : fallback_config) (x : xhttp_config) : result config_error fallback_config :=
  _ ← check (bad_index (fb_index f)) FallbackIndex;
  _ ← check ((fb_max_file_bytes f =? 0) || (fb_max_total_bytes f <? fb_max_file_bytes f)) FallbackLimits;
  _ ← match fb_mode f, fb_dist f with
      | Builtin, Some _ => Err (Invalid DistWithBuiltin)
      | Directory, None => Err (Invalid DirectoryWithoutDist)
      | _, _ => Ok tt
      end;
  mret (match seed (fb_site f) with
        | [] => set_seed f (match x_host x with [] => x_path x | _ => x_host x end)
        | _ => f
        end).

Definition bad_flow (u : user_config) : bool :=
  match uc_flow u with [] => false | _ => true end && negb (bytes_eqb (uc_flow u) (text "xtls-rprx-vision")).

Definition shares_port (t : option tls_config) (p : Z) : bool :=
  match t with
  | Some t => match acme t with Some a => sa_port (challenge_listen a) =? p | None => false end
  | None => false
  end.

(** [Config::try_from]. *)
Definition try_from (raw : json_config) : result config_error config :=
  match inbounds raw with
  | [inbound] =>
      _ ← check (negb (eq_ignore_ascii_case (protocol inbound) (text "vless"))) Protocol;
      _ ← check (negb (eq_ignore_ascii_case (network (stream inbound)) (text "xhttp"))) Network;
      _ ← check (port inbound =? 0) ZeroPort;
      t ← parse_tls (stream inbound);
      _ ← check (shares_port t (port inbound)) SharedAcmePort;
      x0 ← parse_xhttp (ss_xhttp (stream inbound));
      _ ← check (match clients inbound with [] => true | _ => false end) NoClients;
      _ ← check (existsb bad_flow (clients inbound)) BadFlow;
      x ← normalize_xhttp x0;
      _ ← validate_server (server raw);
      f ← validate_fallback (fallback raw) x;
      mret (mk_config
        (mk_listen_config (mk_socket_addr (listen_ip inbound) (port inbound)) (workers (server raw))
           (tcp_nodelay (server raw)) (reuse_port (server raw)) (backlog (server raw))
           (tcp_keepalive_seconds (server raw)) (graceful_shutdown_seconds (server raw)))
        t x (clients inbound) (decryption inbound) (server_limits (server raw)) (loglevel raw) f)
  | _ => Err (Invalid InboundCount)
  end.

(** * What the rest of the server relies on *)

Definition acme_ok (a : acme_config) (p : Z) : Prop :=
  accept_terms a = true /\ domains a <> [] /\ Forall (fun d => bad_domain d = false) (domains a) /\
  sa_port (challenge_listen a) <> 0 /\ sa_port (challenge_listen a) <> p /\
  0 < renew_before_days a < 90 /\ renew_check_hours a <> 0.

Definition tls_ok (t : tls_config) (p : Z) : Prop :=
  alpn t <> [] /\ Forall (fun v => v = text "h2" \/ v = text "http/1.1") (alpn t) /\
  match acme t with
  | Some a => acme_ok a p /\ cert t = join (cache_dir a) (text "current/certificate.pem") /\ key t = join (cache_dir a) (text "current/private-key.pem")
  | None => True
  end.

Record config_ok (c : config) : Prop := {
  ok_port : sa_port (addr (listen c)) <> 0;
  ok_path : starts_with [47] (x_path (xhttp c)) = true /\ ends_with [47] (x_path (xhttp c)) = true;
  ok_normal : normalize_path (x_path (xhttp c)) = x_path (xhttp c);
  ok_padding : 0 < padding_from (xhttp c) <= padding_to (xhttp c) /\ padding_to (xhttp c) <= u32_max;
  ok_posts : max_each_post_bytes (xhttp c) <> 0 /\ max_buffered_posts (xhttp c) <> 0;
  ok_key : uplink_data_placement (xhttp c) <> Body -> uplink_data_key (xhttp c) <> [];
  ok_users : users c <> [];
  ok_flows : Forall (fun u => uc_flow u = [] \/ uc_flow u = text "xtls-rprx-vision") (users c);
  ok_tls : match tls c with Some t => tls_ok t (sa_port (addr (listen c))) | None => True end;
  ok_limits : max_sessions (cfg_limits c) <> 0 /\ global_buffer_bytes (cfg_limits c) <> 0 /\
              handshake_timeout_seconds (cfg_limits c) <> 0;
  ok_listen : 1 <= lc_backlog (listen c) /\ 0 < graceful_shutdown_secs (listen c) <= 300;
  ok_index : bad_index (fb_index (cfg_fallback c)) = false;
  ok_site : fb_max_file_bytes (cfg_fallback c) <> 0 /\
            fb_max_file_bytes (cfg_fallback c) <= fb_max_total_bytes (cfg_fallback c);
  ok_dist : fb_mode (cfg_fallback c) = Directory <-> is_Some (fb_dist (cfg_fallback c));
  ok_seed : seed (fb_site (cfg_fallback c)) <> [] }.

(** Unsigned fields of the deserialised configuration. *)
Definition raw_ok (raw : json_config) : Prop :=
  0 <= graceful_shutdown_seconds (server raw) /\
  Forall (fun i => match ss_tls (stream i) with
                   | Some t => match ts_acme t with Some a => 0 <= renew_before_days a | None => True end
                   | None => True
                   end) (inbounds raw).

(** * Lemmas *)

Lemma check_ok c r u : check c r = Ok u -> c = false.
Proof. by destruct c. Qed.

(** Runs a hypothesis [m = Ok v] backwards through the checks of [m]. *)
Ltac check_inv H :=
  repeat match type of H with
         | mbind _ (check ?c ?r) = Ok _ =>
             let E := fresh "E" in destruct (check c r) eqn:E; cbn [mbind result_bind] in H; [apply check_ok in E|done]
         | mbind _ ?m = Ok _ =>
             let E := fresh "E" in destruct m eqn:E; cbn [mbind result_bind] in H; [|done]
         | check _ _ = Ok _ => apply check_ok in H
         end.

Lemma ends_with_snoc p : ends_with [47] (p ++ [47]) = true.
Proof. unfold ends_with. by rewrite rev_app_distr. Qed.

Lemma normalize_path_spec p :
  starts_with [47] (normalize_path p) = true /\ ends_with [47] (normalize_path p) = true.
Proof.
  unfold normalize_path. cbv zeta. match goal with |- context [ends_with [47] ?x] => set (q := x) end.
  assert (starts_with [47] q = true) as Hq.
  { subst q. destruct p as [|b p]; [done|]. cbn [orb]. by destruct (starts_with [47] (b :: p)) eqn:E. }
  destruct (ends_with [47] q) eqn:E; [done|]. cbn [negb]. split; [|apply ends_with_snoc].
  clear E. unfold starts_with in *. clearbody q. destruct q as [|b q]; [done|].
  cbn [app strip_prefix] in *. by destruct (47 =? b).
Qed.

Lemma normalize_path_idem p : normalize_path (normalize_path p) = normalize_path p.
Proof.
  destruct (normalize_path_spec p) as [H1 H2]. set (q := normalize_path p) in *. unfold normalize_path.
  destruct q; [done|]. rewrite H1. cbn [orb negb]. by rewrite H2.
Qed.

Lemma parse_range_sound v a b : parse_range v = Ok (a, b) -> 0 < a <= b /\ b <= u32_max.
Proof.
  unfold parse_range. destruct (default _ _) as [f t].
  destruct (parse_uint u32_max (trim f)) as [x|] eqn:Ef; cbn; [|done].
  destruct (parse_uint u32_max (trim t)) as [y|] eqn:Et; cbn; [|done].
  apply parse_uint_range in Ef, Et; [|done..]. destruct ((x =? 0) || (y <? x)) eqn:E; [done|].
  intros [= <- <-]. apply orb_false_iff in E as [E1 E2]. split_bool. lia.
Qed.

Lemma validate_acme_ok a p :
  validate_acme a = Ok tt -> 0 <= renew_before_days a -> sa_port (challenge_listen a) <> p -> acme_ok a p.
Proof.
  intros H Hr Hp. unfold validate_acme in H. check_inv H. unfold acme_ok.
  apply negb_false_iff in E. apply orb_false_iff in E5 as [E5 E6]. split_bool.
  split; [done|]. split; [by destruct (domains a)|]. split; [|repeat split; done || lia].
  apply Forall_forall. intros d Hd. destruct (bad_domain d) eqn:Eb; [|done]. exfalso.
  assert (existsb bad_domain (domains a) = true) as Hx by (apply existsb_exists; eauto). congruence.
Qed.

Lemma parse_tls_ok s t p :
  parse_tls s = Ok (Some t) -> shares_port (Some t) p = false ->
  (forall ts a, ss_tls s = Some ts -> ts_acme ts = Some a -> 0 <= renew_before_days a) -> tls_ok t p.
Proof.
  unfold parse_tls. intros Ht Hp Hr. destruct (_ || _); [by destruct (ss_tls s)|]. destruct (bytes_eqb _ _); [|done].
  destruct (ss_tls s) as [ts|] eqn:Es; cbn [ok_or mbind result_bind] in Ht; [|done]. check_inv Ht.
  assert (ts_alpn ts <> [] /\ Forall (fun v => v = text "h2" \/ v = text "http/1.1") (ts_alpn ts)) as [Ha1 Ha2].
  { unfold bad_alpn in E. apply orb_false_iff in E as [E1 E2]. split; [by destruct (ts_alpn ts)|].
    apply Forall_forall. intros v Hv. destruct (bytes_eqb v (text "h2")) eqn:Eh; [left; by apply bytes_eqb_eq|].
    destruct (bytes_eqb v (text "http/1.1")) eqn:E3; [right; by apply bytes_eqb_eq|]. exfalso.
    assert (existsb (fun v => negb (bytes_eqb v (text "h2")) && negb (bytes_eqb v (text "http/1.1"))) (ts_alpn ts) = true)
      as Hx by (apply existsb_exists; exists v; by rewrite Eh, E3). congruence. }
  destruct (certificates ts) as [|m [|? ?]], (ts_acme ts) as [ac|] eqn:Ea; try done.
  - destruct (validate_acme ac) as [[]|] eqn:Ev; [|done]. cbn in Ht. apply Ok_inj in Ht. injection Ht as <-. split; [done|]. split; [done|]. cbn [acme cert key].
    split; [|done]. apply validate_acme_ok; [done|by eapply Hr|]. cbn in Hp. by apply Z.eqb_neq.
  - apply Ok_inj in Ht. by injection Ht as <-.
Qed.

Lemma normalize_xhttp_ok x x' :
  normalize_xhttp x = Ok x' ->
  x' = set_path x (normalize_path (x_path x)) /\ max_each_post_bytes x <> 0 /\ max_buffered_posts x <> 0 /\
  (uplink_data_placement x <> Body -> uplink_data_key x <> []).
Proof.
  unfold normalize_xhttp. cbv zeta. cbn [max_each_post_bytes max_buffered_posts uplink_data_placement uplink_data_key set_path].
  intros H. check_inv H. apply Ok_inj in H. subst x'. apply orb_false_iff in E as [E1 E2]. split_bool.
  split; [done|]. split; [done|]. split; [done|]. intros Hb Hk. by rewrite bool_decide_false, Hk in E0.
Qed.

Lemma validate_server_ok s :
  validate_server s = Ok tt -> 0 <= graceful_shutdown_seconds s ->
  1 <= backlog s /\ 0 < graceful_shutdown_seconds s <= 300 /\ max_sessions (server_limits s) <> 0 /\
  global_buffer_bytes (server_limits s) <> 0 /\ handshake_timeout_seconds (server_limits s) <> 0.
Proof.
  unfold validate_server. cbv zeta. intros H Hg. check_inv H.
  repeat match goal with H : _ || _ = false |- _ => apply orb_false_iff in H as [? ?] end. split_bool. lia.
Qed.

Lemma validate_fallback_ok f x f' :
  validate_fallback f x = Ok f' -> x_path x <> [] ->
  bad_index (fb_index f') = false /\ fb_max_file_bytes f' <> 0 /\ fb_max_file_bytes f' <= fb_max_total_bytes f' /\
  (fb_mode f' = Directory <-> is_Some (fb_dist f')) /\ seed (fb_site f') <> [].
Proof.
  unfold validate_fallback. intros H Hx. check_inv H. apply orb_false_iff in E0 as [E2 E3]. split_bool.
  assert (fb_mode f = Directory <-> is_Some (fb_dist f)) as Hd.
  { destruct (fb_mode f), (fb_dist f); try done; split; try done; intros [? ?]; done. }
  apply Ok_inj in H. subst f'. destruct (seed (fb_site f)) as [|b s] eqn:Es.
  - split; [done|]. split; [done|]. split; [done|]. split; [exact Hd|]. cbn. by destruct (x_host x).
  - rewrite Es. done.
Qed.

Lemma flows_ok us : existsb bad_flow us = false ->
  Forall (fun u => uc_flow u = [] \/ uc_flow u = text "xtls-rprx-vision") us.
Proof.
  intros H. apply Forall_forall. intros u Hu. destruct (bad_flow u) eqn:E.
  - assert (existsb bad_flow us = true) as Hx by (apply existsb_exists; eauto). congruence.
  - unfold bad_flow in E. destruct (uc_flow u); [by left|right]. cbn [andb] in E. apply negb_false_iff in E.
    by apply bytes_eqb_eq.
Qed.

Lemma normalize_path_nonempty p : normalize_path p <> [].
Proof. intros H. destruct (normalize_path_spec p) as [H1 _]. by rewrite H in H1. Qed.

(** What [try_from] guarantees. *)
Lemma try_from_ok raw c : raw_ok raw -> try_from raw = Ok c -> config_ok c.
Proof.
  intros [Hg Hr] H. unfold try_from in H. destruct (inbounds raw) as [|i [|? ?]]; [done| |done].
  apply Forall_cons_iff in Hr as [Hr _]. check_inv H.
  match goal with E : parse_tls _ = Ok ?o |- _ => rename o into t, E into Et end.
  match goal with E : parse_xhttp _ = _ |- _ => rename E into Ep end.
  match goal with E : normalize_xhttp _ = Ok ?o |- _ => rename o into x, E into En end.
  match goal with E : validate_server _ = Ok ?o |- _ => destruct o; apply validate_server_ok in E as (?&?&?&?&?); [|done] end.
  match goal with E : shares_port _ _ = false |- _ => rename E into Es end.
  match goal with E : existsb bad_flow _ = false |- _ => apply flows_ok in E end.
  unfold parse_xhttp in Ep. destruct (parse_range _) as [[from to]|] eqn:Er; [|done]. cbn in Ep. apply Ok_inj in Ep. subst.
  apply parse_range_sound in Er. apply normalize_xhttp_ok in En as (-> & Hm1 & Hm2 & Hk).
  match goal with E : validate_fallback _ _ = _ |- _ => apply validate_fallback_ok in E as (?&?&?&?&?); [|apply normalize_path_nonempty] end.
  apply Ok_inj in H. subst c. cbn in *.
  constructor; cbn; try done; try (by split_bool); [apply normalize_path_spec|apply normalize_path_idem|by destruct (clients i)|].
  destruct t as [t|]; [|done]. eapply parse_tls_ok; [exact Et|exact Es|]. intros ts ac Hts Hac. by rewrite Hts, Hac in Hr.
Qed.

(** * Theorems *)

(** What a configuration that is accepted guarantees.  Exactly one inbound with
    a port, a normalised base path that starts and ends with a slash (normalising
    it again changes nothing), a padding range 0 < from <= to, non-zero limits, users
    with a known flow, TLS with a supported ALPN and checked ACME settings on
    another port than the inbound, a fallback whose index is a plain file name,
    whose byte limits are consistent and which has a directory exactly in directory
    mode. *)
Theorem config_sound raw c : raw_ok raw -> try_from raw = Ok c -> config_ok c.
Proof. apply try_from_ok. Qed.

(** Padding ranges.  Two numbers written as [from-to], or one number, are read
    back as that range exactly when 0 < from <= to; any accepted text denotes such
    a range. *)
Theorem padding_range_exact a b :
  0 <= a <= u32_max -> 0 <= b <= u32_max ->
  parse_range (decimal a ++ 45 :: decimal b) = (if (0 <? a) && (a <=? b) then Ok (a, b) else Err (Invalid PaddingOrder)) /\
  parse_range (decimal a) = (if 0 <? a then Ok (a, a) else Err (Invalid PaddingOrder)) /\
  (forall v x y, parse_range v = Ok (x, y) -> 0 < x <= y /\ y <= u32_max).
Proof.
  intros Ha Hb. assert (forall n, 0 <= n -> Forall (fun c => c <> 45) (decimal n) /\ trim (decimal n) = decimal n) as Hd.
  { intros n Hn. pose proof (decimal_digits_fuel (S (Z.to_nat (Z.log2 n))) n Hn) as Hf. split.
    - eapply Forall_impl; [|exact Hf]. cbn. lia.
    - apply trim_visible. eapply Forall_impl; [|exact Hf]. unfold visible. cbn. lia. }
  destruct (Hd a) as [Ha1 Ha2], (Hd b) as [Hb1 Hb2]; [lia..|]. unfold parse_range.
  rewrite split_once_app, split_once_none by done. cbn [from_option id].
  rewrite Ha2, Hb2, !decimal_parse by done. cbn. split; [|split; [|apply parse_range_sound]].
  - destruct (0 <? a) eqn:E1, (a <=? b) eqn:E2, (a =? 0) eqn:E3, (b <? a) eqn:E4; split_bool; try done; lia.
  - destruct (0 <? a) eqn:E1, (a =? 0) eqn:E3, (a <? a) eqn:E4; split_bool; try done; lia.
Qed.

(** * Witnesses *)

(** The smallest document with TLS by ACME and a directory fallback. *)
Definition sample_acme : acme_config :=
  mk_acme_config [text "example.org"] (text "a@b") default_acme_directory None default_acme_challenge_listen
    default_acme_cache_dir default_renew_before_days default_renew_check_hours true.

Definition sample_raw : json_config :=
  mk_json_config (text "info")
    [mk_inbound_config (text "in") [0; 0; 0; 0] 443 (text "VLESS")
       [mk_user_config (replicate 16 7) [] (text "xtls-rprx-vision")] []
       (mk_stream_settings (text "xhttp") (text "tls") (Some (mk_tls_settings default_alpn [] (Some sample_acme)))
          (xhttp_settings_default (text "p")))]
    server_default
    (mk_fallback_config Directory (Some (text "/srv")) (text "index.html") None 10 20 (mk_site_config [] [] [] [] [])).

Definition sample_config : config :=
  match try_from sample_raw with
  | Ok c => c
  | Err _ => mk_config (mk_listen_config default_acme_challenge_listen 0 true true 0 0 0) None
               (mk_xhttp_config [] [] 0 0 0 true 0 0 0 Body []) [] [] limits_default [] fallback_default
  end.

Lemma config_sound_witness : x_path (xhttp sample_config) = text "/p/" /\ config_ok sample_config.
Proof.
  split; [vm_compute; reflexivity|]. apply (config_sound sample_raw); [|vm_compute; reflexivity].
  split; [by vm_compute|]. repeat (apply Forall_cons_2 || apply Forall_nil_2). by vm_compute.
Defined.

Lemma padding_range_exact_witness :
  parse_range (text "100-1000") = Ok (100, 1000) /\ parse_range (decimal 7) = Ok (7, 7) /\
  (forall v x y, parse_range v = Ok (x, y) -> 0 < x <= y /\ y <= u32_max).
Proof.
  pose proof (padding_range_exact 100 1000 ltac:(unfold u32_max; lia) ltac:(unfold u32_max; lia)) as (H1 & _ & _).
  pose proof (padding_range_exact 7 7 ltac:(unfold u32_max; lia) ltac:(unfold u32_max; lia)) as (_ & H2 & H3).
  split; [exact H1|]. split; [exact H2|exact H3].
Defined.
