(* ===== verification/Json.v ===== *)
(** The JSON form of the configuration: what [#[derive(Deserialize)]] and its attributes
    say of the records of [src/config.rs], and the addresses and numbers in them.

    A record is read from an object.  Every key must be one of its fields and occur once;
    a field that is absent takes its default or is an error.  UUIDs are read by their
    crate, a class. *)

From S2P Require Import Prelude Config.

(** * Values *)

Inductive json : Type :=
| JNull
| JBool (b : bool)
| JNumber (n : Z)
| JFloat
| JString (s : bytes)
| JArray (l : list json)
| JObject (l : list (string * json)).

Definition jtext (s : string) : json := JString (text s).

(** The value of a key in an object. *)
Definition jget (k : string) (v : json) : option json :=
  match v with JObject l => snd <$> find (fun f => bool_decide (f.1 = k)) l | _ => None end.

(** [Map] is a [BTreeMap]: its keys are in increasing order, and [insert] replaces. *)
Fixpoint insert_key (k : string) (x : json) (l : list (string * json)) : list (string * json) :=
  match l with
  | [] => [(k, x)]
  | (k', y) :: l' =>
      match String.compare k k' with
      | Eq => (k, x) :: l'
      | Lt => (k, x) :: l
      | Gt => (k', y) :: insert_key k x l'
      end
  end.

Definition jinsert (k : string) (x v : json) : json := match v with JObject l => JObject (insert_key k x l) | _ => v end.

(** The objects of [json!]. *)
Definition jobject (l : list (string * json)) : json := JObject (fold_left (fun m f => insert_key f.1 f.2 m) l []).

Fixpoint keys_increase (l : list (string * json)) : bool :=
  match l with
  | (k, _) :: (((k', _) :: _) as l') => match String.compare k k' with Lt => keys_increase l' | _ => false end
  | _ => true
  end.

(** The values a program can build, floats left out. *)
Fixpoint canonical (v : json) : bool :=
  match v with
  | JFloat => false
  | JNumber n => (-9223372036854775808 <=? n) && (n <=? u64_max)
  | JArray l => forallb canonical l
  | JObject l => keys_increase l && forallb (fun f => canonical f.2) l
  | _ => true
  end.

(** * Addresses *)

(** The readers of [std::net]: a value and the rest of the text. *)
Definition reader (A : Type) : Type := bytes -> option (A * bytes).

Definition digit_value (radix c : Z) : option Z :=
  let d := if (48 <=? c) && (c <=? 57) then c - 48
           else if (97 <=? c) && (c <=? 122) then c - 87
           else if (65 <=? c) && (c <=? 90) then c - 55 else radix in
  if d <? radix then Some d else None.

(** The digits of a number: its value while it is at most [bound], how many there are, and
    the rest.  Inner [None]: too large. *)
Fixpoint read_digits (radix bound : Z) (acc : option Z) (count : nat) (l : bytes) : option Z * nat * bytes :=
  match l with
  | [] => (acc, count, [])
  | c :: l' =>
      match digit_value radix c with
      | None => (acc, count, l)
      | Some d =>
          let next := match acc with Some a => if a * radix + d <=? bound then Some (a * radix + d) else None | None => None end in
          read_digits radix bound next (S count) l'
      end
  end.

Definition read_number (radix bound : Z) (max_digits : option nat) (allow_zero_prefix : bool) : reader Z := fun l =>
  let '(v, count, rest) := read_digits radix bound (Some 0) 0 l in
  let too_many := match max_digits with Some n => (n <? count)%nat | None => false end in
  if (count =? 0)%nat || too_many || (negb allow_zero_prefix && starts_with [48] l && (1 <? count)%nat) then None
  else match v with Some v => Some (v, rest) | None => None end.

Definition read_char (c : Z) : reader unit := fun l => rest ← strip_prefix [c] l; mret (tt, rest).

(** A separator before every element but the first. *)
Definition read_separator {A : Type} (c : Z) (index : nat) (r : reader A) : reader A := fun l =>
  match index with
  | O => r l
  | S _ => '(_, l) ← read_char c l; r l
  end.

Fixpoint read_octets (index n : nat) : reader bytes := fun l =>
  match n with
  | O => Some ([], l)
  | S n' =>
      '(o, l) ← read_separator 46 index (read_number 10 255 (Some 3%nat) false) l;
      '(os, l) ← read_octets (S index) n' l;
      mret (o :: os, l)
  end.

Definition read_ipv4 : reader bytes := read_octets 0 4.

(** The loop of [read_groups]: the groups from [index] on, two octets each, and whether an
    IPv4 address ended them. *)
Fixpoint read_groups (index limit : nat) (l : bytes) : bytes * bool * bytes :=
  match limit with
  | O => ([], false, l)
  | S limit' =>
      match (if (0 <? limit')%nat then read_separator 58 index read_ipv4 l else None) with
      | Some (v4, rest) => (v4, true, rest)
      | None =>
          match read_separator 58 index (read_number 16 65535 (Some 4%nat) true) l with
          | Some (g, rest) => let '(gs, v4, rest) := read_groups (S index) limit' rest in (Z.shiftr g 8 :: Z.land g 255 :: gs, v4, rest)
          | None => ([], false, l)
          end
      end
  end.

Definition read_ipv6 : reader bytes := fun l =>
  let '(head, head_ipv4, rest) := read_groups 0 8 l in
  if (length head =? 16)%nat then Some (head, rest)
  else if head_ipv4 then None
  else
    '(_, rest) ← read_char 58 rest; '(_, rest) ← read_char 58 rest;
    let '(tail, _, rest) := read_groups 0 (7 - Nat.div (length head) 2) rest in
    mret (head ++ replicate (16 - length head - length tail) 0 ++ tail, rest).

(** The whole text. *)
Definition parse_with {A : Type} (r : reader A) (l : bytes) : option A :=
  match r l with Some (a, []) => Some a | _ => None end.

Definition parse_ip_addr : bytes -> option bytes :=
  parse_with (fun l => match read_ipv4 l with Some x => Some x | None => read_ipv6 l end).

Definition read_port : reader Z := fun l => '(_, l) ← read_char 58 l; read_number 10 65535 None true l.

(** The scope of an IPv6 socket address is read and, like the flow label, not kept. *)
Definition read_scope : reader unit := fun l =>
  match ('(_, l) ← read_char 37 l; '(_, l) ← read_number 10 u32_max None true l; mret (tt, l)) with Some x => Some x | None => Some (tt, l) end.

Definition read_socket_addr : reader socket_addr := fun l =>
  match ('(ip, l) ← read_ipv4 l; '(p, l) ← read_port l; mret (mk_socket_addr ip p, l)) with
  | Some x => Some x
  | None =>
      '(_, l) ← read_char 91 l; '(ip, l) ← read_ipv6 l; '(_, l) ← read_scope l; '(_, l) ← read_char 93 l;
      '(p, l) ← read_port l; mret (mk_socket_addr ip p, l)
  end.

Definition parse_socket_addr : bytes -> option socket_addr := parse_with read_socket_addr.

(** * Reading *)

(** [Uuid::deserialize] from a string. *)
Class UuidText := { uuid_of_text : bytes -> option bytes }.

Definition de_string (v : json) : option bytes := match v with JString s => Some s | _ => None end.
Definition de_bool (v : json) : option bool := match v with JBool b => Some b | _ => None end.
Definition de_range (low high : Z) (v : json) : option Z :=
  match v with JNumber n => if (low <=? n) && (n <=? high) then Some n else None | _ => None end.
Definition de_u64 : json -> option Z := de_range 0 u64_max.
Definition de_usize : json -> option Z := de_range 0 u64_max.
Definition de_u16 : json -> option Z := de_range 0 65535.
Definition de_i32 : json -> option Z := de_range (-2147483648) 2147483647.

Fixpoint de_all {A : Type} (d : json -> option A) (l : list json) : option (list A) :=
  match l with [] => Some [] | v :: l' => a ← d v; r ← de_all d l'; mret (a :: r) end.

Definition de_vec {A : Type} (d : json -> option A) (v : json) : option (list A) := match v with JArray l => de_all d l | _ => None end.
Definition de_option {A : Type} (d : json -> option A) (v : json) : option (option A) :=
  match v with JNull => Some None | _ => a ← d v; mret (Some a) end.

(** [rename_all = "lowercase"] on unit variants. *)
Definition de_variant {A : Type} (variants : list (string * A)) (v : json) : option A :=
  s ← de_string v; snd <$> find (fun x => bytes_eqb (text x.1) s) variants.

(** [deny_unknown_fields], and no field twice. *)
Fixpoint keys_ok (names : list string) (seen : list string) (l : list (string * json)) : bool :=
  match l with
  | [] => true
  | (k, _) :: l' => existsb (fun n => bool_decide (n = k)) names && negb (existsb (fun n => bool_decide (n = k)) seen) && keys_ok names (k :: seen) l'
  end.

Definition fields (names : list string) (v : json) : option json :=
  match v with JObject l => if keys_ok names [] l then Some v else None | _ => None end.

Definition required {A : Type} (k : string) (d : json -> option A) (v : json) : option A := x ← jget k v; d x.
Definition optional {A : Type} (k : string) (a : A) (d : json -> option A) (v : json) : option A :=
  match jget k v with Some x => d x | None => Some a end.

(** * The records *)

Section records.
Context `{UuidText}.

Definition de_acme (v : json) : option acme_config :=
  v ← fields ["domains"; "email"; "directoryUrl"; "caCertificateFile"; "challengeListen"; "cacheDir"; "renewBeforeDays"; "renewCheckHours"; "acceptTerms"]%string v;
  domains ← required "domains" (de_vec de_string) v;
  email ← required "email" de_string v;
  directory_url ← optional "directoryUrl" default_acme_directory de_string v;
  ca ← optional "caCertificateFile" None (de_option de_string) v;
  challenge_listen ← optional "challengeListen" default_acme_challenge_listen (fun x => s ← de_string x; parse_socket_addr s) v;
  cache_dir ← optional "cacheDir" default_acme_cache_dir de_string v;
  before ← optional "renewBeforeDays" default_renew_before_days de_u64 v;
  hours ← optional "renewCheckHours" default_renew_check_hours de_u64 v;
  terms ← optional "acceptTerms" false de_bool v;
  mret (mk_acme_config domains email directory_url ca challenge_listen cache_dir before hours terms).

Definition de_user (v : json) : option user_config :=
  v ← fields ["id"; "email"; "flow"]%string v;
  id ← required "id" (fun x => s ← de_string x; uuid_of_text s) v;
  email ← optional "email" [] de_string v;
  flow ← optional "flow" [] de_string v;
  mret (mk_user_config id email flow).

Definition de_limits (v : json) : option limits :=
  let d := limits_default in
  v ← fields ["maxSessions"; "maxPendingPacketsPerSession"; "maxPendingBytesPerSession"; "globalBufferBytes"; "maxConcurrentTargetConns";
              "handshakeTimeoutSeconds"; "targetConnectSeconds"; "udpAssociationIdleSeconds"]%string v;
  a ← optional "maxSessions" (max_sessions d) de_usize v;
  b ← optional "maxPendingPacketsPerSession" (max_pending_packets_per_session d) de_usize v;
  c ← optional "maxPendingBytesPerSession" (max_pending_bytes_per_session d) de_usize v;
  e ← optional "globalBufferBytes" (global_buffer_bytes d) de_u64 v;
  f ← optional "maxConcurrentTargetConns" (max_concurrent_target_conns d) de_usize v;
  g ← optional "handshakeTimeoutSeconds" (handshake_timeout_seconds d) de_u64 v;
  h ← optional "targetConnectSeconds" (target_connect_seconds d) de_u64 v;
  i ← optional "udpAssociationIdleSeconds" (udp_association_idle_seconds d) de_u64 v;
  mret (mk_limits a b c e f g h i).

Definition de_site (v : json) : option site_config :=
  v ← fields ["seed"; "title"; "author"; "description"; "language"]%string v;
  s ← optional "seed" [] de_string v;
  t ← optional "title" [] de_string v;
  a ← optional "author" [] de_string v;
  d ← optional "description" [] de_string v;
  l ← optional "language" [] de_string v;
  mret (mk_site_config s t a d l).

Definition de_fallback (v : json) : option fallback_config :=
  let d := fallback_default in
  v ← fields ["mode"; "dist"; "index"; "notFound"; "maxFileBytes"; "maxTotalBytes"; "site"]%string v;
  mode ← optional "mode" Builtin (de_variant [("builtin", Builtin); ("directory", Directory)]%string) v;
  dist ← optional "dist" None (de_option de_string) v;
  index ← optional "index" (fb_index d) de_string v;
  not_found ← optional "notFound" None (de_option de_string) v;
  file_bytes ← optional "maxFileBytes" (fb_max_file_bytes d) de_usize v;
  total_bytes ← optional "maxTotalBytes" (fb_max_total_bytes d) de_usize v;
  site ← optional "site" (mk_site_config [] [] [] [] []) de_site v;
  mret (mk_fallback_config mode dist index not_found file_bytes total_bytes site).

Definition de_log (v : json) : option bytes := v ← fields ["loglevel"]%string v; optional "loglevel" (text "info") de_string v.

Definition de_certificate (v : json) : option tls_certificate :=
  v ← fields ["certificateFile"; "keyFile"]%string v;
  c ← required "certificateFile" de_string v;
  k ← required "keyFile" de_string v;
  mret (mk_tls_certificate c k).

Definition de_tls (v : json) : option tls_settings :=
  v ← fields ["alpn"; "certificates"; "acme"]%string v;
  alpn ← optional "alpn" default_alpn (de_vec de_string) v;
  certificates ← optional "certificates" [] (de_vec de_certificate) v;
  acme ← optional "acme" None (de_option de_acme) v;
  mret (mk_tls_settings alpn certificates acme).

Definition de_xhttp (v : json) : option xhttp_settings :=
  let d := xhttp_settings_default [] in
  v ← fields ["path"; "host"; "scMaxEachPostBytes"; "scMaxBufferedPosts"; "sessionGraceSeconds"; "noSSEHeader"; "serverMaxHeaderBytes";
              "xPaddingBytes"; "uplinkDataPlacement"; "uplinkDataKey"]%string v;
  path ← required "path" de_string v;
  host ← optional "host" [] de_string v;
  each ← optional "scMaxEachPostBytes" (sc_max_each_post_bytes d) de_usize v;
  buffered ← optional "scMaxBufferedPosts" (sc_max_buffered_posts d) de_usize v;
  grace ← optional "sessionGraceSeconds" (session_grace_seconds d) de_u64 v;
  no_sse ← optional "noSSEHeader" false de_bool v;
  header_bytes ← optional "serverMaxHeaderBytes" (server_max_header_bytes d) de_usize v;
  padding ← optional "xPaddingBytes" (x_padding_bytes d) de_string v;
  place ← optional "uplinkDataPlacement" Body (de_variant [("body", Body); ("header", Header); ("cookie", Cookie); ("auto", Auto)]%string) v;
  key ← optional "uplinkDataKey" [] de_string v;
  mret (mk_xhttp_settings path host each buffered grace no_sse header_bytes padding place key).

Definition de_stream (v : json) : option stream_settings :=
  v ← fields ["network"; "security"; "tlsSettings"; "xhttpSettings"]%string v;
  network ← required "network" de_string v;
  security ← optional "security" (text "none") de_string v;
  tls ← optional "tlsSettings" None (de_option de_tls) v;
  xhttp ← required "xhttpSettings" de_xhttp v;
  mret (mk_stream_settings network security tls xhttp).

(** [alias = "users"]: either name, not both. *)
Definition de_settings (v : json) : option (list user_config * bytes) :=
  v ← fields ["clients"; "users"; "decryption"]%string v;
  clients ← match jget "clients" v, jget "users" v with
            | Some x, None | None, Some x => de_vec de_user x
            | _, _ => None
            end;
  decryption ← optional "decryption" [] de_string v;
  mret (clients, decryption).

Definition de_inbound (v : json) : option inbound_config :=
  v ← fields ["tag"; "listen"; "port"; "protocol"; "settings"; "streamSettings"]%string v;
  tag ← optional "tag" [] de_string v;
  listen ← optional "listen" [0; 0; 0; 0] (fun x => s ← de_string x; parse_ip_addr s) v;
  port ← required "port" de_u16 v;
  protocol ← required "protocol" de_string v;
  settings ← required "settings" de_settings v;
  stream ← required "streamSettings" de_stream v;
  mret (mk_inbound_config tag listen port protocol settings.1 settings.2 stream).

Definition de_server (v : json) : option server_config :=
  let d := server_default in
  v ← fields ["workers"; "tcpNodelay"; "reusePort"; "backlog"; "tcpKeepaliveSeconds"; "gracefulShutdownSeconds"; "limits"]%string v;
  workers ← optional "workers" 0 de_usize v;
  nodelay ← optional "tcpNodelay" true de_bool v;
  reuse ← optional "reusePort" true de_bool v;
  backlog ← optional "backlog" (backlog d) de_i32 v;
  keepalive ← optional "tcpKeepaliveSeconds" (tcp_keepalive_seconds d) de_u64 v;
  graceful ← optional "gracefulShutdownSeconds" (graceful_shutdown_seconds d) de_u64 v;
  limits ← optional "limits" limits_default de_limits v;
  mret (mk_server_config workers nodelay reuse backlog keepalive graceful limits).

Definition de_config (v : json) : option json_config :=
  v ← fields ["log"; "inbounds"; "server"; "fallback"]%string v;
  log ← optional "log" (text "info") de_log v;
  inbounds ← required "inbounds" (de_vec de_inbound) v;
  server ← optional "server" server_default de_server v;
  fallback ← optional "fallback" fallback_default de_fallback v;
  mret (mk_json_config log inbounds server fallback).
End records.

(** * Ranges *)

Lemma de_range_spec low high v n : de_range low high v = Some n -> low <= n <= high.
Proof. unfold de_range. destruct v; try done. destruct (_ && _) eqn:E; [|done]. intros [= <-]. by split_bool. Qed.

(** Inverts [m = Some a] through the fields of a record. *)
Ltac de_inv H :=
  repeat match type of H with
         | mbind _ ?m = Some _ => let E := fresh "E" in destruct m eqn:E; cbn [mbind option_bind] in H; [|done]
         end; try (injection H as <-).

Lemma optional_range k a low high v n : low <= a <= high -> optional k a (de_range low high) v = Some n -> low <= n <= high.
Proof. intros Ha. unfold optional. destruct (jget k v); [apply de_range_spec|]. by intros [= <-]. Qed.

Lemma optional_inv {A : Type} (P : A -> Prop) k a (d : json -> option A) v x :
  P a -> (forall v x, d v = Some x -> P x) -> optional k a d v = Some x -> P x.
Proof. intros Ha Hd. unfold optional. destruct (jget k v); [apply Hd|]. by intros [= <-]. Qed.

Lemma de_option_inv {A : Type} (P : A -> Prop) (d : json -> option A) v x :
  (forall v x, d v = Some x -> P x) -> de_option d v = Some (Some x) -> P x.
Proof. intros Hd. unfold de_option. destruct v; try done; destruct (d _) eqn:E; try done; intros [= <-]; by eapply Hd. Qed.

Lemma de_vec_Forall {A : Type} (P : A -> Prop) (d : json -> option A) v r :
  (forall v x, d v = Some x -> P x) -> de_vec d v = Some r -> Forall P r.
Proof.
  intros Hd. destruct v; try done. cbn. revert r. induction l as [|v l IH]; intros r Hr; cbn in Hr; [by injection Hr as <-|].
  de_inv Hr. constructor; [by eapply Hd|by apply IH].
Qed.

Section unsigned.
Context `{UuidText}.

Definition acme_unsigned (a : acme_config) : Prop := 0 <= renew_before_days a.
Definition tls_unsigned (t : tls_settings) : Prop := match ts_acme t with Some a => acme_unsigned a | None => True end.

Lemma de_acme_unsigned v a : de_acme v = Some a -> acme_unsigned a.
Proof.
  unfold de_acme. intros Ha. de_inv Ha. unfold acme_unsigned. cbn.
  match goal with E : optional "renewBeforeDays" _ _ _ = _ |- _ => apply optional_range in E; [lia|unfold default_renew_before_days, u64_max; lia] end.
Qed.

Lemma de_tls_unsigned v t : de_tls v = Some t -> tls_unsigned t.
Proof.
  unfold de_tls. intros Ht. de_inv Ht. unfold tls_unsigned. cbn.
  match goal with E : optional "acme" _ _ _ = Some ?o |- _ => revert E; apply (optional_inv (fun o => match o with Some a => acme_unsigned a | None => True end)) end; [done|].
  intros v' [a|]; [|done]. apply de_option_inv, de_acme_unsigned.
Qed.

Lemma de_inbound_unsigned v i : de_inbound v = Some i -> match ss_tls (stream i) with Some t => tls_unsigned t | None => True end.
Proof.
  unfold de_inbound. intros Hi. de_inv Hi. cbn.
  match goal with E : required "streamSettings" _ ?v = Some ?s |- _ => unfold required in E; destruct (jget "streamSettings" v); [|done]; revert E end.
  cbn [mbind option_bind]. unfold de_stream. intros Hs. de_inv Hs. cbn.
  match goal with E : optional "tlsSettings" _ _ _ = Some ?o |- _ => revert E; apply (optional_inv (fun o => match o with Some a => tls_unsigned a | None => True end)) end; [done|].
  intros v' [t|]; [|done]. apply de_option_inv, de_tls_unsigned.
Qed.

Lemma de_config_unsigned v raw : de_config v = Some raw -> raw_ok raw.
Proof.
  unfold de_config. intros Hc. de_inv Hc. split; cbn.
  - match goal with E : optional "server" _ _ _ = Some ?s |- _ => revert E; apply (optional_inv (fun s => 0 <= graceful_shutdown_seconds s)) end; [done|].
    intros v' sv. unfold de_server. intros Hs. de_inv Hs. cbn.
    match goal with E : optional "gracefulShutdownSeconds" _ _ _ = _ |- _ => apply optional_range in E; [lia|cbn; unfold u64_max; lia] end.
  - match goal with E : required "inbounds" _ ?v = Some _ |- _ => unfold required in E; destruct (jget "inbounds" v); [|done]; revert E end.
    cbn [mbind option_bind]. apply de_vec_Forall. intros v' i. apply de_inbound_unsigned.
Qed.
End unsigned.

(** * Text *)

(** [serde_json::from_str] as far as the value, and [to_string_pretty]. *)
Class JsonText := { json_of_text : bytes -> option json; to_string_pretty : json -> bytes }.

(** What was printed is read back, a line feed after it or not. *)
Class JsonTextLaws `{JsonText} : Prop := { json_read_back : forall v, canonical v = true -> json_of_text (to_string_pretty v ++ [10]) = Some v }.

(** ** Objects of [json!] *)

Lemma insert_key_head k x l : keys_increase l = true ->
  match insert_key k x l with (k', _) :: _ => k' = k \/ exists y l', l = (k', y) :: l' | [] => False end.
Proof. destruct l as [|[k' y] l]; cbn; [by left|]. destruct (String.compare k k'); eauto. Qed.

Lemma compare_trans_gt k k' : String.compare k k' = Gt -> String.compare k' k = Lt.
Proof. intros Hc. rewrite String.compare_antisym, Hc. done. Qed.

Lemma insert_key_increase k x l : keys_increase l = true -> keys_increase (insert_key k x l) = true.
Proof.
  induction l as [|[k' y] l IH]; [done|]. intros Hl. cbn [insert_key]. destruct (String.compare k k') eqn:Ec.
  - apply String.compare_eq_iff in Ec as ->. destruct l as [|[k2 z] l]; [done|]. exact Hl.
  - cbn [keys_increase]. rewrite Ec. exact Hl.
  - assert (keys_increase l = true) as Hl' by (destruct l as [|[k2 z] l]; [done|]; cbn in Hl; by destruct (String.compare k' k2)).
    specialize (IH Hl'). pose proof (insert_key_head k x l Hl') as Hh. destruct (insert_key k x l) as [|[k2 z] r]; [done|].
    cbn [keys_increase]. destruct Hh as [-> |(y2 & l' & ->)]; [by rewrite (compare_trans_gt _ _ Ec)|].
    cbn in Hl. by destruct (String.compare k' k2).
Qed.

Lemma insert_key_canonical k x l :
  canonical x = true -> forallb (fun f => canonical f.2) l = true -> forallb (fun f => canonical f.2) (insert_key k x l) = true.
Proof.
  intros Hx. induction l as [|[k' y] l IH]; cbn; [by rewrite Hx|]. intros [Hy Hl]%andb_prop.
  destruct (String.compare k k'); cbn; rewrite ?Hx, ?Hy, ?Hl; cbn; auto.
Qed.

Lemma jinsert_canonical k x v : canonical x = true -> canonical v = true -> canonical (jinsert k x v) = true.
Proof.
  intros Hx. destruct v; try done. cbn. intros [H1 H2]%andb_prop. by rewrite insert_key_increase, insert_key_canonical.
Qed.

Lemma jobject_canonical l : forallb (fun f => canonical f.2) l = true -> canonical (jobject l) = true.
Proof.
  unfold jobject. cut (forall m, canonical (JObject m) = true -> forallb (fun f => canonical f.2) l = true ->
    canonical (JObject (fold_left (fun m f => insert_key f.1 f.2 m) l m)) = true); [intros Hc; by apply Hc|].
  induction l as [|[k x] l IH]; intros m Hm Hl; [done|]. cbn in Hl. apply andb_prop in Hl as [Hx Hl]. cbn [fold_left]. apply IH; [|done].
  exact (jinsert_canonical k x (JObject m) Hx Hm).
Qed.

(** * The laws can hold *)

(** A text for every value: its tree, token by token. *)
Abbreviation token := (nat * nat + (Z + bytes + string))%type.

Fixpoint to_tree (v : json) : gen_tree (Z + bytes + string) :=
  match v with
  | JNull => GenNode 0 []
  | JBool b => GenNode 1 [GenLeaf (inl (inl (if b then 1 else 0)))]
  | JNumber n => GenNode 2 [GenLeaf (inl (inl n))]
  | JFloat => GenNode 3 []
  | JString s => GenNode 4 [GenLeaf (inl (inr s))]
  | JArray l => GenNode 5 (to_tree <$> l)
  | JObject l => GenNode 6 ((fun f => GenNode 7 [GenLeaf (inr f.1); to_tree f.2]) <$> l)
  end.

Fixpoint of_tree (t : gen_tree (Z + bytes + string)) : json :=
  match t with
  | GenNode 1 [GenLeaf (inl (inl n))] => JBool (n =? 1)
  | GenNode 2 [GenLeaf (inl (inl n))] => JNumber n
  | GenNode 3 _ => JFloat
  | GenNode 4 [GenLeaf (inl (inr s))] => JString s
  | GenNode 5 l => JArray (of_tree <$> l)
  | GenNode 6 l => JObject ((fun t => match t with GenNode _ [GenLeaf (inr k); t'] => (k, of_tree t') | _ => (EmptyString, JNull) end) <$> l)
  | _ => JNull
  end.

Lemma of_to_tree v : of_tree (to_tree v) = v.
Proof.
  revert v. fix IH 1. intros [| [] | n | | s | l | l]; cbn [to_tree of_tree]; try reflexivity; f_equal.
  - induction l as [|v l IHl]; [reflexivity|]. cbn. f_equal; [apply IH|exact IHl].
  - induction l as [|[k v] l IHl]; [reflexivity|]. cbn. f_equal; [f_equal; apply IH|exact IHl].
Qed.

Definition token_code (t : token) : Z := Zpos (encode t).
Definition code_token (z : Z) : option token := match z with Zpos p => decode p | _ => None end.

#[local] Instance tree_text : JsonText := {|
  json_of_text := fun b => tokens ← mapM code_token (removelast b); t ← gen_tree_of_list [] tokens; Some (of_tree t);
  to_string_pretty := fun v => token_code <$> gen_tree_to_list (to_tree v) |}.

#[local] Instance tree_text_laws : JsonTextLaws.
Proof.
  constructor. intros v _. cbn [json_of_text to_string_pretty tree_text]. rewrite removelast_app by done. cbn [removelast]. rewrite app_nil_r.
  assert (forall l, mapM code_token (token_code <$> l) = Some l) as ->.
  { intros l. apply mapM_fmap_Some. intros t. unfold code_token, token_code. apply decode_encode. }
  cbn [mbind option_bind]. rewrite <- (app_nil_r (gen_tree_to_list _)), gen_tree_of_to_list. cbn. by rewrite of_to_tree.
Qed.
