(* ===== verification/SiteText.v ===== *)
(** [src/site.rs]: the generated site, with its texts.

    The texts follow the language of the configuration, the colours and the default names
    its seed; the title, the author and the description are the configured ones, escaped.
    Pages are read back by a small scanner of HTML tags ([scan]), which says what a
    browser takes for elements and attributes. *)

From S2P Require Import Prelude Xhttp Site Config.

Record GeneratedSite := mk_GeneratedSite {
  g_title : bytes; g_author : bytes; g_description : bytes; g_language : bytes; g_accent : bytes; g_accent_dark : bytes }.

(** [str::replace] of one ASCII character. *)
Definition replace (c : Z) (by_ : bytes) (l : bytes) : bytes := concat ((fun b => if b =? c then by_ else [b]) <$> l).

Definition html_escape (value : bytes) : bytes :=
  replace 39 (text "&#39;") (replace 34 (text "&quot;") (replace 62 (text "&gt;") (replace 60 (text "&lt;")
    (replace 38 (text "&amp;") value)))).

Definition defaults_en : list (bytes * bytes * bytes) :=
  [(text "Juniper & Stone", text "Mara Ellison", text "Notes on slow travel, useful objects, and places worth remembering.");
   (text "Common Hours", text "Theo Arden", text "A quiet journal about food, craft, books, and everyday city life.");
   (text "The Open Window", text "Noa Linden", text "Field notes from gardens, coastal walks, and independent studios.")].

Definition defaults_zh : list (bytes * bytes * bytes) :=
  [(text "松石手记", text "林砚", text "关于缓慢旅行、日常器物与值得记住的地方。");
   (text "寻常时刻", text "周禾", text "记录食物、手作、书籍与城市日常的安静刊物。");
   (text "窗外来信", text "许岚", text "来自花园、海岸步道与独立工作室的随笔。")].

Definition accents : list (bytes * bytes) :=
  [(text "#b4553d", text "#763425"); (text "#326a5c", text "#20483e"); (text "#365f8d", text "#233f61")].

Definition or_default (value default : bytes) : bytes := if bool_decide (value = []) then default else value.

Definition is_chinese (language : bytes) : bool :=
  eq_ignore_ascii_case language (text "zh-cn") || eq_ignore_ascii_case language (text "zh").

(** [GeneratedSite::new]. *)
Definition new `{Blake3} (config : site_config) : GeneratedSite :=
  let digest := blake3_hash (seed config) in
  let variant := Z.to_nat (nth 0 digest 0 mod 3) in
  let chinese := is_chinese (language config) in
  let selected := nth variant (if chinese then defaults_zh else defaults_en) ([], [], []) in
  let accent := nth variant accents ([], []) in
  mk_GeneratedSite (html_escape (or_default (title config) selected.1.1))
    (html_escape (or_default (author config) selected.1.2)) (html_escape (or_default (description config) selected.2))
    (if chinese then text "zh-CN" else text "en") accent.1 accent.2.

(** [self.language == "zh-CN"]. *)
Definition in_chinese (g : GeneratedSite) : bool := bytes_eqb (g_language g) (text "zh-CN").

Definition head : bytes :=
  format "<meta charset=`utf-8`><meta name=`viewport` content=`width=device-width,initial-scale=1`><link rel=`icon` href=`/favicon.svg` type=`image/svg+xml`><link rel=`stylesheet` href=`/assets/site.css`>" [].

Definition page (g : GeneratedSite) (title content : bytes) : bytes :=
  format "<!doctype html><html lang=`{}`><head>{}<title>{}</title></head><body><header><a class=`brand` href=`/`>{}</a></header><main class=`article`>{}</main><footer><p>© 2026 {} · {}</p></footer></body></html>"
    [g_language g; head; title; g_title g; content; g_author g; g_title g].

Definition slugs : list bytes :=
  [text "morning-market-colors"; text "railway-to-the-sea"; text "a-lasting-table"].

Definition dates : list bytes := [text "August 8, 2026"; text "July 24, 2026"; text "July 6, 2026"].

Record front := mk_front {
  eyebrow : bytes; heading : bytes; recent : bytes; about_label : bytes; post_titles : list bytes; excerpts : list bytes }.

Definition front_zh : front :=
  mk_front (text "独立刊物") (text "给日常留一点从容的空白。") (text "近期文章") (text "关于")
    [text "清晨市场里的四种颜色";
     text "沿着旧铁路向海边走";
     text "一张经得起时间的木桌"]
    [text "从蔬果摊、旧招牌和夏日光线里，重新发现熟悉街区的色彩。";
     text "一条不再通车的支线，如何变成连接树林与潮汐的安静步道。";
     text "拜访一间小型木工坊，聊聊材料、修补与耐心。"].

Definition front_en : front :=
  mk_front (text "Independent journal") (text "Making room for a slower kind of attention.") (text "Recent stories") (text "About")
    [text "Four colors from the morning market";
     text "Walking the old railway to the sea";
     text "A table made to outlast a decade"]
    [text "Finding a familiar neighborhood again through produce stalls, old signs, and summer light.";
     text "How a disused branch line became a quiet path between woodland and the tide.";
     text "A visit to a small workshop to talk about material, repair, and patience."].

Definition card (date slug title excerpt : bytes) : bytes :=
  format "<article><p class=`date`>{}</p><h2><a href=`/posts/{}/`>{}</a></h2><p>{}</p></article>" [date; slug; title; excerpt].

Definition home (g : GeneratedSite) : bytes :=
  let f := if in_chinese g then front_zh else front_en in
  let cards := concat ((fun index => card (nth index dates []) (nth index slugs []) (nth index (post_titles f) [])
                          (nth index (excerpts f) [])) <$> [0; 1; 2]%nat) in
  format "<!doctype html><html lang=`{}`><head>{}<title>{}</title><meta name=`description` content=`{}`></head><body><header><a class=`brand` href=`/`>{}</a><nav><a href=`/about/`>{}</a></nav></header><main><section class=`hero`><p class=`eyebrow`>{}</p><h1>{}</h1><p>{}</p></section><section class=`posts`><h2 class=`section-title`>{}</h2>{}</section></main><footer><p>© 2026 {} · {}</p></footer></body></html>"
    [g_language g; head; g_title g; g_description g; g_title g; about_label f; eyebrow f; heading f; g_description g;
     recent f; cards; g_author g; g_title g].

Definition about (g : GeneratedSite) : bytes :=
  let '(label, heading, paragraph, back) :=
    if in_chinese g then
      (text "关于", format "你好，我是{}。" [g_author g],
       format "{} 是一份由我独立编辑的网络刊物。这里收集旅行途中遇见的人、好用很久的物件，以及值得慢慢观察的普通日子。" [g_title g], text "返回首页")
    else
      (text "About", format "Hello, I’m {}." [g_author g],
       format "{} is an independently edited journal about people met while traveling, objects that age well, and ordinary days worth observing closely." [g_title g],
       text "Back to the journal") in
  page g (format "{} — {}" [label; g_title g])
    (format "<p class=`eyebrow`>{}</p><h1>{}</h1><p>{}</p><p><a href=`/`>{}</a></p>" [label; heading; paragraph; back]).

Record post := mk_post { p_title : bytes; p_date : bytes; p_text : bytes; p_subtitle : bytes; p_more : bytes }.

Definition english : list post :=
  [mk_post (text "Four colors from the morning market") (text "August 8, 2026")
     (text "The market changes character before the rest of the street wakes. Apricot, deep green, chalk white, and the red of hand-painted signs repeat from stall to stall. None of it was arranged as a palette, which is exactly why it works.")
     (text "Looking closely")
     (text "A camera helps, but a small notebook is better. Writing down one precise color or texture slows the eye enough to notice how much design already exists in ordinary places.");
   mk_post (text "Walking the old railway to the sea") (text "July 24, 2026")
     (text "The rails disappeared years ago, but the route remains legible in gentle curves and stone bridges. Ferns have taken the shaded cuttings, while the open stretches carry the smell of salt long before the water appears.")
     (text "A path with memory")
     (text "Good routes keep traces of their former purpose. The old platforms now hold benches, and station names survive on weathered tiles beside bicycle maps.");
   mk_post (text "A table made to outlast a decade") (text "July 6, 2026")
     (text "The workshop keeps every offcut large enough to become a handle, wedge, or repair. Nothing feels precious, but everything is considered. The resulting table is simple because the difficult decisions happened before assembly.")
     (text "Designed for repair")
     (text "The maker leaves joints visible and finishes the surface with oil. Scratches can be sanded, loose parts tightened, and the color will deepen instead of peeling away.")].

Definition chinese : list post :=
  [mk_post (text "清晨市场里的四种颜色") (text "2026 年 8 月 8 日")
     (text "整条街还没醒来时，市场已经有了自己的节奏。杏黄、深绿、粉笔白，还有手绘招牌的红，在不同摊位之间反复出现。它们并非刻意搭配，却因此格外自然。")
     (text "认真看一会儿")
     (text "相机当然有用，但小笔记本更能让目光慢下来。写下一种准确的颜色或触感，便会发现普通地方原本就藏着许多设计。");
   mk_post (text "沿着旧铁路向海边走") (text "2026 年 7 月 24 日")
     (text "铁轨早已拆除，缓慢的弯道和石桥仍然清楚地标记着路线。蕨类占据了背阴的路堑，开阔处则在见到海水之前很久便带来了盐的气味。")
     (text "一条有记忆的路")
     (text "好的步道会保留过去用途的痕迹。旧站台放上了长椅，风化的站名瓷砖旁则出现了自行车地图。");
   mk_post (text "一张经得起时间的木桌") (text "2026 年 7 月 6 日")
     (text "工坊留下每一块足以做成把手、木楔或补丁的边角料。没有什么被过分珍藏，但每件事都经过考虑。桌子最终显得简单，是因为困难的决定都发生在组装以前。")
     (text "为修补而设计")
     (text "制作者让接缝保持可见，只用木油处理表面。划痕可以磨平，松动处能够拧紧，颜色也会逐年变深，而不是成片剥落。")].

Definition empty_post : post := mk_post [] [] [] [] [].

Definition posts (g : GeneratedSite) : list (bytes * bytes) :=
  let selected := if in_chinese g then chinese else english in
  (fun index =>
     let post := nth index selected empty_post in
     (nth index slugs [],
      page g (format "{} — {}" [p_title post; g_title g])
        (format "<p class=`date`>{}</p><h1>{}</h1><p>{}</p><h2>{}</h2><p>{}</p>"
           [p_date post; p_title post; p_text post; p_subtitle post; p_more post]))) <$> [0; 1; 2]%nat.

Definition css (g : GeneratedSite) : bytes :=
  format ":root{{--accent:{};--accent-dark:{};--paper:#f7f3eb;--ink:#20211f;--muted:#6d6d65}}*{{box-sizing:border-box}}html{{font-family:Georgia,'Noto Serif SC',serif;color:var(--ink);background:var(--paper)}}body{{margin:0}}header,main,footer{{max-width:940px;margin:auto;padding-left:24px;padding-right:24px}}header{{padding-top:32px;padding-bottom:28px;display:flex;justify-content:space-between;border-bottom:1px solid #d9d3c7}}.brand{{font-family:ui-sans-serif,system-ui,sans-serif;font-weight:750;letter-spacing:.04em;color:var(--ink)}}nav{{display:flex;gap:20px}}a{{color:var(--accent-dark);text-decoration:none}}a:hover{{text-decoration:underline}}.hero{{max-width:780px;padding:88px 0 70px}}.eyebrow,.date,.section-title{{font:700 12px/1.3 ui-sans-serif,system-ui,sans-serif;letter-spacing:.14em;text-transform:uppercase;color:var(--accent)}}h1{{font-size:clamp(42px,7vw,72px);line-height:1.03;letter-spacing:-.035em;margin:12px 0 24px}}.hero>p:last-child,.article p{{font-size:19px;line-height:1.75;color:#4a4b46}}.posts{{padding:0 0 80px}}.posts article{{display:grid;grid-template-columns:145px 1fr;gap:18px;border-top:1px solid #d9d3c7;padding:30px 0}}.posts article h2{{font-size:26px;margin:0 0 10px}}.posts article p{{line-height:1.65;margin:0;color:var(--muted)}}.posts .date{{grid-row:1/3}}.article{{max-width:760px;padding-top:70px;padding-bottom:90px}}.article h1{{font-size:clamp(38px,6vw,62px)}}.article h2{{font-size:26px;margin-top:42px}}footer{{padding-top:28px;padding-bottom:42px;border-top:1px solid #d9d3c7;color:var(--muted);font:14px ui-sans-serif,system-ui,sans-serif}}@media(max-width:650px){{.hero{{padding:62px 0 48px}}.posts article{{grid-template-columns:1fr}}.posts .date{{grid-row:auto}}}}"
    [g_accent g; g_accent_dark g].

(** [chars().next()]: the bytes of the first character. *)
Definition first_char (l : bytes) : option bytes :=
  match l with
  | [] => None
  | b :: _ => Some (take (if b <? 128 then 1%nat else if b <? 224 then 2%nat else if b <? 240 then 3%nat else 4%nat) l)
  end.

Definition favicon (g : GeneratedSite) : bytes :=
  let letter := default (text "J") (first_char (g_title g)) in
  format "<svg xmlns=`http://www.w3.org/2000/svg` viewBox=`0 0 64 64`><rect width=`64` height=`64` rx=`15` fill=`{}`/><text x=`32` y=`43` text-anchor=`middle` font-family=`Georgia,serif` font-size=`36` fill=`#fff`>{}</text></svg>"
    [g_accent g; letter].

Definition sitemap : bytes :=
  format "<?xml version=`1.0` encoding=`UTF-8`?><urlset xmlns=`http://www.sitemaps.org/schemas/sitemap/0.9`><url><loc>/</loc></url><url><loc>/about/</loc></url><url><loc>/posts/morning-market-colors/</loc></url><url><loc>/posts/railway-to-the-sea/</loc></url><url><loc>/posts/a-lasting-table/</loc></url></urlset>" [].

Definition not_found_page (g : GeneratedSite) : bytes :=
  let '(title, description) :=
    if in_chinese g then
      (text "没有找到页面", text "这篇内容可能已经移动。返回首页查看近期文章。")
    else
      (text "Page not found", text "This story may have moved. Return home for the latest entries.") in
  page g title (format "<p class=`eyebrow`>404</p><h1>{}</h1><p>{}</p><p><a href=`/`>Home</a></p>" [title; description]).

Definition method_title (g : GeneratedSite) : bytes :=
  if in_chinese g then text "不支持此请求方式" else text "Method not allowed".

Definition method_description (g : GeneratedSite) : bytes :=
  if in_chinese g then text "此网站仅接受 GET 与 HEAD 请求" else text "This site accepts GET and HEAD requests".

(** * [StaticSite::generated] and [StaticSite::from_config] *)

Section generated_site.
Context `{Blake3} `{SiteFormat}.

Definition HTML : bytes := text "text/html; charset=utf-8".

Definition post_assets (g : GeneratedSite) : list (bytes * asset) :=
  concat ((fun sp : bytes * bytes =>
    let key := format "/posts/{}/" [sp.1] in
    let a := text_asset HTML sp.2 CACHE_HTML in
    [(trim_end_matches slash key, a); (key, a)]) <$> posts g).

Definition static_assets (g : GeneratedSite) : list (bytes * asset) :=
  let icon := text_asset (text "image/svg+xml") (favicon g) CACHE_ASSET in
  [(text "/assets/site.css", text_asset (text "text/css; charset=utf-8") (css g) CACHE_ASSET);
   (text "/favicon.svg", icon); (text "/favicon.ico", icon);
   (text "/robots.txt", text_asset (text "text/plain; charset=utf-8")
      (text "User-agent: *" ++ [10] ++ text "Allow: /" ++ [10] ++ text "Sitemap: /sitemap.xml" ++ [10]) CACHE_HTML);
   (text "/sitemap.xml", text_asset (text "application/xml; charset=utf-8") sitemap CACHE_HTML)].

(** The assets in the order in which they are inserted. *)
Definition generated_assets (g : GeneratedSite) : list (bytes * asset) :=
  let home_page := text_asset HTML (home g) CACHE_HTML in
  let about_page := text_asset HTML (about g) CACHE_HTML in
  [(text "/", home_page); (text "/index.html", home_page); (text "/about/", about_page); (text "/about", about_page)]
  ++ post_assets g ++ static_assets g.

Definition insert_all (l : list (bytes * asset)) : gmap bytes asset := foldl (fun m kv => <[kv.1 := kv.2]> m) ∅ l.

Definition generated (config : site_config) : static_site :=
  let g := new config in
  mk_static_site (insert_all (generated_assets g)) (text_asset HTML (not_found_page g) CACHE_HTML)
    (text_asset HTML (default_not_found (method_title g) (method_description g)) (text "no-store")).

End generated_site.

(** * Reading a page back *)

(** A scanner of tags: outside a tag, in a tag after the bytes of a word, or in a quoted
    value after the word before it.  It yields the words of the tags and the quoted values
    with their names; the name of [href="/"] is [href=]. *)
Inductive mark : Type := InText | InTag (word : bytes) | InValue (name value : bytes).

#[global] Instance mark_eq_dec : EqDecision mark.
Proof. solve_decision. Defined.

Definition push_word (w : bytes) (out : list (bytes * option bytes)) : list (bytes * option bytes) :=
  match w with [] => out | _ => out ++ [(w, None)] end.

Definition scan_byte (st : mark) (out : list (bytes * option bytes)) (b : Z) : mark * list (bytes * option bytes) :=
  match st with
  | InText => (if b =? 60 then InTag [] else InText, out)
  | InTag w =>
      if b =? 62 then (InText, push_word w out)
      else if b =? 34 then (InValue w [], out)
      else if b =? 32 then (InTag [], push_word w out)
      else (InTag (w ++ [b]), out)
  | InValue n v => if b =? 34 then (InTag [], out ++ [(n, Some v)]) else (InValue n (v ++ [b]), out)
  end.

Fixpoint scan (st : mark) (out : list (bytes * option bytes)) (l : bytes) : mark * list (bytes * option bytes) :=
  match l with [] => (st, out) | b :: l' => let '(st', out') := scan_byte st out b in scan st' out' l' end.

Definition href : bytes := text "href=".

(** The targets of the links, and the markup without the other values. *)
Definition redact (x : bytes * option bytes) : bytes * option bytes :=
  (x.1, if bool_decide (x.1 = href) then x.2 else None).

Definition markup (body : bytes) : mark * list (bytes * option bytes) :=
  let '(st, out) := scan InText [] body in (st, redact <$> out).

Definition links (body : bytes) : list bytes :=
  omap (fun x : bytes * option bytes => if bool_decide (x.1 = href) then x.2 else None) (markup body).2.

(** The locations of a sitemap. *)
Definition locations (xml : bytes) : list bytes := omap (strip_prefix (text "loc>")) (split_on 60 xml).

(** * Escaping *)

Definition special (b : Z) : bool := (b =? 60) || (b =? 62) || (b =? 34) || (b =? 39).
Definition plain (l : bytes) : Prop := Forall (fun b => special b = false) l.

Lemma replace_app c r a b : replace c r (a ++ b) = replace c r a ++ replace c r b.
Proof. unfold replace. by rewrite fmap_app, concat_app. Qed.

Lemma html_escape_app a b : html_escape (a ++ b) = html_escape a ++ html_escape b.
Proof. unfold html_escape. by rewrite !replace_app. Qed.

(** The five passes are one: the ampersands they write are not escaped again. *)
Definition escape_char (b : Z) : bytes :=
  if b =? 38 then text "&amp;" else if b =? 60 then text "&lt;" else if b =? 62 then text "&gt;"
  else if b =? 34 then text "&quot;" else if b =? 39 then text "&#39;" else [b].

Lemma replace_char c r b : replace c r [b] = if b =? c then r else [b].
Proof. unfold replace. cbn -[Z.eqb]. by rewrite app_nil_r. Qed.

Lemma html_escape_char b : html_escape [b] = escape_char b.
Proof.
  unfold escape_char. repeat match goal with |- context [if b =? ?c then _ else _] => destruct (Z.eqb_spec b c) as [->|?]; [reflexivity|] end.
  unfold html_escape. repeat (rewrite replace_char, (proj2 (Z.eqb_neq _ _)) by done). done.
Qed.

Lemma html_escape_chars l : html_escape l = concat (escape_char <$> l).
Proof. induction l as [|b l IH]; [done|]. change (b :: l) with ([b] ++ l). by rewrite html_escape_app, IH, html_escape_char. Qed.

Lemma html_escape_plain l : plain (html_escape l).
Proof.
  rewrite html_escape_chars. apply Forall_concat, Forall_fmap, Forall_forall. intros b _. unfold compose, escape_char.
  repeat match goal with |- context [if b =? ?c then _ else _] => destruct (b =? c) eqn:?; [repeat constructor|] end. apply Forall_singleton. unfold special. rewrite !orb_false_iff. auto.
Qed.

(** * Pages with marks in the place of the configured texts *)

(** The marks are no bytes; [fill] puts the texts there. *)
Definition marked (language : bytes) : GeneratedSite := mk_GeneratedSite [-1] [-2] [-3] language [] [].

Section fill.
Context (g : GeneratedSite).

Definition fill_byte (b : Z) : bytes :=
  if b =? -1 then g_title g else if b =? -2 then g_author g else if b =? -3 then g_description g else [b].
Definition fill (l : bytes) : bytes := concat (fill_byte <$> l).

Lemma fill_app a b : fill (a ++ b) = fill a ++ fill b.
Proof. unfold fill. by rewrite fmap_app, concat_app. Qed.

Lemma fill_cons b l : 0 <= b -> fill (b :: l) = b :: fill l.
Proof. intros Hb. unfold fill. cbn -[fill_byte]. unfold fill_byte. by rewrite !(proj2 (Z.eqb_neq _ _)) by lia. Qed.

Lemma fill_id l : Forall (fun b => 0 <= b) l -> fill l = l.
Proof. induction 1 as [|b l Hb _ IH]; [done|]. by rewrite fill_cons, IH. Qed.

Lemma fill_text t : fill (text t) = text t.
Proof. apply fill_id. induction t as [|a t IH]; cbn; constructor; [lia|done]. Qed.

Lemma format_eq a b t args :
  format (String a (String b t)) args =
  let c := Z.of_N (Ascii.N_of_ascii a) in
  let d := Z.of_N (Ascii.N_of_ascii b) in
  if (c =? 123) && (d =? 125) then match args with x :: args' => x ++ format t args' | [] => format t [] end
  else if ((c =? 123) || (c =? 125)) && (d =? c) then c :: format t args
  else (if c =? 96 then 34 else c) :: format (String b t) args.
Proof. reflexivity. Qed.

Lemma fill_format_strong n t args : (String.length t < n)%nat -> fill (format t args) = format t (fill <$> args).
Proof.
  revert t args. induction n as [|n IH]; intros t args Hn; [lia|]. destruct t as [|a [|b t]]; cbn [String.length] in Hn.
  - done.
  - change (format (String a "") args) with [if Z.of_N (Ascii.N_of_ascii a) =? 96 then 34 else Z.of_N (Ascii.N_of_ascii a)].
    rewrite fill_cons; [done|]. destruct (_ =? 96); lia.
  - rewrite !format_eq. cbv zeta. destruct (_ && _).
    + destruct args as [|x args]; cbn [fmap list_fmap]; [|rewrite fill_app; f_equal]; apply (IH t); lia.
    + destruct (_ && _); (rewrite fill_cons; [f_equal; apply IH; cbn [String.length]; lia|]); [lia|]. destruct (_ =? 96); lia.
Qed.

Lemma fill_format t args : fill (format t args) = format t (fill <$> args).
Proof. apply (fill_format_strong (S (String.length t))). lia. Qed.

(** The scanner on a filled page and on the page with marks. *)
Definition sim (a b : mark) : Prop :=
  match a, b with
  | InText, InText => True
  | InTag w, InTag w' => w = w'
  | InValue n v, InValue n' v' => n = n' /\ (n = href -> v = v')
  | _, _ => False
  end.

Definition outputs_agree (o o' : list (bytes * option bytes)) : Prop := redact <$> o = redact <$> o'.

Lemma push_word_agree w o o' : outputs_agree o o' -> outputs_agree (push_word w o) (push_word w o').
Proof. unfold outputs_agree. intros Ho. destruct w; [done|]. cbn. by rewrite !fmap_app, Ho. Qed.

Lemma value_agree n v v' o o' : (n = href -> v = v') -> outputs_agree o o' -> outputs_agree (o ++ [(n, Some v)]) (o' ++ [(n, Some v')]).
Proof.
  unfold outputs_agree. intros Hv Ho. rewrite !fmap_app, Ho. f_equal. cbn -[href]. unfold redact. cbn -[href].
  case_bool_decide as Hn; [by rewrite (Hv Hn)|done].
Qed.

Lemma sim_byte st st' o o' b : sim st st' -> outputs_agree o o' ->
  sim (scan_byte st o b).1 (scan_byte st' o' b).1 /\ outputs_agree (scan_byte st o b).2 (scan_byte st' o' b).2.
Proof.
  intros Hs Ho. destruct st as [|w|n v], st' as [|w'|n' v']; cbn [sim] in Hs; try done; cbn [scan_byte].
  - by destruct (b =? 60).
  - subst w'. repeat case_match; cbn; auto using push_word_agree.
  - destruct Hs as [<- Hv]. destruct (b =? 34); cbn [fst snd sim]; [split; [done|by apply value_agree]|].
    split; [|done]. split; [done|]. intros Hn. by rewrite (Hv Hn).
Qed.

Lemma scan_text x o l : plain x -> scan InText o (x ++ l) = scan InText o l.
Proof.
  induction 1 as [|b x Hb _ IH]; [done|]. cbn [app scan scan_byte]. unfold special in Hb. apply orb_false_iff in Hb as [Hb _].
  apply orb_false_iff in Hb as [Hb _]. apply orb_false_iff in Hb as [-> _]. exact IH.
Qed.

Lemma scan_value x n v o l : plain x -> scan (InValue n v) o (x ++ l) = scan (InValue n (v ++ x)) o l.
Proof.
  intros Hx. revert v. induction Hx as [|b x Hb _ IH]; intros v; [by rewrite app_nil_r|]. cbn [app scan scan_byte].
  unfold special in Hb. apply orb_false_iff in Hb as [Hb _]. apply orb_false_iff in Hb as [_ ->].
  rewrite IH. by rewrite <- app_assoc.
Qed.

(** Marks stand in text or in a value that is no link. *)
Fixpoint marks_fine (st : mark) (l : bytes) : bool :=
  match l with
  | [] => true
  | b :: l' =>
      ((0 <=? b) || match st with InText => true | InTag _ => false | InValue n _ => negb (bool_decide (n = href)) end)
      && marks_fine (scan_byte st [] b).1 l'
  end.

Lemma scan_byte_state st o b : (scan_byte st o b).1 = (scan_byte st [] b).1.
Proof. destruct st; cbn [scan_byte]; repeat case_match; done. Qed.

Context (Ht : plain (g_title g)) (Ha : plain (g_author g)) (Hd : plain (g_description g)).

Lemma fill_byte_cases b : fill_byte b = [b] \/ (b < 0 /\ plain (fill_byte b)).
Proof.
  unfold fill_byte. destruct (Z.eqb_spec b (-1)) as [->|]; [by right|]. destruct (Z.eqb_spec b (-2)) as [->|]; [by right|].
  destruct (Z.eqb_spec b (-3)) as [->|]; [by right|]. by left.
Qed.

Lemma scan_fill l : forall st st' o o', sim st st' -> outputs_agree o o' -> marks_fine st' l = true ->
  sim (scan st o (fill l)).1 (scan st' o' l).1 /\ outputs_agree (scan st o (fill l)).2 (scan st' o' l).2.
Proof.
  induction l as [|b l IH]; intros st st' o o' Hs Ho Hm; [done|]. cbn [marks_fine] in Hm. apply andb_prop in Hm as [Hb Hm].
  change (b :: l) with ([b] ++ l) at 1 3. rewrite fill_app. change (fill [b]) with (fill_byte b ++ []). rewrite app_nil_r.
  destruct (scan_byte st' o' b) as [s2 o2] eqn:E2. rewrite <- (scan_byte_state st' o' b), E2 in Hm.
  assert (scan st' o' (b :: l) = scan s2 o2 l) as -> by (cbn [scan]; by rewrite E2).
  destruct (fill_byte_cases b) as [-> | [Hneg Hp]].
  - destruct (sim_byte st st' o o' b Hs Ho) as [Hs2 Ho2]. rewrite E2 in Hs2, Ho2. cbn [app scan].
    destruct (scan_byte st o b) as [s1 o1]. by apply IH.
  - rewrite (proj2 (Z.leb_gt 0 b) Hneg) in Hb. cbn [orb] in Hb.
    destruct st as [|w|n v], st' as [|w'|n' v']; cbn [sim] in Hs; try done; cbn [scan_byte] in E2.
    + rewrite (proj2 (Z.eqb_neq b 60)) in E2 by lia. injection E2 as <- <-. rewrite scan_text by done. by apply IH.
    + destruct Hs as [<- Hv]. rewrite (proj2 (Z.eqb_neq b 34)) in E2 by lia. injection E2 as <- <-. rewrite scan_value by done.
      apply IH; [|done|done]. split; [done|]. intros ->. by rewrite bool_decide_true in Hb.
Qed.

Lemma markup_fill l : marks_fine InText l = true -> (markup l).1 = InText -> markup (fill l) = markup l.
Proof.
  unfold markup. intros Hm Hl. destruct (scan_fill l InText InText [] [] I eq_refl Hm) as [Hs Ho].
  destruct (scan InText [] (fill l)) as [s1 o1], (scan InText [] l) as [s2 o2]. cbn in Hl, Hs, Ho. subst s2.
  destruct s1; try done. by rewrite Ho.
Qed.
End fill.

(** * The pages *)

Definition marks (g : GeneratedSite) : GeneratedSite := marked (g_language g).

Definition site_ok (g : GeneratedSite) : Prop :=
  plain (g_title g) /\ plain (g_author g) /\ plain (g_description g) /\
  (g_language g = text "zh-CN" \/ g_language g = text "en").

Lemma new_ok `{Blake3} c : site_ok (new c).
Proof. unfold new. repeat split; cbn -[text html_escape]; try apply html_escape_plain. destruct (is_chinese _); auto. Qed.

Lemma fill_closed g l : forallb (Z.leb 0) l = true -> fill g l = l.
Proof. intros Hl. apply fill_id, Forall_forall. intros b Hb. rewrite forallb_forall in Hl. by apply Z.leb_le, Hl. Qed.

Lemma fill_title g : fill g [-1] = g_title g.
Proof. apply app_nil_r. Qed.
Lemma fill_author g : fill g [-2] = g_author g.
Proof. apply app_nil_r. Qed.
Lemma fill_description g : fill g [-3] = g_description g.
Proof. apply app_nil_r. Qed.

(** Fill a template argument by argument. *)
Ltac fill_arg :=
  cbn [marks marked g_title g_author g_description g_language];
  lazymatch goal with
  | |- fill _ [-1] = _ => exact (fill_title _)
  | |- fill _ [-2] = _ => exact (fill_author _)
  | |- fill _ [-3] = _ => exact (fill_description _)
  | |- fill _ (format _ (_ :: _)) = _ => fill_template
  | |- fill _ _ = _ => apply fill_closed; vm_compute; reflexivity
  end
with fill_args := repeat (apply (f_equal2 cons); [fill_arg|]); exact eq_refl
with fill_template := rewrite fill_format; cbn [fmap list_fmap]; apply (f_equal (format _)); fill_args.

Lemma page_fill g t1 t2 c1 c2 : site_ok g -> fill g t1 = t2 -> fill g c1 = c2 -> fill g (page (marks g) t1 c1) = page g t2 c2.
Proof.
  intros (_ & _ & _ & Hl) <- <-. unfold page. rewrite fill_format. apply (f_equal (format _)). cbn [fmap list_fmap].
  destruct g as [t a d l ac ad]. cbn [g_language] in Hl. destruct Hl as [-> | ->];
    repeat (apply (f_equal2 cons); [match goal with |- ?x = ?x => exact eq_refl | _ => fill_arg end|]); exact eq_refl.
Qed.

Lemma home_fill g : site_ok g -> fill g (home (marks g)) = home g.
Proof.
  destruct g as [t a d l ac ad]. intros (_ & _ & _ & Hl). cbn [g_language] in Hl.
  destruct Hl as [-> | ->]; unfold home; cbv zeta; fill_template.
Qed.

Lemma in_chinese_marks g : in_chinese (marks g) = in_chinese g.
Proof. reflexivity. Qed.

Lemma about_fill g : site_ok g -> fill g (about (marks g)) = about g.
Proof. intros Hg. unfold about. rewrite in_chinese_marks. destruct (in_chinese g); (apply page_fill; [done|fill_template..]). Qed.

Lemma not_found_fill g : site_ok g -> fill g (not_found_page (marks g)) = not_found_page g.
Proof.
  intros Hg. unfold not_found_page. rewrite in_chinese_marks.
  destruct (in_chinese g); (apply page_fill; [done|fill_arg|fill_template]).
Qed.

Lemma posts_fill g : site_ok g -> prod_map id (fill g) <$> posts (marks g) = posts g.
Proof.
  intros Hg. unfold posts. rewrite in_chinese_marks. cbn [fmap list_fmap].
  destruct (in_chinese g); repeat (apply (f_equal2 cons); [apply (f_equal2 pair); [exact eq_refl|apply page_fill; [done|fill_template..]]|]);
    exact eq_refl.
Qed.

(** The links of every page lead to one of these. *)
Definition targets : list bytes :=
  [text "/"; text "/about/"; text "/assets/site.css"; text "/favicon.svg"] ++ ((fun s => format "/posts/{}/" [s]) <$> slugs).

Definition page_fine (body : bytes) : bool :=
  marks_fine InText body && bool_decide ((markup body).1 = InText) && forallb (fun v => bool_decide (v ∈ targets)) (links body).

(** The pages that are served with status 200, by their paths. *)
Definition post_paths (sp : bytes * bytes) : list (bytes * bytes) :=
  let key := format "/posts/{}/" [sp.1] in [(trim_end_matches slash key, sp.2); (key, sp.2)].

Definition html_pages (g : GeneratedSite) : list (bytes * bytes) :=
  [(text "/", home g); (text "/index.html", home g); (text "/about/", about g); (text "/about", about g)]
  ++ concat (post_paths <$> posts g).

Lemma post_paths_fill g l : concat (post_paths <$> (prod_map id (fill g) <$> l)) = prod_map id (fill g) <$> concat (post_paths <$> l).
Proof. induction l as [|x l IH]; [done|]. cbn [fmap list_fmap concat]. rewrite fmap_app. f_equal. exact IH. Qed.

Lemma html_pages_fill g : site_ok g -> html_pages g = prod_map id (fill g) <$> html_pages (marks g).
Proof.
  intros Hg. unfold html_pages. rewrite fmap_app, <- post_paths_fill, posts_fill by done. f_equal.
  cbn [fmap list_fmap prod_map fst snd]. by rewrite home_fill, about_fill.
Qed.

Lemma marked_pages_fine l : l = text "zh-CN" \/ l = text "en" ->
  Forall (fun x => page_fine x.2 = true) (html_pages (marked l)) /\ page_fine (not_found_page (marked l)) = true.
Proof.
  intros [-> | ->]; (split; [|vm_compute; reflexivity]); (apply Forall_forall; apply forallb_forall with (f := fun x => page_fine x.2)); vm_compute; reflexivity.
Qed.

(** What a scanned page shows: it is complete, and its links are among the targets. *)
Definition page_good (body : bytes) : Prop := (markup body).1 = InText /\ Forall (fun v => v ∈ targets) (links body).

Lemma page_fine_fill g body : site_ok g -> page_fine body = true -> markup (fill g body) = markup body /\ page_good (fill g body).
Proof.
  intros (Ht & Ha & Hd & _) Hf. unfold page_fine in Hf. apply andb_prop in Hf as [Hf Hl]. apply andb_prop in Hf as [Hm Hs].
  apply bool_decide_eq_true in Hs. assert (markup (fill g body) = markup body) as Hk by (by apply markup_fill).
  split; [done|]. unfold page_good, links. rewrite Hk. split; [done|]. apply Forall_forall. intros v Hv.
  rewrite forallb_forall in Hl. by eapply bool_decide_eq_true, Hl.
Qed.

Lemma html_pages_good g i u body : site_ok g -> html_pages g !! i = Some (u, body) ->
  page_good body /\
  forall g', site_ok g' -> g_language g' = g_language g ->
    exists body', html_pages g' !! i = Some (u, body') /\ markup body' = markup body.
Proof.
  intros Hg Hi. rewrite html_pages_fill in Hi by done. apply list_lookup_fmap_Some in Hi as ([k b] & Hb & Hi). injection Hb as -> ->.
  destruct (marked_pages_fine (g_language g)) as [Hfine _]; [apply Hg|]. rewrite Forall_lookup in Hfine.
  destruct (page_fine_fill g b Hg (Hfine _ _ Hi)) as [Hk Hgood]. split; [done|]. intros g' Hg' Hl. exists (fill g' b).
  destruct (page_fine_fill g' b Hg' (Hfine _ _ Hi)) as [Hk' _]. rewrite html_pages_fill by done. unfold marks. rewrite Hl.
  split; [|by rewrite Hk, Hk']. apply list_lookup_fmap_Some. exists (k, b). split; [done|]. exact Hi.
Qed.

Lemma not_found_markup g : site_ok g -> markup (not_found_page g) = markup (not_found_page (marks g)) /\ page_good (not_found_page g).
Proof.
  intros Hg. destruct (marked_pages_fine (g_language g)) as [_ Hfine]; [apply Hg|].
  rewrite <- (not_found_fill g Hg). exact (page_fine_fill g _ Hg Hfine).
Qed.

Definition method_page (g : GeneratedSite) : bytes := default_not_found (method_title g) (method_description g).

Lemma method_page_good g : page_good (method_page g).
Proof.
  unfold method_page, method_title, method_description.
  destruct (in_chinese g); (split; [vm_compute; reflexivity|]); apply (bool_decide_unpack _); vm_compute; exact I.
Qed.

(** * Looking up *)

Lemma insert_all_lookup (l : list (bytes * asset)) k a : NoDup l.*1 -> insert_all l !! k = Some a <-> (k, a) ∈ l.
Proof.
  intros Hl. assert (insert_all l = list_to_map (reverse l)) as ->.
  { clear. induction l as [|x l IH] using rev_ind; [done|]. unfold insert_all in *. rewrite foldl_app, reverse_snoc. cbn. by rewrite IH. }
  rewrite <- elem_of_list_to_map; [by rewrite elem_of_reverse|]. by rewrite reverse_Permutation.
Qed.

Section lookup.
Context `{Blake3} `{SiteFormat}.

Definition html_asset (x : bytes * bytes) : bytes * asset := (x.1, text_asset HTML x.2 CACHE_HTML).

Lemma generated_split g : generated_assets g = (html_asset <$> html_pages g) ++ static_assets g.
Proof.
  unfold generated_assets, html_pages. rewrite fmap_app, <- app_assoc. apply (f_equal2 app); [exact eq_refl|].
  apply (f_equal2 app); [|exact eq_refl]. unfold post_assets.
  induction (posts g) as [|x l IH]; [exact eq_refl|]. cbn [fmap list_fmap concat]. rewrite fmap_app. apply (f_equal2 app); [exact eq_refl|exact IH].
Qed.

Definition asset_paths : list bytes :=
  [text "/"; text "/index.html"; text "/about/"; text "/about"]
  ++ concat ((fun s => [text "/posts/" ++ s; format "/posts/{}/" [s]]) <$> slugs)
  ++ [text "/assets/site.css"; text "/favicon.svg"; text "/favicon.ico"; text "/robots.txt"; text "/sitemap.xml"].

Lemma generated_paths g : (generated_assets g).*1 = asset_paths.
Proof. lazy. reflexivity. Qed.

Lemma generated_lookup c k a : assets (generated c) !! k = Some a <-> (k, a) ∈ generated_assets (new c).
Proof. apply insert_all_lookup. rewrite generated_paths. apply (bool_decide_unpack _). vm_compute. exact I. Qed.

Lemma path_served c m u : u ∈ asset_paths -> m = GET \/ m = HEAD -> sr_status (resolve (generated c) m u) = status_ok.
Proof.
  intros Hu Hm. rewrite <- (generated_paths (new c)) in Hu. apply list_elem_of_fmap in Hu as ([k a] & -> & Hk).
  apply generated_lookup in Hk. unfold resolve. cbn [fst]. rewrite Hk. by destruct Hm as [-> | ->].
Qed.

#[local] Opaque format markup links page_good home about posts page not_found_page default_not_found.

(** The two answers with a body in HTML that depend on the path. *)
Lemma generated_html c u a : assets (generated c) !! u = Some a -> a_content_type a = HTML ->
  exists i body, html_pages (new c) !! i = Some (u, body) /\ a = text_asset HTML body CACHE_HTML.
Proof.
  intros Hl Hh. apply generated_lookup in Hl. rewrite generated_split in Hl. apply elem_of_app in Hl as [Hl|Hl].
  - apply list_elem_of_fmap in Hl as ([k b] & Hb & Hk). injection Hb as -> ->. apply list_elem_of_lookup in Hk as [i Hi]. eauto.
  - exfalso. unfold static_assets in Hl. revert Hh.
    repeat (apply elem_of_cons in Hl as [Hl|Hl]; [injection Hl as -> ->; cbn [text_asset build_asset a_content_type]; by vm_compute|]).
    by apply elem_of_nil in Hl.
Qed.

Lemma html_page_served c u i body : html_pages (new c) !! i = Some (u, body) ->
  assets (generated c) !! u = Some (text_asset HTML body CACHE_HTML).
Proof.
  intros Hi. apply generated_lookup. rewrite generated_split. apply elem_of_app. left. apply list_elem_of_fmap.
  exists (u, body). split; [done|]. by eapply list_elem_of_lookup_2.
Qed.

Lemma generated_absent c c' u : assets (generated c) !! u = None -> assets (generated c') !! u = None.
Proof.
  intros Hn. destruct (assets (generated c') !! u) as [a|] eqn:E; [|done]. apply generated_lookup in E.
  assert (u ∈ (generated_assets (new c)).*1) as Hu.
  { rewrite generated_paths, <- (generated_paths (new c')). apply list_elem_of_fmap. by exists (u, a). }
  apply list_elem_of_fmap in Hu as ([k b] & -> & Hk). apply generated_lookup in Hk. cbn [fst] in Hn. congruence.
Qed.

Lemma targets_served c v : v ∈ targets -> sr_status (resolve (generated c) GET v) = status_ok.
Proof.
  intros Hv. apply path_served; [|by left]. assert (forallb (fun v => bool_decide (v ∈ asset_paths)) targets = true) as Hall by (vm_compute; reflexivity).
  rewrite forallb_forall in Hall. eapply bool_decide_eq_true, Hall. by apply list_elem_of_In.
Qed.

Lemma new_language c c' : is_chinese (language c') = is_chinese (language c) -> g_language (new c') = g_language (new c).
Proof. intros Hl. unfold new. cbn [g_language]. by rewrite Hl. Qed.

Definition answer (c : site_config) (m : method) (u : bytes) : asset := sr_asset (resolve (generated c) m u).

Lemma answer_good c m u : a_content_type (answer c m u) = HTML ->
  page_good (a_body (answer c m u)) /\
  forall c', is_chinese (language c') = is_chinese (language c) -> markup (a_body (answer c' m u)) = markup (a_body (answer c m u)).
Proof.
  unfold answer, resolve. destruct (negb _ && negb _).
  - intros _. cbn [sr_asset generated method_not_allowed text_asset build_asset a_body]. split; [apply method_page_good|].
    intros c' Hl. unfold method_title, method_description, in_chinese. rewrite (new_language _ _ Hl). exact eq_refl.
  - destruct (assets (generated c) !! u) as [a|] eqn:E; cbn [sr_asset reply].
    + intros Hh. destruct (generated_html _ _ _ E Hh) as (i & body & Hi & ->).
      destruct (html_pages_good _ _ _ _ (new_ok c) Hi) as [Hgood Hsame]. split; [exact Hgood|]. intros c' Hl.
      destruct (Hsame _ (new_ok c') (new_language _ _ Hl)) as (body' & Hi' & Hk).
      rewrite (html_page_served _ _ _ _ Hi'). cbn [sr_asset reply text_asset build_asset a_body]. exact Hk.
    + intros _. cbn [generated Site.not_found text_asset build_asset a_body].
      destruct (not_found_markup _ (new_ok c)) as [Hk Hgood]. split; [exact Hgood|]. intros c' Hl.
      rewrite (generated_absent c c' u E). cbn [sr_asset reply generated Site.not_found text_asset build_asset a_body].
      destruct (not_found_markup _ (new_ok c')) as [Hk' _]. rewrite Hk, Hk'. unfold marks. rewrite (new_language _ _ Hl). exact eq_refl.
Qed.

Lemma answer_asset c u a : (u, a) ∈ generated_assets (new c) -> answer c GET u = a.
Proof. intros Hu. apply generated_lookup in Hu. unfold answer, resolve. rewrite Hu. exact eq_refl. Qed.

Lemma answer_about c : a_content_type (answer c GET (text "/about")) = HTML.
Proof.
  rewrite (answer_asset c _ (text_asset HTML (about (new c)) CACHE_HTML)); [exact eq_refl|].
  do 3 (apply elem_of_cons; right). apply elem_of_cons. left. exact eq_refl.
Qed.

Lemma answer_sitemap c : a_body (answer c GET (text "/sitemap.xml")) = sitemap.
Proof.
  rewrite (answer_asset c _ (text_asset (text "application/xml; charset=utf-8") sitemap CACHE_HTML)); [exact eq_refl|].
  rewrite generated_split. apply elem_of_app. right. do 4 (apply elem_of_cons; right). apply elem_of_cons. left. exact eq_refl.
Qed.
End lookup.

(** * Theorems *)

(** C36: the generated site is closed and the configuration only fills in text.  Whatever
    the configured texts are, every HTML answer, to any method and path, is complete
    markup whose links are all answered with status 200, and its elements, attributes and
    links are the same for every other configuration in the same language; every location
    of the sitemap is answered too. *)
Theorem generated_site_closed `{Blake3} `{SiteFormat} (c : site_config) :
  (forall m u, a_content_type (answer c m u) = HTML ->
     (markup (a_body (answer c m u))).1 = InText /\
     Forall (fun v => sr_status (resolve (generated c) GET v) = status_ok) (links (a_body (answer c m u))) /\
     forall c', is_chinese (language c') = is_chinese (language c) ->
       markup (a_body (answer c' m u)) = markup (a_body (answer c m u))) /\
  a_body (answer c GET (text "/sitemap.xml")) = sitemap /\
  Forall (fun v => sr_status (resolve (generated c) GET v) = status_ok) (locations sitemap).
Proof.
  split; [|split].
  - intros m u Hh. destruct (answer_good c m u Hh) as [[Hs Hl] Hc]. split; [done|]. split; [|done].
    exact (Forall_impl _ (targets_served c) Hl).
  - apply answer_sitemap.
  - assert (forallb (fun v => bool_decide (v ∈ targets)) (locations sitemap) = true) as Hall by (vm_compute; reflexivity).
    apply Forall_forall. intros v Hv. rewrite forallb_forall in Hall. by eapply targets_served, bool_decide_eq_true, Hall.
Qed.

(** The favicon shows the first character of the escaped title: a title that begins with a
    character HTML reserves makes it a bare ampersand, which is not well-formed XML. *)
Theorem favicon_bare_ampersand `{Blake3} c b rest :
  title c = b :: rest -> (b = 38 \/ special b = true) ->
  favicon (new c) =
  format "<svg xmlns=`http://www.w3.org/2000/svg` viewBox=`0 0 64 64`><rect width=`64` height=`64` rx=`15` fill=`{}`/><text x=`32` y=`43` text-anchor=`middle` font-family=`Georgia,serif` font-size=`36` fill=`#fff`>{}</text></svg>"
    [g_accent (new c); text "&"].
Proof.
  intros Ht Hb. unfold favicon. assert (first_char (g_title (new c)) = Some (text "&")) as ->; [|exact eq_refl].
  unfold new. cbn [g_title]. rewrite Ht. unfold or_default. rewrite bool_decide_false by done.
  rewrite html_escape_chars. cbn [fmap list_fmap concat]. unfold escape_char, special in *.
  repeat match goal with |- context [if b =? ?x then _ else _] => destruct (b =? x) eqn:?; [reflexivity|] end.
  exfalso. destruct Hb as [->|Hb]; [done|]. rewrite !orb_true_iff in Hb. intuition congruence.
Qed.

#[local] Instance toy_blake3 : Blake3 := { blake3_hash := fun _ => [4] }.
#[local] Instance toy_format : SiteFormat := { body_digest_hex := fun _ => []; fmt_http_date := decimal }.

Lemma generated_site_closed_witness :
  let c := mk_site_config [] (text "<b>") [] [] (text "ZH") in
  a_content_type (answer c GET (text "/about")) = HTML /\
  (markup (a_body (answer c GET (text "/about")))).1 = InText.
Proof.
  cbv zeta. set (c := mk_site_config _ _ _ _ _). split; [apply answer_about|].
  destruct (generated_site_closed c) as [Hall _]. exact (proj1 (Hall GET (text "/about") (answer_about c))).
Defined.
