(* ===== verification/Origin.v ===== *)
(** [src/origin.rs]: the HTTP handler that tells XHTTP from everything else.

    The handler is proved against an interface of the session table
    ([SessionService]); base64 is a third-party parameter.  Hyper's request body is
    the list of its frames. *)

From S2P Require Import Prelude Reorder Xhttp Site Config.

(** [OpenDownload]; a reader carries the key its session is removed with. *)
Inductive open_outcome : Type := Opened (key : option (bytes * Z)) | Conflict | Capacity.

(** What the handler calls on the session table. *)
Class SessionService (T : Type) := {
  ss_push : T -> bytes -> Z -> bytes -> T * option push_result;
  ss_open : T -> bytes -> T * open_outcome;
  ss_remove : T -> bytes -> T }.

(** The table attaches the cleanup key to every reader it hands out. *)
Class SessionServiceLaws (T : Type) `{SessionService T} := {
  opened_key : forall t i t' k, ss_open t i = (t', Opened k) -> is_Some k }.

(** * Requests and responses *)

Inductive frame : Type := FData (b : bytes) | FTrailers | FError.

Record body := mk_body { size_upper : option Z; frames : list frame }.

Record request := mk_request { r_method : method; r_uri : uri; r_headers : header_map; r_body : body }.

Inductive response_body : Type := BEmpty | BFull (b : bytes) | BStream (session : bytes).

Record http_response := mk_response { status : Z; rsp_headers : list (bytes * bytes); rsp_body : response_body }.

Definition str (s : string) : bytes := bytes_of_string s.

(** [HeaderMap::insert] replaces. *)
Definition insert_header (r : http_response) (k v : bytes) : http_response :=
  mk_response (status r) (List.filter (fun h => negb (bytes_eqb h.1 k)) (rsp_headers r) ++ [(k, v)]) (rsp_body r).

Definition header (r : http_response) (k : bytes) : option bytes :=
  match find (fun h => bytes_eqb h.1 k) (rsp_headers r) with Some h => Some h.2 | None => None end.

Definition response (st : Z) (b : response_body) : http_response :=
  insert_header (mk_response st [] b) (str "server") (str "nginx").

Definition empty (st : Z) : http_response := response st BEmpty.

Definition method_len (m : method) : Z :=
  match m with GET => 3 | HEAD => 4 | POST => 4 | OPTIONS => 7 | OtherMethod n => len n end.

Definition request_header_bytes (r : request) : Z :=
  let target := match u_path_and_query (r_uri r) with Some p => len p | None => len (u_path (r_uri r)) end in
  fold_left (fun total h => saturating_add u64_max (saturating_add u64_max (saturating_add u64_max total (len h.1)) (len h.2)) 4)
    (hm_iter (r_headers r)) (method_len (r_method r) + target).

(** * Upload payloads *)

Inductive upload_error : Type := InvalidBase64 | TooLarge.

Definition should_read_body (p : placement) : bool := match p with Body | Auto => true | _ => false end.

Definition encoded_len_limit (decoded_limit : Z) : Z :=
  saturating_add u64_max (saturating_mul u64_max decoded_limit 4) 2 / 3 + 4.

Section payload.
Context `{HeaderText} `{Base64Url}.

Definition decode_payload_chunks (encoded : bytes) (limit : Z) : result upload_error bytes :=
  match encoded with
  | [] => Ok []
  | _ =>
      decoded ← ok_or (url_safe_no_pad_decode encoded) InvalidBase64;
      if limit <? len decoded then Err TooLarge else Ok decoded
  end.

(** The loop over the parts of one cookie header. *)
Fixpoint cookie_part (key : bytes) (parts : list bytes) : option bytes :=
  match parts with
  | [] => None
  | p :: parts' =>
      match split_once 61 (trim p) with
      | Some (n, v) => if bytes_eqb n key then Some v else cookie_part key parts'
      | None => cookie_part key parts'
      end
  end.

Fixpoint cookie_in (key : bytes) (values : list bytes) : option bytes :=
  match values with
  | [] => None
  | v :: values' =>
      match to_str v with
      | None => cookie_in key values'
      | Some raw =>
          match cookie_part key (split_on 59 raw) with
          | Some r => Some r
          | None => cookie_in key values'
          end
      end
  end.

Definition cookie_value (h : header_map) (key : bytes) : option bytes :=
  cookie_in key (hm_get_all h (str "cookie")).

(** The loops [for i in 0..]: [get i] is the [i]-th chunk, and the loop ends at the
    first one missing. *)
Fixpoint gather (fuel : nat) (get : Z -> option (result upload_error bytes)) (i : Z) (encoded : bytes) (cap : Z) :
    comp upload_error bytes :=
  match fuel with
  | O => Diverge
  | S f =>
      match get i with
      | None => Val encoded
      | Some (Err e) => Fail e
      | Some (Ok v) =>
          let encoded := encoded ++ v in
          if cap <? len encoded then Fail TooLarge else gather f get (i + 1) encoded cap
      end
  end.

Definition header_chunk (c : xhttp_config) (h : header_map) (i : Z) : option (result upload_error bytes) :=
  match hm_get h (uplink_data_key c ++ 45 :: decimal i) with
  | None => None
  | Some v => Some (ok_or (to_str v) InvalidBase64)
  end.

Definition cookie_chunk (c : xhttp_config) (h : header_map) (i : Z) : option (result upload_error bytes) :=
  match cookie_value h (uplink_data_key c ++ 95 :: decimal i) with
  | None => None
  | Some v => Some (Ok v)
  end.

(** Chunks have different names, so there are no more of them than headers, and no
    more than cookies. *)
Definition header_fuel (h : header_map) : nat := S (length (hm_iter h)).
Definition cookie_fuel (h : header_map) : nat :=
  S (length (concat ((fun v => match to_str v with Some raw => split_on 59 raw | None => [] end) <$>
                     hm_get_all h (str "cookie")))).

Definition decode_header_payload (c : xhttp_config) (h : header_map) : comp upload_error bytes :=
  match uplink_data_placement c with
  | Header | Auto =>
      encoded ← gather (header_fuel h) (header_chunk c h) 0 [] (encoded_len_limit (max_each_post_bytes c));
      lift (fun e => e) (decode_payload_chunks encoded (max_each_post_bytes c))
  | _ => Val []
  end.

Definition decode_cookie_payload (c : xhttp_config) (h : header_map) : comp upload_error bytes :=
  match uplink_data_placement c with
  | Cookie | Auto =>
      encoded ← gather (cookie_fuel h) (cookie_chunk c h) 0 [] (encoded_len_limit (max_each_post_bytes c));
      lift (fun e => e) (decode_payload_chunks encoded (max_each_post_bytes c))
  | _ => Val []
  end.

(** [read_body_payload]: the first chunk is kept as it is, and only a second one
    makes a copy. *)
Fixpoint read_frames (limit : Z) (first combined : option bytes) (total : Z) (fs : list frame) :
    result upload_error bytes :=
  match fs with
  | [] => Ok (match combined with Some b => b | None => default [] first end)
  | FError :: _ => Err InvalidBase64
  | FTrailers :: fs' => read_frames limit first combined total fs'
  | FData data :: fs' =>
      match data with
      | [] => read_frames limit first combined total fs'
      | _ =>
          let next_total := total + len data in
          if u64_max <? next_total then Err TooLarge
          else if limit <? next_total then Err TooLarge
          else
            match combined with
            | Some payload => read_frames limit first (Some (payload ++ data)) next_total fs'
            | None =>
                match first with
                | Some initial => read_frames limit None (Some (initial ++ data)) next_total fs'
                | None => read_frames limit (Some data) None next_total fs'
                end
            end
      end
  end.

Definition read_body_payload (c : xhttp_config) (b : body) : result upload_error bytes :=
  read_frames (max_each_post_bytes c) None None 0 (frames b).
End payload.

(** * The handler *)

Record origin := mk_origin { o_xhttp : xhttp_config; o_site : static_site }.

Record origin_state (T : Type) := mk_state {
  o_sessions : T;
  header_rejections : Z; body_rejections : Z; upload_bytes : Z; memory_rejections : Z;
  o_padding : response_padding }.
Arguments mk_state {T}. Arguments o_sessions {T}. Arguments header_rejections {T}. Arguments body_rejections {T}.
Arguments upload_bytes {T}. Arguments memory_rejections {T}. Arguments o_padding {T}.

Section handler.
Context {T : Type} `{HeaderText} `{Base64Url} `{SessionService T}.

Definition set_sessions (s : origin_state T) (t : T) : origin_state T :=
  mk_state t (header_rejections s) (body_rejections s) (upload_bytes s) (memory_rejections s) (o_padding s).
Definition count_header (s : origin_state T) : origin_state T :=
  mk_state (o_sessions s) (wrap 64 (header_rejections s + 1)) (body_rejections s) (upload_bytes s) (memory_rejections s) (o_padding s).
Definition count_body (s : origin_state T) : origin_state T :=
  mk_state (o_sessions s) (header_rejections s) (wrap 64 (body_rejections s + 1)) (upload_bytes s) (memory_rejections s) (o_padding s).
Definition count_upload (s : origin_state T) (n : Z) : origin_state T :=
  mk_state (o_sessions s) (header_rejections s) (body_rejections s) (wrap 64 (upload_bytes s + n)) (memory_rejections s) (o_padding s).
Definition count_memory (s : origin_state T) : origin_state T :=
  mk_state (o_sessions s) (header_rejections s) (body_rejections s) (upload_bytes s) (wrap 64 (memory_rejections s + 1)) (o_padding s).
Definition set_padding (s : origin_state T) (p : response_padding) : origin_state T :=
  mk_state (o_sessions s) (header_rejections s) (body_rejections s) (upload_bytes s) (memory_rejections s) p.

Definition reject_upload_too_large (s : origin_state T) : origin_state T * http_response := (count_body s, empty 413).

Definition upload_failure (s : origin_state T) (e : upload_error) : origin_state T * http_response :=
  match e with InvalidBase64 => (s, empty 400) | TooLarge => reject_upload_too_large s end.

Definition finish_upload (o : origin) (s : origin_state T) (sid : bytes) (seq : Z) (payload : bytes) :
    origin_state T * http_response :=
  if max_each_post_bytes (o_xhttp o) <? len payload then reject_upload_too_large s
  else
    let s := count_upload s (len payload) in
    let '(t, r) := ss_push (o_sessions s) sid seq payload in
    let s := set_sessions s t in
    match r with
    | Some Accepted | Some Duplicate =>
        (s, if bool_decide (uplink_data_placement (o_xhttp o) = Body) then empty 200
            else insert_header (empty 200) (str "cache-control") (str "no-store"))
    | Some TooManyPending | Some TooManyPendingBytes => (set_sessions s (ss_remove (o_sessions s) sid), empty 500)
    | Some GlobalBufferExceeded => (count_memory s, empty 503)
    | Some Closed => (s, empty 409)
    | None => (count_memory s, empty 503)
    end.

(** The early returns of [upload] are values of this type. *)
Definition read_payload (o : origin) (h : header_map) (b : body) : comp upload_error bytes :=
  head ← decode_header_payload (o_xhttp o) h;
  cookie ← decode_cookie_payload (o_xhttp o) h;
  let payload := head ++ cookie in
  if should_read_body (uplink_data_placement (o_xhttp o)) then
    if match size_upper b with Some n => max_each_post_bytes (o_xhttp o) <? n | None => false end
    then Fail TooLarge
    else
      body_payload ← lift (fun e => e) (read_body_payload (o_xhttp o) b);
      match payload with
      | [] => Val body_payload
      | _ => Val (payload ++ body_payload)
      end
  else Val payload.

Definition upload (o : origin) (s : origin_state T) (h : header_map) (b : body) (sid : bytes) (seq : Z) :
    comp unit (origin_state T * http_response) :=
  match read_payload o h b with
  | Val payload => Val (finish_upload o s sid seq payload)
  | Fail e => Val (upload_failure s e)
  | Crash => Crash
  | Diverge => Diverge
  end.

Definition download (o : origin) (s : origin_state T) (sid : bytes) : comp unit (origin_state T * http_response) :=
  let '(t, r) := ss_open (o_sessions s) sid in
  let s := set_sessions s t in
  match r with
  | Conflict => Val (s, empty 409)
  | Capacity => Val (s, empty 503)
  | Opened None => Crash
  | Opened (Some (id, _)) =>
      let r := response 200 (BStream id) in
      let r := insert_header r (str "x-accel-buffering") (str "no") in
      let r := insert_header r (str "cache-control") (str "no-store") in
      Val (s, if sse_header (o_xhttp o) then insert_header r (str "content-type") (str "text/event-stream") else r)
  end.

Definition site_response (o : origin) (r : request) : http_response :=
  let rep := resolve (o_site o) (r_method r) (u_path (r_uri r)) in
  let a := sr_asset rep in
  let not_modified := match hm_get (r_headers r) (str "if-none-match") with
                      | Some v => bytes_eqb v (a_etag a)
                      | None => false
                      end in
  let is_head := bool_decide (r_method r = HEAD) in
  let b := if is_head || not_modified then BEmpty else BFull (a_body a) in
  let x := response (if not_modified then 304 else sr_status rep) b in
  let x := insert_header x (str "content-type") (a_content_type a) in
  let x := if not_modified then x else insert_header x (str "content-length") (decimal (len (a_body a))) in
  let x := insert_header x (str "cache-control") (a_cache_control a) in
  let x := insert_header x (str "etag") (a_etag a) in
  let x := insert_header x (str "last-modified") (a_last_modified a) in
  let x := insert_header x (str "x-content-type-options") (str "nosniff") in
  let x := insert_header x (str "referrer-policy") (str "strict-origin-when-cross-origin") in
  match sr_allow rep with Some v => insert_header x (str "allow") v | None => x end.

(** [draw] is the random length drawn for the response. *)
Definition add_xhttp_response_padding (s : origin_state T) (r : http_response) (draw : Z) :
    comp unit (origin_state T * http_response) :=
  '(p, v) ← header_value (o_padding s) draw;
  mret (set_padding s p, insert_header r (str "x-padding") v).

Definition handle (o : origin) (s : origin_state T) (r : request) (draw : Z) : comp unit (origin_state T * http_response) :=
  let c := o_xhttp o in
  let u := r_uri r in
  if max_header_bytes c <? request_header_bytes r then Val (count_header s, empty 431)
  else if bytes_eqb (u_path u) (str "/healthz") then Val (s, response 200 (BFull (str "ok" ++ [10])))
  else if bytes_eqb (u_path u) (str "/readyz") then Val (s, response 200 (BFull (str "ready" ++ [10])))
  else if negb (path_matches (x_path c) u) || negb (host_matches (x_host c) (r_headers r) u) then Val (s, site_response o r)
  else if bool_decide (r_method r = OPTIONS) then add_xhttp_response_padding s (empty 200) draw
  else if negb (is_padding_len_valid (extract_padding_len (r_headers r) u) (padding_from c) (padding_to c))
  then Val (s, site_response o r)
  else
    '(s1, x) ← match classify_borrowed (r_method r) (extract_meta_from_path_borrowed (x_path c) u) with
               | PacketUpload sid seq => upload o s (r_headers r) (r_body r) sid seq
               | StreamDownload sid => download o s sid
               | Unsupported => Val (s, empty 500)
               | StreamUp _ | StreamOne => Val (s, empty 400)
               | Options => Val (s, empty 200)
               end;
    add_xhttp_response_padding s1 x draw.
End handler.

(** * Lemmas *)

(** ** Bodies *)

Definition data_of (fs : list frame) : bytes := concat ((fun f => match f with FData b => b | _ => [] end) <$> fs).
Definition has_error (fs : list frame) : bool := existsb (fun f => match f with FError => true | _ => false end) fs.

Definition held (first combined : option bytes) : bytes :=
  match combined with Some b => b | None => default [] first end.

Lemma read_frames_spec limit first combined total fs p :
  limit <= u64_max -> total = len (held first combined) -> total <= limit -> (combined = None \/ first = None) ->
  read_frames limit first combined total fs = Ok p <->
  has_error fs = false /\ p = held first combined ++ data_of fs /\ len p <= limit.
Proof.
  intros Hm. revert first combined total. induction fs as [|f fs IH]; intros first combined total Ht Hle Hone.
  - unfold data_of. cbn [read_frames has_error existsb fmap list_fmap concat]. rewrite app_nil_r. fold (held first combined).
    split; [intros Hp; apply Ok_inj in Hp; subst p; split; [done|]; split; [done|lia]|]. by intros (_ & -> & _).
  - assert (data_of (f :: fs) = (match f with FData b => b | _ => [] end) ++ data_of fs) as Hd by done.
    rewrite Hd. destruct f as [[|b0 b]| |]; cbn [read_frames has_error existsb orb]; fold (has_error fs).
    + by apply IH.
    + remember (b0 :: b) as data eqn:Ed. clear Ed Hd.
      assert (forall first' combined', held first' combined' = held first combined ++ data ->
        (combined' = None \/ first' = None) -> total + len data <= limit ->
        read_frames limit first' combined' (total + len data) fs = Ok p <->
        has_error fs = false /\ p = held first combined ++ data ++ data_of fs /\ len p <= limit) as Hgo.
      { intros first' combined' Hh Ho Hl. rewrite IH; [|by rewrite Hh, len_app, Ht|done|done]. by rewrite Hh, <- app_assoc. }
      assert (limit < total + len data -> ~ (p = held first combined ++ data ++ data_of fs /\ len p <= limit)) as Hno.
      { intros Hl [-> Hp]. rewrite !len_app in Hp. pose proof (len_nonneg (data_of fs)). lia. }
      destruct (u64_max <? total + len data) eqn:E1; split_bool.
      { split; [done|]. intros (_ & Hp). exfalso. apply Hno; [lia|done]. }
      destruct (limit <? total + len data) eqn:E2; split_bool.
      { split; [done|]. intros (_ & Hp). exfalso. by apply Hno. }
      destruct combined as [c|]; [|destruct first as [i|]]; apply Hgo; cbn; auto.
      destruct Hone as [Hone|Hone]; [done|]. by right.
    + by apply IH.
    + split; [done|]. by intros [? _].
Qed.

Lemma read_body_spec c b p :
  0 <= max_each_post_bytes c <= u64_max ->
  read_body_payload c b = Ok p <->
  has_error (frames b) = false /\ p = data_of (frames b) /\ len p <= max_each_post_bytes c.
Proof. intros Hm. unfold read_body_payload. by apply read_frames_spec; [lia|done|lia|left]. Qed.

Lemma read_frames_error limit first combined total fs :
  read_frames limit first combined total fs = Err InvalidBase64 -> has_error fs = true.
Proof.
  revert first combined total. induction fs as [|f fs IH]; intros first combined total; [done|].
  destruct f as [[|b0 b]| |]; cbn [read_frames has_error existsb orb]; fold (has_error fs); [apply IH| |apply IH|done].
  destruct (_ <? _); [done|]. destruct (_ <? _); [done|]. destruct combined; [apply IH|]. destruct first; apply IH.
Qed.

(** ** The loops over numbered chunks end *)

Lemma decimal_inj a b : 0 <= a -> 0 <= b -> decimal a = decimal b -> a = b.
Proof.
  intros Ha Hb Hab. pose proof (decimal_parse (Z.max a b) a ltac:(lia)) as H1.
  rewrite Hab, decimal_parse in H1 by lia. by injection H1.
Qed.

Lemma lower_decimal n : 0 <= n -> to_ascii_lowercase (decimal n) = decimal n.
Proof.
  intros Hn. pose proof (decimal_digits_fuel (S (Z.to_nat (Z.log2 n))) n Hn) as Hd. fold (decimal n) in Hd.
  unfold to_ascii_lowercase. induction Hd as [|b l Hb _ IH]; [done|]. cbn [fmap list_fmap] in *. rewrite IH. f_equal.
  unfold ascii_lower. by rewrite (proj2 (Z.leb_gt 65 b)) by lia.
Qed.

Lemma gather_graceful (key : Z -> bytes) (L : list bytes) get fuel cap :
  (forall i j, 0 <= i -> 0 <= j -> key i = key j -> i = j) ->
  (forall i, 0 <= i -> is_Some (get i) -> key i ∈ L) -> (length L < fuel)%nat ->
  graceful (gather fuel get 0 [] cap).
Proof.
  intros Hinj Hin Hf. assert (forall fuel i enc, (length L < fuel + i)%nat ->
    (forall j, (j < i)%nat -> is_Some (get (Z.of_nat j))) -> graceful (gather fuel get (Z.of_nat i) enc cap)) as Hg.
  { clear fuel Hf. induction fuel as [|f IH]; intros i enc Hf Hget; cbn [gather].
    - exfalso. assert (length ((fun j => key (Z.of_nat j)) <$> seq 0 i) <= length L)%nat as Hle.
      { apply submseteq_length, NoDup_submseteq.
        - apply NoDup_fmap_2_strong; [|apply NoDup_seq]. intros x y _ _ Hxy. apply Hinj in Hxy; lia.
        - intros x Hx. apply list_elem_of_fmap in Hx as (j & -> & Hj). apply elem_of_seq in Hj.
          apply Hin; [lia|]. apply Hget. lia. }
      rewrite length_fmap, length_seq in Hle. lia.
    - destruct (get (Z.of_nat i)) as [[v|e]|] eqn:Eg; [|done|done]. cbv zeta. destruct (cap <? _); [done|].
      replace (Z.of_nat i + 1) with (Z.of_nat (S i)) by lia. apply IH; [lia|].
      intros j Hj. destruct (decide (j = i)) as [->|]; [by rewrite Eg|]. apply Hget. lia. }
  apply (Hg fuel 0%nat); [lia|]. lia.
Qed.

(** Looking a header up finds a header of the request, whose name is lower case. *)
Definition headers_ok (h : header_map) : Prop :=
  forall k v, hm_get h k = Some v -> (to_ascii_lowercase k, v) ∈ hm_iter h.

Section payload_proofs.
Context `{HeaderText} `{Base64Url}.

Lemma header_gather_graceful c h cap : headers_ok h -> graceful (gather (header_fuel h) (header_chunk c h) 0 [] cap).
Proof.
  intros Hh. apply (gather_graceful (fun i => to_ascii_lowercase (uplink_data_key c ++ 45 :: decimal i)) (hm_iter h).*1).
  - intros i j Hi Hj. unfold to_ascii_lowercase. rewrite !fmap_app. intros Heq. apply app_inv_head in Heq.
    cbn [fmap list_fmap] in Heq. injection Heq as Heq. fold (to_ascii_lowercase (decimal i)) (to_ascii_lowercase (decimal j)) in Heq.
    rewrite !lower_decimal in Heq by done. by apply decimal_inj.
  - intros i Hi [r Hr]. unfold header_chunk in Hr. destruct (hm_get _ _) as [v|] eqn:E; [|done].
    apply Hh in E. apply list_elem_of_fmap. by eexists (_, v).
  - unfold header_fuel. rewrite length_fmap. lia.
Qed.

Definition cookie_name (p : bytes) : bytes := match split_once 61 (trim p) with Some (n, _) => n | None => [] end.

Lemma cookie_part_name key parts v : cookie_part key parts = Some v -> key ∈ cookie_name <$> parts.
Proof.
  induction parts as [|p parts IH]; cbn [cookie_part fmap list_fmap]; [done|]. intros Hp. apply elem_of_cons.
  unfold cookie_name at 1. destruct (split_once 61 (trim p)) as [[n w]|]; [|right; by apply IH].
  destruct (bytes_eqb n key) eqn:E; [left; by apply bytes_eqb_eq in E|right; by apply IH].
Qed.

Definition cookie_parts (values : list bytes) : list bytes :=
  concat ((fun v => match to_str v with Some raw => split_on 59 raw | None => [] end) <$> values).

Lemma cookie_in_name key values v : cookie_in key values = Some v -> key ∈ cookie_name <$> cookie_parts values.
Proof.
  unfold cookie_parts. induction values as [|w values IH]; cbn [cookie_in fmap list_fmap concat]; [done|].
  rewrite fmap_app, elem_of_app. destruct (to_str w) as [raw|]; [|right; by apply IH].
  destruct (cookie_part key (split_on 59 raw)) as [r|] eqn:E; [left; by eapply cookie_part_name|right; by apply IH].
Qed.

Lemma cookie_gather_graceful c h cap : graceful (gather (cookie_fuel h) (cookie_chunk c h) 0 [] cap).
Proof.
  apply (gather_graceful (fun i => uplink_data_key c ++ 95 :: decimal i)
    (cookie_name <$> cookie_parts (hm_get_all h (str "cookie")))).
  - intros i j Hi Hj Heq. apply app_inv_head in Heq. injection Heq as Heq. by apply decimal_inj.
  - intros i Hi [r Hr]. unfold cookie_chunk in Hr. destruct (cookie_value _ _) as [v|] eqn:E; [|done].
    by eapply cookie_in_name.
  - unfold cookie_fuel. rewrite length_fmap. unfold cookie_parts. lia.
Qed.

Lemma read_payload_graceful o h b : headers_ok h -> graceful (read_payload o h b).
Proof.
  intros Hh. unfold read_payload. apply graceful_bind; [|intros head _; apply graceful_bind; [|intros cookie _]].
  - unfold decode_header_payload. destruct (uplink_data_placement _); try done;
      (apply graceful_bind; [by apply header_gather_graceful|intros e _; by destruct (decode_payload_chunks e _)]).
  - unfold decode_cookie_payload. destruct (uplink_data_placement _); try done;
      (apply graceful_bind; [apply cookie_gather_graceful|intros e _; by destruct (decode_payload_chunks e _)]).
  - cbv zeta. destruct (should_read_body _); [|done].
    destruct (match size_upper b with Some _ => _ | None => _ end); [done|].
    apply graceful_bind; [by destruct (read_body_payload _ _)|]. intros p _. by destruct (head ++ cookie).
Qed.
End payload_proofs.

(** ** The handler *)

Section handler_proofs.
Context {T : Type} `{HeaderText} `{Base64Url} `{SessionService T}.

(** The request passes the gate of the XHTTP path: header size, path, host, and a
    padding of the configured length. *)
Definition is_xhttp (o : origin) (r : request) : bool :=
  path_matches (x_path (o_xhttp o)) (r_uri r) && host_matches (x_host (o_xhttp o)) (r_headers r) (r_uri r) &&
  is_padding_len_valid (extract_padding_len (r_headers r) (r_uri r)) (padding_from (o_xhttp o)) (padding_to (o_xhttp o)).

Definition is_health (r : request) : bool :=
  bytes_eqb (u_path (r_uri r)) (str "/healthz") || bytes_eqb (u_path (r_uri r)) (str "/readyz").

Definition request_class (o : origin) (r : request) : request_kind :=
  classify_borrowed (r_method r) (extract_meta_from_path_borrowed (x_path (o_xhttp o)) (r_uri r)).

(** What the classes of requests do. *)
Definition dispatch (o : origin) (s : origin_state T) (r : request) : comp unit (origin_state T * http_response) :=
  match request_class o r with
  | PacketUpload sid seq => upload o s (r_headers r) (r_body r) sid seq
  | StreamDownload sid => download o s sid
  | Unsupported => Val (s, empty 500)
  | StreamUp _ | StreamOne => Val (s, empty 400)
  | Options => Val (s, empty 200)
  end.

Lemma handle_xhttp o s r draw :
  request_header_bytes r <= max_header_bytes (o_xhttp o) -> is_health r = false -> is_xhttp o r = true ->
  r_method r <> OPTIONS ->
  handle o s r draw = ('(s1, x) ← dispatch o s r; add_xhttp_response_padding s1 x draw).
Proof.
  intros Hh He Hx Hm. unfold handle. rewrite (proj2 (Z.ltb_ge _ _)) by done.
  unfold is_health in He. apply orb_false_iff in He as [-> ->].
  unfold is_xhttp in Hx. apply andb_true_iff in Hx as [Hx ->]. apply andb_true_iff in Hx as [-> ->].
  by rewrite bool_decide_false.
Qed.

Lemma header_insert_eq x k v : header (insert_header x k v) k = Some v.
Proof.
  unfold header, insert_header. cbn [rsp_headers]. induction (rsp_headers x) as [|[a b] l IH]; cbn.
  - by rewrite bytes_eqb_refl.
  - destruct (bytes_eqb a k) eqn:Ea; cbn; [done|]. by rewrite Ea.
Qed.

Lemma padding_ok (s : origin_state T) x draw :
  padding_cache_ok (o_padding s) -> (rp_from (o_padding s) < rp_to (o_padding s) -> rp_from (o_padding s) <= draw <= rp_to (o_padding s)) ->
  exists p, add_xhttp_response_padding s x draw
    = Val (set_padding s p, insert_header x (str "x-padding")
        (generate_response_padding (rp_from (o_padding s)) (rp_to (o_padding s)) draw)) /\
    padding_cache_ok p /\ rp_from p = rp_from (o_padding s) /\ rp_to p = rp_to (o_padding s).
Proof.
  intros Hc Hd. destruct (header_value_ok _ _ Hc Hd) as (p & Hv & Hrest). exists p. split; [|done].
  unfold add_xhttp_response_padding. by rewrite Hv.
Qed.

(** The padding cache is correct and has the configured range. *)
Definition pads (o : origin) (s : origin_state T) : Prop :=
  padding_cache_ok (o_padding s) /\ rp_from (o_padding s) = padding_from (o_xhttp o) /\
  rp_to (o_padding s) = padding_to (o_xhttp o) /\ 0 <= padding_from (o_xhttp o) <= padding_to (o_xhttp o).

(** Padding an answer changes nothing else. *)
Lemma padded (o : origin) (s s1 : origin_state T) x draw :
  pads o s -> padding_from (o_xhttp o) <= draw <= padding_to (o_xhttp o) -> o_padding s1 = o_padding s ->
  exists s' x', add_xhttp_response_padding s1 x draw = Val (s', x') /\ pads o s' /\
    (exists v, header x' (str "x-padding") = Some v /\ padding_from (o_xhttp o) <= len v <= padding_to (o_xhttp o)) /\
    o_sessions s' = o_sessions s1 /\ status x' = status x /\ upload_bytes s' = upload_bytes s1.
Proof.
  intros (Hc & Hf & Ht & Hft) Hd Hs1. destruct (padding_ok s1 x draw) as (p & Ha & Hp1 & Hp2 & Hp3);
    [by rewrite Hs1|rewrite Hs1, Hf, Ht; lia|]. rewrite Hs1 in *. eexists _, _. split; [exact Ha|].
  split; [by repeat split; cbn; congruence || lia|]. split; [|done]. eexists. split; [apply header_insert_eq|].
  rewrite Hf, Ht. unfold generate_response_padding, len. rewrite length_replicate.
  pose proof (random_length_range (padding_from (o_xhttp o)) (padding_to (o_xhttp o)) draw). lia.
Qed.

(** How a handler step leaves the padding cache alone. *)
Definition keeps_padding (s : origin_state T) (m : comp unit (origin_state T * http_response)) : Prop :=
  match m with Val (s', _) => o_padding s' = o_padding s | _ => False end.

Lemma finish_upload_padding o s sid seq p : o_padding (finish_upload o s sid seq p).1 = o_padding s.
Proof.
  unfold finish_upload. destruct (_ <? _); [done|]. cbv zeta. destruct (ss_push _ _ _ _) as [t [[]|]]; done.
Qed.

Lemma dispatch_padding `{!SessionServiceLaws T} o s r :
  headers_ok (r_headers r) -> keeps_padding s (dispatch o s r).
Proof.
  intros Hh. unfold dispatch. destruct (request_class o r) as [sid seq|sid|sid| | |]; try done.
  - unfold upload. pose proof (read_payload_graceful o (r_headers r) (r_body r) Hh) as Hg.
    destruct (read_payload _ _ _) as [p|e| |]; try done; cbn.
    + pose proof (finish_upload_padding o s sid seq p). by destruct (finish_upload _ _ _ _ _).
    + by destruct e.
  - unfold download. destruct (ss_open (o_sessions s) sid) as [t [[[id h]|]| |]] eqn:E; try done.
    by destruct (opened_key _ _ _ _ E).
Qed.

Definition push_status (r : option push_result) : Z :=
  match r with
  | Some Accepted | Some Duplicate => 200
  | Some TooManyPending | Some TooManyPendingBytes => 500
  | Some Closed => 409
  | Some GlobalBufferExceeded | None => 503
  end.

(** The table after a push: a session that overflowed is removed. *)
Definition after_push (t : T) (sid : bytes) (r : option push_result) : T :=
  match r with Some TooManyPending | Some TooManyPendingBytes => ss_remove t sid | _ => t end.

Lemma finish_upload_push o s sid seq p :
  len p <= max_each_post_bytes (o_xhttp o) ->
  let '(t, r) := ss_push (o_sessions s) sid seq p in
  o_sessions (finish_upload o s sid seq p).1 = after_push t sid r /\
  status (finish_upload o s sid seq p).2 = push_status r /\
  upload_bytes (finish_upload o s sid seq p).1 = wrap 64 (upload_bytes s + len p).
Proof.
  intros Hl. unfold finish_upload. rewrite (proj2 (Z.ltb_ge _ _)) by done. cbv zeta. cbn [o_sessions count_upload].
  destruct (ss_push _ _ _ _) as [t [[]|]]; cbn; try done; by destruct (bool_decide _).
Qed.

Lemma read_payload_body o h b :
  uplink_data_placement (o_xhttp o) = Body -> (forall n, size_upper b = Some n -> n <= max_each_post_bytes (o_xhttp o)) ->
  read_payload o h b = lift (fun e => e) (read_body_payload (o_xhttp o) b).
Proof.
  intros Hp Hs. unfold read_payload, decode_header_payload, decode_cookie_payload. rewrite Hp. cbn.
  destruct (size_upper b) as [n|]; [rewrite (proj2 (Z.ltb_ge _ _)) by (by apply Hs)|]; by destruct (read_body_payload _ _).
Qed.

(** * Theorems *)

(** The handler always answers.  Whatever the request, the handler neither
    panics nor loops (the numbered header and cookie chunks run out, the padding
    index is in the cache), keeps the padding cache correct, and every answer to a
    request that qualifies as XHTTP carries a padding of the configured length. *)
Theorem handler_answers `{!SessionServiceLaws T} (o : origin) (s : origin_state T) r draw :
  headers_ok (r_headers r) -> pads o s -> padding_from (o_xhttp o) <= draw <= padding_to (o_xhttp o) ->
  exists s' x, handle o s r draw = Val (s', x) /\ pads o s' /\
    (request_header_bytes r <= max_header_bytes (o_xhttp o) -> is_health r = false -> is_xhttp o r = true ->
     exists v, header x (str "x-padding") = Some v /\ padding_from (o_xhttp o) <= len v <= padding_to (o_xhttp o)).
Proof.
  intros Hh Hp Hd. unfold handle.
  destruct (_ <? _) eqn:E1; [eexists _, _; split; [reflexivity|]; split; [done|]; split_bool; lia|].
  destruct (bytes_eqb (u_path (r_uri r)) (str "/healthz")) eqn:E2.
  { eexists _, _. split; [reflexivity|]. unfold is_health. by rewrite E2. }
  destruct (bytes_eqb (u_path (r_uri r)) (str "/readyz")) eqn:E3.
  { eexists _, _. split; [reflexivity|]. unfold is_health. by rewrite E2, E3. }
  unfold is_xhttp. destruct (path_matches _ _), (host_matches _ _ _); cbn [negb orb andb]; try by eexists _, _.
  destruct (bool_decide (r_method r = OPTIONS)).
  { destruct (padded o s s (empty 200) draw Hp Hd eq_refl) as (s' & x & Ha & Hp' & Hv & _). exists s', x. done. }
  destruct (is_padding_len_valid _ _ _); cbn [negb]; [|by eexists _, _].
  pose proof (dispatch_padding o s r Hh) as Hk. unfold dispatch, request_class in Hk.
  match type of Hk with keeps_padding _ ?m => destruct m as [[s1 x1]| | |]; try done end. cbn in Hk |- *.
  destruct (padded o s s1 x1 draw Hp Hd Hk) as (s' & x & Ha & Hp' & Hv & _). exists s', x. done.
Qed.

(** C18: a packet reaches its session exactly once and unchanged.  A POST to
    [base/sid/n] that qualifies as XHTTP, with the payload in its body, calls the
    session table once with session [sid], sequence number [n] and the concatenated
    data of the body's frames, however they are cut, and answers with the code of
    the table's result (removing the session that overflowed); a body above the
    limit is answered 413 and a broken one 400 without touching the table. *)
Theorem packet_delivered (o : origin) (s : origin_state T) r draw sid n :
  uplink_data_placement (o_xhttp o) = Body -> 0 <= max_each_post_bytes (o_xhttp o) <= u64_max ->
  request_header_bytes r <= max_header_bytes (o_xhttp o) -> is_health r = false -> is_xhttp o r = true ->
  r_method r = POST -> sid <> [] -> Forall (fun b => b <> slash) sid -> 0 <= n <= u64_max ->
  u_path (r_uri r) = x_path (o_xhttp o) ++ sid ++ slash :: decimal n ->
  (forall k, size_upper (r_body r) = Some k -> k <= max_each_post_bytes (o_xhttp o)) ->
  pads o s -> padding_from (o_xhttp o) <= draw <= padding_to (o_xhttp o) ->
  let data := data_of (frames (r_body r)) in
  let '(t, res) := ss_push (o_sessions s) sid n data in
  exists s' x, handle o s r draw = Val (s', x) /\
    (has_error (frames (r_body r)) = false -> len data <= max_each_post_bytes (o_xhttp o) ->
     o_sessions s' = after_push t sid res /\ status x = push_status res /\
     upload_bytes s' = wrap 64 (upload_bytes s + len data)) /\
    (has_error (frames (r_body r)) = false -> max_each_post_bytes (o_xhttp o) < len data ->
     o_sessions s' = o_sessions s /\ status x = 413) /\
    (has_error (frames (r_body r)) = true -> o_sessions s' = o_sessions s /\ (status x = 400 \/ status x = 413)).
Proof.
  intros Hpl Hmax Hh He Hx Hm Hsid Hns Hn Hu Hsz Hc Hd data. destruct (ss_push _ _ _ _) as [t res] eqn:Ep.
  rewrite handle_xhttp by (done || by rewrite Hm).
  assert (request_class o r = PacketUpload sid n) as Hcl.
  { destruct (packet_url_roundtrip (x_path (o_xhttp o)) sid n [] (r_method r) (r_uri r)) as [_ Hcl]; try done.
    - by rewrite app_nil_r.
    - by left.
    - by rewrite Hm. }
  unfold dispatch, upload. rewrite Hcl, read_payload_body by done.
  destruct (read_body_payload (o_xhttp o) (r_body r)) as [p|e] eqn:Er; cbn [lift].
  - apply read_body_spec in Er as (Hne & -> & Hl); [|done]. fold data in Hl |- *.
    pose proof (finish_upload_push o s sid n data Hl) as Hf. rewrite Ep in Hf.
    pose proof (finish_upload_padding o s sid n data) as Hp. destruct (finish_upload o s sid n data) as [s1 x1].
    cbn [mbind comp_bind]. destruct (padded o s s1 x1 draw Hc Hd Hp) as (s' & x & Ha & _ & _ & Hse & Hst & Hub).
    exists s', x. cbn in Hf. rewrite Hse, Hst, Hub. split; [done|]. split; [done|]. split; [lia|]. by rewrite Hne.
  - assert (has_error (frames (r_body r)) = false -> len data <= max_each_post_bytes (o_xhttp o) -> False) as Hno.
    { intros Hne Hl. assert (read_body_payload (o_xhttp o) (r_body r) = Ok data) as Hok by (by apply read_body_spec). congruence. }
    assert (o_padding (upload_failure s e).1 = o_padding s /\ o_sessions (upload_failure s e).1 = o_sessions s) as [Hpu Hsu]
      by (by destruct e).
    destruct (padded o s _ (upload_failure s e).2 draw Hc Hd Hpu) as (s' & x & Ha & _ & _ & Hse & Hst & _).
    exists s', x. rewrite Hse, Hst, Hsu. split; [by destruct e|]. split; [by intros ? ?; exfalso; apply Hno|].
    destruct e; (split; [|by split; [|auto]]); [apply read_frames_error in Er; by rewrite Er|done].
Qed.
End handler_proofs.

(** * Witnesses *)

(** A session service that records the pushes. *)
#[local] Instance toy_service : SessionService (list (bytes * Z * bytes)) := {
  ss_push := fun t i q p => (t ++ [(i, q, p)], Some Accepted);
  ss_open := fun t i => (t, Opened (Some (i, 0)));
  ss_remove := fun t i => t }.

#[local] Instance toy_service_laws : SessionServiceLaws (list (bytes * Z * bytes)).
Proof. constructor. cbn. intros t i t' k [= _ <-]. eauto. Qed.

#[local] Instance toy_base64 : Base64Url := { url_safe_no_pad_decode := fun b => Some b }.
#[local] Instance toy_text : HeaderText := { to_str := fun v => if is_ascii v then Some v else None }.

Definition toy_asset : asset := mk_asset (str "text/html") [60] [] [34] [].
Definition toy_origin : origin :=
  mk_origin (mk_xhttp_config (str "/p/") [] 10 30 30 true 8192 4 8 Body [])
    (mk_static_site (<[str "/" := toy_asset]> ∅) toy_asset toy_asset).
Definition toy_state : origin_state (list (bytes * Z * bytes)) := mk_state [] 0 0 0 0 (response_padding_new 4 8).
Definition no_headers : header_map := mk_header_map (fun _ => None) (fun _ => []) [].
Definition toy_request (p q : string) (fs : list frame) : request :=
  mk_request POST (mk_uri (str p) (Some (str q)) None None) no_headers (mk_body None fs).
Definition toy_packet : request := toy_request "/p/ab/7" "x_padding=XXXX" [FData [1]; FTrailers; FData []; FData [2; 3]].

Lemma toy_pads : pads toy_origin toy_state.
Proof. split; [apply padding_cache_new|]. cbn. lia. Qed.

Lemma handler_answers_witness :
  exists s' x, handle toy_origin toy_state toy_packet 5 = Val (s', x) /\ pads toy_origin s' /\
    (request_header_bytes toy_packet <= max_header_bytes (o_xhttp toy_origin) -> is_health toy_packet = false ->
     is_xhttp toy_origin toy_packet = true ->
     exists v, header x (str "x-padding") = Some v /\ padding_from (o_xhttp toy_origin) <= len v <= padding_to (o_xhttp toy_origin)).
Proof. apply handler_answers; [done|exact toy_pads|cbn; lia]. Defined.

(** The packet [1; 2; 3] of session "ab" with number 7 arrives. *)
Lemma packet_delivered_witness :
  exists s' x, handle toy_origin toy_state toy_packet 5 = Val (s', x) /\
    o_sessions s' = [(str "ab", 7, [1; 2; 3])] /\ status x = 200 /\ upload_bytes s' = 3.
Proof.
  pose proof (packet_delivered toy_origin toy_state toy_packet 5 (str "ab") 7) as Hp. cbv zeta in Hp.
  destruct Hp as (s' & x & Hh & Hok & _ & _); try done.
  - repeat (apply Forall_cons_2 || apply Forall_nil_2); done.
  - exact toy_pads.
  - exists s', x. split; [exact Hh|]. exact (Hok eq_refl ltac:(by vm_compute)).
Defined.
