(* ===== verification/Probe.v ===== *)
(** What a probe of the server sees ([src/origin.rs], [src/xhttp/mod.rs], [src/xhttp/padding.rs]).

    Which requests are XHTTP and how the static site answers are stated here in terms of
    the bytes of a request, by relations that share no function with the handler; the
    lemmas show that the checks of [Xhttp] decide these relations, and the theorem says
    what every request gets. *)

From S2P Require Import Prelude Reorder Xhttp Site Config Origin.

(** [l] has no byte [c]. *)
Definition without (c : Z) (l : bytes) : Prop := Forall (fun b => b <> c) l.

(** * The requests of a client *)

Section requests.
Context `{HeaderText}.

(** The name of a host without its port. *)
Definition host_name (l name : bytes) : Prop := without 58 name /\ (l = name \/ exists port, l = name ++ 58 :: port).

(** The host a request is for: the text of its Host header, else its authority. *)
Inductive requested_host (h : header_map) (u : uri) : bytes -> Prop :=
| host_of_header v t : hm_get h HOST = Some v -> to_str v = Some t -> requested_host h u t
| host_of_uri a : hm_get h HOST ≫= to_str = None -> u_host u = Some a -> requested_host h u a
| host_absent : hm_get h HOST ≫= to_str = None -> u_host u = None -> requested_host h u [].

(** Hosts are compared by name, up to the case of ASCII letters. *)
Definition right_host (configured : bytes) (h : header_map) (u : uri) : Prop :=
  configured = [] \/
  exists host a b, requested_host h u host /\ host_name host a /\ host_name configured b /\
    to_ascii_lowercase a = to_ascii_lowercase b.

(** The value of a pair of a query: what follows [key=]; the key alone has an empty value. *)
Definition valued (key kv v : bytes) : Prop := kv = key ++ 61 :: v \/ (kv = key /\ v = []).

(** The value of the first pair of a query that has the key; pairs end at [&]. *)
Inductive parameter (key : bytes) : bytes -> bytes -> Prop :=
| param_last kv v : without 38 kv -> valued key kv v -> parameter key kv v
| param_here kv rest v : without 38 kv -> valued key kv v -> parameter key (kv ++ 38 :: rest) v
| param_later kv rest v : without 38 kv -> (forall w, ~ valued key kv w) -> parameter key rest v ->
    parameter key (kv ++ 38 :: rest) v.

(** The query that carries the padding: that of a readable Referer, between [?] and
    [#], and only without one that of the request itself. *)
Inductive padding_query (h : header_map) (u : uri) : bytes -> Prop :=
| query_of_referer v p q tail :
    hm_get h REFERER = Some v -> to_str v = Some (p ++ 63 :: q ++ tail) -> without 63 p -> without 35 q ->
    (tail = [] \/ exists f, tail = 35 :: f) -> padding_query h u q
| query_of_uri q :
    (hm_get h REFERER ≫= to_str = None \/ hm_get h REFERER ≫= to_str = Some []) -> u_query u = Some q -> padding_query h u q.

Definition hex_digit (b : Z) : Prop := 48 <= b <= 57 \/ 65 <= b <= 70 \/ 97 <= b <= 102.

(** The number of bytes a percent-encoded text stands for. *)
Inductive stands_for : bytes -> Z -> Prop :=
| stands_nil : stands_for [] 0
| stands_escape a b r n : hex_digit a -> hex_digit b -> stands_for r n -> stands_for (37 :: a :: b :: r) (n + 1)
| stands_plain c r n :
    ~ (c = 37 /\ exists a b r', r = a :: b :: r' /\ hex_digit a /\ hex_digit b) -> stands_for r n -> stands_for (c :: r) (n + 1).

(** The padding of a request has a length of the configured range. *)
Definition padded_request (h : header_map) (u : uri) (from to : Z) : Prop :=
  exists q v n, padding_query h u q /\ parameter (bytes_of_string "x_padding") q v /\ stands_for v n /\ 0 < n /\ from <= n <= to.

(** A request is XHTTP: below the path, for the host, and padded unless it is a preflight. *)
Definition qualifies (o : origin) (r : request) : Prop :=
  (exists rest, u_path (r_uri r) = x_path (o_xhttp o) ++ rest) /\
  right_host (x_host (o_xhttp o)) (r_headers r) (r_uri r) /\
  (r_method r = OPTIONS \/ padded_request (r_headers r) (r_uri r) (padding_from (o_xhttp o)) (padding_to (o_xhttp o))).
End requests.

(** The size of a request's head, as [serverMaxHeaderBytes] counts it. *)
Definition header_size (r : request) : Z :=
  method_len (r_method r) + len (default (u_path (r_uri r)) (u_path_and_query (r_uri r))) +
  foldr Z.add 0 ((fun h => len h.1 + len h.2 + 4) <$> hm_iter (r_headers r)).

(** * The answers of the site *)

(** Status, page and Allow header for a method and a path. *)
Inductive page (s : static_site) (m : method) (p : bytes) : Z -> asset -> list (bytes * bytes) -> Prop :=
| page_found a : m = GET \/ m = HEAD -> assets s !! p = Some a -> page s m p 200 a []
| page_missing : m = GET \/ m = HEAD -> assets s !! p = None -> page s m p 404 (not_found s) []
| page_refused : m <> GET -> m <> HEAD -> page s m p 405 (method_not_allowed s) [(str "allow", str "GET, HEAD")].

(** The client already has the page: its If-None-Match is the tag of the page. *)
Definition has_page (h : header_map) (a : asset) : Prop := hm_get h (str "if-none-match") = Some (a_etag a).

(** The answer of a plain web server for [s] that calls itself nginx. *)
Definition site_answer (s : static_site) (r : request) (x : http_response) : Prop :=
  exists st a allow, page s (r_method r) (u_path (r_uri r)) st a allow /\
    (has_page (r_headers r) a -> status x = 304 /\ rsp_body x = BEmpty) /\
    (~ has_page (r_headers r) a -> status x = st /\ rsp_body x = if decide (r_method r = HEAD) then BEmpty else BFull (a_body a)) /\
    exists content_length,
      (has_page (r_headers r) a -> content_length = []) /\
      (~ has_page (r_headers r) a -> content_length = [(str "content-length", decimal (len (a_body a)))]) /\
      rsp_headers x = [(str "server", str "nginx"); (str "content-type", a_content_type a)] ++ content_length ++
        [(str "cache-control", a_cache_control a); (str "etag", a_etag a); (str "last-modified", a_last_modified a);
         (str "x-content-type-options", str "nosniff"); (str "referrer-policy", str "strict-origin-when-cross-origin")] ++ allow.

(** * The checks decide the relations *)

Lemma without_nil c : without c [].
Proof. constructor. Qed.
#[local] Hint Resolve without_nil : core.

Lemma cut c l : without c l \/ exists a r, l = a ++ c :: r /\ without c a.
Proof.
  induction l as [|b l IH]; [by left|]. destruct (decide (b = c)) as [->|Hb]; [right; by exists [], l|].
  destruct IH as [IH|(a & r & -> & Ha)]; [left; by constructor|]. right. exists (b :: a), r. split; [done|by constructor].
Qed.

Lemma cut_unique c a r b q : without c a -> without c b -> a ++ c :: r = b ++ c :: q -> a = b /\ r = q.
Proof.
  intros Ha Hb He. pose proof (split_once_app c a r Ha) as H1. rewrite He, (split_once_app c b q Hb) in H1. by injection H1.
Qed.

Lemma cut_none c a r : ~ without c (a ++ c :: r).
Proof. intros Hw. apply Forall_app in Hw as [_ Hw]. by apply Forall_cons_iff in Hw as [? _]. Qed.

Section decided.
Context `{HeaderText}.

Lemma path_decided base u : path_matches base u = true <-> exists rest, u_path u = base ++ rest.
Proof.
  unfold path_matches, starts_with. split.
  - destruct (strip_prefix _ _) as [r|] eqn:E; [|done]. intros _. exists r. by apply strip_prefix_Some.
  - intros [r ->]. by rewrite strip_prefix_app.
Qed.

Lemma host_name_decided l name : host_name l name <-> segment 58 0 l = name.
Proof.
  unfold host_name, segment. destruct (cut 58 l) as [Hl|(a & r & -> & Ha)].
  - rewrite split_on_nodelim by done. cbn. split; [|intros <-; auto]. intros [Hn [->|[p ->]]]; [done|by apply cut_none in Hl].
  - rewrite split_on_app by done. cbn. split; [|intros <-; eauto].
    intros [Hn [He|[p He]]]; [rewrite <- He in Hn; by apply cut_none in Hn|]. by apply cut_unique in He as [? _].
Qed.

Lemma requested_host_decided h u host :
  requested_host h u host <-> host = default [] (match hm_get h HOST ≫= to_str with Some v => Some v | None => u_host u end).
Proof.
  destruct (hm_get h HOST ≫= to_str) as [t|] eqn:Et; cbn; split.
  - intros [v t' Hv Ht|a Hn _|Hn _]; rewrite ?Et in *; try done. rewrite Hv in Et. cbn in Et. congruence.
  - intros ->. destruct (hm_get h HOST) as [v|] eqn:Ev; [|done]. by apply (host_of_header _ _ v).
  - intros [v t Hv Ht|a _ ->|_ ->]; [|done|done]. rewrite Hv in Et. cbn in Et. congruence.
  - intros ->. destruct (u_host u) as [a|] eqn:Ea; [by apply host_of_uri|by apply host_absent].
Qed.

Lemma host_decided configured h u : host_matches configured h u = true <-> right_host configured h u.
Proof.
  unfold host_matches, right_host. destruct configured as [|c0 c]; [split; auto|]. set (cfg := c0 :: c). cbv zeta.
  unfold eq_ignore_ascii_case. rewrite bytes_eqb_eq. split.
  - intros He. right. eexists _, _, _. split; [by apply requested_host_decided|].
    split; [by apply host_name_decided|]. by split; [apply host_name_decided|].
  - intros [?|(host & a & b & Hh & Ha & Hb & He)]; [done|]. apply requested_host_decided in Hh as ->.
    apply host_name_decided in Ha as <-. apply host_name_decided in Hb as <-. done.
Qed.

(** ** The padding *)

Lemma valued_decided key kv v :
  without 61 key -> valued key kv v <-> default (kv, []) (split_once 61 kv) = (key, v).
Proof.
  intros Hk. unfold valued. destruct (cut 61 kv) as [Hn|(a & r & -> & Ha)].
  - rewrite split_once_none by done. cbn. split.
    + intros [->|[-> ->]]; [by apply cut_none in Hn|done].
    + intros [= -> <-]. by right.
  - rewrite split_once_app by done. cbn. split.
    + intros [He|[He _]]; [by apply cut_unique in He as [-> ->]|]. rewrite <- He in Hk. by apply cut_none in Hk.
    + intros [= -> ->]. by left.
Qed.

Lemma find_param_cons key kv pairs :
  find_param key (kv :: pairs) =
    (let '(k, v) := default (kv, []) (split_once 61 kv) in if bytes_eqb k key then Some v else find_param key pairs).
Proof. done. Qed.

Lemma parameter_decided key q v : without 61 key -> parameter key q v <-> query_param_ref q key = Some v.
Proof.
  intros Hk. unfold query_param_ref. split.
  - induction 1 as [kv v Hw Hv|kv rest v Hw Hv|kv rest v Hw Hno _ IH]; rewrite ?split_on_app, ?split_on_nodelim by done;
      rewrite find_param_cons; try (apply valued_decided in Hv; [|done]; by rewrite Hv, bytes_eqb_refl).
    destruct (default _ _) as [k w] eqn:Ed. destruct (bytes_eqb k key) eqn:Eb; [|exact IH].
    apply bytes_eqb_eq in Eb as ->. destruct (Hno w). by apply valued_decided.
  - remember (length q) as n eqn:Hn. revert q Hn. induction (lt_wf n) as [n _ IH]. intros q ->.
    destruct (cut 38 q) as [Hq|(kv & rest & -> & Hkv)].
    + rewrite split_on_nodelim by done. rewrite find_param_cons. destruct (default _ _) as [k w] eqn:Ed.
      destruct (bytes_eqb k key) eqn:Eb; [|done]. apply bytes_eqb_eq in Eb as ->. intros [= ->].
      apply param_last; [done|by apply valued_decided].
    + rewrite split_on_app by done. rewrite find_param_cons. destruct (default _ _) as [k w] eqn:Ed.
      destruct (bytes_eqb k key) eqn:Eb.
      * apply bytes_eqb_eq in Eb as ->. intros [= ->]. apply param_here; [done|by apply valued_decided].
      * intros Hf. apply param_later; [done| |].
        -- intros w' Hv. apply valued_decided in Hv; [|done]. rewrite Ed in Hv. injection Hv as -> _. by rewrite bytes_eqb_refl in Eb.
        -- eapply IH; [|done|exact Hf]. rewrite length_app. cbn [length]. lia.
Qed.

Lemma hex_digit_decided b : is_Some (hex_value b) <-> hex_digit b.
Proof.
  unfold hex_value, hex_digit. repeat (case_match; split_bool); (split; [intros [? ?]; try done; lia|intros ?; try (by eexists); lia]).
Qed.

Lemma stands_for_decided v n : stands_for v n <-> percent_decoded_len v = n.
Proof.
  split.
  - induction 1 as [|a b r n Ha Hb _ IH|c r n Hno _ IH]; [done| |].
    + cbn [percent_decoded_len]. apply hex_digit_decided in Ha, Hb. rewrite !bool_decide_true by done.
      change (37 =? 37) with true. cbn [andb]. rewrite IH. lia.
    + cbn [percent_decoded_len]. destruct r as [|a [|b r]]; [rewrite IH; lia|rewrite IH; lia|].
      destruct ((c =? 37) && _ && _) eqn:E; [|rewrite IH; lia]. split_bool. exfalso. apply Hno. split; [done|].
      exists a, b, r. by rewrite <- !hex_digit_decided.
  - intros <-. remember (length v) as k eqn:Hk. revert v Hk. induction (lt_wf k) as [k _ IH]. intros v ->.
    destruct v as [|c r]; [constructor|]. assert (stands_for r (percent_decoded_len r)) as Hr by (eapply IH; [|done]; cbn; lia).
    assert (~ (c = 37 /\ exists a b r', r = a :: b :: r' /\ hex_digit a /\ hex_digit b) -> stands_for (c :: r) (1 + percent_decoded_len r)) as Hplain
      by (intros Hno; rewrite Z.add_comm; by constructor).
    cbn [percent_decoded_len]. destruct r as [|a [|b r]]; try (apply Hplain; by intros (_ & ? & ? & ? & [=] & _)).
    destruct ((c =? 37) && bool_decide (is_Some (hex_value a)) && bool_decide (is_Some (hex_value b))) eqn:E.
    + split_bool. subst c. rewrite Z.add_comm. constructor; [by apply hex_digit_decided..|].
      eapply IH; [|done]. cbn. lia.
    + apply Hplain. intros (-> & a' & b' & r' & [= <- <- <-] & Ha & Hb). apply hex_digit_decided in Ha, Hb.
      by rewrite !bool_decide_true in E by done.
Qed.

Lemma query_decided h u q : padding_query h u q <->
  match referer_of h with
  | Some t => exists p tail, t = p ++ 63 :: q ++ tail /\ without 63 p /\ without 35 q /\ (tail = [] \/ exists f, tail = 35 :: f)
  | None => u_query u = Some q
  end.
Proof.
  unfold referer_of. split.
  - intros [v p q' tail Hv Ht Hp Hq Htail|q' Hno Hq].
    + rewrite Hv. cbn. rewrite Ht. destruct p as [|p0 p]; [exists [], tail|exists (p0 :: p), tail]; done.
    + destruct Hno as [-> | ->]; done.
  - destruct (hm_get h REFERER) as [v|] eqn:Ev; cbn; [|intros Hq; apply query_of_uri; [left; by rewrite Ev|done]].
    destruct (to_str v) as [[|t0 t]|] eqn:Et; cbn.
    + intros Hq. apply query_of_uri; [right; by rewrite Ev|done].
    + intros (p & tail & Heq & Hp & Hq & Htail). eapply query_of_referer; try done. by rewrite Et, Heq.
    + intros Hq. apply query_of_uri; [left; by rewrite Ev|done].
Qed.

Lemma url_query t q :
  (exists p tail, t = p ++ 63 :: q ++ tail /\ without 63 p /\ without 35 q /\ (tail = [] \/ exists f, tail = 35 :: f)) <->
  exists p q', split_once 63 t = Some (p, q') /\ segment 35 0 q' = q.
Proof.
  split.
  - intros (p & tail & -> & Hp & Hq & Htail). exists p, (q ++ tail). rewrite split_once_app by done. split; [done|].
    unfold segment. destruct Htail as [->|[f ->]]; [by rewrite app_nil_r, split_on_nodelim|by rewrite split_on_app].
  - intros (p & q' & Hs & <-). destruct (cut 63 t) as [Hn|(a & r & -> & Ha)]; [by rewrite split_once_none in Hs|].
    rewrite split_once_app in Hs by done. injection Hs as -> ->. unfold segment.
    destruct (cut 35 q') as [Hn|(b & f & -> & Hb)].
    + rewrite split_on_nodelim by done. exists p, []. cbn. rewrite app_nil_r. by auto.
    + rewrite split_on_app by done. exists p, (35 :: f). cbn. eauto 6.
Qed.

Lemma raw_padding_decided h u v :
  raw_padding h u = Some v <-> exists q, padding_query h u q /\ parameter X_PADDING q v.
Proof.
  assert (without 61 X_PADDING) as Hk by (repeat (apply Forall_cons_2 || apply Forall_nil_2); done).
  setoid_rewrite query_decided. setoid_rewrite (parameter_decided X_PADDING _ v Hk). unfold raw_padding. destruct (referer_of h) as [t|].
  - setoid_rewrite url_query. unfold query_value_ref. destruct (split_once 63 t) as [[p q]|]; split.
    + intros Hv. exists (segment 35 0 q). split; [by exists p, q|done].
    + by intros (q' & (p' & q'' & [= <- <-] & <-) & Hv).
    + done.
    + by intros (q' & (p' & q'' & [=] & _) & _).
  - destruct (u_query u) as [q|]; cbn; split; [by eexists|by intros (q' & [= <-] & Hv)|done|by intros (q' & [=] & _)].
Qed.

Lemma stands_nonneg v n : stands_for v n -> 0 <= n.
Proof. induction 1; lia. Qed.

Lemma padded_decided h u from to :
  is_padding_len_valid (extract_padding_len h u) from to = true <-> padded_request h u from to.
Proof.
  rewrite extract_padding_len_raw. unfold padded_request. split.
  - destruct (raw_padding h u) as [v|] eqn:Ev; [|done]. cbn [fmap option_fmap option_map is_padding_len_valid]. intros Hv. split_bool.
    apply raw_padding_decided in Ev as (q & Hq & Hp). exists q, v, (percent_decoded_len v).
    assert (stands_for v (percent_decoded_len v)) as Hs by (by apply stands_for_decided). pose proof (stands_nonneg _ _ Hs).
    repeat (split; [done|]). lia.
  - intros (q & v & n & Hq & Hp & Hs & Hn & Hr). assert (raw_padding h u = Some v) as -> by (apply raw_padding_decided; eauto).
    apply stands_for_decided in Hs as <-. cbn [fmap option_fmap option_map is_padding_len_valid].
    rewrite (proj2 (Z.eqb_neq _ _)) by lia. rewrite !(proj2 (Z.leb_le _ _)) by lia. done.
Qed.

Lemma qualifies_decided o r :
  qualifies o r <->
  path_matches (x_path (o_xhttp o)) (r_uri r) = true /\ host_matches (x_host (o_xhttp o)) (r_headers r) (r_uri r) = true /\
  (r_method r = OPTIONS \/
   is_padding_len_valid (extract_padding_len (r_headers r) (r_uri r)) (padding_from (o_xhttp o)) (padding_to (o_xhttp o)) = true).
Proof. unfold qualifies. by rewrite path_decided, host_decided, padded_decided. Qed.
End decided.

(** ** The size of the head *)

Lemma saturating_sum (l : list (bytes * bytes)) init :
  0 <= init ->
  let total := fold_left (fun total h => saturating_add u64_max (saturating_add u64_max (saturating_add u64_max total (len h.1)) (len h.2)) 4) l init in
  let sum := init + foldr Z.add 0 ((fun h => len h.1 + len h.2 + 4) <$> l) in
  Z.min u64_max sum <= total <= sum.
Proof.
  revert init. induction l as [|h l IH]; intros init Hi; cbn [fold_left fmap list_fmap foldr]; [cbv zeta; lia|].
  pose proof (len_nonneg h.1). pose proof (len_nonneg h.2).
  assert (0 <= foldr Z.add 0 ((fun h : bytes * bytes => len h.1 + len h.2 + 4) <$> l)).
  { clear. induction l as [|h l IH]; cbn; [lia|]. pose proof (len_nonneg h.1). pose proof (len_nonneg h.2). lia. }
  set (next := saturating_add _ _ 4). assert (next = Z.min u64_max (init + len h.1 + len h.2 + 4)) as Hn
    by (unfold next, saturating_add, u64_max; lia).
  specialize (IH next ltac:(rewrite Hn; unfold u64_max; lia)). cbv zeta in *. rewrite Hn in IH |- *. lia.
Qed.

Lemma header_bytes_size r : Z.min u64_max (header_size r) <= request_header_bytes r <= header_size r.
Proof.
  unfold request_header_bytes, header_size. cbv zeta. set (target := match u_path_and_query _ with Some _ => _ | None => _ end).
  assert (len (default (u_path (r_uri r)) (u_path_and_query (r_uri r))) = target) as -> by (unfold target; by destruct (u_path_and_query _)).
  assert (0 <= target) by (unfold target; case_match; apply len_nonneg).
  assert (0 <= method_len (r_method r)) by (destruct (r_method r); cbn; try lia; apply len_nonneg).
  by apply (saturating_sum (hm_iter (r_headers r)) (method_len (r_method r) + target)); lia.
Qed.

(** ** The answers of the site *)

Lemma resolve_page s m p :
  let rep := resolve s m p in
  page s m p (sr_status rep) (sr_asset rep) (match sr_allow rep with Some v => [(str "allow", v)] | None => [] end).
Proof.
  unfold resolve. destruct (decide (m = GET)) as [Hg|Hg], (decide (m = HEAD)) as [Hh|Hh];
    rewrite ?(bool_decide_eq_true_2 _ Hg), ?(bool_decide_eq_false_2 _ Hg), ?(bool_decide_eq_true_2 _ Hh), ?(bool_decide_eq_false_2 _ Hh);
    cbn [negb andb]; [..|by apply page_refused];
    (destruct (assets s !! p) as [a|] eqn:Ea; [by apply page_found; auto|by apply page_missing; auto]).
Qed.

Lemma site_response_answer o r : site_answer (o_site o) r (site_response o r).
Proof.
  pose proof (resolve_page (o_site o) (r_method r) (u_path (r_uri r))) as Hp. unfold site_response. cbv zeta in *.
  set (rep := resolve _ _ _) in *. set (a := sr_asset rep) in *. eexists _, a, _. split; [exact Hp|]. clear Hp. unfold has_page.
  set (same := match hm_get _ _ with Some v => bytes_eqb v (a_etag a) | None => false end).
  assert (same = true <-> hm_get (r_headers r) (str "if-none-match") = Some (a_etag a)) as Hs.
  { unfold same. destruct (hm_get _ _) as [v|]; [|done]. rewrite bytes_eqb_eq. split; [by intros ->|by intros [= ->]]. }
  setoid_rewrite <- Hs. clear Hs. rewrite bool_decide_decide. destruct same.
  - split; [by intros _; destruct (sr_allow rep), (decide _)|]. split; [intros Hn; by destruct Hn|]. exists []. split; [done|]. split; [intros Hn; by destruct Hn|].
    by destruct (sr_allow rep), (decide _).
  - split; [done|]. split; [intros _; by destruct (sr_allow rep), (decide _)|]. exists [(str "content-length", decimal (len (a_body a)))].
    split; [done|]. split; [done|]. by destruct (sr_allow rep), (decide _).
Qed.

(** * Theorem *)

Section probe.
Context {T : Type} `{HeaderText} `{Base64Url} `{SessionService T}.

Lemma handle_site (o : origin) (s : origin_state T) r draw :
  request_header_bytes r <= max_header_bytes (o_xhttp o) -> is_health r = false -> ~ qualifies o r ->
  handle o s r draw = Val (s, site_response o r).
Proof.
  intros Hh He Hq. rewrite qualifies_decided in Hq. unfold handle. rewrite (proj2 (Z.ltb_ge _ _)) by done.
  unfold is_health in He. apply orb_false_iff in He as [-> ->].
  destruct (path_matches _ _), (host_matches _ _ _); cbn [negb orb]; try done.
  destruct (decide (r_method r = OPTIONS)) as [Ho|Ho]; [destruct Hq; auto|]. rewrite bool_decide_false by done.
  destruct (is_padding_len_valid _ _ _); [destruct Hq; auto|done].
Qed.

Lemma handle_padded `{!SessionServiceLaws T} (o : origin) (s : origin_state T) r draw :
  request_header_bytes r <= max_header_bytes (o_xhttp o) -> is_health r = false -> qualifies o r ->
  headers_ok (r_headers r) -> pads o s -> padding_from (o_xhttp o) <= draw <= padding_to (o_xhttp o) ->
  exists s' x v, handle o s r draw = Val (s', x) /\ header x (str "x-padding") = Some v /\
    padding_from (o_xhttp o) <= len v <= padding_to (o_xhttp o).
Proof.
  intros Hh He Hq Hok Hp Hd. apply qualifies_decided in Hq as (Hpath & Hhost & Hq).
  destruct (decide (r_method r = OPTIONS)) as [Ho|Ho].
  - destruct (padded o s s (empty 200) draw Hp Hd eq_refl) as (s' & x & Ha & _ & (v & Hv & Hl) & _). exists s', x, v.
    split; [|done]. rewrite <- Ha. unfold handle. rewrite (proj2 (Z.ltb_ge _ _)) by done. unfold is_health in He.
    apply orb_false_iff in He as [-> ->]. rewrite Hpath, Hhost. cbn [negb orb]. by rewrite bool_decide_true.
  - destruct Hq as [Hq|Hq]; [done|]. destruct (handler_answers o s r draw Hok Hp Hd) as (s' & x & Ha & _ & Hx).
    destruct Hx as (v & Hv); [done|done|unfold is_xhttp; by rewrite Hpath, Hhost, Hq|]. by exists s', x, v.
Qed.

(** C31: a probe sees only the site.  A request whose head is larger than the limit gets 431 and
    is counted; [/healthz] and [/readyz] get their two lines; any other request that does
    not qualify as XHTTP (it is not below the path, not for the host, or neither a
    preflight nor padded with a length of the range) gets the answer of a plain web server
    for the site, status, body and the whole list of headers, and changes no state: not the
    session table, the counters or the padding cache.  And only XHTTP looks different: a
    request that does qualify gets an answer with a padding header. *)
Theorem probe_sees_only_site `{!SessionServiceLaws T} (o : origin) (s : origin_state T) r draw :
  let limit := max_header_bytes (o_xhttp o) in
  let path := u_path (r_uri r) in
  (limit < header_size r -> limit < u64_max -> handle o s r draw = Val (count_header s, empty 431)) /\
  (header_size r <= limit -> path = str "/healthz" -> handle o s r draw = Val (s, response 200 (BFull (str "ok" ++ [10])))) /\
  (header_size r <= limit -> path = str "/readyz" -> handle o s r draw = Val (s, response 200 (BFull (str "ready" ++ [10])))) /\
  (header_size r <= limit -> path <> str "/healthz" -> path <> str "/readyz" ->
   (~ qualifies o r -> exists x, handle o s r draw = Val (s, x) /\ site_answer (o_site o) r x) /\
   (qualifies o r -> headers_ok (r_headers r) -> pads o s -> padding_from (o_xhttp o) <= draw <= padding_to (o_xhttp o) ->
    exists s' x v, handle o s r draw = Val (s', x) /\ header x (str "x-padding") = Some v /\
      padding_from (o_xhttp o) <= len v <= padding_to (o_xhttp o))).
Proof.
  intros limit path. pose proof (header_bytes_size r) as Hb. split; [|split; [|split]].
  - intros Hl Hm. unfold handle. by rewrite (proj2 (Z.ltb_lt _ _)) by (fold limit; lia).
  - intros Hl Hp. unfold handle. rewrite (proj2 (Z.ltb_ge _ _)) by (fold limit; lia). fold path. by rewrite Hp.
  - intros Hl Hp. unfold handle. rewrite (proj2 (Z.ltb_ge _ _)) by (fold limit; lia). fold path. by rewrite Hp.
  - intros Hl Hh Hr. assert (request_header_bytes r <= limit) as Hs by lia. assert (is_health r = false) as He.
    { unfold is_health. apply orb_false_iff. split; apply not_true_iff_false; by rewrite bytes_eqb_eq. }
    split; [|by apply handle_padded]. intros Hq. exists (site_response o r). split; [by apply handle_site|apply site_response_answer].
Qed.
End probe.

(** * Witness *)

#[local] Existing Instance toy_service.
#[local] Existing Instance toy_service_laws.
#[local] Existing Instance toy_base64.
#[local] Existing Instance toy_text.

(** A packet with three bytes of padding where four are asked for gets the 405 page. *)
Lemma probe_sees_only_site_witness :
  exists x, handle toy_origin toy_state (toy_request "/p/ab/7" "x_padding=XXX" []) 5 = Val (toy_state, x) /\
    site_answer (o_site toy_origin) (toy_request "/p/ab/7" "x_padding=XXX" []) x.
Proof.
  destruct (probe_sees_only_site toy_origin toy_state (toy_request "/p/ab/7" "x_padding=XXX" []) 5) as (_ & _ & _ & Hp).
  destruct Hp as [Hp _]; [by vm_compute|by vm_compute|by vm_compute|]. apply Hp.
  rewrite qualifies_decided. intros (_ & _ & [Hm|Hv]); [discriminate Hm|vm_compute in Hv; discriminate Hv].
Defined.
