(* ===== verification/Server.v ===== *)
(** [src/origin.rs]: the accept loop of the server, its connections and its shutdown.

    The runtime decides what happens next: a connection arrives, [accept] fails, a task
    ends, the signal comes, time passes.  Each of these is an event, and [step] is what
    [serve] does at it; an event that cannot happen in a state has no step.  A task whose
    end has not been collected stays in the [JoinSet].  The tasks that hyper spawns for the
    requests of an HTTP/2 connection are not in it and not modelled. *)

From S2P Require Import Prelude.

(** * One connection *)

Inductive OriginError : Type :=
| OIo
| OTls
| TlsHandshakeTimeout
| OHyper.

(** [serve_connection]: [handshake] is the answer of the TLS server within the time for a
    handshake, [None] when that passes; [http] is how hyper ends. *)
Definition serve_connection (tls : bool) (handshake : option (result OriginError unit)) (http : result OriginError unit) :
    result OriginError unit :=
  _ ← (if tls then match handshake with Some r => r | None => Err TlsHandshakeTimeout end else mret tt);
  http.

(** * The accept loop *)

Inductive error_kind : Type := Interrupted | WouldBlock | OtherKind.
Record accept_error := mk_accept_error { ae_kind : error_kind; raw_os_error : option Z }.

(** The error numbers of Linux. *)
Definition EMFILE : Z := 24.
Definition ENFILE : Z := 23.
Definition ENOBUFS : Z := 105.
Definition ENOMEM : Z := 12.
Definition ECONNABORTED : Z := 103.

Definition is_transient_accept_error (e : accept_error) : bool :=
  match ae_kind e with
  | Interrupted | WouldBlock => true
  | OtherKind =>
      match raw_os_error e with
      | Some c => (c =? EMFILE) || (c =? ENFILE) || (c =? ENOBUFS) || (c =? ENOMEM)
      | None => false
      end
  end.

(** A task of the [JoinSet]: running, told to stop, or ended and not yet joined. *)
Inductive task : Type := Running | Stopping | Ended.

(** How a connection ended: on its own, or by being aborted. *)
Inductive ending : Type := Completed | Aborted.

Inductive phase : Type :=
| Accepting
| Backoff
| Draining
| Aborting
| Returned (r : result accept_error unit).

Record server := mk_server {
  sv_phase : phase;
  connections : gmap nat task;
  accepted : nat;
  endings : gmap nat ending }.

Definition start : server := mk_server Accepting ∅ 0 ∅.

Inductive event : Type :=
| Accept
| AcceptFails (e : accept_error)
| BackoffOver
| TaskEnds (i : nat) (e : ending)
| JoinNext (i : nat)
| Shutdown
| Deadline
| Drained.

Definition stop (t : task) : task := match t with Running => Stopping | _ => t end.

Definition is_ended (t : task) : bool := match t with Ended => true | _ => false end.

(** [abort_all], and the drop of the set. *)
Definition abort_all (s : server) : gmap nat task := stop <$> connections s.

(** A task ends by itself while it runs, and in either way once it is told to stop. *)
Definition task_ends (s : server) (i : nat) (e : ending) : option server :=
  match connections s !! i, e with
  | Some Running, Completed | Some Stopping, _ =>
      Some (mk_server (sv_phase s) (<[i := Ended]> (connections s)) (accepted s) (<[i := e]> (endings s)))
  | _, _ => None
  end.

Definition join_next (s : server) (i : nat) : option server :=
  match connections s !! i with
  | Some Ended => Some (mk_server (sv_phase s) (delete i (connections s)) (accepted s) (endings s))
  | _ => None
  end.

Definition in_phase (s : server) (p : phase) : server := mk_server p (connections s) (accepted s) (endings s).

Definition step (s : server) (ev : event) : option server :=
  match sv_phase s, ev with
  | _, TaskEnds i e => task_ends s i e
  | Accepting, Shutdown => Some (in_phase s Draining)
  | Accepting, JoinNext i | Draining, JoinNext i | Aborting, JoinNext i => join_next s i
  | Accepting, Accept => Some (mk_server Accepting (<[accepted s := Running]> (connections s)) (S (accepted s)) (endings s))
  | Accepting, AcceptFails e =>
      if is_transient_accept_error e then Some (in_phase s Backoff)
      else Some (mk_server (Returned (Err e)) (abort_all s) (accepted s) (endings s))
  | Backoff, BackoffOver => Some (in_phase s Accepting)
  | Draining, Deadline =>
      (* [timeout] asks the drain first: it joins what has ended *)
      if forallb (fun it => is_ended it.2) (map_to_list (connections s)) then None
      else Some (mk_server Aborting (abort_all s) (accepted s) (endings s))
  | Draining, Drained | Aborting, Drained =>
      if bool_decide (connections s = ∅) then Some (in_phase s (Returned (Ok tt))) else None
  | _, _ => None
  end.

Fixpoint serve (s : server) (trace : list event) : option server :=
  match trace with [] => Some s | ev :: trace' => s' ← step s ev; serve s' trace' end.

(** * Invariant *)

(** Every accepted connection runs or has ended, and none is told to stop before the
    deadline of the shutdown. *)
Record server_ok (s : server) : Prop := {
  ok_range : forall i t, connections s !! i = Some t -> (i < accepted s)%nat;
  ok_ended : forall i, connections s !! i = Some Ended -> is_Some (endings s !! i);
  ok_known : forall i e, endings s !! i = Some e -> (i < accepted s)%nat /\ (connections s !! i = None \/ connections s !! i = Some Ended);
  ok_counted : forall i, (i < accepted s)%nat -> connections s !! i = None -> is_Some (endings s !! i);
  ok_gentle : (sv_phase s = Accepting \/ sv_phase s = Backoff \/ sv_phase s = Draining) ->
    (forall i, connections s !! i <> Some Stopping) /\ (forall i e, endings s !! i = Some e -> e = Completed);
  ok_stopped : (sv_phase s = Aborting \/ exists r, sv_phase s = Returned r) -> forall i, connections s !! i <> Some Running;
  ok_empty : sv_phase s = Returned (Ok tt) -> connections s = ∅ }.

Lemma start_ok : server_ok start.
Proof. split; cbn; intros; rewrite ?lookup_empty in *; try done; lia. Qed.

Lemma abort_all_lookup s i : abort_all s !! i = stop <$> connections s !! i.
Proof. apply lookup_fmap. Qed.

Lemma task_ends_inv s i e s' : task_ends s i e = Some s' ->
  s' = mk_server (sv_phase s) (<[i := Ended]> (connections s)) (accepted s) (<[i := e]> (endings s)) /\
  ((connections s !! i = Some Running /\ e = Completed) \/ connections s !! i = Some Stopping).
Proof. unfold task_ends. destruct (connections s !! i) as [[| |]|], e; intros [= <-]; auto. Qed.

Lemma task_ends_ok s i e s' : server_ok s -> task_ends s i e = Some s' -> server_ok s'.
Proof.
  intros [Hr He Hk Hc Hg Hs Hn] (-> & Hi)%task_ends_inv.
  assert (exists t, connections s !! i = Some t /\ t <> Ended) as (t & Ht & Hne) by (destruct Hi as [[Hi _]|Hi]; eauto).
  split; cbn; try done.
  - intros j u. destruct (decide (i = j)) as [->|]; simplify_map_eq; eauto.
  - intros j. destruct (decide (i = j)) as [->|]; simplify_map_eq; eauto.
  - intros j u. destruct (decide (i = j)) as [->|]; simplify_map_eq; [|eauto]. split; [eauto|by right].
  - intros j Hj. destruct (decide (i = j)) as [->|]; simplify_map_eq; eauto.
  - intros Hp. destruct (Hg Hp) as [Hg1 Hg2]. split; intros j; destruct (decide (i = j)) as [->|]; simplify_map_eq; try done; eauto.
    destruct Hi as [[_ ->]|Hi]; [naive_solver|]. by destruct (Hg1 j).
  - intros Hp j. destruct (decide (i = j)) as [->|]; simplify_map_eq; [done|]. by apply Hs.
  - intros Hp. rewrite (Hn Hp) in Ht. by rewrite lookup_empty in Ht.
Qed.

Lemma join_next_inv s i s' : join_next s i = Some s' ->
  connections s !! i = Some Ended /\ s' = mk_server (sv_phase s) (delete i (connections s)) (accepted s) (endings s).
Proof. unfold join_next. destruct (connections s !! i) as [[| |]|]; naive_solver. Qed.

Lemma join_next_ok s i s' : server_ok s -> join_next s i = Some s' -> server_ok s'.
Proof.
  intros [Hr He Hk Hc Hg Hs Hn] (Hi & ->)%join_next_inv. split; cbn.
  - intros j u [_ Hj]%lookup_delete_Some. eauto.
  - intros j [_ Hj]%lookup_delete_Some. eauto.
  - intros j e Hj. destruct (Hk j e Hj) as [Hlt Hor]. split; [done|].
    destruct (decide (i = j)) as [->|]; [left; apply lookup_delete_eq|by rewrite lookup_delete_ne].
  - intros j Hj. destruct (decide (i = j)) as [->|]; [by intros _; apply He|rewrite lookup_delete_ne by done; by apply Hc].
  - intros Hp. destruct (Hg Hp) as [Hg1 Hg2]. split; [|done]. intros j [_ Hj]%lookup_delete_Some. by eapply Hg1.
  - intros Hp j [_ Hj]%lookup_delete_Some. by eapply Hs.
  - intros Hp. by rewrite (Hn Hp), delete_empty.
Qed.

Lemma accept_ok s : server_ok s -> sv_phase s = Accepting ->
  server_ok (mk_server Accepting (<[accepted s := Running]> (connections s)) (S (accepted s)) (endings s)).
Proof.
  intros [Hr He Hk Hc Hg Hs Hn] Hp. split; cbn.
  - intros j u [[<- _]|[_ Hj]]%lookup_insert_Some; [lia|]. specialize (Hr _ _ Hj). lia.
  - intros j [[_ ?]|[_ Hj]]%lookup_insert_Some; [done|]. by apply He.
  - intros j e Hj. destruct (Hk j e Hj) as [Hlt Hor]. split; [lia|]. by rewrite lookup_insert_ne by lia.
  - intros j Hj [Hj1 Hne]%lookup_insert_None. apply Hc; [lia|done].
  - intros _. destruct (Hg (or_introl Hp)) as [Hg1 Hg2]. split; [|done]. intros j [[_ ?]|[_ Hj]]%lookup_insert_Some; [done|]. by eapply Hg1.
  - intros [?|[r ?]]; done.
  - done.
Qed.

Lemma abort_all_ok s p : server_ok s -> p = Aborting \/ (exists e, p = Returned (Err e)) ->
  server_ok (mk_server p (abort_all s) (accepted s) (endings s)).
Proof.
  intros [Hr He Hk Hc Hg Hs Hn] Hp. split; cbn; try (intros j; rewrite abort_all_lookup).
  - intros u (t & Hu & _)%fmap_Some. eauto.
  - intros (t & Hu & Ht)%fmap_Some. apply He. by destruct t.
  - intros e Hj. destruct (Hk j e Hj) as [Hlt [Hu|Hu]]; rewrite Hu; cbn; auto.
  - intros Hj Hu%fmap_None. by apply Hc.
  - intros Hq. exfalso. destruct Hp as [->|[e ->]]; destruct_or?; done.
  - intros _ j. rewrite abort_all_lookup. intros (t & _ & Hu)%fmap_Some. by destruct t.
  - intros ->. by destruct Hp as [?|[e ?]].
Qed.

Lemma in_phase_ok s p : server_ok s -> (p = Accepting \/ p = Backoff \/ p = Draining) ->
  (sv_phase s = Accepting \/ sv_phase s = Backoff \/ sv_phase s = Draining) -> server_ok (in_phase s p).
Proof.
  intros [Hr He Hk Hc Hg Hs Hn] Hp Hq. split; cbn; try done; [by intros _; apply Hg| |].
  - intros [->|[r ->]]; destruct_or?; done.
  - intros ->. destruct_or?; done.
Qed.

Lemma drained_ok s : server_ok s -> connections s = ∅ -> server_ok (in_phase s (Returned (Ok tt))).
Proof.
  intros [Hr He Hk Hc Hg Hs Hn] Hd. split; cbn; try done; [by intros []; destruct_or?|].
  intros _ i. by rewrite Hd, lookup_empty.
Qed.

Lemma step_ok s ev s' : server_ok s -> step s ev = Some s' -> server_ok s'.
Proof.
  intros Hok Hs. unfold step in Hs. destruct (sv_phase s) as [| | | |r] eqn:Ep, ev as [|x| |i e|i| | |]; try done;
    try (by eapply task_ends_ok); try (by eapply join_next_ok).
  - injection Hs as <-. rewrite <- Ep. by rewrite Ep; apply accept_ok.
  - destruct (is_transient_accept_error x); injection Hs as <-; [apply in_phase_ok; auto|apply abort_all_ok; eauto].
  - injection Hs as <-. apply in_phase_ok; auto.
  - injection Hs as <-. apply in_phase_ok; auto.
  - destruct (forallb _ _); [done|]. injection Hs as <-. apply abort_all_ok; auto.
  - case_bool_decide; [|done]. injection Hs as <-. by apply drained_ok.
  - case_bool_decide; [|done]. injection Hs as <-. by apply drained_ok.
Qed.

Lemma serve_ok s trace s' : server_ok s -> serve s trace = Some s' -> server_ok s'.
Proof.
  revert s. induction trace as [|ev trace IH]; intros s Hok Hs; [by injection Hs as <-|]. cbn in Hs.
  destruct (step s ev) as [s1|] eqn:E; [|done]. eapply IH; [|exact Hs]. by eapply step_ok.
Qed.

(** * The length of a shutdown *)

Definition weight (t : task) : nat := match t with Ended => 1 | _ => 2 end.
Definition work (m : gmap nat task) : nat := map_fold (fun _ t n => (weight t + n)%nat) 0%nat m.

Lemma work_insert m i t : m !! i = None -> work (<[i := t]> m) = (weight t + work m)%nat.
Proof. intros Hi. unfold work. rewrite map_fold_insert_L; [done| |done]. intros. lia. Qed.

Lemma work_delete m i t : m !! i = Some t -> work m = (weight t + work (delete i m))%nat.
Proof. intros Hi. rewrite <- (work_insert _ i) by apply lookup_delete_eq. by rewrite insert_delete_id. Qed.

Lemma work_update m i t u : m !! i = Some t -> (work (<[i := u]> m) + weight t = work m + weight u)%nat.
Proof.
  intros Hi. rewrite (work_delete m i t Hi), <- (insert_delete_eq m i u), work_insert by apply lookup_delete_eq. lia.
Qed.

Lemma work_stop m : work (stop <$> m) = work m.
Proof.
  induction m as [|i t m Hi IH] using map_ind; [by rewrite fmap_empty|].
  rewrite fmap_insert, !work_insert by (rewrite ?lookup_fmap, ?Hi; done). rewrite IH. by destruct t.
Qed.

Lemma work_bound m : (work m <= 2 * size m)%nat.
Proof.
  induction m as [|i t m Hi IH] using map_ind; [done|]. rewrite work_insert, map_size_insert_None by done.
  assert (weight t <= 2)%nat by (destruct t; cbn; lia). lia.
Qed.

(** What is left to do once the signal has come. *)
Definition remaining (s : server) : nat :=
  (work (connections s) + match sv_phase s with Draining => 2 | Aborting => 1 | _ => 0 end)%nat.

Definition leaving (s : server) : Prop := sv_phase s = Draining \/ sv_phase s = Aborting \/ exists r, sv_phase s = Returned r.

Lemma leaving_step s ev s' : leaving s -> step s ev = Some s' -> leaving s' /\ (remaining s' < remaining s)%nat.
Proof.
  intros Hl Hs. unfold step in Hs. unfold remaining, leaving in *.
  assert (forall i e, task_ends s i e = Some s' -> sv_phase s' = sv_phase s /\ (work (connections s') < work (connections s))%nat) as Ht.
  { intros i e (-> & Hi)%task_ends_inv. split; [done|]. cbn. assert (exists t, connections s !! i = Some t /\ weight t = 2%nat) as (t & Hm & Hw)
      by (destruct Hi as [[Hi _]|Hi]; eauto). pose proof (work_update _ _ _ Ended Hm). cbn in *. lia. }
  assert (forall i, join_next s i = Some s' -> sv_phase s' = sv_phase s /\ (work (connections s') < work (connections s))%nat) as Hj.
  { intros i (Hi & ->)%join_next_inv. split; [done|]. cbn. rewrite (work_delete _ _ _ Hi). cbn. lia. }
  destruct Hl as [Hp|[Hp|[r Hp]]]; rewrite Hp in *; destruct ev as [|x| |i e|i| | |]; try done;
    try (apply Ht in Hs as [-> ?]; split; [eauto|lia]); try (apply Hj in Hs as [-> ?]; split; [eauto|lia]).
  - destruct (forallb _ _); [done|]. injection Hs as <-. cbn. unfold abort_all. rewrite work_stop. split; [eauto|lia].
  - case_bool_decide; [|done]. injection Hs as <-. cbn. split; [eauto|lia].
  - case_bool_decide; [|done]. injection Hs as <-. cbn. split; [eauto|lia].
Qed.

Lemma leaving_serve s trace s' : leaving s -> serve s trace = Some s' -> leaving s' /\ (length trace + remaining s' <= remaining s)%nat.
Proof.
  revert s. induction trace as [|ev trace IH]; intros s Hl Hs; cbn in Hs; [injection Hs as <-; cbn; split; [done|lia]|].
  destruct (step s ev) as [s1|] eqn:E; [|done]. apply leaving_step in E as [Hl1 Hd]; [|done].
  destruct (IH _ Hl1 Hs) as [Hl' Hr]. cbn. split; [done|lia].
Qed.

(** After the signal [serve] does not fail any more. *)
Definition calm (s : server) : Prop := sv_phase s = Draining \/ sv_phase s = Aborting \/ sv_phase s = Returned (Ok tt).

Lemma calm_step s ev s' : calm s -> step s ev = Some s' -> calm s'.
Proof.
  unfold calm, step. intros [Hp|[Hp|Hp]]; rewrite Hp; destruct ev; try done; intros Hs;
    try (apply task_ends_inv in Hs as [-> _]; by auto); try (apply join_next_inv in Hs as [_ ->]; by auto);
    try (destruct (forallb _ _); [done|]); try (case_bool_decide; [|done]); injection Hs as <-; auto.
Qed.

Lemma calm_serve s trace s' : calm s -> serve s trace = Some s' -> calm s'.
Proof.
  revert s. induction trace as [|ev trace IH]; intros s Hc Hs; cbn in Hs; [by injection Hs as <-|].
  destruct (step s ev) as [s1|] eqn:E; [|done]. by eapply IH, Hs; eapply calm_step.
Qed.

(** The events no client has a part in.  A task that is told to stop ends; one that runs
    ends when its client lets it, which may be never. *)
Definition unaided (s : server) (ev : event) : bool :=
  match ev with
  | TaskEnds i _ => match connections s !! i with Some Stopping => true | _ => false end
  | JoinNext _ | Deadline | Drained => true
  | Accept | AcceptFails _ | BackoffOver | Shutdown => false
  end.

(** [serve] on such events only. *)
Fixpoint serve_unaided (s : server) (trace : list event) : option server :=
  match trace with
  | [] => Some s
  | ev :: trace' => if unaided s ev then s' ← step s ev; serve_unaided s' trace' else None
  end.

(** Until it returns, the server can go on without its clients. *)
Lemma leaving_progress s : server_ok s -> sv_phase s = Draining \/ sv_phase s = Aborting ->
  exists ev s', unaided s ev = true /\ step s ev = Some s'.
Proof.
  intros Hok Hp. destruct (map_choose_or_empty (connections s)) as [(i & t & Hi)|Hn].
  - destruct t.
    + destruct Hp as [Hp|Hp]; [|by destruct (ok_stopped _ Hok (or_introl Hp) i)].
      exists Deadline. unfold step. rewrite Hp. destruct (forallb _ _) eqn:Ef; [|by eexists].
      rewrite forallb_forall in Ef. specialize (Ef (i, Running)). cbn in Ef. exfalso.
      enough (false = true) by done. apply Ef. apply list_elem_of_In. by apply elem_of_map_to_list.
    + exists (TaskEnds i Completed). unfold step, task_ends, unaided. rewrite Hi.
      destruct Hp as [-> | ->]; eauto.
    + exists (JoinNext i). unfold step, join_next. rewrite Hi. destruct Hp as [-> | ->]; eauto.
  - exists Drained. unfold step. rewrite bool_decide_true by done. destruct Hp as [-> | ->]; eauto.
Qed.

(** And so it comes to its end without them. *)
Lemma unaided_end s : server_ok s -> calm s ->
  exists trace s', serve_unaided s trace = Some s' /\ sv_phase s' = Returned (Ok tt).
Proof.
  remember (remaining s) as n eqn:En. revert s En. induction (lt_wf n) as [n _ IH]. intros s -> Hok Hc.
  assert (sv_phase s = Returned (Ok tt) \/ (sv_phase s = Draining \/ sv_phase s = Aborting)) as [Hp|Hp]
    by (unfold calm in Hc; tauto); [by exists [], s|].
  destruct (leaving_progress s Hok Hp) as (ev & s1 & Hu & Hs).
  destruct (leaving_step s ev s1) as [_ Hlt]; [unfold leaving; tauto|done|].
  destruct (IH _ Hlt s1 eq_refl (step_ok _ _ _ Hok Hs) (calm_step _ _ _ Hc Hs)) as (trace & s' & Ht & Hr).
  exists (ev :: trace), s'. cbn. by rewrite Hu, Hs.
Qed.

(** * What led to a state *)

Lemma serve_snoc s trace ev s' : serve s (trace ++ [ev]) = Some s' -> exists s1, serve s trace = Some s1 /\ step s1 ev = Some s'.
Proof.
  revert s. induction trace as [|ev1 trace IH]; intros s; cbn.
  - destruct (step s ev) as [s1|] eqn:E; [|done]. cbn. intros [= <-]. eauto.
  - destruct (step s ev1) as [s1|]; [|done]. cbn. apply IH.
Qed.

(** Task [i] was running when the deadline of the shutdown passed. *)
Definition running_at_deadline (trace : list event) (i : nat) : Prop :=
  exists t1 t2 s1, trace = t1 ++ Deadline :: t2 /\ serve start t1 = Some s1 /\ connections s1 !! i = Some Running.

Lemma running_at_deadline_snoc trace ev i : running_at_deadline trace i -> running_at_deadline (trace ++ [ev]) i.
Proof. intros (t1 & t2 & s1 & -> & ?). exists t1, (t2 ++ [ev]), s1. by rewrite <- app_assoc. Qed.

Definition signalled (trace : list event) : Prop := exists t1 t2, trace = t1 ++ Shutdown :: t2 /\ Accept ∉ t2.

Lemma signalled_snoc trace ev : signalled trace -> ev <> Accept -> signalled (trace ++ [ev]).
Proof. intros (t1 & t2 & -> & Ha) He. exists t1, (t2 ++ [ev]). rewrite <- app_assoc. split; [done|]. set_solver. Qed.

Definition doomed (s : server) (i : nat) : Prop := connections s !! i = Some Stopping \/ endings s !! i = Some Aborted.

Lemma doomed_step s ev s' i : step s ev = Some s' -> (forall e, sv_phase s' <> Returned (Err e)) -> doomed s' i ->
  doomed s i \/ (ev = Deadline /\ connections s !! i = Some Running).
Proof.
  intros Hs Hp. unfold step in Hs. assert (forall j e, task_ends s j e = Some s' -> doomed s' i -> doomed s i) as Ht.
  { intros j e (-> & Hj)%task_ends_inv. unfold doomed. cbn. destruct (decide (j = i)) as [->|]; simplify_map_eq; naive_solver. }
  assert (forall j, join_next s j = Some s' -> doomed s' i -> doomed s i) as Hj.
  { intros j (Hj & ->)%join_next_inv. unfold doomed. cbn. rewrite lookup_delete_Some. naive_solver. }
  destruct (sv_phase s) as [| | | |r] eqn:Ep, ev as [|x| |j e|j| | |]; try done; try (by intros; left; eauto); try (injection Hs as <-; by left).
  - injection Hs as <-. unfold doomed. cbn. rewrite lookup_insert_Some. naive_solver.
  - destruct (is_transient_accept_error x); injection Hs as <-; [by left|by destruct (Hp x)].
  - destruct (forallb _ _); [done|]. injection Hs as <-. unfold doomed. cbn. rewrite abort_all_lookup, fmap_Some.
    intros [([] & Hi & [=])|Hi]; auto.
  - case_bool_decide; [|done]. injection Hs as <-. by left.
  - case_bool_decide; [|done]. injection Hs as <-. by left.
Qed.

Lemma returned_step s ev s' r : step s ev = Some s' -> sv_phase s = Returned r -> sv_phase s' = Returned r.
Proof. unfold step. intros Hs Hp. rewrite Hp in Hs. destruct ev; try done. apply task_ends_inv in Hs as [-> _]. done. Qed.

Lemma leaving_origin s ev s' : step s ev = Some s' -> (forall e, sv_phase s' <> Returned (Err e)) -> leaving s' ->
  (leaving s /\ ev <> Accept) \/ ev = Shutdown.
Proof.
  intros Hs Hp Hl. unfold step, leaving in *. destruct (sv_phase s) as [| | | |r] eqn:Ep, ev as [|x| |j e|j| | |]; try done; auto;
    try (left; split; [eauto|done]); exfalso.
  all: try (apply task_ends_inv in Hs as [-> _]); try (apply join_next_inv in Hs as [_ ->]); cbn in Hl; rewrite ?Ep in Hl;
    try (destruct (is_transient_accept_error x)); try injection Hs as <-; cbn in Hl, Hp; naive_solver.
Qed.

Lemma history trace : forall s, serve start trace = Some s -> (forall e, sv_phase s <> Returned (Err e)) ->
  (forall i, doomed s i -> running_at_deadline trace i) /\ (leaving s -> signalled trace).
Proof.
  induction trace as [|ev trace IH] using rev_ind; intros s Hs Hp.
  - injection Hs as <-. split; [intros i [Hi|Hi]; cbn in Hi; by rewrite lookup_empty in Hi|]. intros [|[|[? ?]]]; done.
  - apply serve_snoc in Hs as (s1 & H1 & Hs). destruct (IH _ H1) as [Hd Hl].
    { intros e He. apply (Hp e). by eapply returned_step. }
    split.
    + intros i Hi. destruct (doomed_step _ _ _ _ Hs Hp Hi) as [Hi1|[-> Hi1]]; [by apply running_at_deadline_snoc, Hd|].
      exists trace, [], s1. done.
    + intros Hl'. destruct (leaving_origin _ _ _ Hs Hp Hl') as [[Hl1 He]| ->]; [by apply signalled_snoc; auto|].
      exists trace, []. split; [done|]. set_solver.
Qed.

(** * Theorems *)

(** C37: a server that leaves on the signal leaves nothing behind.  When [serve] returns
    without an error, the signal came, no connection was accepted after it, no task is
    left, every accepted connection has ended, and those that were aborted were still
    running when the grace period passed. *)
Theorem graceful_shutdown trace s :
  serve start trace = Some s -> sv_phase s = Returned (Ok tt) ->
  signalled trace /\ connections s = ∅ /\ (forall i, (i < accepted s)%nat -> is_Some (endings s !! i)) /\
  forall i, endings s !! i = Some Aborted -> running_at_deadline trace i.
Proof.
  intros Hs Hp. pose proof (serve_ok _ _ _ start_ok Hs) as Hok.
  destruct (history trace s Hs) as [Hd Hl]; [by rewrite Hp|]. split; [apply Hl; right; right; eauto|].
  assert (connections s = ∅) as Hn by (by apply ok_empty). split; [done|]. split.
  - intros i Hi. apply (ok_counted _ Hok); [done|]. by rewrite Hn, lookup_empty.
  - intros i Hi. apply Hd. by right.
Qed.

(** C38: a shutdown comes to its end, with or without the clients.  Once the signal has come
    the server takes at most two steps for every connection it still has and two more,
    whatever happens in which order.  At every point it can still reach its end without
    an error by events that no client has a part in (the grace period passes, tasks told
    to stop end, ended tasks are joined), and when none of these can happen any more it
    has returned: connections that never end by themselves do not hold it up. *)
Theorem shutdown_terminates trace s trace' s' :
  serve start trace = Some s -> sv_phase s = Draining -> serve s trace' = Some s' ->
  (length trace' <= 2 * size (connections s) + 2)%nat /\
  (exists rest s2, serve_unaided s' rest = Some s2 /\ sv_phase s2 = Returned (Ok tt)) /\
  ((forall ev, unaided s' ev = true -> step s' ev = None) -> sv_phase s' = Returned (Ok tt)).
Proof.
  intros Hs Hp Hs'. pose proof (serve_ok _ _ _ start_ok Hs) as Hok. pose proof (serve_ok _ _ _ Hok Hs') as Hok'.
  pose proof (calm_serve s trace' s' (or_introl Hp) Hs') as Hc. split; [|split; [by apply unaided_end|]].
  - destruct (leaving_serve s trace' s') as [_ Hr]; [by left|done|].
    pose proof (work_bound (connections s)). unfold remaining in Hr at 2. rewrite Hp in Hr. lia.
  - intros Hstuck. destruct Hc as [Hc|[Hc|Hc]]; [| |done];
      (destruct (leaving_progress s' Hok') as (ev & s2 & Hu & H2); [tauto|]; by rewrite Hstuck in H2).
Qed.

(** One connection that its client aborts before it is accepted ends the server: the error
    is not among the transient ones, so [serve] returns it and drops every connection. *)
Theorem aborted_connection_ends_server s :
  sv_phase s = Accepting ->
  exists s', step s (AcceptFails (mk_accept_error OtherKind (Some ECONNABORTED))) = Some s' /\
    sv_phase s' = Returned (Err (mk_accept_error OtherKind (Some ECONNABORTED))) /\
    forall i, connections s !! i = Some Running -> connections s' !! i = Some Stopping.
Proof.
  intros Hp. unfold step. rewrite Hp. eexists. split; [reflexivity|]. split; [done|]. intros i Hi. cbn. by rewrite abort_all_lookup, Hi.
Qed.

(** * Witnesses *)

Definition stopping_trace : list event :=
  [Accept; Accept; TaskEnds 0 Completed; Shutdown; JoinNext 0; Deadline; TaskEnds 1 Aborted; JoinNext 1; Drained].

Definition stopped : server := default start (serve start stopping_trace).

Lemma graceful_shutdown_witness :
  serve start stopping_trace = Some stopped /\ endings stopped !! 1%nat = Some Aborted /\ running_at_deadline stopping_trace 1.
Proof.
  assert (serve start stopping_trace = Some stopped) as Hs by (vm_compute; reflexivity). split; [exact Hs|].
  assert (endings stopped !! 1%nat = Some Aborted) as Hi by (vm_compute; reflexivity). split; [exact Hi|].
  destruct (graceful_shutdown stopping_trace stopped Hs) as (_ & _ & _ & Ha); [vm_compute; reflexivity|]. exact (Ha 1%nat Hi).
Defined.

Definition draining : server := default start (serve start [Accept; Accept; Shutdown]).
Definition half_drained : server := default start (serve draining [TaskEnds 0 Completed; JoinNext 0]).

(** The other connection never ends by itself: the deadline stops it. *)
Lemma shutdown_terminates_witness :
  sv_phase draining = Draining /\ connections half_drained !! 1%nat = Some Running /\
  exists rest s2, serve_unaided half_drained rest = Some s2 /\ sv_phase s2 = Returned (Ok tt).
Proof.
  split; [vm_compute; reflexivity|]. split; [vm_compute; reflexivity|].
  apply (shutdown_terminates [Accept; Accept; Shutdown] draining [TaskEnds 0 Completed; JoinNext 0] half_drained);
    vm_compute; reflexivity.
Defined.
