(* ===== verification/Tunnel.v ===== *)
(** The HTTP handler over the session table: [src/origin.rs] with [src/session], under any
    interleaving of requests, readers, reapers and download bodies.

    A request makes at most one call on the table besides the removal of a session that
    overflowed, and its answer depends on the table through the result of that call only.
    So a request in progress is the call it makes and the point it has reached; every
    point is one step of the table ([Session.table_step]), and the steps of all requests
    interleave.  The bytes a session has read, the packets admitted to it and the chunks
    sent down to it are kept beside the table as a record of what happened. *)

From S2P Require Import Prelude Budget Reorder Session Xhttp Site Config Origin.

(** * What a request asks of the table *)

Inductive call : Type :=
| CallPush (i : bytes) (seq : Z) (payload : bytes)
| CallOpen (i : bytes)
| CallRemove (i : bytes).

(** A session service that writes down what it is asked and answers as it is told. *)
Record oracle := mk_oracle { says_push : option push_result; says_open : open_outcome; asked : list call }.

Definition ask (t : oracle) (c : call) : oracle := mk_oracle (says_push t) (says_open t) (asked t ++ [c]).

#[export] Instance oracle_service : SessionService oracle := {
  ss_push := fun t i q p => (ask t (CallPush i q p), says_push t);
  ss_open := fun t i => (ask t (CallOpen i), says_open t);
  ss_remove := fun t i => ask t (CallRemove i) }.

Section calls.
Context `{HeaderText} `{Base64Url} (o : origin).

Definition oracle_state (t : oracle) : origin_state oracle :=
  mk_state t 0 0 0 0 (response_padding_new (padding_from (o_xhttp o)) (padding_to (o_xhttp o))).

(** [handle], with the shortest padding drawn for the answer. *)
Definition handled (r : request) (push : option push_result) (open : open_outcome) : option (list call * http_response) :=
  match handle o (oracle_state (mk_oracle push open [])) r (padding_from (o_xhttp o)) with
  | Val (s, x) => Some (asked (o_sessions s), x)
  | _ => None
  end.

Definition first_call (r : request) : option call :=
  match handled r None Conflict with Some (c :: _, _) => Some c | _ => None end.

(** The status of the answer, by the result of the call. *)
Definition status_of (r : request) (push : option push_result) (open : open_outcome) : option Z :=
  status ∘ snd <$> handled r push open.

Definition overflow_call (i : bytes) (push : option push_result) : list call :=
  match push with Some TooManyPending | Some TooManyPendingBytes => [CallRemove i] | _ => [] end.

Definition padding_sane : Prop := 0 <= padding_from (o_xhttp o) <= padding_to (o_xhttp o).

Lemma oracle_pads t : padding_sane -> pads o (oracle_state t).
Proof. intros Hp. split; [apply padding_cache_new|]. done. Qed.

Definition open_status (r : open_outcome) : Z := match r with Opened _ => 200 | Conflict => 409 | Capacity => 503 end.

Lemma answered_padded t (s1 : origin_state oracle) (x : http_response) :
  padding_sane -> o_padding s1 = o_padding (oracle_state t) ->
  exists s' x', add_xhttp_response_padding s1 x (padding_from (o_xhttp o)) = Val (s', x') /\
    o_sessions s' = o_sessions s1 /\ status x' = status x.
Proof.
  intros Hp Hs. destruct (padded o (oracle_state t) s1 x (padding_from (o_xhttp o)) (oracle_pads t Hp)) as (s' & x' & Ha & _ & _ & Hse & Hst & _);
    [unfold padding_sane in Hp; lia|done|]. eauto.
Qed.

Lemma classify_seq_range m mt i q : classify_borrowed m mt = PacketUpload i q -> 0 <= q <= u64_max.
Proof.
  unfold classify_borrowed. destruct (decide _); [done|]. destruct (_ && _); [|by destruct (_ || _), (nonempty (session_id mt))].
  destruct (nonempty (seq_str mt)); [|done]. destruct (parse_uint _ _) as [n'|] eqn:E; [|done]. intros [= _ <-].
  by apply parse_uint_range in E.
Qed.

(** Pad every answer in the goal. *)
Ltac pad_both t0 Hp :=
  repeat match goal with
  | |- context [add_xhttp_response_padding ?a ?x _] =>
      let Ha := fresh "Ha" in let Hs := fresh "Hs" in let Hst := fresh "Hst" in
      destruct (answered_padded t0 a x Hp eq_refl) as (? & ? & Ha & Hs & Hst); rewrite Ha, Hs; clear Ha
  end.

(** Whatever the table answers, a request makes the same call, and the status of its
    answer is the one of the result. *)
Lemma calls_before_answers r push open :
  padding_sane -> headers_ok (r_headers r) -> open <> Opened None ->
  match first_call r with
  | Some (CallPush i q p) =>
      0 <= q <= u64_max /\ exists x, handled r push open = Some (CallPush i q p :: overflow_call i push, x) /\ status x = push_status push
  | Some (CallOpen i) => exists x, handled r push open = Some ([CallOpen i], x) /\ status x = open_status open
  | Some (CallRemove _) => False
  | None => exists x, handled r push open = Some ([], x)
  end.
Proof.
  intros Hp Hh Ho. unfold first_call, handled, handle. cbv zeta.
  set (t0 := mk_oracle None Conflict []). set (t1 := mk_oracle push open []).
  destruct (max_header_bytes _ <? _); [by eexists|]. destruct (bytes_eqb _ _); [by eexists|]. destruct (bytes_eqb _ _); [by eexists|].
  destruct (_ || _); [by eexists|]. destruct (bool_decide _); [pad_both t0 Hp; by eexists|].
  destruct (negb _); [by eexists|]. destruct (classify_borrowed _ _) as [i q|i| |i| |] eqn:Ec; cbn [mbind comp_bind].
  - unfold upload. pose proof (read_payload_graceful o (r_headers r) (r_body r) Hh) as Hg.
    destruct (read_payload o _ _) as [p|e| |]; try (by destruct Hg); cbn [mbind comp_bind].
    + unfold finish_upload. destruct (_ <? _); cbv zeta; cbn [reject_upload_too_large mbind comp_bind]; [pad_both t0 Hp; by eexists|].
      cbn [ss_push oracle_service o_sessions count_upload oracle_state].
      assert (0 <= q <= u64_max) as Hq by (by eapply classify_seq_range).
      destruct push as [[]|], (bool_decide _); cbn; pad_both t0 Hp; cbn;
        (split; [exact Hq|]); (eexists; split; [reflexivity|]); first [exact Hst0 | exact Hst].
    + destruct e; cbn [upload_failure reject_upload_too_large]; pad_both t0 Hp; by eexists.
  - unfold download. cbn [ss_open oracle_service o_sessions oracle_state].
    destruct open as [[[j h]|]| |], (sse_header (o_xhttp o)); try done; cbn; pad_both t0 Hp; cbn;
      (eexists; split; [reflexivity|]); first [exact Hst0 | exact Hst].
  - pad_both t0 Hp; by eexists.
  - pad_both t0 Hp; by eexists.
  - pad_both t0 Hp; by eexists.
  - pad_both t0 Hp; by eexists.
Qed.
End calls.

(** * Requests in progress *)

(** Where a request stands: before its call; in [upsert] with the lock of a shard; with the
    session it made, whose reaper is still being set up; with the session; waiting in its
    push for room, with the lock of the uplink; about to remove a session that overflowed;
    and how it ended, which may be that its connection was lost while it waited.  A download goes on as the body of its response, which has got some
    frames. *)
Inductive stage : Type :=
| Arrived
| InShard (k : nat)
| Made (sid : nat)
| Holds (sid : nat)
| Waits (sid : nat)
| Overflowed (sid : nat) (r : push_result)
| Pushed (sid : nat) (r : push_result)
| Refused
| Abandoned (sid : nat)
| Conflicted (sid : nat)
| Streaming (sid : nat) (key : option (bytes * Z)) (got : list bytes)
| BodyEnded (sid : nat) (key : option (bytes * Z)) (got : list bytes).

(** The table, the requests, and for every session object the record of its uplink, which
    ends when a waiting post is abandoned, and its downlink with the chunks sent into it. *)
Record world := mk_world {
  w_table : table;
  w_tasks : list (request * stage);
  w_hist : list (option history);
  w_down : list (downlink * list bytes) }.

Inductive act : Type :=
| ATask (n : nat) (failed : bool)
| AAbandon (n : nat)
| ATable (e : Session.event)
| ASend (sid : nat) (b : bytes)
| AHandlerEnds (sid : nat)
| ABody (n : nat)
| AHangUp (n : nat).

(** Steps that are not made by a request: the rest of an [upsert] and of a removal, the
    reapers, and the reader of a session. *)
Definition env_event (e : Session.event) : bool :=
  match e with
  | EFinish _ | EReap _ _ | EReapRemove _ | ERemoved _ | EUplink _ (ERead _) | EUplink _ EDropReader => true
  | _ => false
  end.

Definition finishing_session (t : table) (sid : nat) : bool := existsb (fun f => Nat.eqb f.1 sid) (finishing t).

(** The next step of a request that makes call [c]. *)
Definition task_event (t : table) (c : call) (st : stage) (failed : bool) : option Session.event :=
  match c, st with
  | CallPush i _ _, Arrived => Some (EUpsert i false)
  | CallOpen i, Arrived => Some (EUpsert i true)
  | _, InShard k => Some (EInsert k)
  | CallPush _ q p, Made sid => if finishing_session t sid then None else Some (EUplink sid (EPush q p))
  | CallPush _ q p, Holds sid => Some (EUplink sid (EPush q p))
  | CallPush _ _ _, Waits sid => Some (EUplink sid (if failed then ESendFailed else ESent))
  | CallPush i _ _, Overflowed _ _ => Some (ERemove i (fnv1a i))
  | CallOpen _, (Made sid | Holds sid) => Some (EConnect sid)
  | _, _ => None
  end.

Definition pushed (sid : nat) (r : push_result) : stage :=
  match r with TooManyPending | TooManyPendingBytes => Overflowed sid r | _ => Pushed sid r end.

Definition next_stage (st : stage) (out : Session.output) : stage :=
  match st, out with
  | Arrived, OFound sid => Holds sid
  | Arrived, OCreating k => InShard k
  | Arrived, _ => Refused
  | InShard _, OCreated sid => Made sid
  | (Made sid | Holds sid | Waits sid), OUplink (OPush r) => pushed sid r
  | (Made sid | Holds sid | Waits sid), OUplink _ => Waits sid
  | (Made sid | Holds sid), OOpened d => Streaming sid (session_key d) []
  | (Made sid | Holds sid), _ => Conflicted sid
  | Overflowed sid r, _ => Pushed sid r
  | _, _ => st
  end.

(** The record of what happened; it ends with a packet that is lost. *)
Definition noted (ev : Reorder.event) (x : Reorder.output) (h : option history) : option history :=
  match ev with ECancel => None | _ => record_event ev x <$> h end.

Definition observe (e : Session.event) (out : Session.output) (H : list (option history)) : list (option history) :=
  match e, out with
  | EUplink sid ev, OUplink x => alter (noted ev x) sid H
  | EInsert _, OCreated _ => H ++ [Some (mk_history ∅ [])]
  | _, _ => H
  end.

Definition observe_down (t : table) (e : Session.event) (out : Session.output) (D : list (downlink * list bytes)) :
    list (downlink * list bytes) :=
  match e, out with
  | EInsert _, OCreated _ => D ++ [(downlink_channel (downlink_capacity (cfg t)), [])]
  | _, _ => D
  end.

Definition table_act (w : world) (e : Session.event) : option (world * Session.output) :=
  '(t, out) ← table_step (w_table w) e;
  Some (mk_world t (w_tasks w) (observe e out (w_hist w)) (observe_down (w_table w) e out (w_down w)), out).

Definition set_task (w : world) (n : nat) (r : request) (st : stage) : world :=
  mk_world (w_table w) (<[n := (r, st)]> (w_tasks w)) (w_hist w) (w_down w).
Definition set_down (w : world) (sid : nat) (d : downlink) (sent : list bytes) : world :=
  mk_world (w_table w) (w_tasks w) (w_hist w) (<[sid := (d, sent)]> (w_down w)).

(** The receiver goes away with the body. *)
Definition drop_receiver (d : downlink) : downlink := mk_downlink (dl_cap d) [] (dl_tx d) false (session_key d).
Definition drop_sender (d : downlink) : downlink := mk_downlink (dl_cap d) (dl_chan d) false (dl_rx d) (session_key d).

(** The end of a response body: its state is dropped, which removes the session. *)
Definition end_body (w : world) (n : nat) (r : request) (sid : nat) (key : bytes * Z) (got : list bytes) : option world :=
  '(d, sent) ← w_down w !! sid;
  '(w', _) ← table_act w (ERemove key.1 key.2);
  Some (set_down (set_task w' n r (BodyEnded sid (Some key) got)) sid (drop_receiver d) sent).

(** The body of a download is polled: [None] while the queue is empty and its sender there. *)
Definition poll_body (w : world) (n : nat) (r : request) (sid : nat) (key : bytes * Z) (got : list bytes) : option world :=
  '(d, sent) ← w_down w !! sid;
  '(d', x) ← downlink_recv d;
  match x with
  | Some b => Some (set_down (set_task w n r (Streaming sid (Some key) (got ++ [b]))) sid d' sent)
  | None => end_body w n r sid key got
  end.

Section world.
Context `{HeaderText} `{Base64Url} (o : origin).

Definition wstep (w : world) (a : act) : option world :=
  match a with
  | ATask n failed =>
      '(r, st) ← w_tasks w !! n;
      c ← first_call o r;
      e ← task_event (w_table w) c st failed;
      '(w', out) ← table_act w e;
      Some (set_task w' n r (next_stage st out))
  | AAbandon n =>
      '(r, st) ← w_tasks w !! n;
      match st with
      | Waits sid => '(w', _) ← table_act w (EUplink sid ECancel); Some (set_task w' n r (Abandoned sid))
      | _ => None
      end
  | ATable e => if env_event e then '(w', _) ← table_act w e; Some w' else None
  | ASend sid b =>
      '(d, sent) ← w_down w !! sid;
      '(d', x) ← downlink_send d b;
      Some (set_down w sid d' (match x, b with Ok _, _ :: _ => sent ++ [b] | _, _ => sent end))
  | AHandlerEnds sid => '(d, sent) ← w_down w !! sid; Some (set_down w sid (drop_sender d) sent)
  | ABody n =>
      '(r, st) ← w_tasks w !! n;
      match st with
      | Streaming sid (Some key) got => poll_body w n r sid key got
      | _ => None
      end
  | AHangUp n =>
      '(r, st) ← w_tasks w !! n;
      match st with
      | Streaming sid (Some key) got => end_body w n r sid key got
      | _ => None
      end
  end.

Fixpoint wrun (acts : list act) (w : world) : option world :=
  match acts with [] => Some w | a :: acts' => w' ← wstep w a; wrun acts' w' end.

Definition world_new (c : Session.config) (b : option budget) (rs : list request) : world :=
  mk_world (table_new c b) ((fun r => (r, Arrived)) <$> rs) [] [].

(** The status a request was answered with, if it was. *)
Definition answered (x : request * stage) : option Z :=
  let '(r, st) := x in
  match first_call o r, st with
  | None, _ => status_of o r None Conflict
  | Some (CallPush _ _ _), Pushed _ p => status_of o r (Some p) Conflict
  | Some (CallPush _ _ _), Refused => status_of o r None Conflict
  | Some (CallOpen _), Refused => status_of o r None Capacity
  | Some (CallOpen _), Conflicted _ => status_of o r None Conflict
  | Some (CallOpen _), (Streaming _ key _ | BodyEnded _ key _) => status_of o r None (Opened key)
  | _, _ => None
  end.
End world.

(** * One session, whatever happens around it *)

(** Both ends of the uplink are there: the session is registered and its reader alive. *)
Definition is_open (u : uplink) : Prop := tx_live u = true /\ rx_live u = true.

Lemma uplink_inv_mem u h m : uplink_inv u h -> uplink_inv (set_mem u m) h.
Proof. intros [Ho Hx Hl]. split; [|done|done]. by apply ordered_mem. Qed.

Definition live (u : uplink) : bool * bool := (tx_live u, rx_live u).

Lemma advance_live fuel u : live (advance fuel u).1 = live u.
Proof.
  revert u. induction fuel as [|f IH]; intros u; cbn; [done|]. destruct (_ =? _); [done|].
  destruct (pending u !! _); [|done]. destruct (is_empty _); [by rewrite IH|done].
Qed.

Lemma settle_live r : live (settle r).1 = live r.1.
Proof. by destruct r as [u []]. Qed.

Lemma push_live u q p : live (push_begin u q p).1 = live u.
Proof.
  unfold push_begin. repeat case_match; try done; unfold advance_all; by rewrite ?advance_live.
Qed.

Lemma poll_read_live u n : live (poll_read u n).1 = live u.
Proof. unfold poll_read, take_cur. by repeat (case_match; cbn). Qed.

Lemma live_open u v : live v = live u -> is_open v -> is_open u.
Proof. unfold is_open, live. by intros [= -> ->]. Qed.

Lemma close_open u : is_open (close u) -> is_open u /\ close u = u.
Proof. unfold close. destruct (holder u); [done|]. by intros [? ?]. Qed.

Lemma uplink_step_open u e u' x : uplink_step u e = Some (u', x) -> is_open u' -> is_open u.
Proof.
  destruct e as [seq p| | | |n| |]; unfold uplink_step.
  5: { case_match; [|done]. pose proof (poll_read_live u n). destruct (poll_read u n). intros [= <- <-]. by apply live_open. }
  all: repeat (case_match; try done); intros [= <- <-]; try done.
  - apply live_open. cbn [out_push fst]. by rewrite settle_live, push_live.
  - apply live_open. cbn [out_push fst]. rewrite settle_live. unfold send_ok, advance_all. by rewrite advance_live.
  - apply close_open.
  - by intros [_ ?].
Qed.

Definition tame_event (e : Reorder.event) : bool :=
  match e with EPush seq _ => (0 <=? seq) && (seq <=? u64_max) | ECancel => false | _ => true end.

(** Every event that leaves both ends there keeps the order. *)
Lemma uplink_step_ordered u e u' x h :
  tame_event e = true -> uplink_step u e = Some (u', x) -> is_open u' -> uplink_inv u h -> uplink_inv u' (record_event e x h).
Proof.
  intros Ht Hs Ho Hi. destruct (open_event e) eqn:Eo.
  - pose proof (run_ordered [e] u h u' (record_event e x h)) as Hr. cbn in Hr. rewrite Eo, Hs in Hr. by apply Hr.
  - pose proof (uplink_step_open _ _ _ _ Hs Ho) as [Htx Hrx]. destruct e as [q p| | | |n| |]; cbn in Eo, Ht; try done.
    + by rewrite Ht in Eo.
    + cbn in Hs. rewrite Htx, Hrx in Hs. by destruct (holder u).
    + injection Hs as <- <-. by destruct (close_open _ Ho) as [_ ->].
    + cbn in Hs. rewrite Hrx in Hs. injection Hs as <- <-. by destruct Ho.
Qed.

(** What is admitted stays admitted, and success means admitted. *)
Lemma record_admitted e x h q : is_Some (admitted h !! q) -> is_Some (admitted (record_event e x h) !! q).
Proof.
  intros Hq. destruct e, x as [[]| |]; try done; cbn; by apply lookup_insert_is_Some'; right.
Qed.

Lemma advance_progress fuel u : (advance fuel u).2 = Stuck \/ (advance fuel u).2 = Finished Accepted \/ exists c, (advance fuel u).2 = Sending c.
Proof.
  revert u. induction fuel as [|f IH]; intros u; cbn; [by left|]. destruct (_ =? _); [by right; left|].
  destruct (pending u !! _); [|by right; left]. destruct (is_empty _); [apply IH|right; right; by eexists].
Qed.

Lemma advanced_output u : (out_push (settle (advance_all u))).2 <> OPush Duplicate.
Proof.
  unfold advance_all. destruct (advance_progress (S (size (pending u))) u) as [Hp|[Hp|[c Hp]]];
    destruct (advance _ u) as [v pr]; cbn in Hp; subst pr; done.
Qed.

Lemma push_duplicate_admitted u h q p u' :
  uplink_inv u h -> 0 <= q <= u64_max -> uplink_step u (EPush q p) = Some (u', OPush Duplicate) -> is_Some (admitted h !! q).
Proof.
  intros [[Hn Hk Hd Hs] Hx Hl] Hq Hst. cbn in Hst. destruct (holder u) eqn:Eh; [done|]. apply Hd. unfold delivered.
  assert ((out_push (settle (push_begin u q p))).2 = OPush Duplicate) as Hout by (by apply (f_equal (fun y => snd <$> y)) in Hst; injection Hst).
  clear Hst. revert Hout. unfold push_begin.
  destruct (sequence_exhausted u) eqn:Ex; cbn [orb].
  { intros _. left. destruct (Hx eq_refl) as [-> _]. lia. }
  destruct (q <? next_seq u) eqn:E1; split_bool; [intros _; left; case_bool_decide; cbn; lia|].
  destruct (next_seq u <? q); [case_bool_decide as Hp; [intros _; by right|]; repeat case_match; done|].
  destruct (reserve_payload _ _) as [[m c]|]; [|done]. cbv zeta. destruct (is_empty c); [|done]. intros Hout. by apply advanced_output in Hout.
Qed.

Lemma push_succeeds_admitted u h q p u' x :
  uplink_inv u h -> 0 <= q <= u64_max -> uplink_step u (EPush q p) = Some (u', x) ->
  (x = ONone \/ x = OPush Accepted \/ x = OPush Duplicate) -> is_Some (admitted (record_event (EPush q p) x h) !! q).
Proof.
  intros Hi Hq Hst [->|[->| ->]]; [by eexists; apply lookup_insert_eq..|]. by eapply push_duplicate_admitted.
Qed.

(** * Steps of the table and its sessions *)

(** What a record says of an uplink. *)
Definition recorded (u : uplink) (h : option history) : Prop := forall h0, h = Some h0 -> uplink_inv u h0.

Definition evolves (f : option history -> option history) (s s' : session) : Prop :=
  id s' = id s /\ (is_open (up s') -> is_open (up s)) /\
  forall h, is_open (up s') -> recorded (up s) h -> recorded (up s') (f h).

Lemma evolves_up s s' : id s' = id s -> up s' = up s -> evolves (fun h => h) s s'.
Proof. intros Hi Hu. unfold evolves. rewrite Hu. done. Qed.

Definition tame_table (e : Session.event) : bool := match e with EUplink _ ECancel => true | EUplink _ ev => tame_event ev | _ => true end.

(** A step leaves the session objects alone, changes one, or makes one. *)
Inductive heap_change (t t' : table) (e : Session.event) (out : Session.output) : Prop :=
| HeapSame : heap t' = heap t -> (forall H, observe e out H = H) -> heap_change t t' e out
| HeapUpdate sid s s' f : heap t !! sid = Some s -> heap t' = <[sid := s']> (heap t) -> evolves f s s' ->
    (forall H, observe e out H = alter f sid H) -> heap_change t t' e out
| HeapNew i fc : heap t' = heap t ++ [new_session t i fc] -> out = OCreated (length (heap t)) ->
    (forall H, observe e out H = H ++ [Some (mk_history ∅ [])]) -> heap_change t t' e out.

Lemma alter_same {A} (l : list A) i : l = alter (fun x => x) i l.
Proof. revert i. induction l as [|x l IH]; intros [|i]; cbn; [done|done|done|]. f_equal. apply IH. Qed.

Lemma heap_update_up t t' e out sid s s' :
  heap t !! sid = Some s -> heap t' = <[sid := s']> (heap t) -> id s' = id s -> up s' = up s -> (forall H, observe e out H = H) ->
  heap_change t t' e out.
Proof.
  intros Hs Ht Hi Hu Ho. eapply HeapUpdate; [done|done|by apply evolves_up|]. intros H. rewrite Ho. apply alter_same.
Qed.

Lemma take_and_abort_up s : up (take_and_abort s) = up s.
Proof. unfold take_and_abort. by destruct (grace_reaper s). Qed.

Lemma evolves_close s s1 m : id s1 = id s -> up s1 = up s -> evolves (fun h => h) s (set_up s1 (close (set_mem (up s1) m))).
Proof.
  intros Hi Hu. unfold evolves. cbn [id set_up up]. rewrite Hu. split; [done|]. split.
  - intros [Ho _]%close_open. exact Ho.
  - intros h Ho Hh h0 Hh0. destruct (close_open _ Ho) as [_ ->]. by apply uplink_inv_mem, Hh.
Qed.

Lemma step_heap t e t' out : tame_table e = true -> table_step t e = Some (t', out) -> heap_change t t' e out.
Proof.
  intros Ht Hs. destruct e as [i fc|k|j|sid|sid alive|sid|i h|j|sid ev]; cbn [table_step] in Hs.
  - apply HeapSame; [|done]. unfold upsert_begin in Hs. repeat case_match; simplify_eq/=; done.
  - unfold upsert_insert in Hs. destruct (shards t !! k) as [sh|]; [|done]. destruct (creating sh) as [[i fc]|]; [|done].
    injection Hs as <- <-. by eapply HeapNew.
  - destruct (finishing t !! j) as [[sid p]|]; cbn in Hs; [|done]. destruct (heap t !! sid) as [s|] eqn:Es; cbn in Hs; [|done].
    destruct (finish_phase t j sid p s) as [t1|] eqn:Ef; cbn in Hs; [|done]. injection Hs as <- <-.
    unfold finish_phase in Ef. destruct p; repeat case_match; simplify_eq/=; (eapply heap_update_up; [exact Es|reflexivity|done..]).
  - destruct (heap t !! sid) as [s|] eqn:Es; cbn in Hs; [|done]. injection Hs as Hs. unfold connect in Hs.
    case_match; injection Hs as <- <-; (eapply heap_update_up; [exact Es|reflexivity| | |done]); cbn; unfold take_and_abort; by case_match.
  - destruct (heap t !! sid) as [s|] eqn:Es; cbn in Hs; [|done]. destruct (task s); try done. destruct alive.
    + injection Hs as <- <-. unfold reap. case_match; (eapply heap_update_up; [exact Es|reflexivity|done..]).
    + repeat case_match; simplify_eq/=. eapply heap_update_up; [exact Es|reflexivity|done..].
  - destruct (heap t !! sid) as [s|] eqn:Es; cbn in Hs; [|done]. destruct (task s); try done.
    destruct (unlink _ _ _ _ _) as [t1|] eqn:Eu; cbn [mbind option_bind] in Hs; [|done]. rewrite (unlink_heap _ _ _ _ _ _ Eu), Es in Hs. cbn [mbind option_bind] in Hs.
    injection Hs as <- <-. eapply heap_update_up; [exact Es|reflexivity|done..].
  - destruct (unlink _ _ _ _ _) as [t1|] eqn:Eu; cbn in Hs; [|done]. injection Hs as <- <-. apply HeapSame; [|done].
    by apply unlink_heap in Eu.
  - destruct (removing t !! j) as [[sid c]|]; cbn in Hs; [|done]. destruct (heap t !! sid) as [s|] eqn:Es; cbn in Hs; [|done].
    injection Hs as <- <-. eapply HeapUpdate; [exact Es|reflexivity| |intros H; apply alter_same].
    destruct c; apply evolves_close; try done; [apply take_and_abort_id|apply take_and_abort_up].
  - destruct (heap t !! sid) as [s|] eqn:Es; cbn in Hs; [|done]. destruct (uplink_step _ ev) as [[u x]|] eqn:Eu; cbn in Hs; [|done].
    injection Hs as <- <-.
    assert (is_open u -> is_open (up s)) as Hop
      by (intros Ho; apply (live_open (up s) (set_mem (up s) (shared_budget t))); [done|]; by eapply uplink_step_open).
    assert (ev = ECancel \/ ev <> ECancel) as [->|Hne] by (destruct ev; by auto).
    + by eapply (HeapUpdate _ _ _ _ sid s _ (noted ECancel x)).
    + eapply (HeapUpdate _ _ _ _ sid s _ (noted ev x)); [exact Es|reflexivity| |done].
      split; [done|]. cbn [up set_up]. split; [done|]. intros h Ho Hh h0 Hh0.
      assert (exists h1, h = Some h1 /\ h0 = record_event ev x h1) as (h1 & -> & ->)
        by (destruct ev; try done; apply fmap_Some in Hh0 as (h1 & -> & ->); by eauto).
      eapply uplink_step_ordered; [by destruct ev|exact Eu|done|]. by apply uplink_inv_mem, Hh.
Qed.

(** ** The record beside the table *)

Lemma alter_insert_list {A} (f : A -> A) (l : list A) i x : l !! i = Some x -> alter f i l = <[i := f x]> l.
Proof. revert i. induction l as [|y l IH]; intros [|i]; cbn; [done|done|by intros [= ->]|]. intros Hi. f_equal. by apply IH. Qed.

Definition stream_ok (s : session) (h : option history) : Prop := is_open (up s) -> recorded (up s) h.
Definition streams_ok (w : world) : Prop := Forall2 stream_ok (heap (w_table w)) (w_hist w).

Lemma table_act_inv w e w' out : table_act w e = Some (w', out) ->
  exists t, table_step (w_table w) e = Some (t, out) /\ w' = mk_world t (w_tasks w) (observe e out (w_hist w)) (observe_down (w_table w) e out (w_down w)).
Proof. unfold table_act. destruct (table_step _ _) as [[t x]|]; [|done]. cbn. intros [= <- <-]. eauto. Qed.

Lemma streams_step w e w' out : tame_table e = true -> table_act w e = Some (w', out) -> streams_ok w -> streams_ok w'.
Proof.
  intros Ht (t & Hs & ->)%table_act_inv Hok. unfold streams_ok in *. cbn.
  destruct (step_heap _ _ _ _ Ht Hs) as [Hh Ho|sid s s' f Hl Hh (_ & Hop & He) Ho|i fc Hh -> Ho]; rewrite Hh, Ho; [done| |].
  - destruct (Forall2_lookup_l _ _ _ _ _ Hok Hl) as (h & Hlh & Hsh).
    assert (alter f sid (w_hist w) = <[sid := f h]> (w_hist w)) as -> by (by apply alter_insert_list).
    apply Forall2_insert; [done|]. intros Hopen. apply He; [done|]. by apply Hsh, Hop.
  - apply Forall2_app; [done|]. constructor; [|constructor]. intros _ h [= <-]. apply channel_inv.
Qed.

(** Session objects keep their ids and never open again. *)
Lemma heap_step_forward w e w' out sid s : tame_table e = true -> table_act w e = Some (w', out) -> heap (w_table w) !! sid = Some s ->
  exists s', heap (w_table w') !! sid = Some s' /\ id s' = id s /\ (is_open (up s') -> is_open (up s)).
Proof.
  intros Ht (t & Hs & ->)%table_act_inv Hl. cbn.
  destruct (step_heap _ _ _ _ Ht Hs) as [Hh _|sid' s1 s1' f Hl1 Hh (Hi & Hop & _) _|i fc Hh -> _]; rewrite Hh; [by eauto| |].
  - destruct (decide (sid' = sid)) as [->|Hne].
    + rewrite Hl in Hl1. injection Hl1 as ->. exists s1'. split; [|done]. apply list_lookup_insert_eq. by eapply lookup_lt_Some.
    + exists s. rewrite list_lookup_insert_ne by done. done.
  - exists s. split; [|done]. by apply lookup_app_l_Some.
Qed.

Definition grows (h h' : option history) : Prop :=
  forall h1, h' = Some h1 -> exists h0, h = Some h0 /\ forall q, is_Some (admitted h0 !! q) -> is_Some (admitted h1 !! q).

Lemma grows_refl h : grows h h.
Proof. intros h1 ->. by exists h1. Qed.

Lemma hist_step_forward w e w' out sid h : table_act w e = Some (w', out) -> w_hist w !! sid = Some h ->
  exists h', w_hist w' !! sid = Some h' /\ grows h h'.
Proof.
  intros (t & Hs & ->)%table_act_inv Hl. cbn.
  assert (forall H : list (option history), H !! sid = Some h -> exists h', H !! sid = Some h' /\ grows h h')
    as Hsame by (intros H HH; exists h; split; [done|apply grows_refl]).
  destruct e as [| | | | | | | |sid' ev], out as [| | | | | |x|]; cbn; try (by apply Hsame).
  - apply Hsame. by apply lookup_app_l_Some.
  - destruct (decide (sid' = sid)) as [->|Hne].
    + rewrite list_lookup_alter_eq, Hl. eexists. split; [reflexivity|]. intros h1 Hh1.
      assert (exists h0, h = Some h0 /\ h1 = record_event ev x h0) as (h0 & -> & ->)
        by (destruct ev; try done; apply fmap_Some in Hh1 as (h0 & -> & ->); by eauto).
      exists h0. split; [done|]. intros q. apply record_admitted.
    + apply Hsame. by rewrite list_lookup_alter_ne.
Qed.

(** A packet is new in a record only by its push. *)
Lemma hist_step_backward w e w' out sid h' q p : table_act w e = Some (w', out) -> w_hist w' !! sid = Some (Some h') -> admitted h' !! q = Some p ->
  (exists h, w_hist w !! sid = Some (Some h) /\ admitted h !! q = Some p) \/ e = EUplink sid (EPush q p).
Proof.
  intros (t & Hs & ->)%table_act_inv. cbn. destruct e as [| | | | | | | |sid' ev], out as [| | | | | |x|]; cbn; try by eauto.
  - intros [Hl|[_ Hl]]%lookup_app_Some; [by eauto|]. apply list_lookup_singleton_Some in Hl as [_ [= <-]]. cbn. by rewrite lookup_empty.
  - destruct (decide (sid' = sid)) as [->|Hne]; [|rewrite list_lookup_alter_ne by done; by eauto].
    rewrite list_lookup_alter_eq. intros (h0 & Hl0 & Hh)%fmap_Some Ha.
    assert (exists h, h0 = Some h /\ h' = record_event ev x h) as (h & -> & ->)
      by (destruct ev; try done; symmetry in Hh; apply fmap_Some in Hh as (h & -> & ->); by eauto).
    destruct ev as [q' p'| | | | | |], x as [[]| |]; cbn in Ha; try (by eauto);
      (apply lookup_insert_Some in Ha as [[-> ->]|[_ Ha]]; [by right|by eauto]).
Qed.

(** ** The locks of the shards *)

Lemma unlink_creating t i h x c t' k sh y : unlink t i h x c = Some t' -> shards t !! k = Some sh -> creating sh = Some y ->
  exists sh', shards t' !! k = Some sh' /\ creating sh' = Some y.
Proof.
  unfold unlink. destruct (shards t !! shard_index t h) as [sh0|] eqn:E0; [|done]. destruct (creating sh0) eqn:Ec; [done|].
  intros Hu Hk Hy. destruct (match x with Some e => not_current sh0 i e | None => false end); [injection Hu as <-; by eauto|].
  destruct (smap sh0 !! i) as [sid|]; injection Hu as <-; [|by eauto]. cbn.
  rewrite list_lookup_insert_ne; [by eauto|]. intros <-. congruence.
Qed.

(** A shard in which a session is being made stays so until it is made. *)
Lemma step_creating t e t' out k sh y : table_step t e = Some (t', out) -> e <> EInsert k -> shards t !! k = Some sh -> creating sh = Some y ->
  exists sh', shards t' !! k = Some sh' /\ creating sh' = Some y.
Proof.
  intros Hs He Hk Hy. assert (shards t' = shards t -> exists sh', shards t' !! k = Some sh' /\ creating sh' = Some y) as Hsame
    by (intros ->; eauto).
  destruct e as [i fc|k0|j|sid|sid alive|sid|i h|j|sid ev]; cbn [table_step] in Hs.
  - unfold upsert_begin in Hs. destruct (shards t !! shard_index t (fnv1a i)) as [sh0|] eqn:E0; [|done]. destruct (creating sh0) eqn:Ec; [done|].
    repeat case_match; simplify_eq/=; try (by eauto). rewrite list_lookup_insert_ne; [by eauto|]. intros <-. congruence.
  - unfold upsert_insert in Hs. destruct (shards t !! k0) as [sh0|]; [|done]. destruct (creating sh0) as [[i fc]|]; [|done].
    injection Hs as <- <-. cbn. rewrite list_lookup_insert_ne by congruence. eauto.
  - destruct (finishing t !! j) as [[sid p]|]; cbn in Hs; [|done]. destruct (heap t !! sid) as [s|]; cbn in Hs; [|done].
    destruct (finish_phase t j sid p s) as [t1|] eqn:Ef; cbn in Hs; [|done]. injection Hs as <- <-. apply Hsame.
    unfold finish_phase in Ef. destruct p; repeat case_match; by simplify_eq/=.
  - destruct (heap t !! sid) as [s|]; cbn in Hs; [|done]. unfold connect in Hs. apply Hsame. case_match; by simplify_eq/=.
  - destruct (heap t !! sid) as [s|]; cbn in Hs; [|done]. apply Hsame. destruct (task s); try done.
    unfold reap in Hs. repeat case_match; by simplify_eq/=.
  - destruct (heap t !! sid) as [s|]; cbn in Hs; [|done]. destruct (task s); try done.
    destruct (unlink _ _ _ _ _) as [t1|] eqn:Eu; cbn [mbind option_bind] in Hs; [|done].
    destruct (heap t1 !! sid); cbn [mbind option_bind] in Hs; [|done]. injection Hs as <- <-. cbn. by eapply unlink_creating.
  - destruct (unlink _ _ _ _ _) as [t1|] eqn:Eu; cbn [mbind option_bind] in Hs; [|done]. injection Hs as <- <-. by eapply unlink_creating.
  - destruct (removing t !! j) as [[sid c]|]; cbn in Hs; [|done]. destruct (heap t !! sid) as [s|]; cbn in Hs; [|done].
    injection Hs as <- <-. by apply Hsame.
  - destruct (heap t !! sid) as [s|]; cbn in Hs; [|done]. destruct (uplink_step _ ev) as [[u x]|]; cbn in Hs; [|done].
    injection Hs as <- <-. by apply Hsame.
Qed.

(** * The invariant of the world *)

Definition call_id (c : call) : bytes := match c with CallPush i _ _ | CallOpen i | CallRemove i => i end.

Definition stage_session (st : stage) : option nat :=
  match st with
  | Made sid | Holds sid | Waits sid | Overflowed sid _ | Pushed sid _ | Abandoned sid | Conflicted sid | Streaming sid _ _ | BodyEnded sid _ _ => Some sid
  | Arrived | InShard _ | Refused => None
  end.

(** The session that has taken the packet of a push. *)
Definition taken_by (st : stage) : option nat :=
  match st with
  | Waits sid | Pushed sid (Accepted | Duplicate) | Overflowed sid (Accepted | Duplicate) => Some sid
  | _ => None
  end.

Section invariant.
Context `{HeaderText} `{Base64Url} (o : origin).

(** The packet [q] of session [sid] came with a request. *)
Definition posted (w : world) (sid : nat) (q : Z) (p : bytes) : Prop :=
  exists n r st s, w_tasks w !! n = Some (r, st) /\ heap (w_table w) !! sid = Some s /\ first_call o r = Some (CallPush (id s) q p).

(** For all requests but those of [skip]. *)
Record tasks_ok (skip : nat -> Prop) (w : world) : Prop := {
  to_session : forall n r st sid, w_tasks w !! n = Some (r, st) -> ~ skip n -> stage_session st = Some sid ->
    exists c s, first_call o r = Some c /\ heap (w_table w) !! sid = Some s /\ id s = call_id c;
  to_lock : forall n r k, w_tasks w !! n = Some (r, InShard k) -> ~ skip n ->
    exists c sh fc, first_call o r = Some c /\ shards (w_table w) !! k = Some sh /\ creating sh = Some (call_id c, fc);
  to_alone : forall n m r r' k, w_tasks w !! n = Some (r, InShard k) -> w_tasks w !! m = Some (r', InShard k) -> ~ skip n -> ~ skip m -> n = m;
  to_packet : forall n r st sid i q p s h, w_tasks w !! n = Some (r, st) -> ~ skip n -> taken_by st = Some sid ->
    first_call o r = Some (CallPush i q p) -> heap (w_table w) !! sid = Some s -> w_hist w !! sid = Some (Some h) -> is_open (up s) ->
    is_Some (admitted h !! q);
  to_origin : forall sid h q p, w_hist w !! sid = Some (Some h) -> admitted h !! q = Some p -> posted w sid q p }.

Record world_ok (w : world) : Prop := {
  wo_table : table_inv (w_table w);
  wo_streams : streams_ok w;
  wo_headers : forall n r st, w_tasks w !! n = Some (r, st) -> headers_ok (r_headers r);
  wo_tasks : tasks_ok (fun _ => False) w }.

(** A step of the table, seen from the requests that do not make it. *)
Lemma tasks_step skip (skip' : nat -> Prop) w e w' out :
  tasks_ok skip w -> streams_ok w -> tame_table e = true -> table_act w e = Some (w', out) -> (forall n, skip n -> skip' n) ->
  (forall n r k, w_tasks w !! n = Some (r, InShard k) -> e = EInsert k -> skip' n) ->
  (forall sid q p, e = EUplink sid (EPush q p) -> posted w sid q p) ->
  tasks_ok skip' w'.
Proof.
  intros [Hse Hlo Hal Hpa Hor] Hst Ht Ha Hsk Hins Hpush.
  assert (w_tasks w' = w_tasks w) as Htasks by (by apply table_act_inv in Ha as (t & _ & ->)).
  assert (forall sid q p, posted w sid q p -> posted w' sid q p) as Hposted.
  { intros sid q p (n & r & st & s & Hn & Hs & Hc). destruct (heap_step_forward _ _ _ _ _ _ Ht Ha Hs) as (s' & Hs' & Hi & _).
    exists n, r, st, s'. by rewrite Htasks, Hi. }
  split; rewrite ?Htasks.
  - intros n r st sid Hn Hs Hsid. destruct (Hse n r st sid Hn) as (c & s & Hc & Hl & Hi); [by auto|done|].
    destruct (heap_step_forward _ _ _ _ _ _ Ht Ha Hl) as (s' & Hs' & Hi' & _). exists c, s'. by rewrite Hi'.
  - intros n r k Hn Hs. destruct (Hlo n r k Hn) as (c & sh & fc & Hc & Hk & Hcr); [by auto|].
    destruct (table_act_inv _ _ _ _ Ha) as (t & Hstep & Hw'). rewrite Hw'. cbn.
    assert (e <> EInsert k) as Hne by (intros He; apply Hs; by eapply Hins).
    destruct (step_creating _ _ _ _ _ _ _ Hstep Hne Hk Hcr) as (sh' & Hk' & Hcr'). eauto 7.
  - intros n m r r' k Hn Hm Hs Hs'. eapply Hal; eauto.
  - intros n r st sid i q p s h Hn Hs Htk Hc Hl Hh Ho.
    destruct (Hse n r st sid Hn) as (c & s0 & Hc0 & Hl0 & Hi0); [by auto|by destruct st as [| | | | |? []|? []| | | | |]|].
    destruct (heap_step_forward _ _ _ _ _ _ Ht Ha Hl0) as (s' & Hl' & _ & Hop). rewrite Hl in Hl'. injection Hl' as <-.
    destruct (Forall2_lookup_l _ _ _ _ _ Hst Hl0) as (h0 & Hh0 & _).
    destruct (hist_step_forward _ _ _ _ _ _ Ha Hh0) as (h' & Hh' & Hgrow). rewrite Hh in Hh'. injection Hh' as <-.
    destruct (Hgrow h eq_refl) as (h1 & -> & Hmono). apply Hmono. eapply (Hpa n r st sid); eauto.
  - intros sid h q p Hh Hq. destruct (hist_step_backward _ _ _ _ _ _ _ _ Ha Hh Hq) as [(h0 & Hh0 & Hq0)| ->]; eauto.
Qed.

(** What holds of a request that has come to stage [st]. *)
Record fits (w : world) (n : nat) (r : request) (st : stage) : Prop := {
  fit_session : forall sid, stage_session st = Some sid ->
    exists c s, first_call o r = Some c /\ heap (w_table w) !! sid = Some s /\ id s = call_id c;
  fit_lock : forall k, st = InShard k ->
    exists c sh fc, first_call o r = Some c /\ shards (w_table w) !! k = Some sh /\ creating sh = Some (call_id c, fc);
  fit_alone : forall k m r', st = InShard k -> w_tasks w !! m = Some (r', InShard k) -> n = m;
  fit_packet : forall sid i q p s h, taken_by st = Some sid -> first_call o r = Some (CallPush i q p) ->
    heap (w_table w) !! sid = Some s -> w_hist w !! sid = Some (Some h) -> is_open (up s) -> is_Some (admitted h !! q) }.

Lemma set_task_lookup w n r st m x : w_tasks (set_task w n r st) !! m = Some x ->
  (m = n /\ x = (r, st)) \/ (m <> n /\ w_tasks w !! m = Some x).
Proof. cbn. intros [(<- & <- & _)|(Hne & ?)]%list_lookup_insert_Some; [by left|right; by split]. Qed.

Lemma set_task_ok w n r st0 st : w_tasks w !! n = Some (r, st0) -> tasks_ok (eq n) w -> fits w n r st ->
  tasks_ok (fun _ => False) (set_task w n r st).
Proof.
  intros Hn [Hse Hlo Hal Hpa Hor] [Fs Fl Fa Fp]. split.
  - intros m r' st' sid [[-> [= -> ->]]|[? Hm]]%set_task_lookup _ Hsid; [by apply Fs|]. eapply Hse; eauto.
  - intros m r' k [[-> [= -> Hk]]|[? Hm]]%set_task_lookup _; [by apply Fl|]. eapply Hlo; eauto.
  - intros m m' r1 r2 k H1 H2 _ _.
    apply set_task_lookup in H1 as [[-> [= -> Hk]]|[? H1]]; apply set_task_lookup in H2 as [[-> [= -> Hk']]|[? H2]]; [done| | |].
    + by eapply Fa.
    + symmetry. by eapply Fa.
    + eapply Hal; eauto.
  - intros m r' st' sid i q p s h [[-> [= -> ->]]|[? Hm]]%set_task_lookup _ Htk; [by apply Fp|]. eapply Hpa; eauto.
  - intros sid h q p Hh Hq. destruct (Hor sid h q p Hh Hq) as (m & r' & st' & s & Hm & Hs & Hc).
    destruct (decide (m = n)) as [->|Hne].
    + rewrite Hn in Hm. injection Hm as <- <-. exists n, r, st, s. cbn.
      rewrite list_lookup_insert_eq by (by eapply lookup_lt_Some). done.
    + exists m, r', st', s. cbn. by rewrite list_lookup_insert_ne.
Qed.

Lemma tasks_skip n w : tasks_ok (fun _ => False) w -> tasks_ok (eq n) w.
Proof. intros [Hse Hlo Hal Hpa Hor]. split; eauto. Qed.

(** A request keeps its session. *)
Lemma next_stage_session st out sid : stage_session st = Some sid -> stage_session (next_stage st out) = Some sid.
Proof. destruct st, out as [| | | | | |[[]| |]|]; cbn; congruence. Qed.

Lemma next_stage_lock st out k : next_stage st out = InShard k -> st <> InShard k -> st = Arrived /\ out = OCreating k.
Proof. destruct st, out as [| | | | | |[[]| |]|]; cbn; try congruence. intros [= ->]. done. Qed.

(** A packet is newly taken only by the push of its request. *)
Lemma next_stage_taken st out sid : taken_by (next_stage st out) = Some sid ->
  taken_by st = Some sid \/
  ((st = Made sid \/ st = Holds sid) /\ exists x, out = OUplink x /\ (x = OPush Accepted \/ x = OPush Duplicate \/ forall r, x <> OPush r)).
Proof.
  destruct st, out as [| | | | | |[[]| |]|]; cbn; try (intros [= ->]); try congruence; try (by left); right; eauto 10.
Qed.

Lemma wo_step w e w' out : world_ok w -> tame_table e = true -> table_act w e = Some (w', out) ->
  table_inv (w_table w') /\ streams_ok w' /\ w_tasks w' = w_tasks w.
Proof.
  intros [Ht Hs _ _] Hta Ha. split; [|split; [by eapply streams_step|by apply table_act_inv in Ha as (t & _ & ->)]].
  apply table_act_inv in Ha as (t & Hstep & ->). by eapply step_table_inv.
Qed.

(** A step of the table that is not made by request [n]. *)
Lemma table_act_ok w e w' out n : world_ok w -> tame_table e = true -> table_act w e = Some (w', out) ->
  (forall k, e <> EInsert k) -> (forall sid q p, e <> EUplink sid (EPush q p)) -> tasks_ok (fun _ => False) w' /\ tasks_ok (eq n) w'.
Proof.
  intros [_ Hs _ Htk] Hta Ha Hni Hnp. assert (tasks_ok (fun _ => False) w') as Hok; [|split; [done|by apply tasks_skip]].
  eapply tasks_step; [exact Htk|done|exact Hta|exact Ha|done|intros m r k _ He; by destruct (Hni k)|].
  intros sid q p He. by destruct (Hnp sid q p).
Qed.

(** ** The steps of a request *)

Context (Hpad : padding_sane o).

Lemma task_tame c r t st failed e : first_call o r = Some c -> headers_ok (r_headers r) -> task_event t c st failed = Some e -> tame_table e = true.
Proof.
  intros Hc Hh He. pose proof (calls_before_answers o r None Conflict Hpad Hh ltac:(done)) as Hcall. rewrite Hc in Hcall.
  destruct c as [i q p|i|i], st as [| | | | |? []|? []| | | | |]; cbn in He; repeat case_match; try congruence; injection He as <-; cbn; try done;
    destruct Hcall as [Hq _]; apply andb_true_iff; split; apply Z.leb_le; lia.
Qed.

Lemma task_insert t c st failed k : task_event t c st failed = Some (EInsert k) -> st = InShard k.
Proof. destruct c, st as [| | | | |? []|? []| | | | |]; cbn; repeat case_match; congruence. Qed.

Lemma task_push t c st failed sid q p : task_event t c st failed = Some (EUplink sid (EPush q p)) ->
  exists i, c = CallPush i q p /\ (st = Made sid \/ st = Holds sid).
Proof. destruct c, st as [| | | | |? []|? []| | | | |]; cbn; repeat case_match; try congruence; intros [= -> -> ->]; eauto. Qed.

(** The requests besides the one that moves. *)
Lemma task_others w n r st c failed e w' out : world_ok w -> w_tasks w !! n = Some (r, st) -> first_call o r = Some c ->
  task_event (w_table w) c st failed = Some e -> table_act w e = Some (w', out) -> tasks_ok (eq n) w'.
Proof.
  intros Hok Hn Hc He Ha. pose proof Hok as [_ Hs Hh Htk]. pose proof (task_tame _ _ _ _ _ _ Hc (Hh _ _ _ Hn) He) as Hta.
  eapply tasks_step; [exact Htk|done|exact Hta|exact Ha|done| |].
  - intros m r' k Hm ->. apply task_insert in He as ->. eapply (to_alone _ _ Htk); eauto.
  - intros sid q p ->. destruct (task_push _ _ _ _ _ _ _ He) as (i & -> & Hst).
    destruct (to_session _ _ Htk n r st sid Hn) as (c & s & Hc' & Hl & Hi); [by intros []|by destruct Hst as [->| ->]|].
    rewrite Hc in Hc'. injection Hc' as <-. exists n, r, st, s. split; [done|]. split; [done|]. rewrite Hi. exact Hc.
Qed.

(** [upsert] up to the insertion. *)
Lemma arrived_fits w n r c i fc w' out : world_ok w -> w_tasks w !! n = Some (r, Arrived) -> first_call o r = Some c -> i = call_id c ->
  table_act w (EUpsert i fc) = Some (w', out) -> fits w' n r (next_stage Arrived out).
Proof.
  intros Hok Hn Hc -> (t & Hs & ->)%table_act_inv. pose proof Hok as [Hti _ _ Htk]. cbn in Hs. unfold upsert_begin in Hs.
  destruct (shards (w_table w) !! _) as [sh|] eqn:Esh; [|done]. destruct (creating sh) eqn:Ecr; [done|].
  destruct (smap sh !! call_id c) as [sid|] eqn:Em; [|destruct (_ <=? _)]; injection Hs as <- <-; split; cbn; try done.
  - intros sid' [= ->]. destruct (ti_keys _ Hti _ _ _ _ Esh Em) as [_ Hid].
    destruct (idents_lookup _ _ _ _ Hid) as (s & Hl & Hi & _). eauto.
  - intros k [= <-]. exists c. eexists _, fc. split; [done|].
    rewrite list_lookup_insert_eq by (by eapply lookup_lt_Some). done.
  - intros k m r' [= <-] Hm. destruct (to_lock _ _ Htk _ _ _ Hm) as (c' & sh' & fc' & _ & Hsh' & Hcr'); [by intros []|]. congruence.
Qed.

Lemma insert_fits w n r c k w' out : world_ok w -> w_tasks w !! n = Some (r, InShard k) -> first_call o r = Some c ->
  table_act w (EInsert k) = Some (w', out) -> fits w' n r (next_stage (InShard k) out).
Proof.
  intros Hok Hn Hc (t & Hs & ->)%table_act_inv. pose proof Hok as [_ _ _ Htk].
  destruct (to_lock _ _ Htk _ _ _ Hn) as (c' & sh & fc & Hc' & Hsh & Hcr); [by intros []|]. rewrite Hc in Hc'. injection Hc' as <-.
  cbn in Hs. unfold upsert_insert in Hs. rewrite Hsh, Hcr in Hs. injection Hs as <- <-. split; cbn; try done.
  intros sid [= <-]. exists c. eexists. split; [done|]. split; [by apply list_lookup_middle|done].
Qed.

Lemma push_output u q p u' x : uplink_step u (EPush q p) = Some (u', x) -> forall b, x <> ORead b.
Proof. cbn. destruct (holder u); [done|]. destruct (settle _) as [v []]; cbn; intros [= _ <-]; done. Qed.

(** A request that has its session. *)
Lemma holding_fits w n r st c failed e w' out sid : world_ok w -> w_tasks w !! n = Some (r, st) -> first_call o r = Some c ->
  task_event (w_table w) c st failed = Some e -> table_act w e = Some (w', out) -> stage_session st = Some sid ->
  fits w' n r (next_stage st out).
Proof.
  intros Hok Hn Hc He Ha Hsid. pose proof Hok as [_ Hs Hh Htk]. pose proof (task_tame _ _ _ _ _ _ Hc (Hh _ _ _ Hn) He) as Hta.
  destruct (to_session _ _ Htk _ _ _ _ Hn ltac:(by intros []) Hsid) as (c' & s & Hc' & Hl & Hi). rewrite Hc in Hc'. injection Hc' as <-.
  destruct (heap_step_forward _ _ _ _ _ _ Hta Ha Hl) as (s' & Hl' & Hi' & Hop). split.
  - intros sid'. rewrite (next_stage_session _ _ _ Hsid). intros [= <-]. exists c, s'. by rewrite Hi'.
  - intros k Hk. apply next_stage_lock in Hk as [-> _]; [done|by intros ->].
  - intros k m r' Hk. apply next_stage_lock in Hk as [-> _]; [done|by intros ->].
  - intros sid' i q p s1 h Htk' Hcp Hl1 Hh1 Ho. rewrite Hc in Hcp. injection Hcp as ->.
    destruct (Forall2_lookup_l _ _ _ _ _ Hs Hl) as (h0 & Hh0 & Hst0).
    destruct (next_stage_taken _ _ _ Htk') as [Hold|(Hst & x & -> & Hx)].
    + assert (sid' = sid) as -> by (destruct st as [| | | | |? []|? []| | | | |]; cbn in Hold, Hsid; congruence).
      rewrite Hl' in Hl1. injection Hl1 as <-. destruct (hist_step_forward _ _ _ _ _ _ Ha Hh0) as (h' & Hh' & Hgrow).
      rewrite Hh1 in Hh'. injection Hh' as <-. destruct (Hgrow h eq_refl) as (h2 & -> & Hm). apply Hm. eapply (to_packet _ _ Htk n r st sid); eauto.
    + assert (sid' = sid) as -> by (destruct Hst as [->| ->]; cbn in Hsid; congruence).
      rewrite Hl' in Hl1. injection Hl1 as <-.
      assert (e = EUplink sid (EPush q p)) as -> by (destruct Hst as [->| ->]; cbn in He; repeat case_match; congruence).
      destruct (table_act_inv _ _ _ _ Ha) as (t & Hstep & ->). cbn in Hl', Hh1. cbn [table_step] in Hstep.
      rewrite Hl in Hstep. cbn [mbind option_bind] in Hstep.
      destruct (uplink_step _ (EPush q p)) as [[u x']|] eqn:Eu; [|done]. injection Hstep as <- ->.
      rewrite list_lookup_alter_eq, Hh0 in Hh1. injection Hh1 as Hh1. apply fmap_Some in Hh1 as (h2 & -> & ->).
      eapply push_succeeds_admitted; [apply uplink_inv_mem; apply Hst0; [by apply Hop|done]| |exact Eu|].
      * cbn in Hta. split_bool. done.
      * destruct Hx as [->|[->|Hx]]; [by auto..|]. left. destruct x as [r0|b|]; [by destruct (Hx r0)|by destruct (push_output _ _ _ _ _ Eu b)|done].
Qed.

(** Every step of a request brings it where it fits. *)
Lemma task_fits w n r st c failed e w' out : world_ok w -> w_tasks w !! n = Some (r, st) -> first_call o r = Some c ->
  task_event (w_table w) c st failed = Some e -> table_act w e = Some (w', out) -> fits w' n r (next_stage st out).
Proof.
  intros Hok Hn Hc He Ha. destruct (stage_session st) as [sid|] eqn:Hsid; [by eapply holding_fits|].
  destruct st as [|k| | | | | | | | | |]; try done.
  - destruct c; cbn in He; try done; injection He as <-; by eapply arrived_fits.
  - assert (e = EInsert k) as -> by (destruct c; cbn in He; congruence). by eapply insert_fits.
Qed.

Lemma set_task_world w n r st0 st : table_inv (w_table w) -> streams_ok w ->
  (forall n r st, w_tasks w !! n = Some (r, st) -> headers_ok (r_headers r)) ->
  w_tasks w !! n = Some (r, st0) -> tasks_ok (eq n) w -> fits w n r st -> world_ok (set_task w n r st).
Proof.
  intros Ht Hs Hh Hn Htk Hf. split; [done|done| |by eapply set_task_ok].
  intros m r' st' [[-> [= -> ->]]|[_ Hm]]%set_task_lookup; [by eapply Hh|by eapply Hh].
Qed.

Lemma set_down_world w sid d l : world_ok w -> world_ok (set_down w sid d l).
Proof. by intros [Ht Hs Hh [Hse Hlo Hal Hpa Hor]]. Qed.

(** A request that has a session and no packet in doubt. *)
Lemma body_fits w n r st0 st sid : tasks_ok (fun _ => False) w -> w_tasks w !! n = Some (r, st0) -> stage_session st0 = Some sid ->
  stage_session st = Some sid -> taken_by st = None -> (forall k, st <> InShard k) -> fits w n r st.
Proof.
  intros Htk Hn Hsid0 Hsid Htb Hk. split.
  - intros sid'. rewrite Hsid. intros [= <-]. eapply (to_session _ _ Htk); [exact Hn|by intros []|done].
  - intros k ->. by destruct (Hk k).
  - intros k m r' ->. by destruct (Hk k).
  - intros ? ? ? ? ? ?. by rewrite Htb.
Qed.

Lemma end_body_ok w n r sid key got w' : world_ok w -> w_tasks w !! n = Some (r, Streaming sid (Some key) got) ->
  end_body w n r sid key got = Some w' -> world_ok w'.
Proof.
  intros Hok Hn. unfold end_body. destruct (w_down w !! sid) as [[d l]|]; [|done]. cbn [mbind option_bind].
  destruct (table_act w _) as [[w1 out]|] eqn:Ha; [|done]. cbn [mbind option_bind]. intros [= <-]. apply set_down_world.
  destruct (wo_step w (ERemove _ _) _ _ Hok eq_refl Ha) as (Ht & Hs & Htasks).
  destruct (table_act_ok w (ERemove _ _) _ _ n Hok eq_refl Ha ltac:(intros ?; discriminate) ltac:(intros ? ? ?; discriminate)) as [Hall Hskip].
  rewrite <- Htasks in Hn. eapply set_task_world; try done; [intros ? ? ?; rewrite Htasks; apply (wo_headers _ Hok)|].
  by eapply body_fits.
Qed.

Lemma world_step_ok w a w' : world_ok w -> wstep o w a = Some w' -> world_ok w'.
Proof.
  intros Hok. pose proof Hok as [Ht Hs Hh Htk]. destruct a as [n failed|n|e|sid b|sid|n|n]; unfold wstep.
  - destruct (w_tasks w !! n) as [[r st]|] eqn:Hn; [|done]. cbn [mbind option_bind].
    destruct (first_call o r) as [c|] eqn:Hc; [|done]. cbn [mbind option_bind].
    destruct (task_event _ _ _ _) as [e|] eqn:He; [|done]. cbn [mbind option_bind].
    destruct (table_act w e) as [[w1 out]|] eqn:Ha; [|done]. cbn [mbind option_bind]. intros [= <-].
    destruct (wo_step _ _ _ _ Hok (task_tame _ _ _ _ _ _ Hc (Hh _ _ _ Hn) He) Ha) as (Ht1 & Hs1 & Htasks).
    eapply set_task_world; [done|done|by rewrite Htasks|by rewrite Htasks|by eapply task_others|by eapply task_fits].
  - destruct (w_tasks w !! n) as [[r st]|] eqn:Hn; [|done]. cbn [mbind option_bind]. destruct st as [| | | |sid| | | | | | |]; try done.
    destruct (table_act w _) as [[w1 out]|] eqn:Ha; [|done]. cbn [mbind option_bind]. intros [= <-].
    destruct (wo_step w (EUplink sid ECancel) _ _ Hok eq_refl Ha) as (Ht1 & Hs1 & Htasks).
    destruct (table_act_ok w (EUplink sid ECancel) _ _ n Hok eq_refl Ha ltac:(intros ?; discriminate) ltac:(intros ? ? ?; discriminate)) as [Hall Hskip].
    eapply set_task_world; [done|done|by rewrite Htasks|by rewrite Htasks|done|].
    rewrite <- Htasks in Hn. by eapply body_fits.
  - destruct (env_event e) eqn:Ee; [|done]. destruct (table_act w e) as [[w1 out]|] eqn:Ha; [|done]. cbn [mbind option_bind]. intros [= <-].
    assert (tame_table e = true) as Hta by (by destruct e as [| | | | | | | |? []]).
    destruct (wo_step _ _ _ _ Hok Hta Ha) as (Ht1 & Hs1 & Htasks).
    destruct (table_act_ok _ _ _ _ 0 Hok Hta Ha) as [Hall _]; [by destruct e|by destruct e as [| | | | | | | |? []]|].
    split; [done|done|by rewrite Htasks|done].
  - destruct (w_down w !! sid) as [[d l]|]; [|done]. cbn [mbind option_bind].
    destruct (downlink_send d b) as [[d' x]|]; [|done]. cbn [mbind option_bind]. intros [= <-]. by apply set_down_world.
  - destruct (w_down w !! sid) as [[d l]|]; [|done]. cbn [mbind option_bind]. intros [= <-]. by apply set_down_world.
  - destruct (w_tasks w !! n) as [[r st]|] eqn:Hn; [|done]. cbn [mbind option_bind].
    destruct st as [| | | | | | | | | |sid [key|] got|]; try done. unfold poll_body. destruct (w_down w !! sid) as [[d l]|] eqn:Ed; [|done]. cbn [mbind option_bind].
    destruct (downlink_recv d) as [[d' [b|]]|]; [| |done]; cbn [mbind option_bind].
    + intros [= <-]. apply set_down_world. eapply set_task_world; try done; [by apply tasks_skip|by eapply body_fits].
    + by apply end_body_ok.
  - destruct (w_tasks w !! n) as [[r st]|] eqn:Hn; [|done]. cbn [mbind option_bind].
    destruct st as [| | | | | | | | | |sid [key|] got|]; try done. by apply end_body_ok.
Qed.

Lemma wrun_ok acts w w' : world_ok w -> wrun o acts w = Some w' -> world_ok w'.
Proof.
  revert w. induction acts as [|a acts IH]; intros w Hok; cbn; [by intros [= <-]|].
  destruct (wstep o w a) as [w1|] eqn:E; [|done]. cbn. apply IH. by eapply world_step_ok.
Qed.

Lemma world_new_ok (c : Session.config) b rs : 0 <= Session.max_sessions c -> Session.max_sessions c + Z.max (cfg_shards c) 1 < 2 ^ 64 ->
  Forall (fun r => headers_ok (r_headers r)) rs -> world_ok (world_new c b rs).
Proof.
  intros Hcap Hsmall Hh. assert (forall n r st, w_tasks (world_new c b rs) !! n = Some (r, st) -> st = Arrived /\ headers_ok (r_headers r)) as Hnew.
  { intros n r st. cbn. rewrite list_lookup_fmap. destruct (rs !! n) as [r0|] eqn:E; [|done]. cbn. intros [= <- <-].
    split; [done|]. by apply (Forall_lookup_1 _ _ _ _ Hh E). }
  split; [by apply table_new_inv|by apply Forall2_nil|intros n r st Hn; exact (proj2 (Hnew _ _ _ Hn))|]. split.
  - intros n r st sid [-> _]%Hnew _. done.
  - intros n r k [? _]%Hnew _. done.
  - intros n m r r' k [? _]%Hnew. done.
  - intros n r st sid i q p s h [-> _]%Hnew _. done.
  - intros sid h q p Hl. by destruct sid.
Qed.
End invariant.

(** Requests stay themselves. *)
Lemma set_task_requests w n r st0 st : w_tasks w !! n = Some (r, st0) -> (w_tasks (set_task w n r st)).*1 = (w_tasks w).*1.
Proof. intros Hn. cbn. rewrite list_fmap_insert. apply list_insert_id. by rewrite list_lookup_fmap, Hn. Qed.

Lemma table_act_tasks w e w' out : table_act w e = Some (w', out) -> w_tasks w' = w_tasks w.
Proof. by intros (t & _ & ->)%table_act_inv. Qed.

Section requests.
Context `{HeaderText} `{Base64Url} (o : origin).

Lemma end_body_requests w n r sid st key got w' : w_tasks w !! n = Some (r, st) ->
  end_body w n r sid key got = Some w' -> (w_tasks w').*1 = (w_tasks w).*1.
Proof.
  intros Hn. unfold end_body. destruct (w_down w !! sid) as [[d l]|]; [|done]. cbn [mbind option_bind].
  destruct (table_act w _) as [[w1 out]|] eqn:Ha; [|done]. cbn [mbind option_bind]. intros [= <-]. apply table_act_tasks in Ha.
  rewrite <- Ha in *. by eapply set_task_requests.
Qed.

Lemma wstep_requests w a w' : wstep o w a = Some w' -> (w_tasks w').*1 = (w_tasks w).*1.
Proof.
  destruct a as [n failed|n|e|sid b|sid|n|n]; unfold wstep.
  - destruct (w_tasks w !! n) as [[r st]|] eqn:Hn; [|done]. cbn [mbind option_bind].
    destruct (first_call o r) as [c|]; [|done]. cbn [mbind option_bind]. destruct (task_event _ _ _ _) as [e|]; [|done]. cbn [mbind option_bind].
    destruct (table_act w e) as [[w1 out]|] eqn:Ha; [|done]. cbn [mbind option_bind]. intros [= <-].
    apply table_act_tasks in Ha. rewrite <- Ha in *. by eapply set_task_requests.
  - destruct (w_tasks w !! n) as [[r st]|] eqn:Hn; [|done]. cbn [mbind option_bind]. destruct st as [| | | |sid| | | | | | |]; try done.
    destruct (table_act w _) as [[w1 out]|] eqn:Ha; [|done]. cbn [mbind option_bind]. intros [= <-].
    apply table_act_tasks in Ha. rewrite <- Ha in *. by eapply set_task_requests.
  - destruct (env_event e); [|done]. destruct (table_act w e) as [[w1 out]|] eqn:Ha; [|done]. cbn [mbind option_bind]. intros [= <-].
    by rewrite (table_act_tasks _ _ _ _ Ha).
  - destruct (w_down w !! sid) as [[d l]|]; [|done]. cbn [mbind option_bind].
    destruct (downlink_send d b) as [[d' x]|]; [|done]. by intros [= <-].
  - destruct (w_down w !! sid) as [[d l]|]; [|done]. by intros [= <-].
  - destruct (w_tasks w !! n) as [[r st]|] eqn:Hn; [|done]. cbn [mbind option_bind].
    destruct st as [| | | | | | | | | |sid [key|] got|]; try done. unfold poll_body. destruct (w_down w !! sid) as [[d l]|]; [|done]. cbn [mbind option_bind].
    destruct (downlink_recv d) as [[d' [b|]]|]; [| |done]; cbn [mbind option_bind].
    + intros [= <-]. by eapply set_task_requests.
    + by eapply end_body_requests.
  - destruct (w_tasks w !! n) as [[r st]|] eqn:Hn; [|done]. cbn [mbind option_bind].
    destruct st as [| | | | | | | | | |sid [key|] got|]; try done. by eapply end_body_requests.
Qed.

Lemma wrun_requests acts w w' : wrun o acts w = Some w' -> (w_tasks w').*1 = (w_tasks w).*1.
Proof.
  revert w. induction acts as [|a acts IH]; intros w; cbn; [by intros [= <-]|].
  destruct (wstep o w a) as [w1|] eqn:E; [|done]. cbn. intros ->%IH. by eapply wstep_requests.
Qed.

Lemma world_new_requests c b rs : (w_tasks (world_new c b rs)).*1 = rs.
Proof. cbn. rewrite <- list_fmap_compose. apply list_fmap_id. Qed.

Lemma push_status_ok r : push_status r = 200 -> r = Some Accepted \/ r = Some Duplicate.
Proof. destruct r as [[]|]; cbn; try done; auto. Qed.

(** A push that was answered 200 has its packet taken. *)
Lemma answered_taken r st i q p sid : padding_sane o -> headers_ok (r_headers r) -> first_call o r = Some (CallPush i q p) ->
  stage_session st = Some sid -> answered o (r, st) = Some 200 -> taken_by st = Some sid.
Proof.
  intros Hp Hh Hc Hsid Ha. unfold answered in Ha. rewrite Hc in Ha. destruct st as [| | | | | |s0 r0| | | | |]; try done.
  pose proof (calls_before_answers o r (Some r0) Conflict Hp Hh ltac:(done)) as Hcall. rewrite Hc in Hcall.
  destruct Hcall as (_ & x & Hx & Hs). unfold status_of in Ha. rewrite Hx in Ha. injection Ha as Ha.
  change (status x = 200) in Ha. rewrite Hs in Ha. by apply push_status_ok in Ha as [[= ->]|[= ->]].
Qed.
End requests.

Lemma inv_payloads u h (f : Z -> bytes) : uplink_inv u h -> (forall k p, admitted h !! k = Some p -> p = f k) ->
  0 <= delivered u /\ read_out h ++ in_flight u = concat (f <$> seqZ 0 (delivered u)).
Proof.
  intros [[Hn _ Hd Hs] _ _] Hf. assert (0 <= delivered u) as Hpos by (unfold delivered; case_match; lia). split; [done|].
  etransitivity; [exact Hs|]. rewrite (in_order_payloads f); rewrite Z2Nat.id by done; [done|].
  intros k Hk. destruct (proj2 (Hd k) (or_introl Hk)) as [p Hp]. by rewrite Hp, (Hf _ _ Hp).
Qed.

(** * The downlink of a session *)

(** The frames a request's body has been given. *)
Definition body_frames (st : stage) : option (nat * list bytes) :=
  match st with Streaming sid _ got | BodyEnded sid _ got => Some (sid, got) | _ => None end.

Record down_ok (w : world) : Prop := {
  do_length : length (w_down w) = length (heap (w_table w));
  do_taken : forall n r st sid got, w_tasks w !! n = Some (r, st) -> body_frames st = Some (sid, got) -> taken (heap (w_table w)) sid;
  do_alone : forall n m r r' st st' sid got got', w_tasks w !! n = Some (r, st) -> body_frames st = Some (sid, got) ->
    w_tasks w !! m = Some (r', st') -> body_frames st' = Some (sid, got') -> n = m;
  do_rest : forall sid d l, w_down w !! sid = Some (d, l) -> ~ taken (heap (w_table w)) sid -> dl_chan d = l;
  do_stream : forall n r sid key got d l, w_tasks w !! n = Some (r, Streaming sid key got) -> w_down w !! sid = Some (d, l) ->
    got ++ dl_chan d = l;
  do_ended : forall n r sid key got d l, w_tasks w !! n = Some (r, BodyEnded sid key got) -> w_down w !! sid = Some (d, l) ->
    got `prefix_of` l }.

(** A step of the table changes a downlink only by making it. *)
Lemma down_change w e w' out : table_act w e = Some (w', out) ->
  (w_down w' = w_down w /\ length (heap (w_table w')) = length (heap (w_table w))) \/
  exists d, w_down w' = w_down w ++ [(d, [])] /\ dl_chan d = [] /\ length (heap (w_table w')) = S (length (heap (w_table w))).
Proof.
  intros (t & Hs & ->)%table_act_inv. cbn.
  assert (length (heap t) = length (heap (w_table w)) -> observe_down (w_table w) e out (w_down w) = w_down w -> 
    (observe_down (w_table w) e out (w_down w) = w_down w /\ length (heap t) = length (heap (w_table w))) \/
    exists d, observe_down (w_table w) e out (w_down w) = w_down w ++ [(d, [])] /\ dl_chan d = [] /\ length (heap t) = S (length (heap (w_table w)))) as Hsame by auto.
  destruct e as [i fc|k|j|sid|sid alive|sid|i h|j|sid ev]; cbn [table_step] in Hs; try (apply Hsame; [|done]).
  - unfold upsert_begin in Hs. repeat case_match; by simplify_eq/=.
  - unfold upsert_insert in Hs. repeat case_match; simplify_eq/=; right; eexists; rewrite length_app; (split; [done|]); (split; [done|cbn; lia]).
  - destruct (finishing _ !! j) as [[sid p]|]; cbn in Hs; [|done]. destruct (heap _ !! sid) as [s|]; cbn in Hs; [|done].
    destruct (finish_phase _ j sid p s) as [t1|] eqn:Ef; cbn in Hs; [|done]. injection Hs as <- <-.
    unfold finish_phase in Ef. destruct p; repeat case_match; simplify_eq/=; apply length_insert.
  - destruct (heap _ !! sid) as [s|]; cbn in Hs; [|done]. unfold connect in Hs. case_match; injection Hs as <- <-; apply length_insert.
  - destruct (heap _ !! sid) as [s|]; cbn in Hs; [|done]. unfold reap in Hs. repeat case_match; simplify_eq/=; apply length_insert.
  - destruct (heap _ !! sid) as [s|] eqn:Es; cbn in Hs; [|done]. destruct (task s); try done.
    destruct (unlink _ _ _ _ _) as [t1|] eqn:Eu; cbn in Hs; [|done]. rewrite (unlink_heap _ _ _ _ _ _ Eu), Es in Hs. injection Hs as <- <-. apply length_insert.
  - destruct (unlink _ _ _ _ _) as [t1|] eqn:Eu; cbn in Hs; [|done]. injection Hs as <- <-. by rewrite (unlink_heap _ _ _ _ _ _ Eu).
  - destruct (removing _ !! j) as [[sid c]|]; cbn in Hs; [|done]. destruct (heap _ !! sid) as [s|]; cbn in Hs; [|done].
    injection Hs as <- <-. apply length_insert.
  - destruct (heap _ !! sid) as [s|]; cbn in Hs; [|done]. destruct (uplink_step _ ev) as [[u x]|]; cbn in Hs; [|done].
    injection Hs as <- <-. apply length_insert.
Qed.

Lemma down_forward w e w' out sid x : table_act w e = Some (w', out) -> w_down w !! sid = Some x -> w_down w' !! sid = Some x.
Proof. intros Ha Hl. destruct (down_change _ _ _ _ Ha) as [[-> _]|(d & -> & _)]; [done|by apply lookup_app_l_Some]. Qed.

Lemma down_backward w e w' out sid d l : down_ok w -> table_act w e = Some (w', out) -> w_down w' !! sid = Some (d, l) ->
  w_down w !! sid = Some (d, l) \/ (l = [] /\ dl_chan d = [] /\ sid = length (heap (w_table w))).
Proof.
  intros Hd Ha. destruct (down_change _ _ _ _ Ha) as [[-> _]|(d' & -> & Hc & _)]; [auto|].
  intros [Hl|[Hge Hl]]%lookup_app_Some; [auto|]. apply list_lookup_singleton_Some in Hl as [Hz [= <- <-]]. right.
  rewrite <- (do_length _ Hd). split; [done|]. split; [done|lia].
Qed.

Lemma taken_lt h sid : taken h sid -> (sid < length h)%nat.
Proof. intros (s & Hs & _). by eapply lookup_lt_Some. Qed.

Lemma down_step w e w' out : down_ok w -> table_act w e = Some (w', out) -> down_ok w'.
Proof.
  intros Hd Ha. pose proof (table_act_tasks _ _ _ _ Ha) as Htasks.
  assert (forall sid, taken (heap (w_table w)) sid -> taken (heap (w_table w')) sid) as Hmono.
  { intros sid Htk. destruct (table_act_inv _ _ _ _ Ha) as (t & Hs & ->). by eapply step_taken. }
  split; rewrite ?Htasks.
  - pose proof (do_length _ Hd). destruct (down_change _ _ _ _ Ha) as [[-> ->]|(d' & -> & _ & ->)]; [done|rewrite length_app; cbn; lia].
  - intros n r st sid got Hn Hf. apply Hmono. by eapply (do_taken _ Hd).
  - apply (do_alone _ Hd).
  - intros sid d l Hl Hnt. destruct (down_backward _ _ _ _ _ _ _ Hd Ha Hl) as [Hl'|(-> & -> & _)]; [|done].
    eapply (do_rest _ Hd); [done|]. intros Htk. by apply Hnt, Hmono.
  - intros n r sid key got d l Hn Hl. pose proof (taken_lt _ _ (do_taken _ Hd _ _ _ _ _ Hn eq_refl)).
    destruct (down_backward _ _ _ _ _ _ _ Hd Ha Hl) as [Hl'|(_ & _ & ->)]; [by eapply (do_stream _ Hd)|lia].
  - intros n r sid key got d l Hn Hl. pose proof (taken_lt _ _ (do_taken _ Hd _ _ _ _ _ Hn eq_refl)).
    destruct (down_backward _ _ _ _ _ _ _ Hd Ha Hl) as [Hl'|(_ & _ & ->)]; [by eapply (do_ended _ Hd)|lia].
Qed.

(** Request [n] gets to [st], and the downlink of its session to [d'] and [l']. *)
Lemma down_task w n r st0 st : down_ok w -> w_tasks w !! n = Some (r, st0) ->
  (forall sid got, body_frames st = Some (sid, got) -> got = [] /\ (exists key, st = Streaming sid key got) /\ taken (heap (w_table w)) sid /\
    (forall m r' st' got', w_tasks w !! m = Some (r', st') -> body_frames st' <> Some (sid, got')) /\
    (forall d l, w_down w !! sid = Some (d, l) -> dl_chan d = l)) ->
  down_ok (set_task w n r st).
Proof.
  intros Hd Hn Hst. pose proof Hd as [Hle Hta Hal Hre Hs He]. split; [done| | |done| |].
  - intros m r' st' sid got [[-> [= -> ->]]|[? Hm]]%set_task_lookup Hf; [by apply Hst in Hf as (_ & _ & Htk & _)|by eapply Hta].
  - intros m m' r1 r2 st1 st2 sid g1 g2 H1 F1 H2 F2. apply set_task_lookup in H1 as [[-> [= -> ->]]|[? H1]];
      apply set_task_lookup in H2 as [[-> [= -> ->]]|[? H2]]; [done| | |by eapply Hal].
    + by destruct (Hst _ _ F1) as (_ & _ & _ & Hno & _), (Hno _ _ _ g2 H2).
    + by destruct (Hst _ _ F2) as (_ & _ & _ & Hno & _), (Hno _ _ _ g1 H1).
  - intros m r' sid key got d l [[-> [= -> <-]]|[? Hm]]%set_task_lookup Hl; [|by eapply Hs].
    destruct (Hst sid got eq_refl) as (-> & _ & _ & _ & Hch). by apply Hch.
  - intros m r' sid key got d l [[-> [= -> <-]]|[? Hm]]%set_task_lookup Hl; [|by eapply He].
    destruct (Hst sid got eq_refl) as (_ & (? & [=]) & _).
Qed.

Lemma down_body w n r sid key got got' st d d' l : down_ok w -> w_tasks w !! n = Some (r, Streaming sid key got) ->
  w_down w !! sid = Some (d, l) ->
  (st = Streaming sid key got' /\ got' ++ dl_chan d' = l \/ st = BodyEnded sid key got' /\ got' `prefix_of` l) ->
  down_ok (set_down (set_task w n r st) sid d' l).
Proof.
  intros Hd Hn Hl Hst. pose proof Hd as [Hle Hta Hal Hre Hs He].
  assert (body_frames st = Some (sid, got')) as Hfr by (by destruct Hst as [[-> _]|[-> _]]).
  pose proof (Hta _ _ _ _ _ Hn eq_refl) as Htk.
  assert (forall m r' st' sid' g, m <> n -> w_tasks w !! m = Some (r', st') -> body_frames st' = Some (sid', g) -> sid' <> sid) as Hother.
  { intros m r' st' sid' g Hne Hm Hf ->. by apply Hne, (Hal _ _ _ _ _ _ _ _ _ Hm Hf Hn eq_refl). }
  split; cbn [w_down set_down w_table].
  - by rewrite length_insert.
  - intros m r' st' sid' g [[-> [= -> ->]]|[? Hm]]%set_task_lookup Hf; [by rewrite Hfr in Hf; injection Hf as <- <-|by eapply Hta].
  - intros m m' r1 r2 st1 st2 sid' g1 g2 H1 F1 H2 F2. apply set_task_lookup in H1 as [[-> [= -> ->]]|[? H1]];
      apply set_task_lookup in H2 as [[-> [= -> ->]]|[? H2]]; [done| | |by eapply Hal].
    + rewrite Hfr in F1. injection F1 as <- <-. by destruct (Hother _ _ _ _ _ ltac:(done) H2 F2).
    + rewrite Hfr in F2. injection F2 as <- <-. by destruct (Hother _ _ _ _ _ ltac:(done) H1 F1).
  - intros sid' d1 l1 [(<- & [= <- <-] & _)|[? H1]]%list_lookup_insert_Some Hnt; [by destruct Hnt|by eapply Hre].
  - intros m r' sid' key' g d1 l1 [[-> [= -> <-]]|[? Hm]]%set_task_lookup H1.
    + injection Hfr as -> ->. rewrite list_lookup_insert_eq in H1 by (by eapply lookup_lt_Some). injection H1 as <- <-.
      by destruct Hst as [[_ ?]|[? _]].
    + rewrite list_lookup_insert_ne in H1 by (symmetry; by eapply Hother). by eapply Hs.
  - intros m r' sid' key' g d1 l1 [[-> [= -> <-]]|[? Hm]]%set_task_lookup H1.
    + injection Hfr as -> ->. rewrite list_lookup_insert_eq in H1 by (by eapply lookup_lt_Some). injection H1 as <- <-.
      by destruct Hst as [[? _]|[_ ?]].
    + rewrite list_lookup_insert_ne in H1 by (symmetry; by eapply Hother). by eapply He.
Qed.

(** The sender's side adds to the queue and to the record alike. *)
Lemma down_sender w sid d d' l x : down_ok w -> w_down w !! sid = Some (d, l) -> dl_chan d' = dl_chan d ++ x ->
  down_ok (set_down w sid d' (l ++ x)).
Proof.
  intros Hd Hl Hch. pose proof Hd as [Hle Hta Hal Hre Hs He]. split; cbn; try done; [by rewrite length_insert|..].
  - intros sid' d1 l1 [(<- & [= <- <-] & _)|[? H1]]%list_lookup_insert_Some Hnt; [|by eapply Hre]. by rewrite Hch, (Hre _ _ _ Hl Hnt).
  - intros m r' sid' key' g d1 l1 Hm [(<- & [= <- <-] & _)|[? H1]]%list_lookup_insert_Some; [|by eapply Hs].
    by rewrite Hch, app_assoc, (Hs _ _ _ _ _ _ _ Hm Hl).
  - intros m r' sid' key' g d1 l1 Hm [(<- & [= <- <-] & _)|[? H1]]%list_lookup_insert_Some; [|by eapply He].
    apply prefix_app_r. by eapply He.
Qed.

(** Nobody has the frames of a session whose download was just opened. *)
Lemma next_stage_frames st out sid got : body_frames (next_stage st out) = Some (sid, got) ->
  next_stage st out = st \/ ((st = Made sid \/ st = Holds sid) /\ got = [] /\ exists d, out = OOpened d /\ next_stage st out = Streaming sid (session_key d) []).
Proof. destruct st, out as [| | | | | |[[]| |]|]; cbn; try done; try (by left); intros [= -> <-]; right; eauto 10. Qed.

Lemma opened_connects t e t' d sid : table_step t e = Some (t', OOpened d) -> e = EConnect sid ->
  ~ taken (heap t) sid /\ taken (heap t') sid.
Proof.
  intros Hs ->. cbn in Hs. destruct (heap t !! sid) as [s|] eqn:Es; [|done]. cbn in Hs. unfold connect in Hs.
  rewrite take_and_abort_reader in Hs. destruct (downlink_reader (set_connected s)) eqn:Er; [|done]. injection Hs as <- _. split.
  - intros (s' & Hs' & Hr). cbn in Er. congruence.
  - eexists. split; [apply list_lookup_insert_eq; by eapply lookup_lt_Some|done].
Qed.

Lemma opened_event t e t' d c st failed sid : table_step t e = Some (t', OOpened d) -> task_event t c st failed = Some e ->
  st = Made sid \/ st = Holds sid -> e = EConnect sid.
Proof.
  intros Hs He Hst. destruct c as [i q p|i|i], Hst as [->| ->]; cbn in He; try case_match; try done; injection He as <-; try done;
    cbn [table_step] in Hs; destruct (heap t !! sid); try done; cbn [mbind option_bind] in Hs; by destruct (uplink_step _ _) as [[]|].
Qed.

Section downlinks.
Context `{HeaderText} `{Base64Url} (o : origin).

Lemma end_body_down w n r sid key got w' : down_ok w -> w_tasks w !! n = Some (r, Streaming sid (Some key) got) ->
  end_body w n r sid key got = Some w' -> down_ok w'.
Proof.
  intros Hd Hn. unfold end_body. destruct (w_down w !! sid) as [[d l]|] eqn:El; [|done]. cbn [mbind option_bind].
  destruct (table_act w _) as [[w1 out]|] eqn:Ha; [|done]. cbn [mbind option_bind]. intros [= <-].
  pose proof (down_step _ _ _ _ Hd Ha) as Hd1. pose proof (down_forward _ _ _ _ _ _ Ha El) as El1.
  rewrite <- (table_act_tasks _ _ _ _ Ha) in Hn. eapply down_body; [done|exact Hn|exact El1|]. right. split; [done|].
  rewrite <- (do_stream _ Hd1 _ _ _ _ _ _ _ Hn El1). by apply prefix_app_r.
Qed.

Lemma task_down w n r st c failed e w' out : down_ok w -> w_tasks w !! n = Some (r, st) -> task_event (w_table w) c st failed = Some e ->
  table_act w e = Some (w', out) -> down_ok (set_task w' n r (next_stage st out)).
Proof.
  intros Hd Hn He Ha. pose proof (down_step _ _ _ _ Hd Ha) as Hd1. pose proof (table_act_tasks _ _ _ _ Ha) as Htasks.
  eapply down_task; [done|by rewrite Htasks|]. intros sid got Hf.
  destruct (next_stage_frames _ _ _ _ Hf) as [Heq|(Hst & -> & d & -> & Heq)].
  { rewrite Heq in Hf. destruct st; try done; by destruct c. }
  split; [done|]. rewrite Heq. rewrite Heq in Hf. split; [by eexists|].
  destruct (table_act_inv _ _ _ _ Ha) as (t & Hs & Hw'). pose proof (opened_event _ _ _ _ _ _ _ _ Hs He Hst) as Hec.
  destruct (opened_connects _ _ _ _ _ Hs Hec) as [Hnt Htk]. rewrite Htasks. subst w'. split; [done|]. split.
  - intros m r' st' got' Hm Hf'. by apply Hnt, (do_taken _ Hd _ _ _ _ _ Hm Hf').
  - subst e. cbn. intros d1 l1 Hl1. by apply (do_rest _ Hd sid).
Qed.

Lemma wstep_down w a w' : down_ok w -> wstep o w a = Some w' -> down_ok w'.
Proof.
  intros Hd. destruct a as [n failed|n|e|sid b|sid|n|n]; unfold wstep.
  - destruct (w_tasks w !! n) as [[r st]|] eqn:Hn; [|done]. cbn [mbind option_bind].
    destruct (first_call o r) as [c|]; [|done]. cbn [mbind option_bind]. destruct (task_event _ _ _ _) as [e|] eqn:He; [|done]. cbn [mbind option_bind].
    destruct (table_act w e) as [[w1 out]|] eqn:Ha; [|done]. cbn [mbind option_bind]. intros [= <-]. by eapply task_down.
  - destruct (w_tasks w !! n) as [[r st]|] eqn:Hn; [|done]. cbn [mbind option_bind]. destruct st as [| | | |sid| | | | | | |]; try done.
    destruct (table_act w _) as [[w1 out]|] eqn:Ha; [|done]. cbn [mbind option_bind]. intros [= <-].
    eapply down_task; [by eapply down_step|by rewrite (table_act_tasks _ _ _ _ Ha)|done].
  - destruct (env_event e); [|done]. destruct (table_act w e) as [[w1 out]|] eqn:Ha; [|done]. cbn [mbind option_bind]. intros [= <-].
    by eapply down_step.
  - destruct (w_down w !! sid) as [[d l]|] eqn:El; [|done]. cbn [mbind option_bind].
    destruct (downlink_send d b) as [[d' x]|] eqn:Es; [|done]. cbn [mbind option_bind]. intros [= <-].
    unfold downlink_send in Es. destruct b as [|b0 b]; [|destruct (negb _); [|destruct (_ <? _); [|done]]]; injection Es as <- <-.
    + rewrite <- (app_nil_r l). apply (down_sender w sid d); by rewrite ?app_nil_r.
    + rewrite <- (app_nil_r l). apply (down_sender w sid d); by rewrite ?app_nil_r.
    + by apply (down_sender w sid d).
  - destruct (w_down w !! sid) as [[d l]|] eqn:El; [|done]. cbn [mbind option_bind]. intros [= <-].
    rewrite <- (app_nil_r l). apply (down_sender w sid d); [done|done|]. by rewrite app_nil_r.
  - destruct (w_tasks w !! n) as [[r st]|] eqn:Hn; [|done]. cbn [mbind option_bind].
    destruct st as [| | | | | | | | | |sid [key|] got|]; try done. unfold poll_body. destruct (w_down w !! sid) as [[d l]|] eqn:El; [|done]. cbn [mbind option_bind].
    destruct (downlink_recv d) as [[d' [b|]]|] eqn:Er; [| |done]; cbn [mbind option_bind]; [|by apply end_body_down].
    intros [= <-]. eapply down_body; [done|exact Hn|exact El|]. left. split; [done|].
    pose proof (do_stream _ Hd _ _ _ _ _ _ _ Hn El) as Hl. unfold downlink_recv in Er.
    destruct (dl_chan d) as [|b' ch] eqn:Ec; [by destruct (dl_tx d)|]. injection Er as <- ->. by rewrite <- app_assoc.
  - destruct (w_tasks w !! n) as [[r st]|] eqn:Hn; [|done]. cbn [mbind option_bind].
    destruct st as [| | | | | | | | | |sid [key|] got|]; try done. by apply end_body_down.
Qed.

Lemma wrun_down acts w w' : down_ok w -> wrun o acts w = Some w' -> down_ok w'.
Proof.
  revert w. induction acts as [|a acts IH]; intros w Hok; cbn; [by intros [= <-]|].
  destruct (wstep o w a) as [w1|] eqn:E; [|done]. cbn. apply IH. by eapply wstep_down.
Qed.

Lemma world_new_down c b rs : down_ok (world_new c b rs).
Proof.
  assert (forall n r st, w_tasks (world_new c b rs) !! n = Some (r, st) -> st = Arrived) as Hnew.
  { intros n r st. cbn. rewrite list_lookup_fmap. destruct (rs !! n); [|done]. by intros [= _ <-]. }
  split; try done; intros; repeat match goal with E : w_tasks (world_new _ _ _) !! _ = Some _ |- _ => apply Hnew in E; simplify_eq/= end.
Qed.
End downlinks.

(** * Properties *)

Section reachable.
Context `{HeaderText} `{Base64Url} {o : origin} {c : Session.config} {b : option budget} {rs : list request} {acts : list act} {w : world}.
Context (Hpad : padding_sane o) (Hheaders : Forall (fun r => headers_ok (r_headers r)) rs).
Context (Hcap : 0 <= Session.max_sessions c) (Hsmall : Session.max_sessions c + Z.max (cfg_shards c) 1 < 2 ^ 64).
Context (Hrun : wrun o acts (world_new c b rs) = Some w).

Local Lemma reached : world_ok o w.
Proof. exact (wrun_ok o Hpad _ _ _ (world_new_ok o c b rs Hcap Hsmall Hheaders) Hrun). Qed.

(** The packets of an open session are those of its posts, and the posts answered 200 are
    among them. *)
Lemma session_packets sid s h : heap (w_table w) !! sid = Some s -> is_open (up s) -> w_hist w !! sid = Some (Some h) ->
  uplink_inv (up s) h /\
  (forall q p, admitted h !! q = Some p -> exists r, r ∈ rs /\ first_call o r = Some (CallPush (id s) q p)) /\
  (forall m r st q p, w_tasks w !! m = Some (r, st) -> first_call o r = Some (CallPush (id s) q p) -> stage_session st = Some sid ->
    answered o (r, st) = Some 200 -> is_Some (admitted h !! q)).
Proof.
  intros Hs Ho Hh. pose proof reached as [_ Hst Hhd Htk].
  destruct (Forall2_lookup_l _ _ _ _ _ Hst Hs) as (h' & Hh' & Hinv). rewrite Hh in Hh'. injection Hh' as <-. split; [by apply Hinv|]. split.
  - intros q p Hq. destruct (to_origin _ _ _ Htk _ _ _ _ Hh Hq) as (m & r & st & s' & Hm & Hs' & Hc). rewrite Hs in Hs'. injection Hs' as <-.
    exists r. split; [|done]. rewrite <- (world_new_requests c b rs), <- (wrun_requests _ _ _ _ Hrun).
    apply list_elem_of_fmap. exists (r, st). split; [done|]. by eapply list_elem_of_lookup_2.
  - intros m r st q p Hm Hc Hsid Ha.
    eapply (to_packet _ _ _ Htk m r st sid); [exact Hm|by intros []| |exact Hc|done..]. eapply answered_taken; eauto.
Qed.

(** When the posts to a session are those below [n] and all were answered 200, the session
    has them all. *)
Lemma session_complete (f : Z -> bytes) n sid s h :
  heap (w_table w) !! sid = Some s -> is_open (up s) -> holder (up s) = None -> w_hist w !! sid = Some (Some h) ->
  (forall r q p, r ∈ rs -> first_call o r = Some (CallPush (id s) q p) -> p = f q /\ q < n) ->
  (forall k, 0 <= k < n -> exists m r st p, w_tasks w !! m = Some (r, st) /\ first_call o r = Some (CallPush (id s) k p) /\
    stage_session st = Some sid /\ answered o (r, st) = Some 200) ->
  0 <= n <= 2 ^ 64 -> read_out h ++ in_flight (up s) = concat (f <$> seqZ 0 n).
Proof.
  intros Hs Ho Hn Hh Hf Hall Hle. destruct (session_packets sid s h Hs Ho Hh) as (Hinv & Hfrom & Hto).
  destruct (inv_payloads _ _ f Hinv) as [Hpos ->].
  { intros k p Hk. destruct (Hfrom _ _ Hk) as (r & Hr & Hc). by apply (Hf r). }
  assert (n <= delivered (up s)) as Hge.
  { apply (inv_complete _ _ _ Hinv Hn); [|lia]. intros k Hk. destruct (Hall k Hk) as (m & r & st & p & Hm & Hc & Hsid & Ha). by eapply Hto. }
  destruct (decide (delivered (up s) = n)) as [->|Hne]; [done|].
  assert (is_Some (admitted h !! (delivered (up s) - 1))) as [p Hp] by (apply (ord_dom _ _ _ _ (inv_ordered _ _ Hinv)); left; lia).
  destruct (Hfrom _ _ Hp) as (r & Hr & Hc). destruct (Hf _ _ _ Hr Hc). lia.
Qed.

(** C4: posts arrive in order.  Let any number of requests be handled at once, their
    calls interleaved with each other, with reapers, readers, removals and downloads, and
    posts given up by their clients.  While a session is open and none of its posts was
    given up while it waited for room, what its reader has read and is about to read is the
    payloads 0, 1, 2, ... of the posts to it, nothing lost, repeated or foreign; and if
    no post is suspended, all payloads up to the first one not yet answered 200 are
    there. *)
Theorem posts_delivered_in_order (f : Z -> bytes) n sid s h :
  heap (w_table w) !! sid = Some s -> is_open (up s) -> w_hist w !! sid = Some (Some h) ->
  (forall r q p, r ∈ rs -> first_call o r = Some (CallPush (id s) q p) -> p = f q) ->
  (forall k, 0 <= k < n -> exists m r st p, w_tasks w !! m = Some (r, st) /\ first_call o r = Some (CallPush (id s) k p) /\
    stage_session st = Some sid /\ answered o (r, st) = Some 200) ->
  n <= 2 ^ 64 ->
  exists d, 0 <= d /\ (holder (up s) = None -> n <= d) /\ read_out h ++ in_flight (up s) = concat (f <$> seqZ 0 d) /\
    forall k, 0 <= k < d -> exists r, r ∈ rs /\ first_call o r = Some (CallPush (id s) k (f k)).
Proof.
  intros Hs Ho Hh Hf Hall Hn. destruct (session_packets sid s h Hs Ho Hh) as (Hinv & Hfrom & Hto).
  assert (forall k p, admitted h !! k = Some p -> p = f k) as Hpay by (intros k p Hk; destruct (Hfrom _ _ Hk) as (r & Hr & Hc); by eapply Hf).
  destruct (inv_payloads _ _ f Hinv Hpay) as [Hpos Hstream]. exists (delivered (up s)). split; [done|]. split; [|split; [done|]].
  - intros Hnone. apply (inv_complete _ _ _ Hinv Hnone); [|done].
    intros k Hk. destruct (Hall k Hk) as (m & r & st & p & Hm & Hc & Hsid & Ha). by eapply Hto.
  - intros k Hk. destruct (proj2 (ord_dom _ _ _ _ (inv_ordered _ _ Hinv) k) (or_introl Hk)) as [p Hp].
    destruct (Hfrom _ _ Hp) as (r & Hr & Hc). exists r. by rewrite <- (Hpay _ _ Hp).
Qed.

(** C13: a download is in order and nobody else's.  Under the same interleavings, the
    frames of a response body and the chunks queued behind it are the chunks sent into the
    session, in order; no other request, then or later, is given a frame of it; a body
    that was cut off has a prefix, and one that ended by itself has everything. *)
Theorem download_frames_in_order n r st sid got d l :
  w_tasks w !! n = Some (r, st) -> body_frames st = Some (sid, got) -> w_down w !! sid = Some (d, l) ->
  got `prefix_of` l /\ (forall key, st = Streaming sid key got -> got ++ dl_chan d = l) /\
  (forall m r' st' got', w_tasks w !! m = Some (r', st') -> body_frames st' = Some (sid, got') -> m = n) /\
  (forall key w', wstep o w (ABody n) = Some w' -> w_tasks w' !! n = Some (r, BodyEnded sid key got) ->
    got = l /\ dl_tx d = false).
Proof.
  intros Hn Hf Hl. pose proof (wrun_down _ _ _ _ (world_new_down c b rs) Hrun) as Hd.
  assert (forall key, st = Streaming sid key got -> got ++ dl_chan d = l) as Hs by (intros key ->; by eapply (do_stream _ Hd)).
  split; [|split; [exact Hs|split]].
  - destruct st as [| | | | | | | | | |s k g|s k g]; try done; injection Hf as -> ->; [|by eapply (do_ended _ Hd)].
    rewrite <- (Hs k eq_refl). by apply prefix_app_r.
  - intros m r' st' got' Hm Hf'. by eapply (do_alone _ Hd).
  - intros key w' Hw' Hn'. unfold wstep in Hw'. rewrite Hn in Hw'. cbn [mbind option_bind] in Hw'.
    destruct st as [| | | | | | | | | |s [k|] g|]; try done. injection Hf as -> ->. unfold poll_body in Hw'. rewrite Hl in Hw'. cbn [mbind option_bind] in Hw'.
    specialize (Hs _ eq_refl). unfold downlink_recv in Hw'. destruct (dl_chan d) as [|b' ch].
    + destruct (dl_tx d); [done|]. by rewrite app_nil_r in Hs.
    + cbn [mbind option_bind] in Hw'. injection Hw' as <-. cbn in Hn'.
      rewrite list_lookup_insert_eq in Hn' by (by eapply lookup_lt_Some). done.
Qed.
End reachable.

(** * A tunnel at work *)

#[local] Existing Instances toy_base64 toy_text.

(** Two posts of session "ab", the second first, and its download. *)
Definition toy_get : request :=
  mk_request GET (mk_uri (str "/p/ab") (Some (str "x_padding=XXXX")) None None) no_headers (mk_body None []).
Definition toy_rs : list request :=
  [toy_request "/p/ab/1" "x_padding=XXXX" [FData [3]]; toy_get; toy_request "/p/ab/0" "x_padding=XXXX" [FData [1; 2]]].
Definition toy_table : Session.config := Session.mk_config 2 4 4 100 4.

(** The post 1 makes the session while the download waits for its lock; the download opens
    it and gets a frame; the post 0 lets both packets through, one send at a time. *)
Definition toy_acts : list act :=
  [ATask 0 false; ATask 0 false; ATask 1 false; ATask 1 false;
   ATable (EFinish 0); ATable (EFinish 0); ATable (EFinish 0); ATask 0 false; ASend 0 [9]; ABody 1;
   ATask 2 false; ATask 2 false; ATask 2 false; ATable (EUplink 0 (ERead 1)); ATask 2 false; ASend 0 [8]].

Definition toy_world : world := default (world_new toy_table None toy_rs) (wrun toy_origin toy_acts (world_new toy_table None toy_rs)).

Lemma toy_run : wrun toy_origin toy_acts (world_new toy_table None toy_rs) = Some toy_world.
Proof. vm_compute. reflexivity. Qed.

Definition toy_payload (q : Z) : bytes := if q =? 0 then [1; 2] else [3].

Lemma toy_calls : first_call toy_origin <$> toy_rs = [Some (CallPush (str "ab") 1 [3]); Some (CallOpen (str "ab")); Some (CallPush (str "ab") 0 [1; 2])].
Proof. vm_compute. reflexivity. Qed.

Lemma toy_ends : (fun x => (x.1, stage_session x.2, answered toy_origin x)) <$> w_tasks toy_world = (fun r => (r, Some 0%nat, Some 200)) <$> toy_rs.
Proof. vm_compute. reflexivity. Qed.

Lemma toy_session : exists s h, heap (w_table toy_world) !! 0%nat = Some s /\ w_hist toy_world !! 0%nat = Some (Some h) /\
  id s = str "ab" /\ is_open (up s) /\ holder (up s) = None /\ read_out h = [1].
Proof. do 2 eexists. split; [vm_compute; reflexivity|]. split; [vm_compute; reflexivity|]. repeat split. Qed.

Section toys.
Context `{HeaderText} `{Base64Url} (o : origin) (rs : list request).

Lemma post_answered w sid i m k p :
  (fun x => (x.1, stage_session x.2, answered o x)) <$> w_tasks w = (fun r => (r, Some sid, Some 200)) <$> rs ->
  (first_call o <$> rs) !! m = Some (Some (CallPush i k p)) ->
  exists m' r st p', w_tasks w !! m' = Some (r, st) /\ first_call o r = Some (CallPush i k p') /\ stage_session st = Some sid /\ answered o (r, st) = Some 200.
Proof.
  intros Hends Hc. rewrite list_lookup_fmap in Hc. destruct (rs !! m) as [r|] eqn:Er; [|done].
  pose proof (f_equal (lookup m) Hends) as He. rewrite !list_lookup_fmap, Er in He.
  destruct (w_tasks w !! m) as [[r' st]|] eqn:Et; [|done]. cbn [fmap option_fmap option_map fst snd] in He, Hc. injection He as -> Hs Ha. injection Hc as Hc.
  by exists m, r, st, p.
Qed.

Lemma post_listed calls r q i p : first_call o <$> rs = calls -> r ∈ rs -> first_call o r = Some (CallPush i q p) -> Some (CallPush i q p) ∈ calls.
Proof. intros <- Hr Hc. apply list_elem_of_fmap. eauto. Qed.
End toys.

Lemma toy_headers : Forall (fun r => headers_ok (r_headers r)) toy_rs.
Proof. by repeat (apply Forall_cons_2 || apply Forall_nil_2). Qed.

Lemma toy_payloads r q p : r ∈ toy_rs -> first_call toy_origin r = Some (CallPush (str "ab") q p) -> p = toy_payload q.
Proof.
  intros Hr Hc. pose proof (post_listed _ _ _ _ _ _ _ toy_calls Hr Hc) as Hin. clear Hr Hc. rewrite !elem_of_cons in Hin.
  destruct Hin as [He|[He|[He|He]]]; [injection He as -> ->; reflexivity|discriminate He|injection He as -> ->; reflexivity|by apply elem_of_nil in He].
Qed.

Lemma posts_delivered_in_order_witness :
  exists s h d, heap (w_table toy_world) !! 0%nat = Some s /\ w_hist toy_world !! 0%nat = Some (Some h) /\ 2 <= d /\
    read_out h = [1] /\ read_out h ++ in_flight (up s) = concat (toy_payload <$> seqZ 0 d).
Proof.
  destruct toy_session as (s & h & Es & Eh & Hi & Ho & Hn & Hr).
  destruct (posts_delivered_in_order (o := toy_origin) (c := toy_table) (b := None) (rs := toy_rs) (acts := toy_acts) (w := toy_world)
    ltac:(unfold padding_sane; cbn; lia) toy_headers ltac:(vm_compute; discriminate) ltac:(vm_compute; reflexivity) toy_run
    toy_payload 2 0 s h Es Ho Eh) as (d & _ & Hd & Hs & _); [| |lia|exists s, h, d; auto]; rewrite Hi.
  - exact toy_payloads.
  - intros k Hk. assert (k = 0 \/ k = 1) as [->| ->] by lia; [apply (post_answered _ _ _ _ _ 2 _ [1; 2] toy_ends)|apply (post_answered _ _ _ _ _ 0 _ [3] toy_ends)]; rewrite toy_calls; reflexivity.
Defined.

Lemma download_frames_in_order_witness :
  exists r st d, w_tasks toy_world !! 1%nat = Some (r, st) /\ body_frames st = Some (0%nat, [[9]]) /\
    w_down toy_world !! 0%nat = Some (d, [[9]; [8]]) /\ [[9]] `prefix_of` [[9]; [8]].
Proof.
  assert (exists r st d, w_tasks toy_world !! 1%nat = Some (r, st) /\ body_frames st = Some (0%nat, [[9]]) /\
    w_down toy_world !! 0%nat = Some (d, [[9]; [8]])) as (r & st & d & Hn & Hf & Hl)
    by (do 3 eexists; split; [vm_compute; reflexivity|split; vm_compute; reflexivity]).
  exists r, st, d. split; [done|]. split; [done|]. split; [done|].
  exact (proj1 (download_frames_in_order (o := toy_origin) (c := toy_table) (b := None) (rs := toy_rs) (acts := toy_acts) (w := toy_world)
    toy_run 1 r st 0 [[9]] d [[9]; [8]] Hn Hf Hl)).
Defined.
