(* ===== verification/ClientHello.v ===== *)
(** [src/tls/client_hello.rs]: the reassembly of a ClientHello from TLS records and
    its parser.

    The [Reader] is the bytes it has not read yet.  The loops over lists take fuel;
    they read at least one byte per round. *)

From S2P Require Import Prelude.

Definition TLS_RECORD_HANDSHAKE : Z := 0x16.
Definition HANDSHAKE_TYPE_CLIENT_HELLO : Z := 1.
Definition EXT_SERVER_NAME : Z := 0x0000.
Definition EXT_SIGNATURE_ALGORITHMS : Z := 0x000d.
Definition EXT_ALPN : Z := 0x0010.
Definition EXT_SUPPORTED_VERSIONS : Z := 0x002b.
Definition EXT_KEY_SHARE : Z := 0x0033.

Record key_share := mk_key_share { group : Z; ks_data : bytes }.

Inductive parse_error : Type := Truncated | NotHandshakeRecord | NotClientHello | Malformed.

(** * Reassembly *)

Record record_buffer := mk_record_buffer { payload : bytes; max_payload : Z }.

Inductive buffer_error : Type :=
| TruncatedRecord | BNotHandshakeRecord | TrailingRecordBytes | BNotClientHello | PayloadTooLarge | TrailingHandshakeBytes.

Definition buffer_new (m : Z) : record_buffer := mk_record_buffer [] m.
Definition buffer_default : record_buffer := buffer_new (2 ^ 16).

Definition try_message (b : record_buffer) : comp buffer_error (option bytes) :=
  if len (payload b) <? 4 then Val None
  else
    p0 ← index (payload b) 0;
    _ ← fail_if (negb (p0 =? HANDSHAKE_TYPE_CLIENT_HELLO)) BNotClientHello;
    p1 ← index (payload b) 1; p2 ← index (payload b) 2; p3 ← index (payload b) 3;
    let total := 4 + be_val [0; p1; p2; p3] in
    _ ← fail_if (max_payload b <? total) PayloadTooLarge;
    if len (payload b) <? total then Val None
    else
      _ ← fail_if (negb (len (payload b) =? total)) TrailingHandshakeBytes;
      Val (Some (payload b)).

(** The buffer keeps the body of a record even when the message is refused. *)
Definition append_record (b : record_buffer) (record : bytes) : record_buffer * comp buffer_error (option bytes) :=
  if len record <? 5 then (b, Fail TruncatedRecord)
  else
    match get_at record 0, get_at record 3, get_at record 4 with
    | Some r0, Some r3, Some r4 =>
        if negb (r0 =? TLS_RECORD_HANDSHAKE) then (b, Fail BNotHandshakeRecord)
        else
          let n := be_val [r3; r4] in
          match get_range record 5 (5 + n) with
          | None => (b, Fail TruncatedRecord)
          | Some body =>
              if negb (len record =? 5 + n) then (b, Fail TrailingRecordBytes)
              else if max_payload b <? len (payload b) + len body then (b, Fail PayloadTooLarge)
              else
                let b := mk_record_buffer (payload b ++ body) (max_payload b) in
                (b, try_message b)
          end
    | _, _, _ => (b, Crash)
    end.

(** * Reader *)

Definition rtake (n : Z) (l : bytes) : comp parse_error (bytes * bytes) :=
  if n <=? len l then Val (take (Z.to_nat n) l, drop (Z.to_nat n) l) else Fail Truncated.

Definition ru8 (l : bytes) : comp parse_error (Z * bytes) :=
  '(b, l) ← rtake 1 l; x ← index b 0; Val (x, l).
Definition ru16 (l : bytes) : comp parse_error (Z * bytes) :=
  '(b, l) ← rtake 2 l; x ← index b 0; y ← index b 1; Val (be_val [x; y], l).
Definition ru24 (l : bytes) : comp parse_error (Z * bytes) :=
  '(b, l) ← rtake 3 l; x ← index b 0; y ← index b 1; z ← index b 2; Val (be_val [0; x; y; z], l).

(** [.ok()?] and [let Ok(..) else]: an error becomes the value [d]. *)
Definition recover {A} (m : comp parse_error A) (d : A) : comp parse_error A :=
  match m with Fail _ => Val d | _ => m end.

(** [chunks_exact(2)] of big-endian pairs. *)
Fixpoint pairs (l : bytes) : list Z :=
  match l with a :: b :: l' => be_val [a; b] :: pairs l' | _ => [] end.

(** * Extensions *)

Fixpoint sni_loop (fuel : nat) (names : bytes) : comp parse_error (option bytes) :=
  match fuel with
  | O => Diverge
  | S f =>
      match names with
      | [] => Val None
      | _ =>
          '(t, names) ← ru8 names;
          '(n, names) ← ru16 names;
          '(x, names) ← rtake n names;
          if t =? 0 then Val (if utf8_valid x then Some x else None) else sni_loop f names
      end
  end.

Definition parse_sni (data : bytes) : comp parse_error (option bytes) :=
  recover ('(n, r) ← ru16 data; '(l, _) ← rtake n r; sni_loop (S (length l)) l) None.

Fixpoint versions_loop (fuel : nat) (l : bytes) : comp parse_error bool :=
  match fuel with
  | O => Diverge
  | S f =>
      match l with
      | [] => Val false
      | _ => '(v, l) ← ru16 l; if v =? 0x0304 then Val true else versions_loop f l
      end
  end.

Definition parse_supported_versions (data : bytes) : comp parse_error bool :=
  recover ('(n, r) ← ru8 data; '(l, _) ← rtake n r; versions_loop (S (length l)) l) false.

Fixpoint alpn_loop (fuel : nat) (names : bytes) : comp parse_error (list bytes) :=
  match fuel with
  | O => Diverge
  | S f =>
      match names with
      | [] => Val []
      | _ =>
          match ('(n, r) ← ru8 names; rtake n r) with
          | Val (x, r) => rest ← alpn_loop f r; Val (if utf8_valid x then x :: rest else rest)
          | Fail _ => Val []
          | Crash => Crash
          | Diverge => Diverge
          end
      end
  end.

Definition parse_alpn (data : bytes) : comp parse_error (list bytes) :=
  recover ('(n, r) ← ru16 data; '(l, _) ← rtake n r; alpn_loop (S (length l)) l) [].

Definition parse_signature_schemes (data : bytes) : comp parse_error (list Z) :=
  '(n, r) ← ru16 data;
  _ ← fail_if (negb (n mod 2 =? 0)) Malformed;
  '(l, r) ← rtake n r;
  _ ← fail_if (match r with [] => false | _ => true end) Malformed;
  Val (pairs l).

Fixpoint shares_loop (fuel : nat) (l : bytes) : comp parse_error (list key_share) :=
  match fuel with
  | O => Diverge
  | S f =>
      match l with
      | [] => Val []
      | _ =>
          '(g, l) ← ru16 l;
          '(n, l) ← ru16 l;
          '(d, l) ← rtake n l;
          rest ← shares_loop f l;
          Val (mk_key_share g d :: rest)
      end
  end.

(** The shares are pushed on the vector of the caller, which is dropped on error. *)
Definition parse_key_shares (data : bytes) : comp parse_error (list key_share) :=
  '(n, r) ← ru16 data; '(l, _) ← rtake n r; shares_loop (S (length l)) l.

Record offers := mk_offers {
  server_name : option bytes; key_shares : list key_share; signature_schemes : list Z;
  offers_tls13 : bool; alpn : list bytes }.

Definition no_offers : offers := mk_offers None [] [] false [].

Definition parse_extension (o : offers) (t : Z) (data : bytes) : comp parse_error offers :=
  if t =? EXT_SERVER_NAME then
    x ← parse_sni data; Val (mk_offers x (key_shares o) (signature_schemes o) (offers_tls13 o) (alpn o))
  else if t =? EXT_SUPPORTED_VERSIONS then
    x ← parse_supported_versions data; Val (mk_offers (server_name o) (key_shares o) (signature_schemes o) x (alpn o))
  else if t =? EXT_SIGNATURE_ALGORITHMS then
    x ← parse_signature_schemes data; Val (mk_offers (server_name o) (key_shares o) x (offers_tls13 o) (alpn o))
  else if t =? EXT_ALPN then
    x ← parse_alpn data; Val (mk_offers (server_name o) (key_shares o) (signature_schemes o) (offers_tls13 o) x)
  else if t =? EXT_KEY_SHARE then
    x ← parse_key_shares data; Val (mk_offers (server_name o) (key_shares o ++ x) (signature_schemes o) (offers_tls13 o) (alpn o))
  else Val o.

Fixpoint parse_extensions (fuel : nat) (o : offers) (l : bytes) : comp parse_error offers :=
  match fuel with
  | O => Diverge
  | S f =>
      match l with
      | [] => Val o
      | _ =>
          '(t, l) ← ru16 l;
          '(n, l) ← ru16 l;
          '(d, l) ← rtake n l;
          o ← parse_extension o t d;
          parse_extensions f o l
      end
  end.

(** * Messages *)

Record client_hello := mk_client_hello {
  random : bytes; session_id : bytes; cipher_suites : list Z; ch_offers : offers; raw_message : bytes }.

Definition parse_message (message : bytes) : comp parse_error client_hello :=
  '(t, r) ← ru8 message;
  _ ← fail_if (negb (t =? HANDSHAKE_TYPE_CLIENT_HELLO)) NotClientHello;
  '(n, r) ← ru24 r;
  _ ← fail_if (negb (n =? saturating_sub (len message) 4)) Malformed;
  '(_, r) ← ru16 r;
  '(rnd, r) ← rtake 32 r;
  '(sn, r) ← ru8 r;
  '(sid, r) ← rtake sn r;
  '(cn, r) ← ru16 r;
  _ ← fail_if (negb (cn mod 2 =? 0)) Malformed;
  '(cs, r) ← rtake cn r;
  '(mn, r) ← ru8 r;
  '(_, r) ← rtake mn r;
  '(o, r) ← match r with
            | [] => Val (no_offers, r)
            | _ =>
                '(en, r) ← ru16 r;
                '(ext, r) ← rtake en r;
                o ← parse_extensions (S (length ext)) no_offers ext;
                Val (o, r)
            end;
  _ ← fail_if (match r with [] => false | _ => true end) Malformed;
  Val (mk_client_hello rnd sid (pairs cs) o message).

Definition parse_record (record : bytes) : comp parse_error client_hello :=
  if len record <? 5 then Fail Truncated
  else
    r0 ← index record 0;
    _ ← fail_if (negb (r0 =? TLS_RECORD_HANDSHAKE)) NotHandshakeRecord;
    r3 ← index record 3; r4 ← index record 4;
    let n := be_val [r3; r4] in
    body ← lift (fun e => e) (ok_or (get_range record 5 (5 + n)) Truncated);
    parse_message body.

Definition is_grease (v : Z) : bool := (Z.land v 0x0f0f =? 0x0a0a) && (Z.shiftr v 8 =? Z.land v 0x00ff).

Definition cipher_offered (h : client_hello) (id : Z) : bool := existsb (Z.eqb id) (cipher_suites h).
Definition keyshare_group_offered (h : client_hello) (g : Z) : bool :=
  existsb (fun s => (group s =? g) && negb (is_grease g)) (key_shares (ch_offers h)).

(** * Reading from the connection ([src/tls/nginx_backend.rs]) *)

Definition MAX_TLS_RECORD : Z := 18 * 1024.

Inductive tls_error : Type := TIo (k : io_kind) | TBuffer (e : buffer_error).

Definition read_tls_record (s : source) : comp tls_error (bytes * source) :=
  '(header, s) ← lift TIo (read_exact 5 s);
  h3 ← index header 3; h4 ← index header 4;
  let n := be_val [h3; h4] in
  _ ← fail_if (MAX_TLS_RECORD <? n) (TIo InvalidData);
  '(body, s) ← lift TIo (read_exact (Z.to_nat n) s);
  Val (header ++ body, s).

Definition CHANGE_CIPHER_SPEC : bytes := [0x14; 0x03; 0x03; 0x00; 0x01; 0x01].
Definition is_change_cipher_spec (record : bytes) : bool := bytes_eqb record CHANGE_CIPHER_SPEC.

(** Every round reads at least the five bytes of a record header. *)
Fixpoint client_hello_loop (fuel : nat) (b : record_buffer) (s : source) : comp tls_error (bytes * source) :=
  match fuel with
  | O => Diverge
  | S f =>
      '(record, s) ← read_tls_record s;
      if is_change_cipher_spec record then client_hello_loop f b s
      else
        match append_record b record with
        | (_, Val (Some m)) => Val (m, s)
        | (b', Val None) => client_hello_loop f b' s
        | (_, Fail e) => Fail (TBuffer e)
        | (_, Crash) => Crash
        | (_, Diverge) => Diverge
        end
  end.

Definition read_client_hello (s : source) : comp tls_error (bytes * source) :=
  client_hello_loop (S (length (content s))) buffer_default s.

(** * The wire format (RFC 8446, section 4) *)

Definition vec8 (l : bytes) : bytes := len l :: l.
Definition vec16 (l : bytes) : bytes := be_bytes 2 (len l) ++ l.
Definition words (l : list Z) : bytes := concat (be_bytes 2 <$> l).

Inductive ext : Type :=
| ESni (l : list (Z * bytes))
| EVersions (l : list Z)
| ESchemes (l : list Z)
| EAlpn (l : list bytes)
| EShares (l : list key_share)
| EOther (t : Z) (d : bytes).

Definition ext_type (e : ext) : Z :=
  match e with
  | ESni _ => EXT_SERVER_NAME
  | EVersions _ => EXT_SUPPORTED_VERSIONS
  | ESchemes _ => EXT_SIGNATURE_ALGORITHMS
  | EAlpn _ => EXT_ALPN
  | EShares _ => EXT_KEY_SHARE
  | EOther t _ => t
  end.

Definition name_wire (x : Z * bytes) : bytes := x.1 :: vec16 x.2.
Definition share_wire (s : key_share) : bytes := be_bytes 2 (group s) ++ vec16 (ks_data s).

Definition ext_data (e : ext) : bytes :=
  match e with
  | ESni l => vec16 (concat (name_wire <$> l))
  | EVersions l => vec8 (words l)
  | ESchemes l => vec16 (words l)
  | EAlpn l => vec16 (concat (vec8 <$> l))
  | EShares l => vec16 (concat (share_wire <$> l))
  | EOther _ d => d
  end.

Definition ext_wire (e : ext) : bytes := be_bytes 2 (ext_type e) ++ vec16 (ext_data e).

Definition hello_body (version : Z) (rnd sid : bytes) (cs : list Z) (compression : bytes) (es : option (list ext)) : bytes :=
  be_bytes 2 version ++ rnd ++ vec8 sid ++ vec16 (words cs) ++ vec8 compression ++
  match es with None => [] | Some es => vec16 (concat (ext_wire <$> es)) end.

Definition hello_wire (version : Z) (rnd sid : bytes) (cs : list Z) (compression : bytes) (es : option (list ext)) : bytes :=
  let body := hello_body version rnd sid cs compression es in
  HANDSHAKE_TYPE_CLIENT_HELLO :: be_bytes 3 (len body) ++ body.

(** What an extension offers; a later extension of the same type replaces an
    earlier one, except that key shares add up. *)
Definition first_host (l : list (Z * bytes)) : option bytes :=
  match find (fun x => x.1 =? 0) l with
  | Some (_, n) => if utf8_valid n then Some n else None
  | None => None
  end.

Definition apply_ext (o : offers) (e : ext) : offers :=
  match e with
  | ESni l => mk_offers (first_host l) (key_shares o) (signature_schemes o) (offers_tls13 o) (alpn o)
  | EVersions l => mk_offers (server_name o) (key_shares o) (signature_schemes o) (existsb (Z.eqb 0x0304) l) (alpn o)
  | ESchemes l => mk_offers (server_name o) (key_shares o) l (offers_tls13 o) (alpn o)
  | EAlpn l => mk_offers (server_name o) (key_shares o) (signature_schemes o) (offers_tls13 o) (List.filter utf8_valid l)
  | EShares l => mk_offers (server_name o) (key_shares o ++ l) (signature_schemes o) (offers_tls13 o) (alpn o)
  | EOther _ _ => o
  end.

Definition known_exts : list Z :=
  [EXT_SERVER_NAME; EXT_SUPPORTED_VERSIONS; EXT_SIGNATURE_ALGORITHMS; EXT_ALPN; EXT_KEY_SHARE].

(** The fields fit their width. *)
Definition ext_ok (e : ext) : Prop :=
  len (ext_data e) <= u16_max /\
  match e with
  | ESni l => Forall (fun x => byte_ok x.1 /\ len x.2 <= u16_max) l
  | EVersions l => Forall (uint_ok 16) l /\ len (words l) <= u8_max
  | ESchemes l => Forall (uint_ok 16) l
  | EAlpn l => Forall (fun x => len x <= u8_max) l
  | EShares l => Forall (fun s => uint_ok 16 (group s) /\ len (ks_data s) <= u16_max) l
  | EOther t _ => uint_ok 16 t /\ existsb (Z.eqb t) known_exts = false
  end.

(** * Lemmas *)

(** ** Reader *)

Lemma rtake_app a r : rtake (len a) (a ++ r) = Val (a, r).
Proof.
  unfold rtake. rewrite (proj2 (Z.leb_le _ _)) by (rewrite len_app; pose proof (len_nonneg r); lia).
  unfold len. rewrite Nat2Z.id. by rewrite take_app_length, drop_app_length.
Qed.

Lemma ru8_cons b r : ru8 (b :: r) = Val (b, r).
Proof. unfold ru8. change (b :: r) with ([b] ++ r). change 1 with (len [b]). by rewrite rtake_app. Qed.

Lemma ru16_cons a b r : ru16 (a :: b :: r) = Val (be_val [a; b], r).
Proof. unfold ru16. change (a :: b :: r) with ([a; b] ++ r). change 2 with (len [a; b]). by rewrite rtake_app. Qed.

Lemma ru24_cons a b c r : ru24 (a :: b :: c :: r) = Val (be_val [0; a; b; c], r).
Proof. unfold ru24. change (a :: b :: c :: r) with ([a; b; c] ++ r). change 3 with (len [a; b; c]). by rewrite rtake_app. Qed.

Lemma ru16_be n r : uint_ok 16 n -> ru16 (be_bytes 2 n ++ r) = Val (n, r).
Proof.
  intros Hn. pose proof (length_be_bytes 2 n) as Hl. pose proof (be_val_be_bytes 2 n Hn) as Hv.
  destruct (be_bytes 2 n) as [|a [|b [|? ?]]]; try done. cbn [app]. by rewrite ru16_cons, Hv.
Qed.

Lemma ru24_be n r : uint_ok 24 n -> ru24 (be_bytes 3 n ++ r) = Val (n, r).
Proof.
  intros Hn. pose proof (length_be_bytes 3 n) as Hl. pose proof (be_val_be_bytes 3 n Hn) as Hv.
  destruct (be_bytes 3 n) as [|a [|b [|c [|? ?]]]]; try done. cbn [app]. rewrite ru24_cons. by rewrite <- Hv.
Qed.

Lemma len_uint {A} (l : list A) m w : len l <= m -> m < 2 ^ w -> uint_ok w (len l).
Proof. intros H1 H2. pose proof (len_nonneg l). unfold uint_ok. lia. Qed.

Lemma read_vec16 {B} l r (f : bytes * bytes -> comp parse_error B) :
  len l <= u16_max -> ('(n, r) ← ru16 (vec16 l ++ r); x ← rtake n r; f x) = f (l, r).
Proof.
  intros Hl. unfold vec16. rewrite <- app_assoc, ru16_be by (by eapply len_uint). cbn. by rewrite rtake_app.
Qed.

Lemma pairs_words l : Forall (uint_ok 16) l -> pairs (words l) = l.
Proof.
  unfold words. induction 1 as [|n l Hn _ IH]; [done|]. cbn [fmap list_fmap concat].
  pose proof (length_be_bytes 2 n) as Hl. pose proof (be_val_be_bytes 2 n Hn) as Hv.
  destruct (be_bytes 2 n) as [|a [|b [|? ?]]]; try done. cbn [app pairs]. by rewrite IH, Hv.
Qed.

Lemma len_words l : len (words l) = 2 * len l.
Proof.
  unfold words. induction l as [|n l IH]; [done|]. cbn [fmap list_fmap concat].
  rewrite len_app, len_be_bytes, IH, len_cons. lia.
Qed.

(** ** Lists *)

Lemma sni_loop_wire l fuel :
  Forall (fun x => byte_ok x.1 /\ len x.2 <= u16_max) l -> (length (concat (name_wire <$> l)) < fuel)%nat ->
  sni_loop fuel (concat (name_wire <$> l)) = Val (first_host l).
Proof.
  intros Hl. revert fuel. induction Hl as [|[t n] l [Ht Hn] _ IH]; intros [|f] Hf; [cbn in Hf; lia|done|lia|].
  cbn [fmap list_fmap concat] in *. change (name_wire (t, n)) with (t :: vec16 n) in *. cbn [app] in *. cbn [sni_loop].
  rewrite ru8_cons. cbn [mbind comp_bind]. unfold vec16. rewrite <- app_assoc, ru16_be by (by eapply len_uint).
  cbn [mbind comp_bind]. rewrite rtake_app. cbn [mbind comp_bind]. unfold first_host. cbn [find fst].
  destruct (t =? 0); [done|]. apply IH. cbn [length] in Hf. rewrite length_app in Hf. lia.
Qed.

Lemma versions_loop_wire l fuel :
  Forall (uint_ok 16) l -> (length (words l) < fuel)%nat -> versions_loop fuel (words l) = Val (existsb (Z.eqb 0x0304) l).
Proof.
  intros Hl. revert fuel. induction Hl as [|n l Hn _ IH]; intros [|f] Hf; [cbn in Hf; lia|done|lia|].
  change (words (n :: l)) with (be_bytes 2 n ++ words l) in *. rewrite length_app, length_be_bytes in Hf.
  cbn [versions_loop existsb]. pose proof (length_be_bytes 2 n) as Hb.
  destruct (be_bytes 2 n ++ words l) as [|b0 r0] eqn:E; [by destruct (be_bytes 2 n)|]. rewrite <- E, ru16_be by done.
  cbn [mbind comp_bind]. rewrite Z.eqb_sym. destruct (0x0304 =? n); [done|]. apply IH. lia.
Qed.

Lemma alpn_loop_wire l fuel :
  Forall (fun x => len x <= u8_max) l -> (length (concat (vec8 <$> l)) < fuel)%nat ->
  alpn_loop fuel (concat (vec8 <$> l)) = Val (List.filter utf8_valid l).
Proof.
  intros Hl. revert fuel. induction Hl as [|n l Hn _ IH]; intros [|f] Hf; [cbn in Hf; lia|done|lia|].
  cbn [fmap list_fmap concat] in *. change (vec8 n) with (len n :: n) in *. cbn [app] in *. cbn [alpn_loop].
  rewrite ru8_cons. cbn [mbind comp_bind]. rewrite rtake_app. rewrite IH.
  - cbn. by destruct (utf8_valid n).
  - cbn [length] in Hf. rewrite length_app in Hf. lia.
Qed.

Lemma shares_loop_wire l fuel :
  Forall (fun s => uint_ok 16 (group s) /\ len (ks_data s) <= u16_max) l -> (length (concat (share_wire <$> l)) < fuel)%nat ->
  shares_loop fuel (concat (share_wire <$> l)) = Val l.
Proof.
  intros Hl. revert fuel. induction Hl as [|s l [Hg Hd] _ IH]; intros [|f] Hf; [cbn in Hf; lia|done|lia|].
  cbn [fmap list_fmap concat] in *. cbn [shares_loop].
  assert (share_wire s ++ concat (share_wire <$> l)
    = be_bytes 2 (group s) ++ be_bytes 2 (len (ks_data s)) ++ ks_data s ++ concat (share_wire <$> l)) as E
    by (unfold share_wire at 1, vec16; by rewrite <- !app_assoc).
  pose proof (length_be_bytes 2 (group s)) as Hb. rewrite E in Hf |- *. rewrite !length_app, !length_be_bytes in Hf.
  destruct (be_bytes 2 (group s) ++ _) as [|b0 r0] eqn:E0; [by destruct (be_bytes 2 (group s))|].
  rewrite <- E0, ru16_be by done. cbn [mbind comp_bind]. rewrite ru16_be by (by eapply len_uint).
  cbn [mbind comp_bind]. rewrite rtake_app. cbn [mbind comp_bind]. rewrite IH by lia. by destruct s.
Qed.

Lemma parse_extension_wire o e : ext_ok e -> parse_extension o (ext_type e) (ext_data e) = Val (apply_ext o e).
Proof.
  intros [Hlen He]. assert (forall l : bytes, len (vec16 l) <= u16_max -> len l <= u16_max) as Hin.
  { intros l. unfold vec16. rewrite len_app, len_be_bytes. lia. }
  destruct e as [l|l|l|l|l|t d]; cbn [ext_type ext_data] in *; unfold parse_extension, recover.
  - cbn [Z.eqb EXT_SERVER_NAME]. unfold parse_sni. rewrite <- (app_nil_r (vec16 _)).
    rewrite (read_vec16 _ [] (fun '(l, _) => sni_loop (S (length l)) l)) by auto. by rewrite sni_loop_wire by (done || lia).
  - change (EXT_SUPPORTED_VERSIONS =? EXT_SERVER_NAME) with false. change (EXT_SUPPORTED_VERSIONS =? EXT_SUPPORTED_VERSIONS) with true.
    destruct He as [Hv Hw]. unfold parse_supported_versions, vec8. rewrite ru8_cons. cbn [mbind comp_bind].
    rewrite <- (app_nil_r (words l)) at 2. rewrite rtake_app. cbn [mbind comp_bind].
    by rewrite versions_loop_wire by (done || lia).
  - change (EXT_SIGNATURE_ALGORITHMS =? EXT_SERVER_NAME) with false. change (EXT_SIGNATURE_ALGORITHMS =? EXT_SUPPORTED_VERSIONS) with false.
    change (EXT_SIGNATURE_ALGORITHMS =? EXT_SIGNATURE_ALGORITHMS) with true. unfold parse_signature_schemes, vec16.
    apply Hin in Hlen. rewrite ru16_be by (by eapply len_uint). cbn [mbind comp_bind].
    rewrite len_words, Z.mul_comm, Z_mod_mult. change (fail_if (negb (0 =? 0)) Malformed) with (@Val parse_error unit tt).
    cbn [mbind comp_bind]. rewrite Z.mul_comm, <- len_words. rewrite <- (app_nil_r (words l)) at 2. rewrite rtake_app.
    cbn. by rewrite pairs_words.
  - change (EXT_ALPN =? EXT_SERVER_NAME) with false. change (EXT_ALPN =? EXT_SUPPORTED_VERSIONS) with false.
    change (EXT_ALPN =? EXT_SIGNATURE_ALGORITHMS) with false. change (EXT_ALPN =? EXT_ALPN) with true.
    unfold parse_alpn. rewrite <- (app_nil_r (vec16 _)).
    rewrite (read_vec16 _ [] (fun '(l, _) => alpn_loop (S (length l)) l)) by auto. by rewrite alpn_loop_wire by (done || lia).
  - change (EXT_KEY_SHARE =? EXT_SERVER_NAME) with false. change (EXT_KEY_SHARE =? EXT_SUPPORTED_VERSIONS) with false.
    change (EXT_KEY_SHARE =? EXT_SIGNATURE_ALGORITHMS) with false. change (EXT_KEY_SHARE =? EXT_ALPN) with false.
    change (EXT_KEY_SHARE =? EXT_KEY_SHARE) with true. unfold parse_key_shares. rewrite <- (app_nil_r (vec16 _)).
    rewrite (read_vec16 _ [] (fun '(l, _) => shares_loop (S (length l)) l)) by auto. by rewrite shares_loop_wire by (done || lia).
  - destruct He as [_ He]. cbn [existsb known_exts] in He. split_bool.
    repeat match goal with |- context [?a =? ?b] => rewrite (proj2 (Z.eqb_neq a b)) by done end. done.
Qed.

Lemma ext_type_uint e : ext_ok e -> uint_ok 16 (ext_type e).
Proof. intros [_ He]. destruct e; cbn [ext_type]; try (split; reflexivity || (intros Hx; discriminate Hx)). by destruct He. Qed.

Lemma parse_extensions_wire es o fuel :
  Forall ext_ok es -> (length (concat (ext_wire <$> es)) < fuel)%nat ->
  parse_extensions fuel o (concat (ext_wire <$> es)) = Val (fold_left apply_ext es o).
Proof.
  intros Hes. revert o fuel. induction Hes as [|e es He _ IH]; intros o [|f] Hf; [cbn in Hf; lia|done|lia|].
  cbn [fmap list_fmap concat] in *. cbn [parse_extensions fold_left].
  assert (ext_wire e ++ concat (ext_wire <$> es)
    = be_bytes 2 (ext_type e) ++ be_bytes 2 (len (ext_data e)) ++ ext_data e ++ concat (ext_wire <$> es)) as E
    by (unfold ext_wire at 1, vec16; by rewrite <- !app_assoc).
  pose proof (length_be_bytes 2 (ext_type e)) as Hb. rewrite E in Hf |- *. rewrite !length_app, !length_be_bytes in Hf.
  destruct (be_bytes 2 (ext_type e) ++ _) as [|b0 r0] eqn:E0; [by destruct (be_bytes 2 (ext_type e))|].
  rewrite <- E0, ru16_be by (by apply ext_type_uint). cbn [mbind comp_bind].
  rewrite ru16_be by (eapply len_uint; [apply He|done]). cbn [mbind comp_bind]. rewrite rtake_app. cbn [mbind comp_bind].
  rewrite parse_extension_wire by done. cbn [mbind comp_bind]. apply IH. lia.
Qed.

(** ** Nothing panics, nothing loops *)

Lemma rtake_graceful n l : graceful (rtake n l).
Proof. unfold rtake. by destruct (_ <=? _). Qed.

Lemma rtake_rest n l x r : rtake n l = Val (x, r) -> (length r <= length l)%nat.
Proof. unfold rtake. destruct (_ <=? _); [|done]. intros [= _ <-]. rewrite length_drop. lia. Qed.

Lemma ru8_graceful l : graceful (ru8 l).
Proof. destruct l as [|a l]; [done|]. by rewrite ru8_cons. Qed.

Lemma ru8_rest l n r : ru8 l = Val (n, r) -> (length r < length l)%nat.
Proof. destruct l as [|a l]; [done|]. rewrite ru8_cons. intros [= _ <-]. cbn. lia. Qed.

Lemma ru16_graceful l : graceful (ru16 l).
Proof. destruct l as [|a [|b l]]; [done|done|]. by rewrite ru16_cons. Qed.

Lemma ru16_rest l n r : ru16 l = Val (n, r) -> (length r < length l)%nat.
Proof. destruct l as [|a [|b l]]; [done|done|]. rewrite ru16_cons. intros [= _ <-]. cbn. lia. Qed.

Lemma ru24_graceful l : graceful (ru24 l).
Proof. destruct l as [|a [|b [|c l]]]; [done|done|done|]. by rewrite ru24_cons. Qed.

Lemma recover_graceful {A} (m : comp parse_error A) d : graceful m -> graceful (recover m d).
Proof. by destruct m. Qed.

Lemma fail_if_graceful {E} b (e : E) : graceful (fail_if b e).
Proof. by destruct b. Qed.

#[local] Hint Resolve rtake_graceful ru8_graceful ru16_graceful ru24_graceful recover_graceful fail_if_graceful : comp.

(** One read after the other. *)
Ltac read_on :=
  repeat (apply graceful_bind; [solve [auto with comp]|]; intros [? ?] ?);
  repeat match goal with
         | H : rtake _ _ = Val _ |- _ => apply rtake_rest in H
         | H : ru8 _ = Val _ |- _ => apply ru8_rest in H
         | H : ru16 _ = Val _ |- _ => apply ru16_rest in H
         end.

Lemma sni_loop_graceful fuel l : (length l < fuel)%nat -> graceful (sni_loop fuel l).
Proof.
  revert l. induction fuel as [|f IH]; intros l Hf; [lia|]. cbn [sni_loop]. destruct l; [done|].
  read_on. destruct (_ =? 0); [done|]. apply IH. lia.
Qed.

Lemma versions_loop_graceful fuel l : (length l < fuel)%nat -> graceful (versions_loop fuel l).
Proof.
  revert l. induction fuel as [|f IH]; intros l Hf; [lia|]. cbn [versions_loop]. destruct l; [done|].
  read_on. destruct (_ =? 0x0304); [done|]. apply IH. lia.
Qed.

Lemma alpn_loop_graceful fuel l : (length l < fuel)%nat -> graceful (alpn_loop fuel l).
Proof.
  revert l. induction fuel as [|f IH]; intros l Hf; [lia|]. cbn [alpn_loop]. destruct l as [|a l]; [done|].
  rewrite ru8_cons. cbn [mbind comp_bind]. pose proof (rtake_graceful a l) as Hg.
  destruct (rtake a l) as [[x r]| | |] eqn:E; try done. apply rtake_rest in E. cbn [length] in Hf.
  apply graceful_bind; [apply IH; lia|]. done.
Qed.

Lemma shares_loop_graceful fuel l : (length l < fuel)%nat -> graceful (shares_loop fuel l).
Proof.
  revert l. induction fuel as [|f IH]; intros l Hf; [lia|]. cbn [shares_loop]. destruct l; [done|].
  read_on. apply graceful_bind; [apply IH; lia|]. done.
Qed.

Lemma parse_extension_graceful o t d : graceful (parse_extension o t d).
Proof.
  unfold parse_extension, parse_sni, parse_supported_versions, parse_signature_schemes, parse_alpn, parse_key_shares.
  repeat (match goal with |- graceful (if ?c then _ else _) => destruct c end); try done;
    (apply graceful_bind; [|done]); try apply recover_graceful; read_on;
    try (apply sni_loop_graceful || apply versions_loop_graceful || apply alpn_loop_graceful || apply shares_loop_graceful; lia).
  apply graceful_bind; [auto with comp|]. intros _ _. read_on.
  apply graceful_bind; [auto with comp|done].
Qed.

Lemma parse_extensions_graceful fuel o l : (length l < fuel)%nat -> graceful (parse_extensions fuel o l).
Proof.
  revert o l. induction fuel as [|f IH]; intros o l Hf; [lia|]. cbn [parse_extensions]. destruct l; [done|].
  read_on. apply graceful_bind; [apply parse_extension_graceful|]. intros o' _. apply IH. lia.
Qed.

(** ** Records *)

(** A handshake record with any version bytes, or a ChangeCipherSpec record. *)
Inductive item : Type := Fragment (v0 v1 : Z) (f : bytes) | Ccs.

Definition fragment_wire (v0 v1 : Z) (f : bytes) : bytes := [TLS_RECORD_HANDSHAKE; v0; v1] ++ vec16 f.
Definition item_wire (i : item) : bytes :=
  match i with Fragment v0 v1 f => fragment_wire v0 v1 f | Ccs => CHANGE_CIPHER_SPEC end.
Definition item_data (i : item) : bytes := match i with Fragment _ _ f => f | Ccs => [] end.
Definition item_ok (i : item) : Prop := len (item_data i) <= MAX_TLS_RECORD.

Lemma read_record_wire v0 v1 f r e :
  len f <= MAX_TLS_RECORD -> read_tls_record (mk_source (fragment_wire v0 v1 f ++ r) e) = Val (fragment_wire v0 v1 f, mk_source r e).
Proof.
  intros Hf. unfold MAX_TLS_RECORD in *. unfold read_tls_record, fragment_wire, vec16.
  assert (uint_ok 16 (len f)) as Hu by (pose proof (len_nonneg f); unfold uint_ok; lia).
  pose proof (length_be_bytes 2 (len f)) as Hl. pose proof (be_val_be_bytes 2 (len f) Hu) as Hv.
  destruct (be_bytes 2 (len f)) as [|a [|b [|? ?]]]; try done.
  change ((([TLS_RECORD_HANDSHAKE; v0; v1] ++ [a; b] ++ f) ++ r)) with ([TLS_RECORD_HANDSHAKE; v0; v1; a; b] ++ f ++ r).
  rewrite read_exact_app by done. cbn [lift mbind comp_bind].
  change (index [TLS_RECORD_HANDSHAKE; v0; v1; a; b] 3) with (@Val tls_error Z a). cbn [mbind comp_bind].
  change (index [TLS_RECORD_HANDSHAKE; v0; v1; a; b] 4) with (@Val tls_error Z b). cbn [mbind comp_bind].
  rewrite Hv. unfold MAX_TLS_RECORD. rewrite fail_if_pass by (apply Z.ltb_ge; lia).
  rewrite read_exact_app by (unfold len; lia). done.
Qed.

Lemma append_fragment b v0 v1 f :
  len f <= MAX_TLS_RECORD -> len (payload b) + len f <= max_payload b ->
  append_record b (fragment_wire v0 v1 f)
  = (mk_record_buffer (payload b ++ f) (max_payload b), try_message (mk_record_buffer (payload b ++ f) (max_payload b))).
Proof.
  intros Hf Hm. unfold MAX_TLS_RECORD, append_record, fragment_wire, vec16 in *. pose proof (len_nonneg f).
  assert (uint_ok 16 (len f)) as Hu by (unfold uint_ok; lia).
  pose proof (length_be_bytes 2 (len f)) as Hl. pose proof (be_val_be_bytes 2 (len f) Hu) as Hv.
  destruct (be_bytes 2 (len f)) as [|a [|c [|? ?]]]; try done.
  change ([TLS_RECORD_HANDSHAKE; v0; v1] ++ [a; c] ++ f) with ([TLS_RECORD_HANDSHAKE; v0; v1; a; c] ++ f).
  assert (len ([TLS_RECORD_HANDSHAKE; v0; v1; a; c] ++ f) = 5 + len f) as Hlen by (by rewrite len_app).
  rewrite Hlen, (proj2 (Z.ltb_ge _ 5)) by lia.
  change (get_at ([TLS_RECORD_HANDSHAKE; v0; v1; a; c] ++ f) 0) with (Some TLS_RECORD_HANDSHAKE).
  change (get_at ([TLS_RECORD_HANDSHAKE; v0; v1; a; c] ++ f) 3) with (Some a).
  change (get_at ([TLS_RECORD_HANDSHAKE; v0; v1; a; c] ++ f) 4) with (Some c).
  cbv iota beta. rewrite Z.eqb_refl. cbn [negb]. cbv zeta. rewrite Hv.
  pose proof (get_range_app [TLS_RECORD_HANDSHAKE; v0; v1; a; c] f []) as Hg. rewrite app_nil_r in Hg.
  change (len [TLS_RECORD_HANDSHAKE; v0; v1; a; c]) with 5 in Hg. rewrite Hg, Z.eqb_refl. cbn [negb].
  by rewrite (proj2 (Z.ltb_ge (max_payload b) _)) by lia.
Qed.

(** A message: type, length and body. *)
Definition framed (body : bytes) : bytes := HANDSHAKE_TYPE_CLIENT_HELLO :: be_bytes 3 (len body) ++ body.

Lemma framed_length body : len (framed body) = 4 + len body.
Proof. unfold framed. rewrite len_cons, len_app, len_be_bytes. lia. Qed.

(** [try_message] on a part of a message that fits. *)
Lemma try_message_prefix p rest body m :
  p ++ rest = framed body -> len body < 2 ^ 24 -> 4 + len body <= m ->
  try_message (mk_record_buffer p m) = Val (match rest with [] => Some (framed body) | _ => None end).
Proof.
  intros Hp Hb Hm. pose proof (len_nonneg body). pose proof (len_nonneg rest).
  assert (len p + len rest = 4 + len body) as Hl by (rewrite <- len_app, Hp; apply framed_length).
  unfold try_message. cbn [payload max_payload]. destruct (len p <? 4) eqn:E4; split_bool.
  - destruct rest; [rewrite len_nil in Hl; lia|done].
  - pose proof (length_be_bytes 3 (len body)) as Hl3. pose proof (be_val_be_bytes 3 (len body) ltac:(cbn; lia)) as Hv.
    unfold framed in Hp. destruct (be_bytes 3 (len body)) as [|x [|y [|z [|? ?]]]] eqn:E3; try done.
    destruct p as [|p0 [|p1 [|p2 [|p3 p]]]]; try (rewrite ?len_cons, len_nil in E4; lia). cbn [app] in Hp. injection Hp as -> -> -> -> Hp.
    change (index (HANDSHAKE_TYPE_CLIENT_HELLO :: x :: y :: z :: p) 0) with (@Val buffer_error Z HANDSHAKE_TYPE_CLIENT_HELLO).
    change (index (HANDSHAKE_TYPE_CLIENT_HELLO :: x :: y :: z :: p) 1) with (@Val buffer_error Z x).
    change (index (HANDSHAKE_TYPE_CLIENT_HELLO :: x :: y :: z :: p) 2) with (@Val buffer_error Z y).
    change (index (HANDSHAKE_TYPE_CLIENT_HELLO :: x :: y :: z :: p) 3) with (@Val buffer_error Z z).
    cbn [mbind comp_bind]. change (be_val [0; x; y; z]) with (be_val [x; y; z]). rewrite Hv.
    change (fail_if (negb (HANDSHAKE_TYPE_CLIENT_HELLO =? HANDSHAKE_TYPE_CLIENT_HELLO)) BNotClientHello) with (@Val buffer_error unit tt).
    cbn [mbind comp_bind]. rewrite fail_if_pass by (apply Z.ltb_ge; lia). destruct rest as [|r0 rest].
    + rewrite app_nil_r in Hp. subst p. rewrite len_nil, Z.add_0_r in Hl. rewrite Hl, Z.ltb_irrefl, Z.eqb_refl. cbn.
      unfold framed. by rewrite E3.
    + assert (0 < len (r0 :: rest)) by (rewrite len_cons; pose proof (len_nonneg rest); lia).
      by rewrite (proj2 (Z.ltb_lt _ _)) by lia.
Qed.

Lemma client_hello_loop_wire items v0 v1 f p body r e fuel :
  Forall item_ok items -> len f <= MAX_TLS_RECORD -> f <> [] ->
  p ++ concat (item_data <$> items) ++ f = framed body -> len body < 2 ^ 24 -> 4 + len body <= 2 ^ 16 ->
  (length items < fuel)%nat ->
  client_hello_loop fuel (mk_record_buffer p (2 ^ 16)) (mk_source (concat (item_wire <$> items) ++ fragment_wire v0 v1 f ++ r) e)
  = Val (framed body, mk_source r e).
Proof.
  intros Hok Hf Hne. revert p fuel. induction Hok as [|i items Hi _ IH]; intros p [|fu] Hp Hb Hm Hfu; cbn in Hfu; try lia.
  - cbn [fmap list_fmap concat app] in Hp |- *. cbn [client_hello_loop]. rewrite read_record_wire by done. cbn [mbind comp_bind].
    assert (len (p ++ f) = 4 + len body) as Hl by (rewrite Hp; apply framed_length). rewrite len_app in Hl.
    change (is_change_cipher_spec (fragment_wire v0 v1 f)) with false. cbv iota.
    rewrite append_fragment by (cbn [payload max_payload]; lia). cbn [payload max_payload].
    rewrite (try_message_prefix _ [] body) by (by rewrite ?app_nil_r). done.
  - cbn [fmap list_fmap concat] in Hp |- *. rewrite <- app_assoc. destruct i as [w0 w1 g|]; cbn [client_hello_loop item_wire item_data] in *.
    + rewrite read_record_wire by exact Hi. cbn [mbind comp_bind].
      change (is_change_cipher_spec (fragment_wire w0 w1 g)) with false. cbv iota.
      assert (len ((p ++ g) ++ concat (item_data <$> items) ++ f) = 4 + len body) as Hl
        by (rewrite <- app_assoc, <- framed_length, <- Hp, <- !app_assoc; done).
      rewrite !len_app in Hl. pose proof (len_nonneg (concat (item_data <$> items))). pose proof (len_nonneg f).
      rewrite append_fragment by (cbn [payload max_payload]; exact Hi || lia). cbn [payload max_payload].
      rewrite (try_message_prefix (p ++ g) (concat (item_data <$> items) ++ f) body) by (done || by rewrite <- Hp, <- !app_assoc).
      destruct (concat (item_data <$> items) ++ f) as [|b0 l0] eqn:E; [by apply app_nil in E as [_ ->]|].
      apply IH; [|done|done|lia]. by rewrite <- E, <- Hp, <- !app_assoc.
    + unfold read_tls_record. change (CHANGE_CIPHER_SPEC ++ ?x) with ([0x14; 3; 3; 0; 1] ++ [1] ++ x).
      rewrite read_exact_app by done. cbn [lift mbind comp_bind]. apply IH; [done|done|done|lia].
Qed.

(** * Theorems *)

(** C32: a ClientHello is read back.  Every hello in the wire format of TLS, with any
    session id, cipher suites and compression methods, with or without extensions,
    in any order and with unknown ones among them, is parsed into exactly its
    fields: the first host name, the offered groups, schemes and protocols, and
    whether TLS 1.3 is among the versions. *)
Theorem client_hello_roundtrip version rnd sid cs compression es :
  uint_ok 16 version -> length rnd = 32%nat -> len sid <= u8_max -> Forall (uint_ok 16) cs -> len (words cs) <= u16_max ->
  len compression <= u8_max ->
  match es with None => True | Some es => Forall ext_ok es /\ len (concat (ext_wire <$> es)) <= u16_max end ->
  parse_message (hello_wire version rnd sid cs compression es)
  = Val (mk_client_hello rnd sid cs (fold_left apply_ext (default [] es) no_offers)
      (hello_wire version rnd sid cs compression es)).
Proof.
  intros Hv Hr Hs Hc Hcl Hm He. unfold parse_message. remember (hello_wire version rnd sid cs compression es) as wire eqn:Ew.
  assert (saturating_sub (len wire) 4 = len (hello_body version rnd sid cs compression es)) as Hlen.
  { rewrite Ew. unfold hello_wire. cbv zeta. rewrite len_cons, len_app, len_be_bytes. unfold saturating_sub.
    pose proof (len_nonneg (hello_body version rnd sid cs compression es)). lia. }
  assert (uint_ok 24 (len (hello_body version rnd sid cs compression es))) as Hu.
  { split; [apply len_nonneg|]. unfold hello_body, vec8, vec16, u8_max, u16_max in *.
    rewrite ?len_app, ?len_cons, ?len_app, ?len_be_bytes. unfold len at 1. rewrite Hr.
    destruct es as [es|]; [destruct He as [_ He]; rewrite len_app, len_be_bytes|rewrite len_nil]; lia. }
  rewrite Ew at 1. unfold hello_wire. cbv zeta. rewrite ru8_cons. cbn [mbind comp_bind].
  rewrite fail_if_pass by done. rewrite ru24_be by done. cbn [mbind comp_bind].
  rewrite Hlen, fail_if_pass by (by rewrite Z.eqb_refl). unfold hello_body, vec8. rewrite ru16_be by done. cbn [mbind comp_bind].
  replace 32 with (len rnd) by (unfold len; lia). rewrite rtake_app. cbn [mbind comp_bind app]. rewrite ru8_cons. cbn [mbind comp_bind].
  rewrite rtake_app. cbn [mbind comp_bind]. unfold vec16 at 1. rewrite <- app_assoc, ru16_be by (by eapply len_uint).
  cbn [mbind comp_bind]. rewrite fail_if_pass by (by rewrite len_words, Z.mul_comm, Z_mod_mult).
  rewrite rtake_app. cbn [mbind comp_bind app]. rewrite ru8_cons. cbn [mbind comp_bind]. rewrite rtake_app. cbn [mbind comp_bind].
  rewrite pairs_words by done. destruct es as [es|]; [|done]. destruct He as [He Hel]. unfold vec16.
  pose proof (length_be_bytes 2 (len (concat (ext_wire <$> es)))) as Hb.
  destruct (be_bytes 2 _ ++ concat (ext_wire <$> es)) as [|b0 r0] eqn:E0; [by destruct (be_bytes 2 _)|].
  rewrite <- E0, ru16_be by (by eapply len_uint). cbn [mbind comp_bind].
  rewrite <- (app_nil_r (concat _)) at 2. rewrite rtake_app. cbn [mbind comp_bind].
  by rewrite parse_extensions_wire by (done || lia).
Qed.

(** The parser is total.  On every byte string, and on every record, the parser
    returns a hello or an error: no index is out of bounds and every loop ends. *)
Theorem client_hello_parser_total l : graceful (parse_message l) /\ graceful (parse_record l).
Proof.
  assert (forall m, graceful (parse_message m)) as Hm.
  { intros m. unfold parse_message.
    repeat first [ apply graceful_bind; [solve [auto with comp]|]; intros [? ?] ?
                 | apply graceful_bind; [apply fail_if_graceful|]; intros _ _ ].
    apply graceful_bind.
    - case_match; [done|]. apply graceful_bind; [auto with comp|]. intros [en r] _.
      apply graceful_bind; [auto with comp|]. intros [e r'] _.
      apply graceful_bind; [apply parse_extensions_graceful; lia|done].
    - intros [o r] _. apply graceful_bind; [apply fail_if_graceful|done]. }
  split; [apply Hm|]. unfold parse_record. destruct (len l <? 5) eqn:E; [done|]. split_bool.
  destruct (index_in (E := parse_error) l 0) as (r0 & -> & _); [lia|].
  destruct (index_in (E := parse_error) l 3) as (r3 & -> & _); [lia|].
  destruct (index_in (E := parse_error) l 4) as (r4 & -> & _); [lia|]. cbn [mbind comp_bind].
  apply graceful_bind; [apply fail_if_graceful|]. intros _ _. apply graceful_bind; [by destruct (get_range _ _ _)|].
  intros b _. apply Hm.
Qed.

(** A fragmented hello is reassembled.  However a ClientHello of at most 64 KiB
    is cut into handshake records, with ChangeCipherSpec records and empty
    fragments in between, [read_client_hello] returns exactly the message and
    leaves the connection after the last record. *)
Theorem client_hello_reassembled items v0 v1 f body r e :
  Forall item_ok items -> len f <= MAX_TLS_RECORD -> f <> [] ->
  concat (item_data <$> items) ++ f = framed body -> 4 + len body <= 2 ^ 16 ->
  read_client_hello (mk_source (concat (item_wire <$> items) ++ fragment_wire v0 v1 f ++ r) e)
  = Val (framed body, mk_source r e).
Proof.
  intros Hok Hf Hne Hp Hm. apply (client_hello_loop_wire items v0 v1 f []); [done|done|done|done|lia|done|].
  cbn [content]. rewrite !length_app. clear. induction items as [|i items IH]; cbn [length fmap list_fmap concat]; [lia|].
  rewrite length_app. assert (0 < length (item_wire i))%nat by (destruct i; cbn; lia). lia.
Qed.

(** * Witnesses *)

Definition toy_exts : list ext :=
  [EOther 0x2a2a [9]; ESni [(1, [200]); (0, bytes_of_string "example.org")]; EVersions [0x0303; 0x0304];
   ESchemes [0x0804]; EAlpn [bytes_of_string "h2"; [255]]; EShares [mk_key_share 0x001d [1; 2; 3]; mk_key_share 0x11ec []]].

Lemma client_hello_roundtrip_witness :
  parse_message (hello_wire 0x0303 (replicate 32 7) [1; 2] [0x1301; 0x1303] [0] (Some toy_exts))
  = Val (mk_client_hello (replicate 32 7) [1; 2] [0x1301; 0x1303]
      (mk_offers (Some (bytes_of_string "example.org")) [mk_key_share 0x001d [1; 2; 3]; mk_key_share 0x11ec []] [0x0804]
         true [bytes_of_string "h2"])
      (hello_wire 0x0303 (replicate 32 7) [1; 2] [0x1301; 0x1303] [0] (Some toy_exts))).
Proof.
  assert (forall n, (0 <=? n) && (n <? 65536) = true -> uint_ok 16 n) as Hu16 by (intros n Hn; split_bool; done).
  apply client_hello_roundtrip; [by apply Hu16|reflexivity|by apply Z.leb_le| |by apply Z.leb_le|by apply Z.leb_le|].
  - repeat (apply Forall_cons_2 || apply Forall_nil_2); by apply Hu16.
  - split; [|apply Z.leb_le; reflexivity].
    repeat (apply Forall_cons_2 || apply Forall_nil_2); (split; [apply Z.leb_le; reflexivity|]); cbn [fst snd group ks_data];
      repeat first [ apply Forall_nil_2 | apply Forall_cons_2 | apply Hu16; reflexivity | apply Z.leb_le; reflexivity
                   | by unfold byte_ok | reflexivity | split ].
Defined.

Lemma client_hello_reassembled_witness :
  read_client_hello (mk_source (concat (item_wire <$> [Fragment 3 1 [1; 0]; Ccs; Fragment 3 1 []]) ++ fragment_wire 3 3 [0; 2; 8; 9] ++ [77]) AtEof)
  = Val (framed [8; 9], mk_source [77] AtEof).
Proof.
  apply client_hello_reassembled; [|by apply Z.leb_le|done|reflexivity|by apply Z.leb_le].
  repeat (apply Forall_cons_2 || apply Forall_nil_2); by apply Z.leb_le.
Defined.
