(* ===== verification/TlsRecord.v ===== *)
(** [src/tls/tls13/mod.rs] and [src/tls/tls13/record.rs]: the cipher suites and the
    AEAD record layer of TLS 1.3.

    The detached in-place ciphers are third-party code: [TlsAead] has their two
    functions and [TlsAeadLaws] what the record layer relies on. *)

From S2P Require Import Prelude.

(** * Cipher suites *)

Inductive HashAlg : Type := Sha256 | Sha384.
Inductive CipherSuite : Type := Aes128GcmSha256 | Aes256GcmSha384 | ChaCha20Poly1305Sha256.

#[global] Instance HashAlg_eq_dec : EqDecision HashAlg.
Proof. solve_decision. Defined.
#[global] Instance CipherSuite_eq_dec : EqDecision CipherSuite.
Proof. solve_decision. Defined.

Definition from_u16 (id : Z) : option CipherSuite :=
  if id =? 0x1301 then Some Aes128GcmSha256
  else if id =? 0x1302 then Some Aes256GcmSha384
  else if id =? 0x1303 then Some ChaCha20Poly1305Sha256
  else None.

Definition to_u16 (s : CipherSuite) : Z :=
  match s with Aes128GcmSha256 => 0x1301 | Aes256GcmSha384 => 0x1302 | ChaCha20Poly1305Sha256 => 0x1303 end.

Definition suite_hash (s : CipherSuite) : HashAlg :=
  match s with Aes256GcmSha384 => Sha384 | Aes128GcmSha256 | ChaCha20Poly1305Sha256 => Sha256 end.

Definition key_len (s : CipherSuite) : Z :=
  match s with Aes128GcmSha256 => 16 | Aes256GcmSha384 | ChaCha20Poly1305Sha256 => 32 end.

Lemma from_to_u16 s : from_u16 (to_u16 s) = Some s.
Proof. by destruct s. Qed.

(** * The interface of the ciphers *)

Definition RECORD_HANDSHAKE : Z := 22.
Definition RECORD_APPLICATION_DATA : Z := 23.
Definition RECORD_ALERT : Z := 21.
Definition RECORD_CHANGE_CIPHER_SPEC : Z := 20.
Definition OUTER_TYPE : Z := 0x17.
Definition OUTER_VERSION : bytes := [0x03; 0x03].
Definition TAG_LEN : Z := 16.

(** [encrypt_in_place_detached] gives the encrypted body and the tag,
    [decrypt_in_place_detached] the decrypted body. *)
Class TlsAead := {
  encrypt_detached : CipherSuite -> bytes -> bytes -> bytes -> bytes -> option (bytes * bytes);
  decrypt_detached : CipherSuite -> bytes -> bytes -> bytes -> bytes -> bytes -> option bytes }.

(** The documented behaviour of the three ciphers: encryption keeps the length and
    adds a 16-byte tag, it succeeds on every body the record layer can hold,
    decryption inverts it and accepts nothing else. *)
Class TlsAeadLaws `{TlsAead} := {
  encrypt_shape : forall s k n aad p c t, encrypt_detached s k n aad p = Some (c, t) -> len c = len p /\ len t = TAG_LEN;
  encrypt_total : forall s k n aad p, len p <= 2 ^ 36 - 32 -> is_Some (encrypt_detached s k n aad p);
  decrypt_encrypt : forall s k n aad p c t, encrypt_detached s k n aad p = Some (c, t) -> decrypt_detached s k n aad c t = Some p;
  encrypt_decrypt : forall s k n aad p c t, decrypt_detached s k n aad c t = Some p -> encrypt_detached s k n aad p = Some (c, t) }.

(** * Record keys *)

(** A [RecordAead] is its suite and its key. *)
Record RecordKeys := mk_RecordKeys { rk_suite : CipherSuite; rk_key : bytes; rk_iv : bytes; rk_seq : Z }.

(** [RecordKeys::new] panics on a key of the wrong length. *)
Definition RecordKeys_new {E} (s : CipherSuite) (k iv : bytes) : comp E RecordKeys :=
  if len k =? key_len s then Val (mk_RecordKeys s k iv 0) else Crash.

(** [nonce[4 + i] ^= seq[i]] for the eight bytes of the counter. *)
Definition record_nonce (r : RecordKeys) : bytes :=
  take 4 (rk_iv r) ++ zip_with Z.lxor (drop 4 (rk_iv r)) (be_bytes 8 (rk_seq r)).

Definition next_seq (r : RecordKeys) : RecordKeys :=
  mk_RecordKeys (rk_suite r) (rk_key r) (rk_iv r) (wrap 64 (rk_seq r + 1)).

(** [Vec::resize(n, 0)]. *)
Definition resize (n : nat) (l : bytes) : bytes := take n l ++ replicate (n - length l) 0.

Section record.
Context `{TlsAead}.

(** [encrypt_in_place] of the buffer from [body_offset] on, with the tag added. *)
Definition encrypt_in_place {E} (r : RecordKeys) (nonce aad buffer : bytes) (body_offset : nat) : comp E bytes :=
  match encrypt_detached (rk_suite r) (rk_key r) nonce aad (drop body_offset buffer) with
  | Some (c, t) => Val (take body_offset buffer ++ c ++ t)
  | None => Crash
  end.

Definition record_header (ct_len : Z) : bytes :=
  [OUTER_TYPE] ++ OUTER_VERSION ++ [as_u8 (Z.shiftr ct_len 8); as_u8 ct_len].

(** [seal_into]: [out] is cleared first. *)
Definition seal_into {E} (r : RecordKeys) (content_type : Z) (plaintext : bytes) (pad_len : Z) :
    comp E (RecordKeys * bytes) :=
  let inner_len := wrap 64 (len plaintext + 1 + pad_len) in
  let ct_len := wrap 64 (inner_len + TAG_LEN) in
  let header := record_header ct_len in
  let out := resize (Z.to_nat (wrap 64 (5 + inner_len))) (header ++ plaintext ++ [content_type]) in
  out ← encrypt_in_place r (record_nonce r) header out 5;
  Val (next_seq r, out).

Definition seal_with_padding {E} (r : RecordKeys) (content_type : Z) (plaintext : bytes) (pad_len : Z) :
    comp E (RecordKeys * bytes) := seal_into r content_type plaintext pad_len.

Definition seal {E} (r : RecordKeys) (content_type : Z) (plaintext : bytes) : comp E (RecordKeys * bytes) :=
  seal_with_padding r content_type plaintext 0.

(** [while end > 5 && buf[end - 1] == 0]; [k] is [end - 5]. *)
Fixpoint strip_padding {E} (buf : bytes) (k : nat) : comp E nat :=
  match k with
  | O => Val O
  | S k' => b ← index buf (5 + Z.of_nat k'); if b =? 0 then strip_padding buf k' else Val k
  end.

(** [open_in_place] gives the buffer with its body decrypted, the content type and
    the end of the plaintext; nothing changes when the record is refused before
    the counter moves. *)
Definition open_in_place {E} (r : RecordKeys) (buf : bytes) : comp E (RecordKeys * option (bytes * Z * Z)) :=
  if len buf <? 5 then Val (r, None)
  else
    b3 ← index buf 3; b4 ← index buf 4;
    let n := be_val [b3; b4] in
    if (len buf <? 5 + n) || (n <? TAG_LEN) then Val (r, None)
    else
      let header := take 5 buf in
      let split := n - TAG_LEN in
      body_tag ← slice buf 5 (5 + n);
      let body := take (Z.to_nat split) body_tag in
      let tag := drop (Z.to_nat split) body_tag in
      match decrypt_detached (rk_suite r) (rk_key r) (record_nonce r) header body tag with
      | None => Val (r, None)
      | Some p =>
          let r := next_seq r in
          let buf := header ++ p ++ drop (5 + length p) buf in
          k ← strip_padding buf (Z.to_nat split);
          match k with
          | O => Val (r, None)
          | S k' => t ← index buf (5 + Z.of_nat k'); Val (r, Some (buf, t, 5 + Z.of_nat k'))
          end
      end.

Definition open {E} (r : RecordKeys) (record : bytes) : comp E (RecordKeys * option (Z * bytes)) :=
  '(r, o) ← open_in_place r record;
  match o with
  | None => Val (r, None)
  | Some (buf, t, e) => p ← slice buf 5 e; Val (r, Some (t, p))
  end.
End record.

Definition change_cipher_spec_record : bytes := [0x14; 0x03; 0x03; 0x00; 0x01; 0x01].

(** * Nonces *)

Lemma zip_lxor_inj (a b c : bytes) :
  length b = length a -> length c = length a -> zip_with Z.lxor a b = zip_with Z.lxor a c -> b = c.
Proof.
  revert b c. induction a as [|x a IH]; intros [|y b] [|z c] Hb Hc; cbn in *; try done.
  intros [= Hx Ht]. f_equal; [|apply IH; [lia|lia|done]].
  rewrite <- (Z.lxor_0_l y), <- (Z.lxor_0_l z), <- (Z.lxor_nilpotent x), !Z.lxor_assoc. by f_equal.
Qed.

Lemma record_nonce_inj s k iv i j :
  length iv = 12%nat -> uint_ok 64 i -> uint_ok 64 j ->
  record_nonce (mk_RecordKeys s k iv i) = record_nonce (mk_RecordKeys s k iv j) -> i = j.
Proof.
  intros Hl Hi Hj Hn. unfold record_nonce in Hn. cbn [rk_iv rk_seq] in Hn.
  apply app_inv_head, zip_lxor_inj, (f_equal be_val) in Hn; [|rewrite length_drop, length_be_bytes; lia..].
  unfold uint_ok in *. by rewrite !be_val_be_bytes in Hn by (change (256 ^ Z.of_nat 8) with (2 ^ 64); lia).
Qed.

(** * Sealing and opening *)

(** The plaintexts a record can carry: the length field has 16 bits. *)
Definition fits (plaintext : bytes) (pad_len : Z) : Prop :=
  0 <= pad_len /\ len plaintext + 1 + pad_len + TAG_LEN < 2 ^ 16.

Definition inner_text (content_type : Z) (plaintext : bytes) (pad_len : Z) : bytes :=
  plaintext ++ content_type :: replicate (Z.to_nat pad_len) 0.

Lemma len_inner_text t p n : 0 <= n -> len (inner_text t p n) = len p + 1 + n.
Proof. intros Hn. unfold inner_text. rewrite len_app, len_cons. unfold len at 2. rewrite length_replicate. lia. Qed.

Lemma record_header_len n : length (record_header n) = 5%nat.
Proof. done. Qed.

Lemma record_header_val n : uint_ok 16 n ->
  be_val [as_u8 (Z.shiftr n 8); as_u8 n] = n.
Proof.
  intros Hn. unfold as_u8. cbn [be_val length]. rewrite Z.shiftr_div_pow2 by lia.
  change (256 ^ Z.of_nat 1) with 256. change (256 ^ Z.of_nat 0) with 1. change (2 ^ 8) with 256.
  unfold uint_ok in Hn. rewrite (Z.mod_small (n / 256)) by (split; [apply Z.div_pos; lia|apply Z.div_lt_upper_bound; lia]). pose proof (Z.div_mod n 256). lia.
Qed.

Lemma resize_pad n h p t pad :
  n = (length h + length p + 1 + pad)%nat ->
  resize n (h ++ p ++ [t]) = h ++ p ++ t :: replicate pad 0.
Proof.
  intros ->. unfold resize. rewrite take_ge by (rewrite !length_app; cbn [length]; lia).
  rewrite !length_app. cbn [length].
  replace (_ - _)%nat with pad by lia. by rewrite <- !app_assoc.
Qed.

Section proofs.
Context `{TlsAeadLaws} {E : Type}.

(** What a sealed record is. *)
Lemma seal_into_shape r t p pad :
  fits p pad ->
  exists c tag, encrypt_detached (rk_suite r) (rk_key r) (record_nonce r)
      (record_header (len p + 1 + pad + TAG_LEN)) (inner_text t p pad) = Some (c, tag) /\
    @seal_into _ E r t p pad = Val (next_seq r, record_header (len p + 1 + pad + TAG_LEN) ++ c ++ tag).
Proof.
  intros [Hpad Hfit]. pose proof (len_nonneg p). unfold TAG_LEN in *.
  destruct (encrypt_total (rk_suite r) (rk_key r) (record_nonce r) (record_header (len p + 1 + pad + 16)) (inner_text t p pad))
    as [[c tag] He]; [rewrite len_inner_text by lia; lia|].
  exists c, tag. split; [done|]. unfold seal_into, wrap.
  rewrite (Z.mod_small (len p + 1 + pad)), (Z.mod_small (_ + TAG_LEN)), (Z.mod_small (5 + _)) by (unfold TAG_LEN; lia).
  rewrite (resize_pad _ _ _ _ (Z.to_nat pad)) by (rewrite record_header_len; unfold len; lia).
  unfold encrypt_in_place. fold (inner_text t p pad). change TAG_LEN with 16.
  rewrite drop_app_len, take_app_len by (by rewrite record_header_len). by rewrite He.
Qed.

(** The padding is skipped down to the last byte that is not zero. *)
Lemma strip_padding_spec buf m n t :
  buf !! (5 + m)%nat = Some t -> t <> 0 -> (forall i, (m < i <= m + n)%nat -> buf !! (5 + i)%nat = Some 0) ->
  @strip_padding E buf (S (m + n)) = Val (S m).
Proof.
  intros Ht Ht0. induction n as [|n IH]; intros Hz; cbn [strip_padding].
  - rewrite Nat.add_0_r. rewrite (index_lookup _ _ t) by (lia || rewrite <- Ht; f_equal; lia).
    cbn [mbind comp_bind]. by rewrite (proj2 (Z.eqb_neq _ _)).
  - rewrite (index_lookup _ _ 0) by (lia || rewrite <- (Hz (m + S n)%nat) by lia; f_equal; lia).
    cbn [mbind comp_bind Z.eqb]. rewrite Nat.add_succ_r. apply IH. intros i Hi. apply Hz. lia.
Qed.

Lemma strip_padding_zeros buf n :
  (forall i, (i < n)%nat -> buf !! (5 + i)%nat = Some 0) -> @strip_padding E buf n = Val O.
Proof.
  induction n as [|n IH]; intros Hz; [done|]. cbn [strip_padding].
  rewrite (index_lookup _ _ 0) by (lia || rewrite <- (Hz n) by lia; f_equal; lia). cbn [mbind comp_bind Z.eqb].
  apply IH. auto with lia.
Qed.

(** The record as its header, body, tag and what follows it in the buffer. *)
Lemma open_in_place_eq r h body tag rest :
  length h = 5%nat -> be_val (drop 3 h) = len body + TAG_LEN -> len tag = TAG_LEN ->
  @open_in_place _ E r (h ++ body ++ tag ++ rest) =
    match decrypt_detached (rk_suite r) (rk_key r) (record_nonce r) h body tag with
    | None => Val (r, None)
    | Some p =>
        let buf := h ++ p ++ drop (5 + length p) (h ++ body ++ tag ++ rest) in
        k ← strip_padding buf (length body);
        match k with
        | O => Val (next_seq r, None)
        | S k' => t ← index buf (5 + Z.of_nat k'); Val (next_seq r, Some (buf, t, 5 + Z.of_nat k'))
        end
    end.
Proof.
  intros Hh Hn Ht. destruct h as [|h0 [|h1 [|h2 [|h3 [|h4 [|]]]]]]; try done. change (drop 3 _) with [h3; h4] in Hn.
  pose proof (len_nonneg body). pose proof (len_nonneg rest). unfold open_in_place.
  set (h := [h0; h1; h2; h3; h4]). set (buf := h ++ body ++ tag ++ rest).
  assert (len buf = 5 + len body + 16 + len rest) as Hl by (unfold buf; rewrite !len_app, Ht; unfold len at 1; cbn; unfold TAG_LEN; lia).
  rewrite (proj2 (Z.ltb_ge _ _)) by lia.
  rewrite (index_lookup buf 3 h3), (index_lookup buf 4 h4) by (lia || reflexivity). cbn [mbind comp_bind].
  rewrite Hn. rewrite (proj2 (Z.ltb_ge _ _)) by (unfold TAG_LEN; lia). rewrite (proj2 (Z.ltb_ge _ TAG_LEN)) by lia. cbn [orb].
  replace (len body + TAG_LEN - TAG_LEN) with (len body) by lia.
  change (take 5 buf) with h.
  assert (@slice E Z buf 5 (5 + (len body + TAG_LEN)) = Val (body ++ tag)) as ->.
  { unfold buf. rewrite (app_assoc body). apply slice_app; [done|]. rewrite len_app, Ht. change (len h) with 5. lia. }
  cbn [mbind comp_bind]. unfold len at 1 2. rewrite Nat2Z.id.
  rewrite take_app_len, drop_app_len by done.
  destruct (decrypt_detached _ _ _ _ _ _); [|done]. unfold len. by rewrite Nat2Z.id.
Qed.

Lemma tls_open_seal r t p pad r' record rest :
  fits p pad -> t <> 0 -> @seal_into _ E r t p pad = Val (r', record) ->
  exists tail, @open_in_place _ E r (record ++ rest) = Val (r', Some (take 5 record ++ p ++ tail, t, 5 + len p)) /\
    @open _ E r (record ++ rest) = Val (r', Some (t, p)).
Proof.
  intros Hfit Ht0 Hs. destruct (seal_into_shape r t p pad Hfit) as (c & tag & He & Hs'). rewrite Hs' in Hs.
  destruct Hfit as [Hpad Hfit]. pose proof (len_nonneg p).
  apply Val_pair_inj in Hs as [<- <-]. destruct (encrypt_shape _ _ _ _ _ _ _ He) as [Hc Htag].
  rewrite len_inner_text in Hc by lia. set (h := record_header _) in *. assert (length h = 5%nat) as Hh by done.
  assert (be_val (drop 3 h) = len c + TAG_LEN) as Hn.
  { unfold h. rewrite Hc. apply record_header_val. unfold uint_ok, TAG_LEN in *. lia. }
  rewrite <- !app_assoc. unfold open.
  rewrite (open_in_place_eq r h c tag rest), (decrypt_encrypt _ _ _ _ _ _ _ He) by done. cbv zeta.
  set (tl := drop _ (h ++ _)).
  rewrite take_app_len by done. change (inner_text t p pad) with (p ++ t :: replicate (Z.to_nat pad) 0).
  set (buf := h ++ (p ++ t :: replicate (Z.to_nat pad) 0) ++ tl).
  assert (buf !! (5 + length p)%nat = Some t) as Hbt.
  { unfold buf. rewrite lookup_app_r by (rewrite Hh; lia). rewrite Hh.
    replace (5 + length p - 5)%nat with (length p) by lia. rewrite lookup_app_l by (rewrite length_app; cbn [length]; lia).
    by rewrite lookup_app_r, Nat.sub_diag by lia. }
  assert (length c = S (length p + Z.to_nat pad)) as -> by (unfold len in *; lia).
  rewrite (strip_padding_spec buf (length p) (Z.to_nat pad) t); [|done|done|].
  2:{ intros i Hi. unfold buf. rewrite lookup_app_r by (rewrite Hh; lia). rewrite Hh.
      replace (5 + i - 5)%nat with (S (length p + (i - length p - 1)))%nat by lia.
      rewrite lookup_app_l by (rewrite length_app; cbn [length]; rewrite length_replicate; lia).
      rewrite lookup_app_r by lia.
      replace (S (length p + (i - length p - 1)) - length p)%nat with (S (i - length p - 1))%nat by lia. cbn.
      apply lookup_replicate_2. lia. }
  cbn [mbind comp_bind]. rewrite (index_lookup buf _ t) by (lia || rewrite <- Hbt; f_equal; lia). cbn [mbind comp_bind].
  exists (t :: replicate (Z.to_nat pad) 0 ++ tl). split; [unfold buf; by rewrite <- !app_assoc|].
  assert (@slice E Z buf 5 (5 + Z.of_nat (length p)) = Val p) as ->; [|done].
  unfold buf. rewrite <- app_assoc. apply slice_app; [done|]. by change (len h) with 5.
Qed.

Lemma seal_into_succeeds r t p pad : fits p pad -> exists record, @seal_into _ E r t p pad = Val (next_seq r, record).
Proof. intros Hf. destruct (seal_into_shape r t p pad Hf) as (c & tag & _ & ->). eauto. Qed.
End proofs.

(** The error type of the computation does not matter. *)
Lemma seal_into_poly `{TlsAead} {E F} r t p pad r1 r2 x y :
  @seal_into _ E r t p pad = Val (r1, x) -> @seal_into _ F r t p pad = Val (r2, y) -> x = y.
Proof.
  unfold seal_into, encrypt_in_place. destruct (encrypt_detached _ _ _ _ _) as [[c g]|]; [|done].
  cbn [mbind comp_bind]. intros H1 H2. apply Val_pair_inj in H1 as [_ <-]. by apply Val_pair_inj in H2 as [_ <-].
Qed.

(** ** What is accepted *)

Section accepted.
Context `{TlsAeadLaws} {E : Type}.

Lemma strip_padding_inv buf k m :
  @strip_padding E buf k = Val m ->
  (m <= k)%nat /\ (forall i, (m <= i < k)%nat -> buf !! (5 + i)%nat = Some 0) /\
  (forall m', m = S m' -> exists t, buf !! (5 + m')%nat = Some t /\ t <> 0).
Proof.
  induction k as [|k IH]; cbn [strip_padding]; intros Hs.
  - apply Val_inj in Hs as <-. repeat split; [lia|..]; intros; lia.
  - apply comp_bind_inv in Hs as (b & Hb & Hs).
    assert (buf !! (5 + k)%nat = Some b) as Hk.
    { unfold index, get_at in Hb. rewrite (proj2 (Z.leb_le _ _)) in Hb by lia.
      replace (5 + k)%nat with (Z.to_nat (5 + Z.of_nat k)) by lia. destruct (_ !! _); [congruence|done]. }
    destruct (b =? 0) eqn:Eb; split_bool.
    + destruct (IH Hs) as (H1 & H2 & H3). split; [lia|]. split; [|done].
      intros i Hi. destruct (decide (i = k)) as [->|]; [by subst b|apply H2; lia].
    + apply Val_inj in Hs as <-. split; [lia|]. split; [intros; lia|]. intros m' [= <-]. eauto.
Qed.

(** A decrypted body is a plaintext, its content type and zeros. *)
Lemma inner_text_of_strip (h p tl : bytes) k t :
  length h = 5%nat -> (S k <= length p)%nat ->
  (h ++ p ++ tl) !! (5 + k)%nat = Some t ->
  (forall i, (S k <= i < length p)%nat -> (h ++ p ++ tl) !! (5 + i)%nat = Some 0) ->
  p = inner_text t (take k p) (len p - Z.of_nat k - 1).
Proof.
  intros Hh Hk Ht Hz. rewrite <- (take_drop k p) at 1. unfold inner_text. f_equal.
  assert (forall i, (i < length p)%nat -> (h ++ p ++ tl) !! (5 + i)%nat = p !! i) as Hl.
  { intros i Hi. rewrite lookup_app_r, Hh by lia. replace (5 + i - 5)%nat with i by lia. by apply lookup_app_l. }
  rewrite Hl in Ht by lia. rewrite (drop_S _ _ _ Ht). f_equal.
  apply list_eq_same_length with (length (drop (S k) p)); [rewrite length_replicate, length_drop; unfold len; lia|done|].
  intros i x y Hi Hx Hy. rewrite length_drop in Hi. apply lookup_replicate in Hy as [-> _]. rewrite lookup_drop in Hx.
  rewrite <- Hl, Hz in Hx by lia. congruence.
Qed.

Lemma buffer_parts (buf : bytes) n :
  0 <= n -> 5 + n <= len buf -> TAG_LEN <= n ->
  exists h body tag rest, buf = h ++ body ++ tag ++ rest /\ length h = 5%nat /\ len body + TAG_LEN = n /\
    len tag = TAG_LEN /\ h = take 5 buf.
Proof.
  intros Hn Hl Ht. unfold len, TAG_LEN in *. exists (take 5 buf), (take (Z.to_nat n - 16) (drop 5 buf)),
    (take 16 (drop (Z.to_nat n - 16) (drop 5 buf))), (drop 16 (drop (Z.to_nat n - 16) (drop 5 buf))).
  rewrite !take_drop. rewrite !length_take, !length_drop. repeat split; lia.
Qed.

(** A record is only opened when the buffer holds all of it. *)
Lemma open_in_place_parts r buf r' x :
  bytes_ok buf -> @open_in_place _ E r buf = Val (r', Some x) ->
  let n := be_val (take 2 (drop 3 buf)) in
  0 <= n < 2 ^ 16 /\
  exists h body tag rest, buf = h ++ body ++ tag ++ rest /\ length h = 5%nat /\ len body + TAG_LEN = n /\
    len tag = TAG_LEN /\ h = take 5 buf /\ be_val (drop 3 h) = len body + TAG_LEN.
Proof.
  intros Hok Hi n. destruct (Z.ltb_spec (len buf) 5) as [Hlt|Hge].
  { unfold open_in_place in Hi. rewrite (proj2 (Z.ltb_lt _ _) Hlt) in Hi. by apply Val_pair_inj in Hi as [_ ?]. }
  destruct buf as [|b0 [|b1 [|b2 [|b3 [|b4 bs]]]]]; try (unfold len in Hge; cbn in Hge; lia).
  change (take 2 (drop 3 _)) with [b3; b4] in n.
  assert (0 <= n < 65536) as Hn16.
  { apply (be_val_bound [b3; b4]). unfold bytes_ok in *. rewrite !list.Forall_cons in Hok. destruct_and!. by rewrite !list.Forall_cons. }
  split; [lia|]. unfold open_in_place in Hi. rewrite (proj2 (Z.ltb_ge _ _) Hge) in Hi.
  rewrite (index_lookup _ 3 b3), (index_lookup _ 4 b4) in Hi by (lia || done). cbn [mbind comp_bind] in Hi.
  destruct ((_ <? _) || (_ <? _)) eqn:Eb in Hi; [by apply Val_pair_inj in Hi as [_ ?]|]. fold n in Eb. split_bool.
  destruct (buffer_parts (b0 :: b1 :: b2 :: b3 :: b4 :: bs) n) as (h & body & tag & rest & Hb & Hh & Hbody & Hlt & Hht); [lia..|].
  exists h, body, tag, rest. repeat split; try done. by rewrite Hht, Hbody.
Qed.

Lemma open_inv r buf r' t p :
  bytes_ok buf -> @open _ E r buf = Val (r', Some (t, p)) ->
  let n := be_val (take 2 (drop 3 buf)) in
  5 + n <= len buf /\ t <> 0 /\ r' = next_seq r /\
  exists pad c tag, fits p pad /\ len p + 1 + pad + TAG_LEN = n /\
    encrypt_detached (rk_suite r) (rk_key r) (record_nonce r) (take 5 buf) (inner_text t p pad) = Some (c, tag) /\
    take (5 + Z.to_nat n) buf = take 5 buf ++ c ++ tag.
Proof.
  intros Hok Ho n. unfold open in Ho. apply comp_bind_inv in Ho as ([r1 o] & Hi & Ho).
  destruct o as [[[buf' t'] e]|]; [|by apply Val_pair_inj in Ho as [_ ?]].
  apply comp_bind_inv in Ho as (p' & Hsl & Ho). apply Val_pair_inj in Ho as [<- [= <- <-]].
  destruct (open_in_place_parts _ _ _ _ Hok Hi) as (Hn16 & h & body & tag & rest & Hb & Hh & Hbody & Hlt & Hht & Hbe).
  fold n in Hbody, Hn16. pose proof Hi as Hi'. rewrite Hb, open_in_place_eq in Hi by done. clear Hi'.
  destruct (decrypt_detached _ _ _ _ _ _) as [q|] eqn:Ed; [|by apply Val_pair_inj in Hi as [_ ?]].
  apply encrypt_decrypt in Ed. destruct (encrypt_shape _ _ _ _ _ _ _ Ed) as [Hbq _].
  assert (length body = length q) as Hlq by (unfold len in Hbq; lia). rewrite Hlq in Hi.
  set (tl := drop _ (h ++ _)) in Hi. cbv zeta in Hi.
  apply comp_bind_inv in Hi as (k & Hk & Hi). destruct k as [|k]; [by apply Val_pair_inj in Hi as [_ ?]|].
  destruct (strip_padding_inv _ _ _ Hk) as (Hkl & Hz & Hnz). destruct (Hnz k eq_refl) as (t & Ht & Ht0).
  rewrite (index_lookup _ _ t) in Hi by (lia || rewrite <- Ht; f_equal; lia). cbn [mbind comp_bind] in Hi.
  apply Val_pair_inj in Hi as [<- [= <- <- <-]].
  pose proof (inner_text_of_strip h q tl k t Hh Hkl Ht Hz) as Hq.
  assert (p' = take k q) as ->.
  { assert (@slice E Z (h ++ q ++ tl) 5 (5 + Z.of_nat k) = Val (take k q)) as Hs'; [|congruence].
    rewrite <- (take_drop k q), <- app_assoc at 1. apply slice_app; [unfold len; by rewrite Hh|].
    unfold len. rewrite Hh, length_take. lia. }
  assert (5 + n <= len buf) by (rewrite Hb, !len_app, Hlt; pose proof (len_nonneg rest); unfold len at 1; rewrite Hh; lia).
  split; [done|]. split; [done|]. split; [done|]. exists (len q - Z.of_nat k - 1), body, tag.
  assert (len (take k q) = Z.of_nat k) as Hlk by (unfold len; rewrite length_take; lia).
  split; [unfold fits; unfold len, TAG_LEN in *; lia|]. split; [unfold len, TAG_LEN in *; lia|]. split; [by rewrite <- Hq, <- Hht|].
  rewrite <- Hht, Hb, app_assoc, app_assoc, <- (app_assoc h). apply take_app_len.
  rewrite !length_app, Hh. unfold len, TAG_LEN in *. lia.
Qed.
End accepted.

(** ** Opening never panics *)

Section total.
Context `{TlsAeadLaws} {E : Type}.

Lemma strip_padding_total buf k : (5 + k <= length buf)%nat -> exists m, @strip_padding E buf k = Val m.
Proof.
  induction k as [|k IH]; intros Hl; cbn [strip_padding]; [eauto|].
  destruct (index_in (E := E) buf (5 + Z.of_nat k)) as (b & -> & _); [unfold len; lia|]. cbn [mbind comp_bind].
  destruct (b =? 0); [apply IH; lia|eauto].
Qed.

Lemma open_in_place_total r buf :
  exists r' o, @open_in_place _ E r buf = Val (r', o) /\
    match o with None => True | Some (b, _, e) => length b = length buf /\ 5 <= e <= len b end.
Proof.
  unfold open_in_place. destruct (len buf <? 5) eqn:E5; [by eexists _, None|]. apply Z.ltb_ge in E5.
  destruct (index_in (E := E) buf 3) as (b3 & H3 & L3); [lia|]. destruct (index_in (E := E) buf 4) as (b4 & H4 & L4); [lia|].
  rewrite H3. cbn [mbind comp_bind]. rewrite H4. cbn [mbind comp_bind].
  destruct (_ || _) eqn:Eb; [by eexists _, None|]. split_bool. set (n := be_val [b3; b4]) in *.
  destruct (buffer_parts buf n) as (h & body & tag & rest & Hb & Hh & Hbody & Htag & Hht); [unfold TAG_LEN in *; lia|lia|done|].
  assert (@slice E Z buf 5 (5 + n) = Val (body ++ tag)) as ->.
  { rewrite Hb, (app_assoc body). apply slice_app; unfold len in *; rewrite Hh; [done|]. rewrite length_app. lia. }
  cbn [mbind comp_bind]. replace (n - TAG_LEN) with (len body) by lia. unfold len at 1 2. rewrite Nat2Z.id.
  rewrite take_app_len, drop_app_len by done. rewrite <- Hht.
  destruct (decrypt_detached _ _ _ _ _ _) as [p|] eqn:Ed; [|by eexists _, None].
  apply encrypt_decrypt, encrypt_shape in Ed as [Hp _].
  set (buf' := h ++ p ++ _). assert (length buf' = length buf) as Hl.
  { unfold buf'. rewrite !length_app, length_drop, Hh. rewrite Hb, !length_app, Hh. unfold len in *. lia. }
  assert (5 + length body <= length buf')%nat as Hk by (rewrite Hl, Hb, !length_app, Hh; lia).
  destruct (strip_padding_total buf' (length body) Hk) as (m & Hm). unfold len. rewrite Nat2Z.id, Hm. cbn [mbind comp_bind].
  destruct m as [|m]; [by eexists _, None|]. destruct (strip_padding_inv _ _ _ Hm) as (Hmk & _).
  destruct (index_in (E := E) buf' (5 + Z.of_nat m)) as (t & -> & _); [unfold len; lia|]. cbn [mbind comp_bind].
  eexists _, _. split; [done|]. split; [done|]. lia.
Qed.

Lemma open_total r buf : exists x, @open _ E r buf = Val x.
Proof.
  unfold open. destruct (open_in_place_total r buf) as (r' & [[[b t] e]|] & -> & Ho); cbn [mbind comp_bind]; [|eauto].
  destruct Ho as [Hl He]. rewrite slice_in by lia. cbn [mbind comp_bind]. eauto.
Qed.
End total.

(** * Sequences of records *)

Section sequences.
Context `{TlsAead} {E : Type}.

(** A message is its content type, plaintext and padding. *)
Fixpoint seal_all (r : RecordKeys) (ms : list (Z * bytes * Z)) : comp E (RecordKeys * list bytes) :=
  match ms with
  | [] => Val (r, [])
  | (t, p, pad) :: ms' =>
      '(r, x) ← seal_with_padding r t p pad;
      '(r, xs) ← seal_all r ms';
      Val (r, x :: xs)
  end.

Fixpoint open_all (r : RecordKeys) (xs : list bytes) : comp E (RecordKeys * list (option (Z * bytes))) :=
  match xs with
  | [] => Val (r, [])
  | x :: xs' =>
      '(r, o) ← open r x;
      '(r, os) ← open_all r xs';
      Val (r, o :: os)
  end.
End sequences.

(** * Theorems *)

Definition message_ok (m : Z * bytes * Z) : Prop := m.1.1 <> 0 /\ fits m.1.2 m.2.

(** TLS records open in order.  Writer and reader keys that start equal stay
    equal: any sequence of messages (content type not zero, at most 65518 bytes
    with the padding) is sealed without a panic, and opening the records in order
    gives exactly the content types and plaintexts, whatever zero bytes the
    plaintexts end in and whatever padding was added. *)
Theorem tls_records_lockstep `{TlsAeadLaws} {E} r ms :
  Forall message_ok ms ->
  exists r' xs, @seal_all _ E r ms = Val (r', xs) /\ @open_all _ E r xs = Val (r', (fun m => Some m.1) <$> ms).
Proof.
  intros Hms. revert r. induction Hms as [|[[t p] pad] ms [Ht Hf] _ IH]; intros r; cbn; [eauto|].
  destruct (seal_into_succeeds (E := E) r t p pad Hf) as [x Hx].
  destruct (tls_open_seal (E := E) r t p pad _ x [] Hf Ht Hx) as (_ & _ & Ho). rewrite app_nil_r in Ho.
  unfold seal_with_padding. rewrite Hx. cbn [mbind comp_bind]. destruct (IH (next_seq r)) as (r' & xs & Hs & Ha).
  rewrite Hs. cbn [mbind comp_bind]. exists r', (x :: xs). split; [done|]. cbn [open_all].
  rewrite Ho. cbn [mbind comp_bind]. by rewrite Ha.
Qed.

(** A TLS record that opens is the next one.  If reader keys accept a buffer
    whose record has the outer header of application data, then keys in the same
    state seal exactly those bytes for the content type and plaintext returned,
    and end in the same state: altered, reordered and replayed records are
    refused. *)
Theorem tls_accepted_record_is_next `{TlsAeadLaws} {E} r record r' t p :
  bytes_ok record -> take 3 record = OUTER_TYPE :: OUTER_VERSION ->
  len record = 5 + be_val (drop 3 (take 5 record)) ->
  @open _ E r record = Val (r', Some (t, p)) ->
  exists pad, 0 <= pad /\ @seal_with_padding _ E r t p pad = Val (r', record).
Proof.
  intros Hok H3 Hl Ho. destruct (open_inv _ _ _ _ _ Hok Ho) as (Hn & Ht & -> & pad & c & tag & Hf & Hlen & He & Htake).
  exists pad. destruct Hf as [Hpad Hf]. split; [done|].
  destruct (seal_into_shape (E := E) r t p pad (conj Hpad Hf)) as (c' & tag' & He' & Hs).
  unfold seal_with_padding. rewrite Hs, Hlen.
  assert (take 5 record = record_header (be_val (take 2 (drop 3 record)))) as Hh.
  { rewrite <- (take_drop 3 (take 5 record)), take_take. change (3 `min` 5)%nat with 3%nat. rewrite H3.
    assert (bytes_ok (take 2 (drop 3 record))) as Hok2 by auto with bytes.
    assert (length (take 2 (drop 3 record)) = 2%nat) as Hl2.
    { rewrite length_take, length_drop. unfold len, TAG_LEN in *. lia. }
    replace (drop 3 (take 5 record)) with (take 2 (drop 3 record)) by (by rewrite skipn_firstn_comm).
    rewrite <- (be_bytes_be_val _ Hok2) at 1. rewrite Hl2. unfold record_header, as_u8. cbn [be_bytes app OUTER_VERSION].
    change (256 ^ Z.of_nat 1) with (2 ^ 8). change (256 ^ Z.of_nat 0) with 1.
    by rewrite Z.shiftr_div_pow2, Z.div_1_r by lia. }
  rewrite Hlen, <- Hh, He in He'. injection He' as <- <-. rewrite <- Hh, <- Htake.
  rewrite take_ge; [done|]. replace (be_val (take 2 (drop 3 record))) with (be_val (drop 3 (take 5 record))) in * by
    (by rewrite skipn_firstn_comm). unfold len in Hl. lia.
Qed.

(** TLS nonces are never reused.  The [i]-th and the [j]-th record of one key
    use different nonces as long as fewer than [2 ^ 64] records are sealed, and the
    record after that would reuse the first one. *)
Theorem tls_nonce_unique s k iv i j :
  length iv = 12%nat -> (i < j)%nat ->
  let r := mk_RecordKeys s k iv 0 in
  (Z.of_nat j < 2 ^ 64 -> record_nonce (Nat.iter i next_seq r) <> record_nonce (Nat.iter j next_seq r)) /\
  (Z.of_nat j = Z.of_nat i + 2 ^ 64 -> record_nonce (Nat.iter i next_seq r) = record_nonce (Nat.iter j next_seq r)).
Proof.
  intros Hl Hij r.
  assert (forall n, Nat.iter n next_seq r = mk_RecordKeys s k iv (Z.of_nat n mod 2 ^ 64)) as Hseq.
  { intros n. induction n as [|n IH]; [done|]. cbn [Nat.iter nat_rect]. unfold Nat.iter in IH. rewrite IH.
    unfold next_seq, wrap. cbn [rk_suite rk_key rk_iv rk_seq]. f_equal. rewrite Z.add_mod_idemp_l by lia. f_equal. lia. }
  rewrite !Hseq. split.
  - intros Hj Heq. rewrite !Z.mod_small in Heq by lia. apply record_nonce_inj in Heq; unfold uint_ok; lia.
  - intros ->. rewrite <- (Z.mul_1_l (2 ^ 64)) at 2. by rewrite Z.mod_add.
Qed.

(** * A cipher for the witnesses *)

(** The body is sent as it is and the tag is the nonce, padded. *)
Definition toy_tls_tag (n : bytes) : bytes := take 16 (n ++ replicate 16 0).

Definition toy_tls_aead : TlsAead := {|
  encrypt_detached := fun _ _ n _ p => Some (p, toy_tls_tag n);
  decrypt_detached := fun _ _ n _ c t => if bytes_eqb t (toy_tls_tag n) then Some c else None |}.

Lemma toy_tls_laws : @TlsAeadLaws toy_tls_aead.
Proof.
  split; cbn.
  - intros _ _ n _ p c t [= <- <-]. split; [done|]. unfold len, toy_tls_tag.
    rewrite length_take, length_app, length_replicate. unfold TAG_LEN. lia.
  - eauto.
  - intros _ _ n _ p c t [= <- <-]. by rewrite bytes_eqb_refl.
  - intros _ _ n _ p c t. destruct (bytes_eqb t _) eqn:Eb; [|done]. apply bytes_eqb_eq in Eb as ->. by intros [= ->].
Qed.

#[local] Existing Instance toy_tls_aead.
#[local] Existing Instance toy_tls_laws.

Definition toy_record_keys : RecordKeys := mk_RecordKeys Aes128GcmSha256 (replicate 16 7) (replicate 12 0x5a) 0.

(** A plaintext that ends in zeros, with padding, and an empty one. *)
Definition toy_messages : list (Z * bytes * Z) := [(22, [1; 0; 0], 2); (23, [], 0)].

Lemma tls_records_lockstep_witness :
  exists r' xs, @seal_all _ unit toy_record_keys toy_messages = Val (r', xs) /\
    @open_all _ unit toy_record_keys xs = Val (r', (fun m => Some m.1) <$> toy_messages).
Proof.
  apply tls_records_lockstep. unfold toy_messages.
  repeat (apply Forall_cons_2 || apply Forall_nil_2); unfold message_ok, fits, len, TAG_LEN; cbn; lia.
Defined.

Lemma tls_accepted_record_is_next_witness :
  exists pad, 0 <= pad /\ @seal_with_padding _ unit toy_record_keys 23 [9; 0] pad =
    Val (next_seq toy_record_keys, [0x17; 3; 3; 0; 20; 9; 0; 23; 0] ++ replicate 12 0x5a ++ replicate 4 0).
Proof.
  apply tls_accepted_record_is_next.
  - by apply bytes_okb_ok.
  - reflexivity.
  - reflexivity.
  - vm_compute. reflexivity.
Defined.

Lemma tls_nonce_unique_witness :
  record_nonce (Nat.iter 3 next_seq toy_record_keys) <> record_nonce (Nat.iter 300 next_seq toy_record_keys).
Proof.
  pose proof (tls_nonce_unique Aes128GcmSha256 (replicate 16 7) (replicate 12 0x5a) 3 300 eq_refl ltac:(lia)) as [Hu _].
  apply Hu. lia.
Defined.
