(* ===== verification/TlsKeys.v ===== *)
(** [src/tls/tls13/keyschedule.rs] and [src/tls/tls13/keyshare.rs]: the key schedule
    of TLS 1.3 and the X25519 key share of the server.

    The hash functions, HKDF, HMAC and X25519 are third-party code: [TlsHash] and
    [X25519] have their functions, [TlsHashLaws] and [X25519Laws] what the schedule
    relies on. *)

From S2P Require Import Prelude TlsRecord.

(** * The interface of the hash functions *)

(** [hkdf_expand] gives no output when the length is more than the hash allows. *)
Class TlsHash := {
  digest : HashAlg -> bytes -> bytes;
  hkdf_extract_raw : HashAlg -> bytes -> bytes -> bytes;
  hkdf_expand : HashAlg -> bytes -> bytes -> Z -> option bytes;
  hmac_raw : HashAlg -> bytes -> bytes -> bytes }.

Definition output_len (h : HashAlg) : Z := match h with Sha256 => 32 | Sha384 => 48 end.

(** The documented lengths of their results. *)
Class TlsHashLaws `{TlsHash} := {
  digest_len : forall h d, len (digest h d) = output_len h;
  extract_len : forall h s i, len (hkdf_extract_raw h s i) = output_len h;
  hmac_len : forall h k d, len (hmac_raw h k d) = output_len h;
  expand_len : forall h prk info n, 0 <= n <= 255 * output_len h ->
    exists out, hkdf_expand h prk info n = Some out /\ len out = n }.

Section schedule.
Context `{TlsHash}.

Definition hash (h : HashAlg) (data : bytes) : bytes := digest h data.
Definition empty_hash (h : HashAlg) : bytes := hash h [].
Definition hkdf_extract (h : HashAlg) (salt ikm : bytes) : bytes := hkdf_extract_raw h salt ikm.
Definition hmac (h : HashAlg) (key data : bytes) : bytes := hmac_raw h key data.

Definition hkdf_label (label : string) (context : bytes) (length : Z) : bytes :=
  let full_label := bytes_of_string "tls13 " ++ bytes_of_string label in
  be_bytes 2 (wrap 16 length) ++ [as_u8 (len full_label)] ++ full_label ++ [as_u8 (len context)] ++ context.

(** [Hkdf::from_prk] refuses a secret shorter than the hash: both [expect]s panic. *)
Definition expand_label {E} (h : HashAlg) (secret : bytes) (label : string) (context : bytes) (length : Z) : comp E bytes :=
  if len secret <? output_len h then Crash
  else match hkdf_expand h secret (hkdf_label label context length) length with Some out => Val out | None => Crash end.

Definition derive_secret {E} (h : HashAlg) (secret : bytes) (label : string) (transcript : bytes) : comp E bytes :=
  expand_label h secret label (hash h transcript) (output_len h).

Definition derive_secret_with_hash {E} (h : HashAlg) (secret : bytes) (label : string) (transcript_hash : bytes) : comp E bytes :=
  expand_label h secret label transcript_hash (output_len h).

Record TrafficKeys := mk_TrafficKeys { tk_key : bytes; tk_iv : bytes }.

Record KeySchedule := mk_KeySchedule {
  ks_hash : HashAlg; master_secret : bytes; client_hs_traffic : bytes; server_hs_traffic : bytes }.

Definition KeySchedule_new {E} (h : HashAlg) (ecdhe transcript_hash_ch_sh : bytes) : comp E KeySchedule :=
  let zero := replicate (Z.to_nat (output_len h)) 0 in
  let early_secret := hkdf_extract h zero zero in
  derived ← derive_secret h early_secret "derived" [];
  let handshake_secret := hkdf_extract h derived ecdhe in
  client_hs ← derive_secret_with_hash h handshake_secret "c hs traffic" transcript_hash_ch_sh;
  server_hs ← derive_secret_with_hash h handshake_secret "s hs traffic" transcript_hash_ch_sh;
  derived2 ← derive_secret h handshake_secret "derived" [];
  Val (mk_KeySchedule h (hkdf_extract h derived2 zero) client_hs server_hs).

(** [copy_from_slice] panics when the lengths differ. *)
Definition traffic_keys {E} (k : KeySchedule) (secret : bytes) (n : Z) : comp E TrafficKeys :=
  key ← expand_label (ks_hash k) secret "key" [] n;
  iv ← expand_label (ks_hash k) secret "iv" [] 12;
  if len iv =? 12 then Val (mk_TrafficKeys key iv) else Crash.

Definition finished_verify_data {E} (k : KeySchedule) (base_traffic_secret transcript_hash : bytes) : comp E bytes :=
  finished_key ← expand_label (ks_hash k) base_traffic_secret "finished" [] (output_len (ks_hash k));
  Val (hmac (ks_hash k) finished_key transcript_hash).

Definition application_traffic_secrets {E} (k : KeySchedule) (transcript_hash : bytes) : comp E (bytes * bytes) :=
  client ← derive_secret_with_hash (ks_hash k) (master_secret k) "c ap traffic" transcript_hash;
  server ← derive_secret_with_hash (ks_hash k) (master_secret k) "s ap traffic" transcript_hash;
  Val (client, server).

(** [traffic_keys] followed by [RecordKeys::new], as the callers compose them. *)
Definition record_keys {E} (k : KeySchedule) (s : CipherSuite) (secret : bytes) : comp E RecordKeys :=
  tk ← traffic_keys k secret (key_len s);
  RecordKeys_new s (tk_key tk) (tk_iv tk).
End schedule.

(** * Key share *)

(** [PublicKey::from], [diffie_hellman] and [was_contributory]. *)
Class X25519 := {
  x25519_public : bytes -> bytes;
  diffie_hellman : bytes -> bytes -> bytes;
  was_contributory : bytes -> bool }.

Class X25519Laws `{X25519} := {
  public_length : forall s, length (x25519_public s) = 32%nat;
  shared_commutes : forall a b, diffie_hellman a (x25519_public b) = diffie_hellman b (x25519_public a) }.

Definition GROUP_X25519 : Z := 0x001d.

Record ServerKeyShare := mk_ServerKeyShare { share_group : Z; public_key : bytes; shared_secret : bytes }.

Inductive KeyShareError : Type :=
| UnsupportedGroup (g : Z)
| InvalidLength (g expected actual : Z)
| NonContributory.

Section share.
Context `{X25519}.

Definition x25519_with_secret (peer_key secret : bytes) : result KeyShareError ServerKeyShare :=
  if negb (len peer_key =? 32) then Err (InvalidLength GROUP_X25519 32 (len peer_key))
  else
    let shared := diffie_hellman secret peer_key in
    if negb (was_contributory shared) then Err NonContributory
    else Ok (mk_ServerKeyShare GROUP_X25519 (x25519_public secret) shared).

(** The secret drawn from the random generator is an argument. *)
Definition generate_server_keyshare (group : Z) (peer_key secret : bytes) : result KeyShareError ServerKeyShare :=
  if group =? GROUP_X25519 then x25519_with_secret peer_key secret else Err (UnsupportedGroup group).
End share.

(** * Lemmas *)

Lemma output_len_range h : 32 <= output_len h <= 48.
Proof. by destruct h. Qed.

(** The secrets a schedule holds are as long as its hash. *)
Definition schedule_ok (k : KeySchedule) : Prop :=
  len (master_secret k) = output_len (ks_hash k) /\ len (client_hs_traffic k) = output_len (ks_hash k) /\
  len (server_hs_traffic k) = output_len (ks_hash k).

(** Record keys with a key and a vector of the lengths of their suite. *)
Definition record_keys_ok (r : RecordKeys) : Prop :=
  len (rk_key r) = key_len (rk_suite r) /\ length (rk_iv r) = 12%nat /\ uint_ok 64 (rk_seq r).

Section proofs.
Context `{TlsHashLaws} {E : Type}.

Lemma expand_label_ok h secret label context n :
  len secret = output_len h -> 0 <= n <= 255 * output_len h ->
  exists out, @expand_label _ E h secret label context n = Val out /\ len out = n.
Proof.
  intros Hs Hn. unfold expand_label. rewrite Hs, Z.ltb_irrefl.
  destruct (expand_len h secret (hkdf_label label context n) n Hn) as (out & -> & Hl). eauto.
Qed.

Lemma derive_secret_ok h secret label th :
  len secret = output_len h ->
  exists out, @derive_secret_with_hash _ E h secret label th = Val out /\ len out = output_len h.
Proof. intros Hs. apply expand_label_ok; [done|]. pose proof (output_len_range h). lia. Qed.

Lemma KeySchedule_new_ok h ecdhe th :
  exists k, @KeySchedule_new _ E h ecdhe th = Val k /\ ks_hash k = h /\ schedule_ok k.
Proof.
  unfold KeySchedule_new, derive_secret, hkdf_extract.
  change (fun s l c => @expand_label _ E h s l c (output_len h)) with (@derive_secret_with_hash _ E h).
  set (early := hkdf_extract_raw h _ _).
  destruct (derive_secret_ok h early "derived" (hash h []) (extract_len _ _ _)) as (d & Hd & _).
  unfold derive_secret_with_hash in *. rewrite Hd. cbn [mbind comp_bind].
  set (hs := hkdf_extract_raw h d ecdhe). pose proof (extract_len h d ecdhe : len hs = _) as Hl.
  destruct (derive_secret_ok h hs "c hs traffic" th Hl) as (c & Hc & Hcl).
  destruct (derive_secret_ok h hs "s hs traffic" th Hl) as (s & Hs & Hsl).
  destruct (derive_secret_ok h hs "derived" (hash h []) Hl) as (d2 & Hd2 & _).
  unfold derive_secret_with_hash in *. rewrite Hc. cbn [mbind comp_bind]. rewrite Hs. cbn [mbind comp_bind].
  rewrite Hd2. cbn [mbind comp_bind]. eexists. split; [done|]. split; [done|].
  unfold schedule_ok. cbn. rewrite extract_len. done.
Qed.

Lemma record_keys_total k s secret :
  len secret = output_len (ks_hash k) ->
  exists r, @record_keys _ E k s secret = Val r /\ record_keys_ok r /\ rk_suite r = s /\ rk_seq r = 0.
Proof.
  intros Hs. pose proof (output_len_range (ks_hash k)). unfold record_keys, traffic_keys.
  destruct (expand_label_ok (ks_hash k) secret "key" [] (key_len s) Hs) as (key & -> & Hk); [destruct s; cbn; lia|].
  destruct (expand_label_ok (ks_hash k) secret "iv" [] 12 Hs) as (iv & Hiv & Hl); [lia|].
  cbn [mbind comp_bind]. rewrite Hiv. cbn [mbind comp_bind]. rewrite Hl. cbn [mbind comp_bind Z.eqb Pos.eqb tk_key tk_iv].
  unfold RecordKeys_new. rewrite Hk, Z.eqb_refl. eexists. split; [done|]. unfold record_keys_ok, uint_ok, len in *.
  cbn. repeat split; lia.
Qed.

Lemma finished_verify_data_ok k secret th :
  len secret = output_len (ks_hash k) ->
  exists v, @finished_verify_data _ E k secret th = Val v /\ len v = output_len (ks_hash k).
Proof.
  intros Hs. pose proof (output_len_range (ks_hash k)). unfold finished_verify_data.
  destruct (expand_label_ok (ks_hash k) secret "finished" [] (output_len (ks_hash k)) Hs) as (fk & -> & _); [lia|].
  cbn [mbind comp_bind]. eexists. split; [done|]. apply hmac_len.
Qed.

Lemma application_secrets_ok k th :
  schedule_ok k ->
  exists c s, @application_traffic_secrets _ E k th = Val (c, s) /\
    len c = output_len (ks_hash k) /\ len s = output_len (ks_hash k).
Proof.
  intros [Hm _]. unfold application_traffic_secrets.
  destruct (derive_secret_ok (ks_hash k) (master_secret k) "c ap traffic" th Hm) as (c & -> & Hc).
  destruct (derive_secret_ok (ks_hash k) (master_secret k) "s ap traffic" th Hm) as (s & Hs & Hsl).
  cbn [mbind comp_bind]. rewrite Hs. cbn [mbind comp_bind]. eauto.
Qed.
End proofs.

(** ** The error type does not matter *)

Section poly.
Context `{TlsHash} {E F : Type}.

Lemma expand_label_poly h secret label context n v :
  @expand_label _ E h secret label context n = Val v -> @expand_label _ F h secret label context n = Val v.
Proof. unfold expand_label. destruct (_ <? _); [done|]. destruct (hkdf_expand _ _ _ _); [|done]. by intros [= ->]. Qed.

Ltac poly_tac Heq :=
  comp_inv Heq;
  repeat (erewrite comp_bind_val by (eapply expand_label_poly; eassumption); cbv beta);
  repeat case_match; first [done | by apply Val_inj in Heq as <-].

Lemma KeySchedule_new_poly h x th v : @KeySchedule_new _ E h x th = Val v -> @KeySchedule_new _ F h x th = Val v.
Proof. unfold KeySchedule_new, derive_secret_with_hash, derive_secret. intros Heq. poly_tac Heq. Qed.

Lemma finished_verify_data_poly k x th v : @finished_verify_data _ E k x th = Val v -> @finished_verify_data _ F k x th = Val v.
Proof. unfold finished_verify_data. intros Heq. poly_tac Heq. Qed.

Lemma application_secrets_poly k th v : @application_traffic_secrets _ E k th = Val v -> @application_traffic_secrets _ F k th = Val v.
Proof. unfold application_traffic_secrets, derive_secret_with_hash. intros Heq. poly_tac Heq. Qed.

Lemma traffic_keys_poly k secret n v : @traffic_keys _ E k secret n = Val v -> @traffic_keys _ F k secret n = Val v.
Proof. unfold traffic_keys. intros Heq. poly_tac Heq. Qed.

Lemma record_keys_poly k s secret v : @record_keys _ E k s secret = Val v -> @record_keys _ F k s secret = Val v.
Proof.
  unfold record_keys. intros Heq. apply comp_bind_inv in Heq as (tk & Htk & Heq). rewrite (traffic_keys_poly _ _ _ _ Htk).
  cbn [mbind comp_bind]. unfold RecordKeys_new in *. case_match; [|done]. by apply Val_inj in Heq as <-.
Qed.
End poly.

Lemma record_keys_ok_seal `{TlsAead} {E} r t p pad r' x :
  record_keys_ok r -> @seal_into _ E r t p pad = Val (r', x) -> record_keys_ok r'.
Proof.
  intros (H1 & H2 & H3) Hs. unfold seal_into in Hs. apply comp_bind_inv in Hs as (y & _ & Hs).
  apply Val_pair_inj in Hs as [<- _]. repeat split; try done; cbn; apply Z.mod_pos_bound; lia.
Qed.

Lemma record_keys_ok_seal_all `{TlsAead} {E} ms r r' xs :
  record_keys_ok r -> @seal_all _ E r ms = Val (r', xs) -> record_keys_ok r'.
Proof.
  revert r xs. induction ms as [|[[t p] pad] ms IH]; intros r xs Hok Hx; cbn in Hx.
  - by apply Val_pair_inj in Hx as [<- _].
  - apply comp_bind_inv in Hx as ([r1 x] & Hx1 & Hx). apply comp_bind_inv in Hx as ([r2 xs'] & Hx2 & Hx).
    apply Val_pair_inj in Hx as [<- _]. eapply IH; [|exact Hx2]. by eapply record_keys_ok_seal.
Qed.

(** The label structure can be read back: no two derivations share their input. *)
Lemma hkdf_label_inj l1 c1 n1 l2 c2 n2 :
  len (bytes_of_string l1) <= 249 -> len (bytes_of_string l2) <= 249 ->
  uint_ok 16 n1 -> uint_ok 16 n2 ->
  hkdf_label l1 c1 n1 = hkdf_label l2 c2 n2 ->
  bytes_of_string l1 = bytes_of_string l2 /\ c1 = c2 /\ n1 = n2.
Proof.
  intros H1 H2 Hn1 Hn2. unfold hkdf_label, wrap, as_u8. rewrite !(len_app (bytes_of_string "tls13 ")).
  change (len (bytes_of_string "tls13 ")) with 6. pose proof (len_nonneg (bytes_of_string l1)).
  pose proof (len_nonneg (bytes_of_string l2)). rewrite !(Z.mod_small (6 + _)), !(Z.mod_small _ (2 ^ 16)) by (unfold uint_ok in *; lia).
  intros He. apply app_inj_1 in He as [Hn He]; [|by rewrite !length_be_bytes]. cbn [app] in He. injection He as Hl He.
  assert (n1 = n2) as ->.
  { apply (f_equal be_val) in Hn. unfold uint_ok in *. by rewrite !be_val_be_bytes in Hn by (change (256 ^ Z.of_nat 2) with (2 ^ 16); lia). }
  apply app_inj_1 in He as [Hlab Hc]; [|unfold len in Hl; lia]. by injection Hc.
Qed.

(** C39: the key schedule is well typed.  For every shared secret and transcript hash
    the schedule is derived without a panic, and for every cipher suite the record
    keys of its four traffic secrets (handshake and application, client and server)
    exist, have a key of the length of the suite, a 12-byte vector and a 64-bit
    counter, and keep that type through every record they seal. *)
Theorem key_schedule_typed `{TlsHashLaws} `{TlsAead} {E} h ecdhe th th_fin s :
  exists k ap_c ap_s, @KeySchedule_new _ E h ecdhe th = Val k /\
    @application_traffic_secrets _ E k th_fin = Val (ap_c, ap_s) /\
    Forall (fun secret => exists r, @record_keys _ E k s secret = Val r /\ record_keys_ok r /\ rk_suite r = s /\
        forall ms r' xs, @seal_all _ E r ms = Val (r', xs) -> record_keys_ok r')
      [client_hs_traffic k; server_hs_traffic k; ap_c; ap_s].
Proof.
  destruct (KeySchedule_new_ok (E := E) h ecdhe th) as (k & Hk & _ & Hok). pose proof Hok as (_ & Hc & Hs).
  destruct (application_secrets_ok (E := E) k th_fin Hok) as (ac & aps & Ha & Hac & Has).
  exists k, ac, aps. split; [done|]. split; [done|].
  assert (Forall (fun secret => len secret = output_len (ks_hash k)) [client_hs_traffic k; server_hs_traffic k; ac; aps]) as Hf
    by (by rewrite !list.Forall_cons, list.Forall_nil).
  eapply list.Forall_impl; [exact Hf|]. clear Hf.
  intros secret Hl. destruct (record_keys_total (E := E) k s secret Hl) as (r & Hr & Hrok & Hrs & _).
  exists r. split; [done|]. split; [done|]. split; [done|]. intros ms r' xs. by apply record_keys_ok_seal_all.
Qed.

(** * Functions for the witnesses *)

(** [l] cut or filled with zeros to [n] bytes. *)
Definition toy_fit (n : Z) (l : bytes) : bytes := resize (Z.to_nat n) l.

Lemma toy_fit_len n l : 0 <= n -> len (toy_fit n l) = n.
Proof. intros Hn. unfold toy_fit, resize, len. rewrite length_app, length_take, length_replicate. lia. Qed.

Definition toy_tls_hash : TlsHash := {|
  digest := fun h d => toy_fit (output_len h) d;
  hkdf_extract_raw := fun h s i => toy_fit (output_len h) (s ++ i);
  hkdf_expand := fun h _ info n => if n <=? 255 * output_len h then Some (toy_fit n info) else None;
  hmac_raw := fun h k d => toy_fit (output_len h) (d ++ k) |}.

Lemma toy_tls_hash_laws : @TlsHashLaws toy_tls_hash.
Proof.
  split; cbn; intros; try (apply toy_fit_len; destruct h; cbn; lia).
  rewrite (proj2 (Z.leb_le _ _)) by lia. eexists. split; [done|]. apply toy_fit_len. lia.
Qed.

Lemma zip_lxor_comm l k : zip_with Z.lxor l k = zip_with Z.lxor k l.
Proof. revert k. induction l as [|x l IH]; intros [|y k]; cbn; try done. by rewrite Z.lxor_comm, IH. Qed.

Definition toy_x25519 : X25519 := {|
  x25519_public := fun s => toy_fit 32 s;
  diffie_hellman := fun s p => zip_with Z.lxor (toy_fit 32 s) p;
  was_contributory := fun _ => true |}.

Lemma toy_x25519_laws : @X25519Laws toy_x25519.
Proof.
  split; cbn.
  - intros s. pose proof (toy_fit_len 32 s). unfold len in *. lia.
  - intros a b. apply zip_lxor_comm.
Qed.

#[local] Existing Instance toy_tls_aead.
#[local] Existing Instance toy_tls_hash.
#[local] Existing Instance toy_tls_hash_laws.

Lemma key_schedule_typed_witness :
  exists k ap_c ap_s, @KeySchedule_new _ unit Sha256 [1] [2] = Val k /\
    @application_traffic_secrets _ unit k [3] = Val (ap_c, ap_s) /\
    Forall (fun secret => exists r, @record_keys _ unit k ChaCha20Poly1305Sha256 secret = Val r /\ record_keys_ok r /\
        rk_suite r = ChaCha20Poly1305Sha256 /\
        forall ms r' xs, @seal_all _ unit r ms = Val (r', xs) -> record_keys_ok r')
      [client_hs_traffic k; server_hs_traffic k; ap_c; ap_s].
Proof. apply key_schedule_typed. Defined.
