(* ===== verification/TlsMessages.v ===== *)
(** [src/tls/tls13/messages.rs], the synthesis of the ServerHello in
    [src/tls/tls13/flight.rs], and the template and the plain records of
    [src/tls/nginx_backend.rs].

    Random bytes are arguments.  Indexing panics out of bounds; [get] does not. *)

From S2P Require Import Prelude ClientHello TlsRecord TlsKeys.

Definition HS_SERVER_HELLO : Z := 2.
Definition HS_NEW_SESSION_TICKET : Z := 4.
Definition HS_ENCRYPTED_EXTENSIONS : Z := 8.
Definition HS_CERTIFICATE : Z := 11.
Definition HS_CERTIFICATE_VERIFY : Z := 15.
Definition HS_FINISHED : Z := 20.

(** The three bytes [(n >> 16) as u8, (n >> 8) as u8, n as u8]. *)
Definition u24_bytes (n : Z) : bytes := [as_u8 (Z.shiftr n 16); as_u8 (Z.shiftr n 8); as_u8 n].

Definition handshake_message (msg_type : Z) (body : bytes) : bytes :=
  [msg_type] ++ u24_bytes (wrap 32 (len body)) ++ body.

Definition encrypted_extensions : bytes := handshake_message HS_ENCRYPTED_EXTENSIONS [0; 0].

Definition encrypted_extensions_with_alpn (alpn : option bytes) : bytes :=
  match alpn with
  | None => encrypted_extensions
  | Some protocol =>
      let protocol_name_list := [as_u8 (len protocol)] ++ protocol in
      let alpn_body := be_bytes 2 (wrap 16 (len protocol_name_list)) ++ protocol_name_list in
      let extensions := be_bytes 2 EXT_ALPN ++ be_bytes 2 (wrap 16 (len alpn_body)) ++ alpn_body in
      handshake_message HS_ENCRYPTED_EXTENSIONS (be_bytes 2 (wrap 16 (len extensions)) ++ extensions)
  end.

Definition finished_message (verify_data : bytes) : bytes := handshake_message HS_FINISHED verify_data.

(** [age_add] and [ticket] are drawn; [ticket] has [max ticket_len 1] bytes. *)
Definition new_session_ticket (age_add : Z) (ticket : bytes) : bytes :=
  handshake_message HS_NEW_SESSION_TICKET
    (be_bytes 4 7200 ++ be_bytes 4 age_add ++ [0] ++ be_bytes 2 (wrap 16 (len ticket)) ++ ticket ++ [0; 0]).

(** * Reading a ServerHello *)

(** [u16::from_be_bytes([*b.get(i)?, *b.get(i + 1)?])]. *)
Definition get_u16 (b : bytes) (i : Z) : option Z :=
  x ← get_at b i; y ← get_at b (i + 1); Some (be_val [x; y]).

(** [u16::from_be_bytes([b[i], b[i + 1]])]. *)
Definition index_u16 {E} (b : bytes) (i : Z) : comp E Z :=
  x ← index b i; y ← index b (i + 1); Val (be_val [x; y]).

(** Each round moves [pos] on by at least four and panics behind the end. *)
Fixpoint keyshare_loop {E} (fuel : nat) (sh : bytes) (pos ext_end : Z) : comp E (option (Z * Z * Z)) :=
  match fuel with
  | O => Diverge
  | S f =>
      if pos + 4 <=? ext_end then
        ext_type ← index_u16 sh pos;
        ext_len ← index_u16 sh (pos + 2);
        let ext_data := pos + 4 in
        if ext_type =? EXT_KEY_SHARE then
          Val (group ← get_u16 sh ext_data;
               kx_len ← get_u16 sh (ext_data + 2);
               let kx_offset := ext_data + 4 in
               _ ← get_range sh kx_offset (kx_offset + kx_len);
               Some (group, kx_offset, kx_len))
        else keyshare_loop f sh (ext_data + ext_len) ext_end
      else Val None
  end.

Definition find_server_keyshare {E} (sh : bytes) : comp E (option (Z * Z * Z)) :=
  let pos := 1 + 3 + 2 + 32 in
  match get_at sh pos with
  | None => Val None
  | Some sid_len =>
      let pos := pos + 1 + sid_len + 2 + 1 in
      match get_u16 sh pos with
      | None => Val None
      | Some ext_total => keyshare_loop (S (length sh)) sh (pos + 2) (pos + 2 + ext_total)
      end
  end.

Definition server_hello_cipher_suite (sh : bytes) : option Z :=
  let pos := 1 + 3 + 2 + 32 in
  sid_len ← get_at sh pos;
  get_u16 sh (pos + 1 + sid_len).

(** * Synthesis ([flight.rs]) *)

Record SynthesizedServerHello := mk_SynthesizedServerHello {
  message : bytes; suite : CipherSuite; key_share_group : Z }.

Inductive FlightError : Type :=
| MalformedServerHello
| Tls13NotOffered
| SessionIdTooLong
| UnsupportedCipherSuite (id : Z)
| CipherNotOffered (id : Z)
| KeyShareGroupNotOffered (group : Z)
| KeyShareLengthMismatch (group expected actual : Z)
| CipherHashMismatch.

Definition server_hello_body_len (template : bytes) : comp FlightError Z :=
  if len template <? 4 then Fail MalformedServerHello
  else
    t0 ← index template 0;
    if negb (t0 =? HS_SERVER_HELLO) then Fail MalformedServerHello
    else
      t1 ← index template 1; t2 ← index template 2; t3 ← index template 3;
      Val (be_val [0; t1; t2; t3]).

Definition validate_server_hello_template (template : bytes) : comp FlightError unit :=
  body_len ← server_hello_body_len template;
  _ ← fail_if (negb (body_len =? len template - 4)) MalformedServerHello;
  ks ← find_server_keyshare template;
  _ ← lift id (ok_or ks MalformedServerHello);
  _ ← lift id (ok_or (server_hello_cipher_suite template) MalformedServerHello);
  Val tt.

(** [buf[a..b].copy_from_slice(src)]. *)
Definition copy_into {E} (buf : bytes) (a b : Z) (src : bytes) : comp E bytes :=
  if (0 <=? a) && (a <=? b) && (b <=? len buf) && (len src =? b - a)
  then Val (take (Z.to_nat a) buf ++ src ++ drop (Z.to_nat b) buf) else Crash.

(** [rnd] are the 32 bytes [rng.fill_bytes] writes. *)
Definition rewrite_random_and_session_id (template session_id rnd : bytes) : comp FlightError bytes :=
  _ ← server_hello_body_len template;
  let random_start := 4 + 2 in
  let random_end := random_start + 32 in
  old_sid_len ← lift id (ok_or (get_at template random_end) MalformedServerHello);
  old_sid_end ← lift id (ok_or (checked_add usize_max random_end (1 + old_sid_len)) MalformedServerHello);
  _ ← fail_if (len template <? old_sid_end) MalformedServerHello;
  head ← slice template 0 random_start;
  tail ← slice template old_sid_end (len template);
  let out := head ++ rnd ++ [as_u8 (len session_id)] ++ session_id ++ tail in
  copy_into out 1 4 (u24_bytes (len out - 4)).

Definition synthesize_server_hello (template : bytes) (client : client_hello) (server_keyshare rnd : bytes) :
    comp FlightError SynthesizedServerHello :=
  _ ← validate_server_hello_template template;
  _ ← fail_if (negb (offers_tls13 (ch_offers client))) Tls13NotOffered;
  _ ← fail_if (32 <? len (session_id client)) SessionIdTooLong;
  cipher_id ← lift id (ok_or (server_hello_cipher_suite template) MalformedServerHello);
  suite ← lift id (ok_or (from_u16 cipher_id) (UnsupportedCipherSuite cipher_id));
  _ ← fail_if (negb (cipher_offered client cipher_id)) (CipherNotOffered cipher_id);
  ks ← find_server_keyshare template;
  '(group, _, template_keyshare_len) ← lift id (ok_or ks MalformedServerHello);
  _ ← fail_if (negb (keyshare_group_offered client group)) (KeyShareGroupNotOffered group);
  _ ← fail_if (negb (template_keyshare_len =? len server_keyshare))
        (KeyShareLengthMismatch group template_keyshare_len (len server_keyshare));
  msg ← rewrite_random_and_session_id template (session_id client) rnd;
  ks ← find_server_keyshare msg;
  '(_, offset, n) ← lift id (ok_or ks MalformedServerHello);
  msg ← copy_into msg offset (offset + n) server_keyshare;
  Val (mk_SynthesizedServerHello msg suite group).

(** * The template ([nginx_backend.rs]) *)

Definition push_ext (ext_type : Z) (body : bytes) : bytes :=
  be_bytes 2 ext_type ++ be_bytes 2 (wrap 16 (len body)) ++ body.

Definition server_hello_template (cipher : CipherSuite) (group : Z) : bytes :=
  let supported_versions := be_bytes 2 0x0304 in
  let key_share := be_bytes 2 group ++ be_bytes 2 32 ++ replicate 32 0 in
  let extensions := push_ext 0x002b supported_versions ++ push_ext 0x0033 key_share in
  let body := be_bytes 2 0x0303 ++ replicate 32 0 ++ [0] ++ be_bytes 2 (to_u16 cipher) ++ [0] ++
    be_bytes 2 (wrap 16 (len extensions)) ++ extensions in
  handshake_message HS_SERVER_HELLO body.

Definition choose_cipher (client : client_hello) : option CipherSuite :=
  find (fun s => cipher_offered client (to_u16 s)) [Aes256GcmSha384; ChaCha20Poly1305Sha256; Aes128GcmSha256].

Definition TLS_LEGACY_VERSION : bytes := [0x03; 0x03].

Definition plain_record (record_type : Z) (payload : bytes) : bytes :=
  [record_type] ++ TLS_LEGACY_VERSION ++ be_bytes 2 (wrap 16 (len payload)) ++ payload.

(** * The wire format of a ServerHello (RFC 8446, section 4.1.3) *)

Definition sh_ext (x : Z * bytes) : bytes := be_bytes 2 x.1 ++ vec16 x.2.

(** Extensions with the key share between [pre] and [post]. *)
Definition sh_extensions (pre : list (Z * bytes)) (group : Z) (key : bytes) (post : list (Z * bytes)) : bytes :=
  concat (sh_ext <$> pre) ++ sh_ext (EXT_KEY_SHARE, be_bytes 2 group ++ vec16 key) ++ concat (sh_ext <$> post).

Definition server_hello_wire (version rnd sid : bytes) (cipher compression : Z) (exts : bytes) : bytes :=
  let body := version ++ rnd ++ vec8 sid ++ be_bytes 2 cipher ++ [compression] ++ vec16 exts in
  HS_SERVER_HELLO :: be_bytes 3 (len body) ++ body.

(** * Lemmas *)

Lemma u24_bytes_be n : u24_bytes n = be_bytes 3 n.
Proof.
  unfold u24_bytes, as_u8. cbn [be_bytes]. change (256 ^ Z.of_nat 2) with (2 ^ 16). change (256 ^ Z.of_nat 1) with (2 ^ 8).
  change (256 ^ Z.of_nat 0) with 1. by rewrite !Z.shiftr_div_pow2, Z.div_1_r by lia.
Qed.

Lemma handshake_message_wire t body : len body < 2 ^ 32 -> handshake_message t body = t :: be_bytes 3 (len body) ++ body.
Proof.
  intros Hl. pose proof (len_nonneg body). unfold handshake_message, wrap. by rewrite Z.mod_small, u24_bytes_be by lia.
Qed.

Lemma get_at_app {A} (a : list A) x c n : n = len a -> get_at (a ++ x :: c) n = Some x.
Proof.
  intros ->. unfold get_at. rewrite (proj2 (Z.leb_le _ _)) by apply len_nonneg.
  unfold len. by rewrite Nat2Z.id, list_lookup_middle.
Qed.

Lemma be_bytes_two n : be_bytes 2 n = [(n / 256) mod 256; n mod 256].
Proof. cbn [be_bytes]. change (256 ^ Z.of_nat 1) with 256. change (256 ^ Z.of_nat 0) with 1. by rewrite Z.div_1_r. Qed.

Lemma get_u16_app a n c i : uint_ok 16 n -> i = len a -> get_u16 (a ++ be_bytes 2 n ++ c) i = Some n.
Proof.
  intros Hn ->. unfold get_u16. rewrite be_bytes_two. cbn [app]. rewrite (get_at_app a _ _ (len a)) by done. cbn [mbind option_bind].
  rewrite (cons_middle _ a), (app_assoc a). rewrite (get_at_app (a ++ [_])) by (by autorewrite with bytes). cbn [mbind option_bind].
  rewrite <- be_bytes_two. f_equal. apply be_val_be_bytes. done.
Qed.

Lemma index_u16_app {E} a n c i : uint_ok 16 n -> i = len a -> @index_u16 E (a ++ be_bytes 2 n ++ c) i = Val n.
Proof.
  intros Hn ->. unfold index_u16. rewrite be_bytes_two. cbn [app]. rewrite (index_app a _ _ (len a)) by done. cbn [mbind comp_bind].
  rewrite (cons_middle _ a), (app_assoc a). rewrite (index_app (a ++ [_])) by (by autorewrite with bytes). cbn [mbind comp_bind].
  rewrite <- be_bytes_two. f_equal. apply be_val_be_bytes. done.
Qed.

Lemma len_vec16 l : len (vec16 l) = 2 + len l.
Proof. unfold vec16. by rewrite len_app, len_be_bytes. Qed.
Lemma len_vec8 l : len (vec8 l) = 1 + len l.
Proof. apply len_cons. Qed.
Lemma len_sh_ext x : len (sh_ext x) = 4 + len x.2.
Proof. unfold sh_ext. rewrite len_app, len_be_bytes, len_vec16. lia. Qed.
#[export] Hint Rewrite len_vec16 len_vec8 len_sh_ext : bytes.

(** Side conditions on lengths and 16-bit values. *)
Ltac wire_side := first [done | unfold uint_ok, EXT_KEY_SHARE in *; autorewrite with bytes; cbn [fst snd] in *; lia].

(** Extensions a template can carry before its key share. *)
Definition sh_ext_ok (x : Z * bytes) : Prop := uint_ok 16 x.1 /\ len x.2 < 2 ^ 16 /\ x.1 <> EXT_KEY_SHARE.

(** The header of an extension in the middle of a message. *)
Lemma ext_header {E} sh head t d tail :
  sh = head ++ sh_ext (t, d) ++ tail -> uint_ok 16 t -> len d < 2 ^ 16 ->
  @index_u16 E sh (len head) = Val t /\ @index_u16 E sh (len head + 2) = Val (len d).
Proof.
  intros -> Ht Hd. pose proof (len_nonneg d). unfold sh_ext, vec16. cbn [fst snd]. rewrite <- !app_assoc. split.
  - by apply index_u16_app.
  - rewrite (app_assoc head). apply index_u16_app; wire_side.
Qed.

(** The contents of a key share extension. *)
Lemma keyshare_data sh head group key tail :
  sh = head ++ (be_bytes 2 group ++ vec16 key) ++ tail -> uint_ok 16 group -> len key < 2 ^ 16 ->
  get_u16 sh (len head) = Some group /\ get_u16 sh (len head + 2) = Some (len key) /\
  get_range sh (len head + 4) (len head + 4 + len key) = Some key.
Proof.
  intros -> Hg Hk. pose proof (len_nonneg key). unfold vec16. rewrite <- !app_assoc. repeat split.
  - by apply get_u16_app.
  - rewrite (app_assoc head). apply get_u16_app; wire_side.
  - rewrite (app_assoc head), (app_assoc (head ++ _)). set (h := (head ++ _) ++ _).
    assert (len head + 4 = len h) as -> by (unfold h; autorewrite with bytes; lia). apply get_range_app.
Qed.

Lemma keyshare_loop_wire {E} pre group key post fuel head ext_end :
  Forall sh_ext_ok pre -> uint_ok 16 group -> len key < 2 ^ 16 - 4 ->
  (length pre < fuel)%nat -> len head + len (sh_extensions pre group key []) <= ext_end ->
  @keyshare_loop E fuel (head ++ sh_extensions pre group key post) (len head) ext_end =
    Val (Some (group, len head + len (concat (sh_ext <$> pre)) + 8, len key)).
Proof.
  intros Hpre Hg Hk. pose proof (len_nonneg key). revert fuel head.
  induction Hpre as [|[t d] pre (Ht & Hd & Hne) Hpre IH]; intros [|fuel] head Hf He; try (cbn in Hf; lia).
  - unfold sh_extensions in *. cbn [fmap list_fmap concat app] in *. autorewrite with bytes in He. cbn [snd] in He.
    autorewrite with bytes in He. set (tail := concat _) in *. clearbody tail. cbn [keyshare_loop].
    rewrite (proj2 (Z.leb_le _ _)) by lia. set (sh := head ++ _).
    destruct (ext_header (E := E) sh head EXT_KEY_SHARE _ tail eq_refl) as [-> H2]; [done|wire_side|].
    cbn [mbind comp_bind]. rewrite H2. cbn [mbind comp_bind]. change (EXT_KEY_SHARE =? EXT_KEY_SHARE) with true. cbv iota. f_equal.
    destruct (keyshare_data sh (head ++ be_bytes 2 EXT_KEY_SHARE ++ be_bytes 2 (4 + len key)) group key tail) as (K1 & K2 & K3);
      [|done|lia|].
    { unfold sh, sh_ext. cbn [fst snd]. rewrite <- !app_assoc. do 2 f_equal. unfold vec16 at 1. rewrite <- !app_assoc.
      do 2 f_equal. autorewrite with bytes. lia. }
    autorewrite with bytes in K1, K2, K3. change (Z.of_nat 2 + Z.of_nat 2) with 4 in *.
    rewrite K1. cbn [mbind option_bind]. rewrite K2. cbn [mbind option_bind]. rewrite K3. cbn [mbind option_bind].
    rewrite len_nil. do 2 f_equal. f_equal. lia.
  - unfold sh_extensions in *. cbn [fmap list_fmap concat] in *. rewrite <- !app_assoc in *.
    pose proof (len_nonneg d). pose proof (len_nonneg (concat (sh_ext <$> pre))). autorewrite with bytes in He.
    cbn [snd] in He. autorewrite with bytes in He. cbn [snd fst] in *.
    cbn [keyshare_loop]. rewrite (proj2 (Z.leb_le _ _)) by lia. set (sh := head ++ _). set (tail := concat (sh_ext <$> pre) ++ _ ++ concat (sh_ext <$> post)) in *.
    destruct (ext_header (E := E) sh head t d tail eq_refl) as [-> H2]; [done|done|].
    cbn [mbind comp_bind]. rewrite H2. cbn [mbind comp_bind]. rewrite (proj2 (Z.eqb_neq _ _) Hne).
    set (head' := head ++ sh_ext (t, d)).
    assert (len head + 4 + len d = len head') as -> by (unfold head'; autorewrite with bytes; cbn [snd]; lia).
    assert (sh = head' ++ tail) as -> by (unfold sh, head'; by rewrite <- app_assoc).
    unfold tail. rewrite IH; [|cbn in Hf; lia|].
    + unfold head'. autorewrite with bytes. cbn [snd]. do 2 f_equal. f_equal. f_equal. lia.
    + unfold head'. autorewrite with bytes. cbn [snd]. autorewrite with bytes. lia.
Qed.

Lemma index_first4 {E A} (a b c d : A) l :
  @index E A (a :: b :: c :: d :: l) 0 = Val a /\ @index E A (a :: b :: c :: d :: l) 1 = Val b /\
  @index E A (a :: b :: c :: d :: l) 2 = Val c /\ @index E A (a :: b :: c :: d :: l) 3 = Val d.
Proof. done. Qed.

Lemma sh_exts_length l : (length l <= length (concat (sh_ext <$> l)))%nat.
Proof.
  induction l as [|x l IH]; [done|]. cbn [fmap list_fmap concat length]. rewrite length_app. pose proof (len_sh_ext x).
  pose proof (len_nonneg x.2). unfold len in *. lia.
Qed.

(** A ServerHello as its first 38 bytes, the session id and the rest. *)
Definition sh_head (version rnd : bytes) (n : Z) : bytes := HS_SERVER_HELLO :: be_bytes 3 n ++ version ++ rnd.
Definition sh_tail (cipher compression : Z) (exts : bytes) : bytes :=
  be_bytes 2 cipher ++ [compression] ++ vec16 exts.

Definition sh_body_len (sid exts : bytes) : Z := 40 + len sid + len exts.

Lemma server_hello_wire_eq version rnd sid cipher compression exts :
  length version = 2%nat -> length rnd = 32%nat ->
  server_hello_wire version rnd sid cipher compression exts =
    sh_head version rnd (sh_body_len sid exts) ++ vec8 sid ++ sh_tail cipher compression exts.
Proof.
  intros Hv Hr. unfold server_hello_wire, sh_head, sh_tail, sh_body_len. cbn [app]. rewrite <- !app_assoc. f_equal. f_equal. f_equal.
  autorewrite with bytes. unfold len at 1 2. rewrite Hv, Hr. lia.
Qed.

Lemma len_sh_head version rnd n : length version = 2%nat -> length rnd = 32%nat -> len (sh_head version rnd n) = 38.
Proof. intros Hv Hr. unfold sh_head. autorewrite with bytes. unfold len. rewrite Hv, Hr. lia. Qed.

Section wire.
Context (version rnd sid : bytes) (cipher compression : Z) (pre post : list (Z * bytes)) (group : Z) (key : bytes).
Context (Hversion : length version = 2%nat) (Hrnd : length rnd = 32%nat) (Hsid : len sid <= 255) (Hcipher : uint_ok 16 cipher).
Context (Hpre : Forall sh_ext_ok pre) (Hgroup : uint_ok 16 group).

Let exts := sh_extensions pre group key post.
Context (Hexts : len exts < 2 ^ 16).
Let sh := server_hello_wire version rnd sid cipher compression exts.

Lemma key_short : len key < 2 ^ 16 - 4.
Proof.
  clear -Hexts. unfold exts, sh_extensions in Hexts. autorewrite with bytes in Hexts. cbn [snd] in Hexts. autorewrite with bytes in Hexts.
  pose proof (len_nonneg (concat (sh_ext <$> pre))). pose proof (len_nonneg (concat (sh_ext <$> post))). lia.
Qed.

(** Where the key starts. *)
Definition key_offset : Z := 38 + len (vec8 sid) + 5 + len (concat (sh_ext <$> pre)) + 8.

Lemma sh_sid_len : get_at sh 38 = Some (len sid).
Proof.
  unfold sh. rewrite server_hello_wire_eq by done. unfold vec8. cbn [app]. apply get_at_app. by rewrite len_sh_head.
Qed.

Lemma find_server_keyshare_wire {E} : @find_server_keyshare E sh = Val (Some (group, key_offset, len key)).
Proof.
  unfold find_server_keyshare. change (1 + 3 + 2 + 32) with 38. rewrite sh_sid_len.
  pose proof (len_nonneg sid). pose proof (len_nonneg exts).
  assert (sh = (sh_head version rnd (sh_body_len sid exts) ++ vec8 sid ++ be_bytes 2 cipher ++ [compression]) ++
            be_bytes 2 (len exts) ++ exts) as Hsh.
  { unfold sh. rewrite server_hello_wire_eq by done. unfold sh_tail, vec16. by rewrite <- !app_assoc. }
  set (h := sh_head _ _ _ ++ _) in Hsh.
  assert (len h = 38 + 1 + len sid + 2 + 1) as Hh by (unfold h; autorewrite with bytes; rewrite len_sh_head by done; lia).
  assert (get_u16 sh (38 + 1 + len sid + 2 + 1) = Some (len exts)) as ->.
  { rewrite Hsh. apply get_u16_app; [unfold uint_ok; lia|done]. }
  assert (length pre < S (length sh))%nat as Hfuel.
  { rewrite Hsh, !length_app. unfold exts, sh_extensions. rewrite length_app.
    pose proof (sh_exts_length pre). lia. }
  rewrite Hsh, app_assoc. set (h' := h ++ be_bytes 2 (len exts)).
  assert (38 + 1 + len sid + 2 + 1 + 2 = len h') as -> by (unfold h'; autorewrite with bytes; lia).
  rewrite Hsh, app_assoc in Hfuel. unfold exts. rewrite keyshare_loop_wire; [|done|done|apply key_short|done|].
  - unfold h', key_offset. autorewrite with bytes. rewrite Hh. do 2 f_equal. f_equal. f_equal. lia.
  - fold exts. unfold exts, sh_extensions. cbn [fmap list_fmap concat]. rewrite app_nil_r. autorewrite with bytes.
    pose proof (len_nonneg (concat (sh_ext <$> post))). lia.
Qed.

Lemma server_hello_cipher_suite_wire : server_hello_cipher_suite sh = Some cipher.
Proof.
  unfold server_hello_cipher_suite. change (1 + 3 + 2 + 32) with 38. rewrite sh_sid_len. cbn [mbind option_bind].
  unfold sh. rewrite server_hello_wire_eq, app_assoc by done. unfold sh_tail. apply get_u16_app; [done|].
  autorewrite with bytes. rewrite len_sh_head by done. lia.
Qed.

Lemma server_hello_body_len_wire : server_hello_body_len sh = Val (len sh - 4) /\ 38 <= len sh.
Proof.
  pose proof (len_nonneg sid). pose proof (len_nonneg exts).
  assert (len sh = 4 + sh_body_len sid exts) as Hl.
  { unfold sh. rewrite server_hello_wire_eq by done. unfold sh_tail. autorewrite with bytes. rewrite len_sh_head by done.
    unfold sh_body_len. lia. }
  rewrite Hl. split; [|unfold sh_body_len; lia]. unfold server_hello_body_len. rewrite Hl, (proj2 (Z.ltb_ge _ _)) by (unfold sh_body_len; lia).
  unfold sh. rewrite server_hello_wire_eq by done. unfold sh_head. rewrite <- app_comm_cons.
  set (n := sh_body_len sid exts). cbn [be_bytes]. cbn [index app].
  destruct (index_first4 (E := FlightError) HS_SERVER_HELLO ((n / 256 ^ Z.of_nat 2) mod 256) ((n / 256 ^ Z.of_nat 1) mod 256)
    ((n / 256 ^ Z.of_nat 0) mod 256) ((version ++ rnd) ++ vec8 sid ++ sh_tail cipher compression exts)) as (-> & I1 & I2 & I3).
  cbn [mbind comp_bind]. change (HS_SERVER_HELLO =? HS_SERVER_HELLO) with true. cbn [negb].
  rewrite I1. cbn [mbind comp_bind]. rewrite I2. cbn [mbind comp_bind]. rewrite I3. cbn [mbind comp_bind]. f_equal.
  replace (4 + n - 4) with n by lia. change (be_val (0 :: be_bytes 3 n) = n). cbn [be_val length].
  rewrite be_val_be_bytes by (unfold n, sh_body_len; change (256 ^ Z.of_nat 3) with (2 ^ 24); lia). lia.
Qed.

Lemma validate_wire : validate_server_hello_template sh = Val tt.
Proof.
  unfold validate_server_hello_template. destruct server_hello_body_len_wire as [-> _]. cbn [mbind comp_bind].
  rewrite fail_if_pass by (by rewrite Z.eqb_refl). rewrite find_server_keyshare_wire. cbn [mbind comp_bind ok_or lift].
  by rewrite server_hello_cipher_suite_wire.
Qed.

(** The random and the session id are replaced and the length is corrected. *)
Lemma rewrite_wire rnd' sid' :
  length rnd' = 32%nat -> len sid' <= 255 ->
  rewrite_random_and_session_id sh sid' rnd' = Val (server_hello_wire version rnd' sid' cipher compression exts).
Proof.
  intros Hr Hs. pose proof (len_nonneg sid). pose proof (len_nonneg sid'). pose proof (len_nonneg exts).
  unfold rewrite_random_and_session_id. destruct server_hello_body_len_wire as [-> _]. cbn [mbind comp_bind].
  change (4 + 2 + 32) with 38. rewrite sh_sid_len. cbn [ok_or lift mbind comp_bind]. unfold checked_add.
  rewrite (proj2 (Z.leb_le _ _)) by (unfold usize_max, u64_max; lia). cbn [ok_or lift mbind comp_bind id].
  assert (sh = (HS_SERVER_HELLO :: be_bytes 3 (sh_body_len sid exts) ++ version) ++ (rnd ++ vec8 sid) ++ sh_tail cipher compression exts) as Hsh.
  { unfold sh. rewrite server_hello_wire_eq by done. unfold sh_head. cbn [app]. by rewrite <- !app_assoc. }
  set (h := _ :: _) in Hsh. assert (len h = 6) as Hh by (unfold h; autorewrite with bytes; unfold len; rewrite Hversion; lia).
  assert (len (rnd ++ vec8 sid) = 33 + len sid) as Hm by (autorewrite with bytes; unfold len at 1; rewrite Hrnd; lia).
  rewrite fail_if_pass.
  2:{ apply Z.ltb_ge. rewrite Hsh. rewrite !(len_app h), (len_app (rnd ++ _)), Hm. pose proof (len_nonneg (sh_tail cipher compression exts)). lia. }
  assert (@slice FlightError Z sh 0 (4 + 2) = Val h) as -> by (rewrite Hsh; apply (slice_app []); [done|by rewrite Hh]).
  cbn [mbind comp_bind]. assert (@slice FlightError Z sh (38 + (1 + len sid)) (len sh) = Val (sh_tail cipher compression exts)) as ->.
  { rewrite Hsh, app_assoc. apply slice_tail; rewrite ?(len_app (h ++ _)), !(len_app h), ?Hm; lia. }
  cbn [mbind comp_bind]. set (out := h ++ _).
  assert (len out - 4 = sh_body_len sid' exts) as ->.
  { unfold out, sh_tail. autorewrite with bytes. rewrite Hh. unfold len at 1. rewrite Hr. unfold sh_body_len. lia. }
  assert (out = [HS_SERVER_HELLO] ++ be_bytes 3 (sh_body_len sid exts) ++ (version ++ rnd' ++ vec8 sid' ++ sh_tail cipher compression exts)) as ->.
  { unfold out, h, vec8, as_u8. rewrite Z.mod_small by lia. cbn [app]. by rewrite <- !app_assoc. }
  set (v := version ++ _). pose proof (len_nonneg v). unfold copy_into. rewrite u24_bytes_be, len_be_bytes, !len_app, len_be_bytes.
  rewrite (proj2 (Z.leb_le 4 _)) by (change (len [HS_SERVER_HELLO]) with 1; lia).
  change ((0 <=? 1) && (1 <=? 4) && true && (Z.of_nat 3 =? 4 - 1)) with true. cbv iota. f_equal.
  rewrite server_hello_wire_eq by done. unfold sh_head, v. change (Z.to_nat 1) with (length [HS_SERVER_HELLO]).
  rewrite take_app_length. change (Z.to_nat 4) with (length ([HS_SERVER_HELLO] ++ be_bytes 3 (sh_body_len sid exts))).
  rewrite (app_assoc [_] (be_bytes 3 (sh_body_len sid exts))), drop_app_length. cbn [app]. by rewrite <- !app_assoc.
Qed.

(** The bytes before the key depend on its length only. *)
Definition key_head : bytes :=
  sh_head version rnd (sh_body_len sid exts) ++ vec8 sid ++ be_bytes 2 cipher ++ [compression] ++ be_bytes 2 (len exts) ++
  concat (sh_ext <$> pre) ++ be_bytes 2 EXT_KEY_SHARE ++ be_bytes 2 (4 + len key) ++ be_bytes 2 group ++ be_bytes 2 (len key).

Lemma len_key_head : len key_head = key_offset.
Proof. unfold key_head, key_offset. autorewrite with bytes. rewrite len_sh_head by done. lia. Qed.

Lemma sh_key_split k :
  length k = length key ->
  server_hello_wire version rnd sid cipher compression (sh_extensions pre group k post) =
    key_head ++ k ++ concat (sh_ext <$> post).
Proof.
  intros Hkk. assert (len k = len key) as Hkl by (unfold len; congruence).
  assert (len (sh_extensions pre group k post) = len exts) as Hle.
  { unfold exts, sh_extensions. autorewrite with bytes. cbn [snd]. autorewrite with bytes. lia. }
  rewrite server_hello_wire_eq by done. unfold sh_body_len, sh_tail, vec16 at 1. rewrite Hle. unfold key_head.
  unfold sh_extensions, sh_ext at 2. cbn [fst snd]. unfold vec16 at 1. autorewrite with bytes. rewrite Hkl.
  replace (Z.of_nat 2 + (2 + len key)) with (4 + len key) by lia. unfold vec16, sh_body_len. rewrite Hkl. by rewrite <- !app_assoc.
Qed.

(** The key is where [find_server_keyshare] says. *)
Lemma key_at_offset : get_range sh key_offset (key_offset + len key) = Some key.
Proof. unfold sh, exts. rewrite sh_key_split, <- len_key_head by done. apply get_range_app. Qed.

(** Copying a key of the same length over the old one. *)
Lemma copy_key_wire {E} key' :
  length key' = length key ->
  @copy_into E sh key_offset (key_offset + len key) key' =
    Val (server_hello_wire version rnd sid cipher compression (sh_extensions pre group key' post)).
Proof.
  intros Hk. assert (len key' = len key) as Hkl by (unfold len; congruence).
  unfold sh, exts. rewrite !sh_key_split by done. rewrite <- len_key_head. pose proof (len_nonneg key).
  set (h := key_head). unfold copy_into. rewrite !len_app, Hkl. pose proof (len_nonneg h). pose proof (len_nonneg (concat (sh_ext <$> post))).
  rewrite !(proj2 (Z.leb_le _ _)) by lia. replace (len h + len key - len h) with (len key) by lia. rewrite Z.eqb_refl. cbn [andb].
  f_equal. unfold len. rewrite Nat2Z.id, take_app_length. f_equal. f_equal. rewrite app_assoc. apply drop_app_len. rewrite length_app. lia.
Qed.
End wire.

(** The conditions of the section above, as one predicate on a template. *)
Record template_ok (version rnd sid : bytes) (cipher : Z) (pre : list (Z * bytes)) (group : Z) (key : bytes) (post : list (Z * bytes)) : Prop :=
  mk_template_ok {
    t_version : length version = 2%nat; t_rnd : length rnd = 32%nat; t_sid : len sid <= 255; t_cipher : uint_ok 16 cipher;
    t_pre : Forall sh_ext_ok pre; t_group : uint_ok 16 group; t_exts : len (sh_extensions pre group key post) < 2 ^ 16 }.

Lemma synthesize_wire version rnd sid cipher compression pre group key post client key' rnd' :
  template_ok version rnd sid cipher pre group key post -> length rnd' = 32%nat ->
  synthesize_server_hello (server_hello_wire version rnd sid cipher compression (sh_extensions pre group key post)) client key' rnd' =
    if negb (offers_tls13 (ch_offers client)) then Fail Tls13NotOffered
    else if 32 <? len (session_id client) then Fail SessionIdTooLong
    else
      match from_u16 cipher with
      | None => Fail (UnsupportedCipherSuite cipher)
      | Some suite =>
          if negb (cipher_offered client cipher) then Fail (CipherNotOffered cipher)
          else if negb (keyshare_group_offered client group) then Fail (KeyShareGroupNotOffered group)
          else if negb (len key =? len key') then Fail (KeyShareLengthMismatch group (len key) (len key'))
          else
            Val (mk_SynthesizedServerHello
                   (server_hello_wire version rnd' (session_id client) cipher compression (sh_extensions pre group key' post))
                   suite group)
      end.
Proof.
  intros [Hv Hr Hs Hc Hp Hg He] Hr'. unfold synthesize_server_hello. rewrite validate_wire by done. cbn [mbind comp_bind].
  unfold fail_if. destruct (negb (offers_tls13 _)); [done|]. cbn [mbind comp_bind].
  destruct (32 <? len (session_id client)) eqn:Es; [done|]. apply Z.ltb_ge in Es. cbn [mbind comp_bind].
  rewrite server_hello_cipher_suite_wire by done. cbn [ok_or lift mbind comp_bind id].
  destruct (from_u16 cipher) as [s|]; [|done]. cbn [ok_or lift mbind comp_bind id].
  destruct (negb (cipher_offered _ _)); [done|]. cbn [mbind comp_bind].
  rewrite find_server_keyshare_wire by done. cbn [ok_or lift mbind comp_bind id].
  destruct (negb (keyshare_group_offered _ _)); [done|]. cbn [mbind comp_bind].
  destruct (len key =? len key') eqn:Ek; [|done]. apply Z.eqb_eq in Ek. cbn [negb mbind comp_bind].
  rewrite rewrite_wire by (done || lia). cbn [mbind comp_bind].
  rewrite find_server_keyshare_wire by (done || lia). cbn [ok_or lift mbind comp_bind id].
  rewrite copy_key_wire by (done || lia || (unfold len in Ek; lia)). done.
Qed.

Lemma template_is_wire c g :
  server_hello_template c g =
    server_hello_wire [3; 3] (replicate 32 0) [] (to_u16 c) 0 (sh_extensions [(0x002b, [3; 4])] g (replicate 32 0) []).
Proof. reflexivity. Qed.

Lemma template_is_ok c g :
  uint_ok 16 g -> template_ok [3; 3] (replicate 32 0) [] (to_u16 c) [(0x002b, [3; 4])] g (replicate 32 0) [].
Proof.
  intros Hg. split; try done.
  - by destruct c.
  - apply Forall_cons_2; [|apply Forall_nil_2]. repeat split; done.
Qed.

(** * Theorems *)

(** The ServerHello is what the client can use.  From a template in the wire
    format, with any extensions around its key share, [synthesize_server_hello]
    gives exactly the template with fresh random bytes, the session id of the
    client, the key share of the server and the corrected length; the checks come
    in the order of the code, each with its error. *)
Theorem server_hello_synthesized version rnd sid cipher compression pre group key post client key' rnd' :
  template_ok version rnd sid cipher pre group key post -> length rnd' = 32%nat ->
  synthesize_server_hello (server_hello_wire version rnd sid cipher compression (sh_extensions pre group key post)) client key' rnd' =
    if negb (offers_tls13 (ch_offers client)) then Fail Tls13NotOffered
    else if 32 <? len (session_id client) then Fail SessionIdTooLong
    else
      match from_u16 cipher with
      | None => Fail (UnsupportedCipherSuite cipher)
      | Some suite =>
          if negb (cipher_offered client cipher) then Fail (CipherNotOffered cipher)
          else if negb (keyshare_group_offered client group) then Fail (KeyShareGroupNotOffered group)
          else if negb (len key =? len key') then Fail (KeyShareLengthMismatch group (len key) (len key'))
          else
            Val (mk_SynthesizedServerHello
                   (server_hello_wire version rnd' (session_id client) cipher compression (sh_extensions pre group key' post))
                   suite group)
      end.
Proof. apply synthesize_wire. Qed.

(** A client that offers one suite and one share. *)
Definition toy_client (sid : bytes) (share : bytes) : client_hello :=
  mk_client_hello (replicate 32 1) sid [0x1301] (mk_offers None [mk_key_share GROUP_X25519 share] [0x0403] true []) [].

Lemma server_hello_synthesized_witness :
  synthesize_server_hello
      (server_hello_wire [3; 3] (replicate 32 0) [] 0x1301 0 (sh_extensions [(0x002b, [3; 4])] GROUP_X25519 (replicate 32 0) []))
      (toy_client [7; 7] (replicate 32 5)) (replicate 32 9) (replicate 32 8) =
    Val (mk_SynthesizedServerHello
           (server_hello_wire [3; 3] (replicate 32 8) [7; 7] 0x1301 0 (sh_extensions [(0x002b, [3; 4])] GROUP_X25519 (replicate 32 9) []))
           Aes128GcmSha256 GROUP_X25519).
Proof.
  apply (server_hello_synthesized [3; 3] (replicate 32 0) [] 0x1301 0 [(0x002b, [3; 4])] GROUP_X25519 (replicate 32 0) []
    (toy_client [7; 7] (replicate 32 5)) (replicate 32 9) (replicate 32 8)).
  - apply (template_is_ok Aes128GcmSha256). split; [discriminate|reflexivity].
  - reflexivity.
Defined.
