(* ===== verification/TlsCert.v ===== *)
(** [src/tls/cert.rs]: PEM files, the signing key, and the certificate messages.

    The base64 decoder, the key parsers and signatures of ring and the X.509 parser
    are third-party code, the functions of the class [Ring]; the contents of files
    and the random bytes of a signature are arguments. *)

From S2P Require Import Prelude TlsMessages.

(** * The interface of the libraries *)

Class Ring := {
  key_pair : Type;
  standard_decode : bytes -> option bytes;
  rsa_from_der : bytes -> option key_pair;
  rsa_from_pkcs8 : bytes -> option key_pair;
  ecdsa_p256_from_pkcs8 : bytes -> option key_pair;
  ecdsa_p384_from_pkcs8 : bytes -> option key_pair;
  ed25519_from_pkcs8 : bytes -> option key_pair;
  pair_public : key_pair -> bytes;
  sign_raw : Z -> key_pair -> bytes -> bytes -> option bytes;
  ed25519_sign : key_pair -> bytes -> bytes;
  subject_public_key : bytes -> option bytes }.

(** * Errors and keys *)

Inductive sign_error : Type := UnsupportedPrivateKey | UnsupportedSignatureScheme (s : Z) | SigningFailed.

Inductive cert_error : Type :=
| MissingCertificate | MissingPrivateKey | Pem | InvalidCertificate | CertificateKeyMismatch | CSigningKey (e : sign_error).

Inductive cert_verify_error : Type := NoSupportedSignatureScheme | Signing (e : sign_error).

Inductive PrivateKeyDer : Type := Pkcs1 (der : bytes) | Sec1 (der : bytes) | Pkcs8 (der : bytes).

Definition ECDSA_NISTP256_SHA256 : Z := 0x0403.
Definition ECDSA_NISTP384_SHA384 : Z := 0x0503.
Definition RSA_PSS_SHA256 : Z := 0x0804.
Definition RSA_PSS_SHA384 : Z := 0x0805.
Definition RSA_PSS_SHA512 : Z := 0x0806.
Definition ED25519 : Z := 0x0807.

Definition SERVER_CERT_VERIFY_CONTEXT : bytes := bytes_of_string "TLS 1.3, server CertificateVerify".

(** * Lines *)

Definition strip_cr (l : bytes) : bytes := default l (strip_suffix [13] l).

(** [str::lines]: a line feed or a carriage return and a line feed end a line; the
    last line needs none. *)
Fixpoint trim_lines (l : list bytes) : list bytes :=
  match l with
  | [] => []
  | [x] => match x with [] => [] | _ => [x] end
  | x :: l' => strip_cr x :: trim_lines l'
  end.

Definition lines (text : bytes) : list bytes := trim_lines (split_on 10 text).

Definition is_ascii_whitespace (b : Z) : bool := (b =? 32) || (b =? 9) || (b =? 10) || (b =? 12) || (b =? 13).

(** * PEM *)

Record PemSection := mk_PemSection { label : bytes; der : bytes }.

Definition begin_label (line : bytes) : option bytes :=
  strip_prefix (bytes_of_string "-----BEGIN ") line ≫= strip_suffix (bytes_of_string "-----").

Definition end_line (l : bytes) : bytes := bytes_of_string "-----END " ++ l ++ bytes_of_string "-----".

Section cert.
Context `{Ring}.

(** The inner loop is the state [Some (label, body)]. *)
Fixpoint pem_loop (open_section : option (bytes * bytes)) (ls : list bytes) : result cert_error (list PemSection) :=
  match ls, open_section with
  | [], None => Ok []
  | [], Some _ => Err Pem
  | line :: ls', None =>
      match begin_label line with
      | None => pem_loop None ls'
      | Some l => pem_loop (Some (l, [])) ls'
      end
  | line :: ls', Some (l, body) =>
      if bytes_eqb line (end_line l) then
        d ← ok_or (standard_decode body) Pem;
        rest ← pem_loop None ls';
        Ok (mk_PemSection l d :: rest)
      else pem_loop (Some (l, body ++ List.filter (fun b => negb (is_ascii_whitespace b)) line)) ls'
  end.

Definition pem_sections (input : bytes) : result cert_error (list PemSection) :=
  if utf8_valid input then pem_loop None (lines input) else Err Pem.

Definition load_cert_chain (file : bytes) : result cert_error (list bytes) :=
  sections ← pem_sections file;
  let cert_chain := der <$> List.filter (fun s => bytes_eqb (label s) (bytes_of_string "CERTIFICATE")) sections in
  match cert_chain with [] => Err MissingCertificate | _ => Ok cert_chain end.

Fixpoint find_key (ss : list PemSection) : result cert_error PrivateKeyDer :=
  match ss with
  | [] => Err MissingPrivateKey
  | s :: ss' =>
      if bytes_eqb (label s) (bytes_of_string "RSA PRIVATE KEY") then Ok (Pkcs1 (der s))
      else if bytes_eqb (label s) (bytes_of_string "EC PRIVATE KEY") then Ok (Sec1 (der s))
      else if bytes_eqb (label s) (bytes_of_string "PRIVATE KEY") then Ok (Pkcs8 (der s))
      else find_key ss'
  end.

Definition load_private_key (file : bytes) : result cert_error PrivateKeyDer :=
  sections ← pem_sections file; find_key sections.

(** * Signing keys *)

Inductive RingSigningKey : Type :=
| Rsa (k : key_pair) | EcdsaP256 (k : key_pair) | EcdsaP384 (k : key_pair) | Ed25519 (k : key_pair).

Definition parse_rsa_key (key : PrivateKeyDer) : option key_pair :=
  match key with Pkcs1 d => rsa_from_der d | Pkcs8 d => rsa_from_pkcs8 d | Sec1 _ => None end.

Definition from_private_key (key : PrivateKeyDer) : result sign_error RingSigningKey :=
  match parse_rsa_key key with
  | Some k => Ok (Rsa k)
  | None =>
      match key with
      | Pkcs8 d =>
          match ecdsa_p256_from_pkcs8 d with
          | Some k => Ok (EcdsaP256 k)
          | None =>
              match ecdsa_p384_from_pkcs8 d with
              | Some k => Ok (EcdsaP384 k)
              | None =>
                  match ed25519_from_pkcs8 d with
                  | Some k => Ok (Ed25519 k)
                  | None => Err UnsupportedPrivateKey
                  end
              end
          end
      | _ => Err UnsupportedPrivateKey
      end
  end.

Definition public_key (k : RingSigningKey) : bytes :=
  match k with Rsa p | EcdsaP256 p | EcdsaP384 p | Ed25519 p => pair_public p end.

(** A [Signer]: the key and the scheme it signs with. *)
Record signer := mk_signer { signer_key : RingSigningKey; scheme : Z }.

Definition choose_first (offered allowed : list Z) : option Z :=
  find (fun s => existsb (Z.eqb s) allowed) offered.

Definition choose_scheme (k : RingSigningKey) (offered : list Z) : option signer :=
  match k with
  | Rsa _ => mk_signer k <$> choose_first offered [RSA_PSS_SHA256; RSA_PSS_SHA384; RSA_PSS_SHA512]
  | EcdsaP256 _ => if existsb (Z.eqb ECDSA_NISTP256_SHA256) offered then Some (mk_signer k ECDSA_NISTP256_SHA256) else None
  | EcdsaP384 _ => if existsb (Z.eqb ECDSA_NISTP384_SHA384) offered then Some (mk_signer k ECDSA_NISTP384_SHA384) else None
  | Ed25519 _ => if existsb (Z.eqb ED25519) offered then Some (mk_signer k ED25519) else None
  end.

Definition sign (s : signer) (message rng : bytes) : result sign_error bytes :=
  match signer_key s with
  | Rsa k =>
      if existsb (Z.eqb (scheme s)) [RSA_PSS_SHA256; RSA_PSS_SHA384; RSA_PSS_SHA512]
      then ok_or (sign_raw (scheme s) k message rng) SigningFailed
      else Err (UnsupportedSignatureScheme (scheme s))
  | EcdsaP256 k | EcdsaP384 k => ok_or (sign_raw (scheme s) k message rng) SigningFailed
  | Ed25519 k => Ok (ed25519_sign k message)
  end.

(** * Identity *)

Record CertifiedIdentity := mk_CertifiedIdentity { cert_chain : list bytes; signing_key : RingSigningKey }.

Definition identity_new (chain : list bytes) (k : RingSigningKey) : result cert_error CertifiedIdentity :=
  match chain with [] => Err MissingCertificate | _ => Ok (mk_CertifiedIdentity chain k) end.

(** [cert_chain[0]] panics on an empty chain. *)
Definition from_config (cert_file key_file : bytes) : comp cert_error CertifiedIdentity :=
  chain ← lift id (load_cert_chain cert_file);
  private_key ← lift id (load_private_key key_file);
  k ← lift CSigningKey (from_private_key private_key);
  leaf ← index chain 0;
  spk ← lift id (ok_or (subject_public_key leaf) InvalidCertificate);
  _ ← fail_if (negb (bytes_eqb spk (public_key k))) CertificateKeyMismatch;
  lift id (identity_new chain k).

(** * Messages *)

Definition push_u24 (n : Z) : bytes := u24_bytes (wrap 32 n).

Definition certificate_entry (c : bytes) : bytes := push_u24 (len c) ++ c ++ be_bytes 2 0.

Definition certificate_message (chain : list bytes) : bytes :=
  let cert_list := concat (certificate_entry <$> chain) in
  handshake_message HS_CERTIFICATE ([0] ++ push_u24 (len cert_list) ++ cert_list).

Definition certificate_verify_content (transcript_hash : bytes) : bytes :=
  replicate 64 0x20 ++ SERVER_CERT_VERIFY_CONTEXT ++ [0] ++ transcript_hash.

Definition certificate_verify_message (scheme : Z) (signature : bytes) : bytes :=
  handshake_message HS_CERTIFICATE_VERIFY (be_bytes 2 scheme ++ be_bytes 2 (wrap 16 (len signature)) ++ signature).

Definition sign_certificate_verify (i : CertifiedIdentity) (transcript_hash : bytes) (offered : list Z) (rng : bytes) :
    result cert_verify_error bytes :=
  s ← ok_or (choose_scheme (signing_key i) offered) NoSupportedSignatureScheme;
  signature ← map_err Signing (sign s (certificate_verify_content transcript_hash) rng);
  Ok (certificate_verify_message (scheme s) signature).
End cert.

(** * Text files as lines *)

(** A line and whether a carriage return ends it. *)
Definition text_line (x : bytes * bool) : bytes := x.1 ++ (if x.2 then [13; 10] else [10]).

Definition line_ok (l : bytes) : Prop := Forall (fun b => b <> 10) l /\ list.last l <> Some 13.

Lemma strip_cr_none l : list.last l <> Some 13 -> strip_cr l = l.
Proof.
  intros Hl. unfold strip_cr, strip_suffix. destruct l as [|x l _] using rev_ind; [done|].
  rewrite last_snoc in Hl. rewrite rev_app_distr. change (rev [13]) with [13]. cbn [rev app strip_prefix].
  destruct (13 =? x) eqn:Eb; [|done]. split_bool. congruence.
Qed.

Lemma lines_text ls : Forall line_ok ls.*1 -> lines (concat (text_line <$> ls)) = ls.*1.
Proof.
  unfold lines. induction ls as [|[l cr] ls IH]; [done|]. cbn [fmap list_fmap fst]. intros Hok.
  apply list.Forall_cons in Hok as [[Hl Hcr] Hok]. cbn [concat]. unfold text_line at 1. cbn [fst snd]. specialize (IH Hok).
  assert (forall m, Forall (fun b => b <> 10) m ->
    trim_lines (split_on 10 (m ++ 10 :: concat (text_line <$> ls))) = strip_cr m :: ls.*1) as Hstep.
  { intros m Hm. rewrite split_on_app by done. cbn [trim_lines]. rewrite IH. destruct (split_on 10 _) eqn:Es; [|done].
    by destruct (split_on_nonempty 10 (concat (text_line <$> ls))). }
  destruct cr; rewrite <- app_assoc; cbn [app].
  - replace (l ++ 13 :: 10 :: concat (text_line <$> ls)) with ((l ++ [13]) ++ 10 :: concat (text_line <$> ls)) by (by rewrite <- app_assoc).
    rewrite Hstep by (apply Forall_app; repeat constructor; done). unfold strip_cr. by rewrite strip_suffix_app.
  - rewrite Hstep by done. by rewrite strip_cr_none.
Qed.

(** * PEM files *)

(** A file is sections between lines that start none. *)
Inductive pem_item : Type :=
| Junk (line : bytes)
| Section_ (l : bytes) (body : list bytes).

Definition begin_line (l : bytes) : bytes := bytes_of_string "-----BEGIN " ++ l ++ bytes_of_string "-----".

Definition item_lines (i : pem_item) : list bytes :=
  match i with Junk line => [line] | Section_ l body => begin_line l :: body ++ [end_line l] end.

Definition item_ok (i : pem_item) : Prop :=
  match i with Junk line => begin_label line = None | Section_ l body => Forall (fun x => x <> end_line l) body end.

Definition item_body (body : list bytes) : bytes := List.filter (fun b => negb (is_ascii_whitespace b)) (concat body).

Lemma begin_label_line l : begin_label (begin_line l) = Some l.
Proof. unfold begin_label, begin_line. rewrite strip_prefix_app. cbn [mbind option_bind]. apply strip_suffix_app. Qed.

Section pem.
Context `{Ring}.

Fixpoint item_sections (items : list pem_item) : result cert_error (list PemSection) :=
  match items with
  | [] => Ok []
  | Junk _ :: items' => item_sections items'
  | Section_ l body :: items' =>
      d ← ok_or (standard_decode (item_body body)) Pem;
      rest ← item_sections items';
      Ok (mk_PemSection l d :: rest)
  end.

Lemma pem_loop_body l acc body rest :
  Forall (fun x => x <> end_line l) body ->
  pem_loop (Some (l, acc)) (body ++ rest) = pem_loop (Some (l, acc ++ item_body body)) rest.
Proof.
  intros Hb. revert acc. unfold item_body. induction Hb as [|x body Hx _ IH]; intros acc; cbn [app concat].
  - by rewrite app_nil_r.
  - cbn [pem_loop]. unfold bytes_eqb. rewrite bool_decide_false by done. by rewrite IH, List.filter_app, app_assoc.
Qed.

Lemma pem_loop_items items : Forall item_ok items -> pem_loop None (concat (item_lines <$> items)) = item_sections items.
Proof.
  induction 1 as [|i items Hi _ IH]; [done|]. cbn [fmap list_fmap concat]. destruct i as [line|l body]; cbn [item_lines item_sections app].
  - cbn [pem_loop]. change (begin_label line = None) in Hi. by rewrite Hi.
  - cbn [pem_loop]. rewrite begin_label_line, <- app_assoc, pem_loop_body by done. cbn [app pem_loop].
    by rewrite bytes_eqb_refl, IH.
Qed.
End pem.

(** * Theorems *)

(** PEM files are read as they are written.  For any UTF-8 file whose lines,
    each ended by a line feed or a carriage return and a line feed, are sections
    between lines that begin none, [pem_sections] gives every section in order with
    its label and the base64 decoding of its body without white space, and fails
    exactly when a body does not decode. *)
Theorem pem_file_read `{Ring} items ls :
  ls.*1 = concat (item_lines <$> items) -> Forall line_ok ls.*1 -> Forall item_ok items ->
  utf8_valid (concat (text_line <$> ls)) = true ->
  pem_sections (concat (text_line <$> ls)) = item_sections items.
Proof.
  intros Hls Hok Hitems Hutf. unfold pem_sections. rewrite Hutf, lines_text by done. rewrite Hls. by apply pem_loop_items.
Qed.

(** The certificate belongs to the key.  Loading an identity never panics; an
    identity that loads has a non-empty chain, the certificates of the file in
    order, a signing key made from the first private key of the key file, and a
    leaf whose subject public key is the public key it signs with. *)
Theorem identity_matches_key `{Ring} cert_file key_file :
  graceful (from_config cert_file key_file) /\
  forall i, from_config cert_file key_file = Val i ->
    exists leaf rest sections key_sections key,
      cert_chain i = leaf :: rest /\
      pem_sections cert_file = Ok sections /\
      cert_chain i = der <$> List.filter (fun s => bytes_eqb (label s) (bytes_of_string "CERTIFICATE")) sections /\
      pem_sections key_file = Ok key_sections /\ find_key key_sections = Ok key /\
      from_private_key key = Ok (signing_key i) /\
      subject_public_key leaf = Some (public_key (signing_key i)).
Proof.
  unfold from_config, load_cert_chain, load_private_key.
  destruct (pem_sections cert_file) as [cs|e] eqn:Ec; cbn [mbind result_bind lift comp_bind id]; [|done].
  set (chain := der <$> _). destruct chain as [|leaf rest] eqn:Eq; cbn [lift mbind comp_bind id]; [done|].
  destruct (pem_sections key_file) as [ks|e] eqn:Ek; cbn [mbind result_bind lift comp_bind id]; [|done].
  destruct (find_key ks) as [key|e] eqn:Ef; cbn [lift mbind comp_bind id]; [|done].
  destruct (from_private_key key) as [k|e] eqn:Ep; cbn [lift mbind comp_bind id]; [|done].
  change (@index cert_error bytes (leaf :: rest) 0) with (@Val cert_error bytes leaf). cbn [mbind comp_bind].
  destruct (subject_public_key leaf) as [spk|] eqn:Es; cbn [ok_or lift mbind comp_bind id]; [|done].
  destruct (bytes_eqb spk (public_key k)) eqn:Eb; cbn [negb fail_if mbind comp_bind identity_new lift id]; [|done].
  split; [done|]. intros i Hi. apply Val_inj in Hi as <-. apply bytes_eqb_eq in Eb as ->. cbn [cert_chain signing_key].
  exists leaf, rest, cs, ks, key. repeat split; done.
Qed.

(** * Functions for the witnesses *)

(** Hexadecimal digits in place of base64, and keys that are their own public
    key. *)
Fixpoint toy_decode (l : bytes) : option bytes :=
  match l with
  | [] => Some []
  | b :: l' => if (48 <=? b) && (b <=? 57) then cons (b - 48) <$> toy_decode l' else None
  end.

Definition toy_ring : Ring := {|
  key_pair := bytes;
  standard_decode := toy_decode;
  rsa_from_der := fun d => Some d;
  rsa_from_pkcs8 := fun _ => None;
  ecdsa_p256_from_pkcs8 := fun d => Some d;
  ecdsa_p384_from_pkcs8 := fun d => Some d;
  ed25519_from_pkcs8 := fun d => Some d;
  pair_public := fun k => k;
  sign_raw := fun s k m rng => Some (k ++ rng);
  ed25519_sign := fun k m => k;
  subject_public_key := fun d => Some d |}.

#[local] Existing Instance toy_ring.

Definition toy_items : list pem_item :=
  [Junk (bytes_of_string "leaf"); Section_ (bytes_of_string "CERTIFICATE") [bytes_of_string "12 3"; bytes_of_string "45"]].

Definition toy_lines : list (bytes * bool) := (fun l => (l, true)) <$> concat (item_lines <$> toy_items).

Lemma pem_file_read_witness :
  pem_sections (concat (text_line <$> toy_lines)) = Ok [mk_PemSection (bytes_of_string "CERTIFICATE") [1; 2; 3; 4; 5]].
Proof.
  change (Ok [mk_PemSection (bytes_of_string "CERTIFICATE") [1; 2; 3; 4; 5]]) with (item_sections toy_items).
  apply pem_file_read.
  - reflexivity.
  - apply (bool_decide_unpack (Forall (fun l => Forall (fun b => b <> 10) l /\ list.last l <> Some 13) toy_lines.*1)). vm_compute. exact I.
  - apply Forall_cons_2; [vm_compute; reflexivity|]. apply Forall_cons_2; [|apply Forall_nil_2].
    repeat (apply Forall_cons_2; [discriminate|]). apply Forall_nil_2.
  - vm_compute. reflexivity.
Defined.

Definition toy_pem (l body : string) : bytes :=
  begin_line (bytes_of_string l) ++ [10] ++ bytes_of_string body ++ [10] ++ end_line (bytes_of_string l) ++ [10].

Lemma identity_matches_key_witness :
  exists i, from_config (toy_pem "CERTIFICATE" "12") (toy_pem "PRIVATE KEY" "12") = Val i /\
    subject_public_key (default [] (head (cert_chain i))) = Some (public_key (signing_key i)).
Proof.
  eexists (mk_CertifiedIdentity [[1; 2]] (EcdsaP256 _)). split; [vm_compute; reflexivity|].
  destruct (identity_matches_key (toy_pem "CERTIFICATE" "12") (toy_pem "PRIVATE KEY" "12")) as [_ Hi].
  destruct (Hi (mk_CertifiedIdentity [[1; 2]] (EcdsaP256 ([1; 2] : @key_pair toy_ring))) ltac:(vm_compute; reflexivity))
    as (leaf & rest & _ & _ & _ & [= <- <-] & _ & _ & _ & _ & _ & Hs). exact Hs.
Defined.
