(* ===== verification/TlsHandshake.v ===== *)
(** [src/tls/tls13/handshake.rs], the server flight of [src/tls/tls13/flight.rs] and
    the handshake of [src/tls/nginx_backend.rs].

    Everything the handshake draws at random is an argument: the X25519 secret, the
    random bytes of the ServerHello and those of the signature. *)

From S2P Require Import Prelude ClientHello TlsRecord TlsKeys TlsMessages TlsCert.

(** [map_err] and [#[from]] conversions of the error of a computation. *)
Definition from_err {E F A} (f : E -> F) (m : comp E A) : comp F A :=
  match m with Val a => Val a | Fail e => Fail (f e) | Crash => Crash | Diverge => Diverge end.

Record ServerHandshakeFlight := mk_ServerHandshakeFlight {
  server_hello : bytes; change_cipher_spec : bytes; encrypted_handshake_plaintext : bytes;
  encrypted_handshake_record : bytes; server_finished : bytes; transcript_hash_to_server_finished : bytes }.

Inductive PrepareError : Type :=
| PClientHello (e : parse_error)
| MissingTemplateKeyShare
| MissingClientKeyShare (group : Z)
| MissingSignatureAlgorithms
| PKeyShare (e : KeyShareError)
| PFlight (e : FlightError)
| PCertificateVerify (e : cert_verify_error).

Inductive ClientFinishedError : Type := FinishedMalformed | VerifyDataMismatch.

Inductive handshake_error : Type :=
| HRead (e : tls_error)
| HClientHello (e : parse_error)
| NoSharedCipherSuite
| HPrepare (e : PrepareError)
| HClientFinished (e : ClientFinishedError)
| RecordAuthentication
| UnexpectedInnerContentType (t : Z).

Section handshake.
Context `{TlsAead} `{TlsHash} `{X25519} `{Ring}.

Definition build_server_handshake_flight (selected : SynthesizedServerHello) (schedule : KeySchedule)
    (transcript_before_server_hello ee certificate certificate_verify : bytes) : comp FlightError ServerHandshakeFlight :=
  _ ← fail_if (negb (bool_decide (ks_hash schedule = suite_hash (suite selected)))) CipherHashMismatch;
  let transcript := transcript_before_server_hello ++ message selected ++ ee ++ certificate ++ certificate_verify in
  let th := hash (ks_hash schedule) transcript in
  verify_data ← finished_verify_data schedule (server_hs_traffic schedule) th;
  let server_finished := finished_message verify_data in
  let plaintext := ee ++ certificate ++ certificate_verify ++ server_finished in
  tk ← traffic_keys schedule (server_hs_traffic schedule) (key_len (suite selected));
  rk ← RecordKeys_new (suite selected) (tk_key tk) (tk_iv tk);
  '(_, record) ← seal rk RECORD_HANDSHAKE plaintext;
  Val (mk_ServerHandshakeFlight (message selected) change_cipher_spec_record plaintext record server_finished th).

Record PreparedServerHandshake := mk_PreparedServerHandshake {
  client : client_hello; selected_alpn : option bytes; sh_selected : SynthesizedServerHello; flight : ServerHandshakeFlight;
  client_handshake_read : RecordKeys; transcript_hash_to_client_finished : bytes; schedule : KeySchedule;
  expected_client_finished : bytes }.

Definition select_alpn (c : client_hello) (alpn_protocols : list bytes) : option bytes :=
  find (fun candidate => existsb (fun offered => bytes_eqb offered candidate) (alpn (ch_offers c))) alpn_protocols.

Definition prepare_server_handshake (client_hello_message server_hello_template : bytes) (identity : CertifiedIdentity)
    (alpn_protocols : list bytes) (secret rnd sign_rng : bytes) : comp PrepareError PreparedServerHandshake :=
  c ← from_err PClientHello (parse_message client_hello_message);
  _ ← fail_if (match signature_schemes (ch_offers c) with [] => true | _ => false end) MissingSignatureAlgorithms;
  ks ← find_server_keyshare server_hello_template;
  '(group, _, _) ← lift id (ok_or ks MissingTemplateKeyShare);
  client_keyshare ← lift id (ok_or (find (fun s => ClientHello.group s =? group) (key_shares (ch_offers c))) (MissingClientKeyShare group));
  keyshare ← lift PKeyShare (generate_server_keyshare group (ks_data client_keyshare) secret);
  sh ← from_err PFlight (synthesize_server_hello server_hello_template c (TlsKeys.public_key keyshare) rnd);
  let selected_alpn := select_alpn c alpn_protocols in
  let ee := encrypted_extensions_with_alpn selected_alpn in
  let certificate := certificate_message (cert_chain identity) in
  let transcript_to_certificate := raw_message c ++ message sh ++ ee ++ certificate in
  let th_certificate := hash (suite_hash (suite sh)) transcript_to_certificate in
  certificate_verify ← lift PCertificateVerify
    (sign_certificate_verify identity th_certificate (signature_schemes (ch_offers c)) sign_rng);
  let th_ch_sh := hash (suite_hash (suite sh)) (raw_message c ++ message sh) in
  schedule ← KeySchedule_new (suite_hash (suite sh)) (shared_secret keyshare) th_ch_sh;
  tk ← traffic_keys schedule (client_hs_traffic schedule) (key_len (suite sh));
  client_handshake_read ← RecordKeys_new (suite sh) (tk_key tk) (tk_iv tk);
  flight ← from_err PFlight (build_server_handshake_flight sh schedule (raw_message c) ee certificate certificate_verify);
  let th_client_finished :=
    hash (suite_hash (suite sh)) (transcript_to_certificate ++ certificate_verify ++ server_finished flight) in
  expected ← finished_verify_data schedule (client_hs_traffic schedule) th_client_finished;
  Val (mk_PreparedServerHandshake c selected_alpn sh flight client_handshake_read th_client_finished schedule expected).

Definition verify_client_finished_message (p : PreparedServerHandshake) (msg : bytes) : comp ClientFinishedError unit :=
  let n := len (expected_client_finished p) in
  if negb (len msg =? 4 + n) || negb (bool_decide (head msg = Some HS_FINISHED)) then Fail FinishedMalformed
  else
    m1 ← index msg 1; m2 ← index msg 2; m3 ← index msg 3;
    _ ← fail_if (negb (be_val [0; m1; m2; m3] =? n)) FinishedMalformed;
    body ← slice msg 4 (len msg);
    fail_if (negb (bytes_eqb (expected_client_finished p) body)) VerifyDataMismatch.

Record ApplicationRecordKeys := mk_ApplicationRecordKeys { client_read : RecordKeys; server_write : RecordKeys }.

Definition application_record_keys {E} (p : PreparedServerHandshake) : comp E ApplicationRecordKeys :=
  '(client_secret, server_secret) ← application_traffic_secrets (schedule p) (transcript_hash_to_client_finished p);
  let s := suite (sh_selected p) in
  ck ← traffic_keys (schedule p) client_secret (key_len s);
  sk ← traffic_keys (schedule p) server_secret (key_len s);
  cr ← RecordKeys_new s (tk_key ck) (tk_iv ck);
  sw ← RecordKeys_new s (tk_key sk) (tk_iv sk);
  Val (mk_ApplicationRecordKeys cr sw).

(** * The handshake ([nginx_backend.rs]) *)

(** The loop that waits for the client's Finished; every round reads at least the
    five bytes of a record header. *)
Fixpoint finished_loop (fuel : nat) (p : PreparedServerHandshake) (rk : RecordKeys) (s : source) : comp handshake_error source :=
  match fuel with
  | O => Diverge
  | S f =>
      '(record, s) ← from_err HRead (read_tls_record s);
      if is_change_cipher_spec record then finished_loop f p rk s
      else
        '(rk, o) ← open rk record;
        '(content_type, msg) ← lift id (ok_or o RecordAuthentication);
        _ ← fail_if (negb (content_type =? RECORD_HANDSHAKE)) (UnexpectedInnerContentType content_type);
        _ ← from_err HClientFinished (verify_client_finished_message p msg);
        Val s
  end.

(** The handshake reads from [s]; it gives the bytes it writes, the keys of the
    stream and the rest of the source. *)
Definition handshake (identity : CertifiedIdentity) (alpn_protocols : list bytes) (secret rnd sign_rng : bytes) (s : source) :
    comp handshake_error (bytes * ApplicationRecordKeys * source) :=
  '(hello, s) ← from_err HRead (read_client_hello s);
  parsed ← from_err HClientHello (parse_message hello);
  cipher ← lift id (ok_or (choose_cipher parsed) NoSharedCipherSuite);
  let template := server_hello_template cipher GROUP_X25519 in
  p ← from_err HPrepare (prepare_server_handshake hello template identity alpn_protocols secret rnd sign_rng);
  let written := plain_record TLS_RECORD_HANDSHAKE (server_hello (flight p)) ++ change_cipher_spec (flight p) ++
    encrypted_handshake_record (flight p) in
  s ← finished_loop (S (length (content s))) p (client_handshake_read p) s;
  keys ← application_record_keys p;
  Val (written, keys, s).
End handshake.

(** * Lemmas *)

Lemma from_err_inv {E F A} (f : E -> F) (m : comp E A) a : from_err f m = Val a -> m = Val a.
Proof. by destruct m; cbn; [intros [= ->]|..]. Qed.

(** The parser keeps the message it parsed. *)
Lemma parse_message_raw m c : parse_message m = Val c -> raw_message c = m.
Proof. unfold parse_message. intros Hp. comp_inv Hp. by apply Val_inj in Hp as <-. Qed.

(** The Finished message is accepted exactly when it carries the expected data. *)
Lemma verify_finished_sound p msg :
  len (expected_client_finished p) < 2 ^ 24 -> bytes_ok msg ->
  verify_client_finished_message p msg = Val tt -> msg = finished_message (expected_client_finished p).
Proof.
  intros Hl Hok. unfold verify_client_finished_message. set (x := expected_client_finished p) in *. pose proof (len_nonneg x).
  unfold finished_message. rewrite handshake_message_wire by lia.
  destruct (len msg =? 4 + len x) eqn:El; [|done]. destruct (bool_decide _) eqn:Eh; [|done]. cbn [negb orb]. split_bool.
  destruct msg as [|m0 [|m1 [|m2 [|m3 body]]]]; try done; try (rewrite ?len_cons, len_nil in El; lia).
  injection Eh as ->. destruct (index_first4 (E := ClientFinishedError) HS_FINISHED m1 m2 m3 body) as (_ & I1 & I2 & I3).
  rewrite I1. cbn [mbind comp_bind]. rewrite I2. cbn [mbind comp_bind]. rewrite I3. cbn [mbind comp_bind].
  unfold fail_if. destruct (be_val [0; m1; m2; m3] =? len x) eqn:Eb; cbn [negb]; [|done]. split_bool. cbn [mbind comp_bind].
  rewrite (slice_tail [HS_FINISHED; m1; m2; m3] body) by (rewrite ?len_cons; reflexivity || (rewrite ?len_cons, ?len_nil; lia)).
  cbn [mbind comp_bind]. destruct (bytes_eqb x body) eqn:Ex; [|done]. apply bytes_eqb_eq in Ex as <-. intros _.
  assert (be_bytes 3 (len x) = [m1; m2; m3]) as ->; [|done].
  rewrite <- Eb. change (be_val [0; m1; m2; m3]) with (be_val [m1; m2; m3]). apply (be_bytes_be_val [m1; m2; m3]).
  unfold bytes_ok in *. rewrite !list.Forall_cons in Hok. rewrite !list.Forall_cons, list.Forall_nil. tauto.
Qed.

Lemma verify_finished_accepts p :
  len (expected_client_finished p) < 2 ^ 24 ->
  verify_client_finished_message p (finished_message (expected_client_finished p)) = Val tt.
Proof.
  intros Hl. unfold verify_client_finished_message. set (x := expected_client_finished p) in *. pose proof (len_nonneg x).
  unfold finished_message. rewrite handshake_message_wire by lia. rewrite len_cons, len_app, len_be_bytes.
  rewrite (proj2 (Z.eqb_eq _ _)) by lia. rewrite bool_decide_true by done. cbn [negb orb].
  pose proof (be_val_be_bytes 3 (len x) ltac:(change (256 ^ Z.of_nat 3) with (2 ^ 24); lia)) as Hv.
  pose proof (length_be_bytes 3 (len x)) as Hl3. destruct (be_bytes 3 (len x)) as [|m1 [|m2 [|m3 [|? ?]]]]; try done.
  cbn [app]. destruct (index_first4 (E := ClientFinishedError) HS_FINISHED m1 m2 m3 x) as (_ & I1 & I2 & I3).
  rewrite I1. cbn [mbind comp_bind]. rewrite I2. cbn [mbind comp_bind]. rewrite I3. cbn [mbind comp_bind].
  change (be_val [0; m1; m2; m3]) with (be_val [m1; m2; m3]). rewrite Hv, fail_if_pass by (by rewrite Z.eqb_refl).
  rewrite (slice_tail [HS_FINISHED; m1; m2; m3] x) by (reflexivity || (rewrite ?len_cons, ?len_nil; lia)).
  cbn [mbind comp_bind]. unfold fail_if. by rewrite bytes_eqb_refl.
Qed.

Section proofs.
Context `{TlsAeadLaws} `{TlsHashLaws} `{X25519Laws} `{Ring}.

(** What a flight that was built consists of. *)
Lemma flight_inv sel k pre ee cert cv f :
  build_server_handshake_flight sel k pre ee cert cv = Val f ->
  ks_hash k = suite_hash (suite sel) /\ server_hello f = message sel /\ change_cipher_spec f = change_cipher_spec_record /\
  exists vd rk rk',
    @finished_verify_data _ FlightError k (server_hs_traffic k) (hash (ks_hash k) (pre ++ message sel ++ ee ++ cert ++ cv)) = Val vd /\
    server_finished f = finished_message vd /\ encrypted_handshake_plaintext f = ee ++ cert ++ cv ++ server_finished f /\
    @record_keys _ FlightError k (suite sel) (server_hs_traffic k) = Val rk /\
    @seal _ FlightError rk RECORD_HANDSHAKE (encrypted_handshake_plaintext f) = Val (rk', encrypted_handshake_record f).
Proof.
  unfold build_server_handshake_flight. intros Hb. comp_inv Hb. apply Val_inj in Hb as <-. split_bool. cbn [server_hello
    change_cipher_spec server_finished encrypted_handshake_plaintext encrypted_handshake_record].
  split; [done|]. split; [done|]. split; [done|]. eexists _, _, _. split; [exact Hm0|]. split; [done|]. split; [done|].
  split; [unfold record_keys; erewrite comp_bind_val by exact Hm1; exact Hm2|exact Hm3].
Qed.

(** The parts of a prepared handshake. *)
Lemma prepare_inv ch template identity alpns secret rnd rng p :
  prepare_server_handshake ch template identity alpns secret rnd rng = Val p ->
  exists g off n share keyshare cv,
    parse_message ch = Val (client p) /\ raw_message (client p) = ch /\
    @find_server_keyshare PrepareError template = Val (Some (g, off, n)) /\
    find (fun s => ClientHello.group s =? g) (key_shares (ch_offers (client p))) = Some share /\
    generate_server_keyshare g (ks_data share) secret = Ok keyshare /\
    synthesize_server_hello template (client p) (TlsKeys.public_key keyshare) rnd = Val (sh_selected p) /\
    let sel := sh_selected p in
    let ee := encrypted_extensions_with_alpn (selected_alpn p) in
    let cert := certificate_message (cert_chain identity) in
    let h := suite_hash (suite sel) in
    selected_alpn p = select_alpn (client p) alpns /\
    sign_certificate_verify identity (hash h (ch ++ message sel ++ ee ++ cert)) (signature_schemes (ch_offers (client p))) rng = Ok cv /\
    @KeySchedule_new _ PrepareError h (shared_secret keyshare) (hash h (ch ++ message sel)) = Val (schedule p) /\
    @record_keys _ PrepareError (schedule p) (suite sel) (client_hs_traffic (schedule p)) = Val (client_handshake_read p) /\
    build_server_handshake_flight sel (schedule p) ch ee cert cv = Val (flight p) /\
    transcript_hash_to_client_finished p = hash h ((ch ++ message sel ++ ee ++ cert) ++ cv ++ server_finished (flight p)) /\
    @finished_verify_data _ PrepareError (schedule p) (client_hs_traffic (schedule p)) (transcript_hash_to_client_finished p) =
      Val (expected_client_finished p).
Proof.
  unfold prepare_server_handshake. intros Hp. comp_inv Hp. apply Val_inj in Hp as <-.
  repeat match goal with Hx : from_err _ _ = Val _ |- _ => apply from_err_inv in Hx end.
  cbn [client selected_alpn sh_selected flight client_handshake_read transcript_hash_to_client_finished schedule expected_client_finished].
  match goal with Hx : parse_message ch = Val _ |- _ => pose proof (parse_message_raw _ _ Hx) as Hraw; rename Hx into Hparse end.
  rewrite Hraw in *. eexists _, _, _, _, _, _. split; [done|]. split; [done|]. split; [subst; eassumption|].
  repeat split; try eassumption. unfold record_keys. erewrite comp_bind_val by eassumption. eassumption.
Qed.

(** The record keys of the four directions exist. *)
Lemma prepared_schedule_ok ch template identity alpns secret rnd rng p :
  prepare_server_handshake ch template identity alpns secret rnd rng = Val p ->
  schedule_ok (schedule p) /\ ks_hash (schedule p) = suite_hash (suite (sh_selected p)).
Proof.
  intros Hp. apply prepare_inv in Hp as (g & off & n & share & ks & cv & _ & _ & _ & _ & _ & _ & _ & _ & Hk & _).
  edestruct (KeySchedule_new_ok (E := PrepareError)) as (k & Hk' & Hh & Hok). rewrite Hk in Hk'. apply Val_inj in Hk' as <-. done.
Qed.

Lemma prepared_finished_short {E} p th :
  schedule_ok (schedule p) ->
  @finished_verify_data _ E (schedule p) (client_hs_traffic (schedule p)) th = Val (expected_client_finished p) ->
  len (expected_client_finished p) < 2 ^ 24.
Proof.
  intros (_ & Hc & _) Hv. destruct (finished_verify_data_ok (E := E) (schedule p) _ th Hc) as (v & Hv' & Hl).
  rewrite Hv in Hv'. apply Val_inj in Hv' as <-. pose proof (output_len_range (ks_hash (schedule p))). lia.
Qed.

Lemma prepared_expected ch template identity alpns secret rnd rng p :
  prepare_server_handshake ch template identity alpns secret rnd rng = Val p ->
  @finished_verify_data _ PrepareError (schedule p) (client_hs_traffic (schedule p)) (transcript_hash_to_client_finished p) =
    Val (expected_client_finished p).
Proof. intros Hp. apply prepare_inv in Hp as (? & ? & ? & ? & ? & ? & Hp). cbv zeta in Hp. by destruct_and!. Qed.

Lemma application_keys_eq {E} p c s :
  schedule_ok (schedule p) ->
  @application_traffic_secrets _ E (schedule p) (transcript_hash_to_client_finished p) = Val (c, s) ->
  exists ck sk, @record_keys _ E (schedule p) (suite (sh_selected p)) c = Val ck /\
    @record_keys _ E (schedule p) (suite (sh_selected p)) s = Val sk /\
    @application_record_keys _ E p = Val (mk_ApplicationRecordKeys ck sk).
Proof.
  intros Hok Ha. destruct (application_secrets_ok (E := E) (schedule p) (transcript_hash_to_client_finished p) Hok) as (c' & s' & Ha' & Hc & Hs).
  rewrite Ha in Ha'. apply Val_pair_inj in Ha' as [<- <-].
  destruct (record_keys_total (E := E) (schedule p) (suite (sh_selected p)) c Hc) as (ck & Hck & _).
  destruct (record_keys_total (E := E) (schedule p) (suite (sh_selected p)) s Hs) as (sk & Hsk & _).
  exists ck, sk. split; [done|]. split; [done|]. unfold application_record_keys. rewrite Ha. cbn [mbind comp_bind].
  unfold record_keys in Hck, Hsk. comp_inv Hck. comp_inv Hsk.
  repeat (erewrite comp_bind_val by eassumption; cbv beta zeta). done.
Qed.

(** The ServerHello of a prepared handshake, and the schedule behind it. *)
Lemma prepared_server_hello ch cipher identity alpns secret rnd rng p :
  prepare_server_handshake ch (server_hello_template cipher GROUP_X25519) identity alpns secret rnd rng = Val p ->
  length rnd = 32%nat ->
  suite (sh_selected p) = cipher /\ len (session_id (client p)) <= 32 /\ cipher_offered (client p) (to_u16 cipher) = true /\
  message (sh_selected p) = server_hello_wire [3; 3] rnd (session_id (client p)) (to_u16 cipher) 0
    (sh_extensions [(0x002b, [3; 4])] GROUP_X25519 (x25519_public secret) []) /\
  exists share, find (fun s => ClientHello.group s =? GROUP_X25519) (key_shares (ch_offers (client p))) = Some share /\
    @KeySchedule_new _ PrepareError (suite_hash cipher) (diffie_hellman secret (ks_data share))
      (hash (suite_hash cipher) (ch ++ message (sh_selected p))) = Val (schedule p).
Proof.
  intros Hp Hr. pose proof (template_is_ok cipher GROUP_X25519 ltac:(split; [discriminate|reflexivity])) as Ht.
  apply prepare_inv in Hp as (g & off & n & share & ks & cv & _ & _ & Hf & Hshare & Hgen & Hsyn & _ & _ & Hk & _).
  rewrite template_is_wire in Hf, Hsyn. pose proof Ht as [Hv Hr0 Hs Hc Hpre Hg He].
  rewrite find_server_keyshare_wire in Hf by done. apply Val_inj in Hf. injection Hf as <- <- <-.
  unfold generate_server_keyshare in Hgen. rewrite Z.eqb_refl in Hgen. unfold x25519_with_secret in Hgen.
  destruct (negb (len _ =? 32)); [done|]. destruct (negb (was_contributory _)); [done|]. apply Ok_inj in Hgen as <-.
  rewrite synthesize_wire in Hsyn by done. destruct (negb (offers_tls13 _)); [done|].
  destruct (32 <? len (session_id (client p))) eqn:Esid; [done|]. apply Z.ltb_ge in Esid. rewrite from_to_u16 in Hsyn.
  destruct (cipher_offered (client p) (to_u16 cipher)) eqn:Eo; [|done]. cbn [negb] in Hsyn.
  destruct (negb (keyshare_group_offered _ _)); [done|]. cbn [TlsKeys.public_key shared_secret] in *.
  destruct (negb (_ =? _)); [done|]. apply Val_inj in Hsyn. rewrite <- Hsyn in *. cbn [message suite] in *.
  repeat (split; [done|]). by exists share.
Qed.
End proofs.

(** ** Reading records *)

Lemma read_whole_record h body r e :
  length h = 5%nat -> be_val (drop 3 h) = len body -> len body <= MAX_TLS_RECORD ->
  read_tls_record (mk_source ((h ++ body) ++ r) e) = Val (h ++ body, mk_source r e).
Proof.
  intros Hh Hb Hm. destruct h as [|h0 [|h1 [|h2 [|h3 [|h4 [|? ?]]]]]]; try done. unfold read_tls_record.
  rewrite <- app_assoc, read_exact_app by done. cbn [lift mbind comp_bind].
  change (index [h0; h1; h2; h3; h4] 3) with (@Val tls_error Z h3). cbn [mbind comp_bind].
  change (index [h0; h1; h2; h3; h4] 4) with (@Val tls_error Z h4). cbn [mbind comp_bind].
  change (drop 3 _) with [h3; h4] in Hb. rewrite Hb, fail_if_pass by (apply Z.ltb_ge; lia).
  rewrite read_exact_app by (unfold len; lia). done.
Qed.

Lemma read_tls_record_inv s record s' :
  read_tls_record s = Val (record, s') -> content s = record ++ content s' /\ at_end s' = at_end s.
Proof.
  unfold read_tls_record. intros Hr. comp_inv Hr. apply Val_pair_inj in Hr as [<- <-].
  repeat match goal with Hx : read_exact _ _ = Ok _ |- _ => apply read_exact_inv in Hx as (? & ? & ?) end.
  rewrite <- app_assoc. split; congruence.
Qed.

Lemma is_change_cipher_spec_true record : is_change_cipher_spec record = true -> record = CHANGE_CIPHER_SPEC.
Proof. apply bytes_eqb_eq. Qed.

Section loop.
Context `{TlsAead} `{TlsHash} `{X25519} `{Ring}.

(** The loop skips ChangeCipherSpec records. *)
Lemma finished_loop_ccs n p rk r e fuel :
  finished_loop (n + fuel) p rk (mk_source (concat (replicate n CHANGE_CIPHER_SPEC) ++ r) e) =
    finished_loop fuel p rk (mk_source r e).
Proof.
  induction n as [|n IH]; [done|]. cbn [Nat.add replicate concat finished_loop]. rewrite <- app_assoc.
  change CHANGE_CIPHER_SPEC with ([0x14; 3; 3; 0; 1] ++ [1]). rewrite read_whole_record by done. cbn [from_err mbind comp_bind].
  exact IH.
Qed.

Lemma length_concat_ccs n : length (concat (replicate n CHANGE_CIPHER_SPEC)) = (6 * n)%nat.
Proof. induction n as [|n IH]; [done|]. cbn [replicate concat]. rewrite length_app, IH. cbn [length CHANGE_CIPHER_SPEC]. lia. Qed.

Lemma finished_loop_sound fuel p rk s s' :
  finished_loop fuel p rk s = Val s' ->
  exists n record rk' msg, content s = concat (replicate n CHANGE_CIPHER_SPEC) ++ record ++ content s' /\
    @open _ handshake_error rk record = Val (rk', Some (RECORD_HANDSHAKE, msg)) /\
    verify_client_finished_message p msg = Val tt.
Proof.
  revert s. induction fuel as [|fuel IH]; intros s Hl; [done|]. cbn [finished_loop] in Hl.
  apply comp_bind_inv in Hl as ([record s1] & Hr & Hl). apply from_err_inv, read_tls_record_inv in Hr as [Hs _].
  destruct (is_change_cipher_spec record) eqn:Ec.
  - apply is_change_cipher_spec_true in Ec as ->. destruct (IH s1 Hl) as (n & record & rk' & msg & Hc & Ho & Hv).
    exists (S n), record, rk', msg. split; [|done]. rewrite Hs, Hc. cbn [replicate concat]. by rewrite <- app_assoc.
  - comp_inv Hl. apply Val_inj in Hl as <-. split_bool. subst. repeat match goal with Hx : from_err _ _ = Val _ |- _ => apply from_err_inv in Hx end.
    match goal with Hx : verify_client_finished_message p _ = Val ?u |- _ => destruct u end.
    exists O, record. eexists _, _. split; [exact Hs|]. split; eassumption.
Qed.
End loop.

Section completes.
Context `{TlsAeadLaws} `{TlsHashLaws} `{X25519Laws} `{Ring} {E : Type}.

Lemma finished_loop_completes p rk' fin n rest e fuel :
  schedule_ok (schedule p) /\ (exists th, @finished_verify_data _ E (schedule p) (client_hs_traffic (schedule p)) th = Val (expected_client_finished p)) ->
  @seal _ E (client_handshake_read p) RECORD_HANDSHAKE (finished_message (expected_client_finished p)) = Val (rk', fin) ->
  (n < fuel)%nat ->
  finished_loop fuel p (client_handshake_read p) (mk_source (concat (replicate n CHANGE_CIPHER_SPEC) ++ fin ++ rest) e) = Val (mk_source rest e).
Proof.
  intros [Hok [th Hv]] Hs Hfuel. pose proof (finished_verify_data_ok (E := E) (schedule p) _ th (proj1 (proj2 Hok))) as (v & Hv' & Hl).
  rewrite Hv in Hv'. apply Val_inj in Hv' as <-. pose proof (output_len_range (ks_hash (schedule p))).
  replace fuel with (n + S (fuel - n - 1))%nat by lia. rewrite finished_loop_ccs. cbn [finished_loop].
  set (x := expected_client_finished p) in *. unfold seal, seal_with_padding in Hs.
  assert (len (finished_message x) = 4 + len x) as Hlm by (unfold finished_message; rewrite handshake_message_wire by lia; autorewrite with bytes; lia).
  assert (fits (finished_message x) 0) as Hf by (unfold fits, TAG_LEN; lia).
  destruct (seal_into_shape (E := E) (client_handshake_read p) RECORD_HANDSHAKE _ 0 Hf) as (c & tag & He & Hs').
  rewrite Hs in Hs'. apply Val_pair_inj in Hs' as [-> ->]. destruct (encrypt_shape _ _ _ _ _ _ _ He) as [Hc Ht].
  rewrite len_inner_text in Hc by lia. set (hd := record_header _) in *.
  rewrite read_whole_record; [|done| |].
  - cbn [from_err mbind comp_bind]. change (is_change_cipher_spec (hd ++ c ++ tag)) with false. cbv iota.
    destruct (seal_into_succeeds (E := handshake_error) (client_handshake_read p) RECORD_HANDSHAKE _ 0 Hf) as [y Hy].
    rewrite <- (seal_into_poly _ _ _ _ _ _ _ _ Hy Hs).
    destruct (tls_open_seal (E := handshake_error) _ _ _ _ _ _ [] Hf (ltac:(done) : RECORD_HANDSHAKE <> 0) Hy) as (_ & _ & Ho). rewrite app_nil_r in Ho.
    rewrite Ho. cbn [mbind comp_bind ok_or lift id]. change (RECORD_HANDSHAKE =? RECORD_HANDSHAKE) with true. cbn [negb fail_if mbind comp_bind].
    unfold x. rewrite verify_finished_accepts by (fold x; lia). done.
  - unfold hd. change (be_val (drop 3 _)) with (be_val [as_u8 (Z.shiftr (len (finished_message x) + 1 + 0 + TAG_LEN) 8); as_u8 (len (finished_message x) + 1 + 0 + TAG_LEN)]).
    rewrite record_header_val by (unfold uint_ok, TAG_LEN; lia). rewrite len_app, Hc, Ht. lia.
  - rewrite len_app, Hc, Ht. unfold TAG_LEN, MAX_TLS_RECORD. lia.
Qed.
End completes.

(** The handshake of a client that sends the sealed Finished. *)
Lemma handshake_completed `{TlsAeadLaws} `{TlsHashLaws} `{X25519Laws} `{Ring} {E} s hello n fin rest e c cipher identity alpns secret rnd rng p rk' :
  read_client_hello s = Val (hello, mk_source (concat (replicate n CHANGE_CIPHER_SPEC) ++ fin ++ rest) e) ->
  parse_message hello = Val c -> choose_cipher c = Some cipher ->
  prepare_server_handshake hello (server_hello_template cipher GROUP_X25519) identity alpns secret rnd rng = Val p ->
  @seal _ E (client_handshake_read p) RECORD_HANDSHAKE (finished_message (expected_client_finished p)) = Val (rk', fin) ->
  exists keys, @application_record_keys _ handshake_error p = Val keys /\
    handshake identity alpns secret rnd rng s =
      Val (plain_record TLS_RECORD_HANDSHAKE (server_hello (flight p)) ++ change_cipher_spec_record ++ encrypted_handshake_record (flight p),
           keys, mk_source rest e).
Proof.
  intros Hread Hparse Hchoose Hp Hseal. pose proof (prepared_schedule_ok _ _ _ _ _ _ _ _ Hp) as [Hok _].
  destruct (application_secrets_ok (E := handshake_error) (schedule p) (transcript_hash_to_client_finished p) Hok) as (ca & sa & Hap & _).
  destruct (application_keys_eq p ca sa Hok Hap) as (ck & sk & _ & _ & Happ). eexists. split; [exact Happ|].
  unfold handshake. rewrite Hread. cbn [from_err mbind comp_bind]. rewrite Hparse. cbn [from_err mbind comp_bind].
  rewrite Hchoose. cbn [ok_or lift mbind comp_bind id]. rewrite Hp. cbn [from_err mbind comp_bind].
  rewrite (finished_loop_completes (E := E) p rk').
  2:{ split; [done|]. eexists. eapply finished_verify_data_poly. by apply (prepared_expected _ _ _ _ _ _ _ _ Hp). }
  2:{ done. }
  - cbn [mbind comp_bind]. rewrite Happ. cbn [mbind comp_bind].
    apply prepare_inv in Hp as (g & off & k & share & ks & cv & _ & _ & _ & _ & _ & _ & _ & _ & _ & _ & Hf & _).
    apply flight_inv in Hf as (_ & _ & Hccs & _). by rewrite Hccs.
  - cbn [content]. rewrite length_app, length_concat_ccs. lia.
Qed.

(** * Theorems *)

(** C19: a correct client completes the handshake.  If the connection carries a
    ClientHello from which the handshake is prepared, then any number of
    ChangeCipherSpec records and the sealed Finished message, the server writes the
    ServerHello, a ChangeCipherSpec and the encrypted flight, and hands over the
    application keys with the connection right after the Finished record. *)
Theorem handshake_completes `{TlsAeadLaws} `{TlsHashLaws} `{X25519Laws} `{Ring} {E} s hello n fin rest e c cipher identity alpns secret rnd rng p rk' :
  read_client_hello s = Val (hello, mk_source (concat (replicate n CHANGE_CIPHER_SPEC) ++ fin ++ rest) e) ->
  parse_message hello = Val c -> choose_cipher c = Some cipher ->
  prepare_server_handshake hello (server_hello_template cipher GROUP_X25519) identity alpns secret rnd rng = Val p ->
  @seal _ E (client_handshake_read p) RECORD_HANDSHAKE (finished_message (expected_client_finished p)) = Val (rk', fin) ->
  exists keys, @application_record_keys _ handshake_error p = Val keys /\
    handshake identity alpns secret rnd rng s =
      Val (plain_record TLS_RECORD_HANDSHAKE (server_hello (flight p)) ++ change_cipher_spec_record ++ encrypted_handshake_record (flight p),
           keys, mk_source rest e).
Proof. apply handshake_completed. Qed.

(** C20: only the client that knows the handshake secrets gets through.  If the
    handshake succeeds, the connection carried a ClientHello, ChangeCipherSpec
    records and then a record that opens under the client handshake keys to a
    Finished message with exactly the expected verify data; the keys handed over
    are those of that handshake and what follows the record is left unread. *)
Theorem handshake_authenticates `{TlsAead} `{TlsHash} `{X25519} `{Ring} identity alpns secret rnd rng s written keys s' :
  handshake identity alpns secret rnd rng s = Val (written, keys, s') ->
  exists hello s1 cipher p n record rk msg,
    read_client_hello s = Val (hello, s1) /\
    prepare_server_handshake hello (server_hello_template cipher GROUP_X25519) identity alpns secret rnd rng = Val p /\
    content s1 = concat (replicate n CHANGE_CIPHER_SPEC) ++ record ++ content s' /\
    @open _ handshake_error (client_handshake_read p) record = Val (rk, Some (RECORD_HANDSHAKE, msg)) /\
    (len (expected_client_finished p) < 2 ^ 24 -> bytes_ok msg -> msg = finished_message (expected_client_finished p)) /\
    @application_record_keys _ handshake_error p = Val keys.
Proof.
  unfold handshake. intros Hh. comp_inv Hh. apply Val_pair_inj in Hh as [Heq <-].
  repeat match goal with Hx : from_err _ _ = Val _ |- _ => apply from_err_inv in Hx end.
  match goal with Hx : finished_loop _ _ _ _ = Val _ |- _ => apply finished_loop_sound in Hx as (n & record & rk & msg & Hc & Ho & Hv) end.
  do 8 eexists. split; [eassumption|]. split; [eassumption|]. split; [eassumption|]. split; [eassumption|].
  split; [intros; by apply verify_finished_sound|]. by injection Heq as _ <-.
Qed.

(** * Witnesses *)

#[local] Existing Instance toy_tls_aead.
#[local] Existing Instance toy_tls_laws.
#[local] Existing Instance toy_tls_hash.
#[local] Existing Instance toy_tls_hash_laws.
#[local] Existing Instance toy_x25519.
#[local] Existing Instance toy_x25519_laws.
#[local] Existing Instance toy_ring.

Definition toy_client_secret : bytes := replicate 32 0x11.

Definition toy_hello : bytes :=
  hello_wire 0x0303 (replicate 32 1) [7; 7] [0x1301; 0x1303] [0]
    (Some [EVersions [0x0304]; ESchemes [0x0804; 0x0403]; EAlpn [bytes_of_string "h2"];
           EShares [mk_key_share GROUP_X25519 (x25519_public toy_client_secret)]]).

Definition toy_identity : CertifiedIdentity := mk_CertifiedIdentity [[1; 2; 3]] (EcdsaP256 ([1; 2] : @key_pair toy_ring)).

Definition toy_prepare : comp PrepareError PreparedServerHandshake :=
  prepare_server_handshake toy_hello (server_hello_template ChaCha20Poly1305Sha256 GROUP_X25519) toy_identity
    [bytes_of_string "h2"] (replicate 32 0x22) (replicate 32 0x33) [9].

(** The Finished record of the toy client. *)
Definition toy_finished : bytes :=
  match toy_prepare with
  | Val p =>
      match @seal _ unit (client_handshake_read p) RECORD_HANDSHAKE (finished_message (expected_client_finished p)) with
      | Val (_, x) => x
      | _ => []
      end
  | _ => []
  end.

Definition toy_connection : source :=
  mk_source (fragment_wire 3 1 toy_hello ++ CHANGE_CIPHER_SPEC ++ toy_finished ++ [5; 6]) AtEof.

Lemma handshake_completes_witness :
  exists written keys, handshake toy_identity [bytes_of_string "h2"] (replicate 32 0x22) (replicate 32 0x33) [9] toy_connection =
    Val (written, keys, mk_source [5; 6] AtEof).
Proof.
  edestruct (handshake_completes (E := unit)) with (s := toy_connection) (hello := toy_hello) (n := 1%nat) (fin := toy_finished)
    (rest := [5; 6]) (e := AtEof) (cipher := ChaCha20Poly1305Sha256) (identity := toy_identity) (alpns := [bytes_of_string "h2"])
    (secret := replicate 32 0x22) (rnd := replicate 32 0x33) (rng := [9]) as (keys & _ & Hh).
  - vm_compute. reflexivity.
  - vm_compute. reflexivity.
  - vm_compute. reflexivity.
  - vm_compute. reflexivity.
  - vm_compute. reflexivity.
  - eexists _, _. exact Hh.
Defined.

Lemma handshake_authenticates_witness :
  exists hello s1, read_client_hello toy_connection = Val (hello, s1) /\ hello = toy_hello.
Proof.
  edestruct (handshake_authenticates toy_identity [bytes_of_string "h2"] (replicate 32 0x22) (replicate 32 0x33) [9] toy_connection)
    as (hello & s1 & cipher & p & n & record & rk & msg & Hr & _); [vm_compute; reflexivity|].
  exists hello, s1. split; [exact Hr|]. vm_compute in Hr. injection Hr as <- <-. reflexivity.
Defined.
