(* ===== verification/TlsClient.v ===== *)
(** A TLS 1.3 client, written from RFC 8446, against the server of [TlsHandshake].

    The client shares with the server nothing but the third-party primitives (hash, HKDF,
    HMAC, X25519 and the AEAD ciphers): it reads records and messages, derives its keys
    and seals its Finished with definitions of its own, each named by the section of the
    RFC it follows.  The theorem runs the two against each other over the bytes. *)

From S2P Require Import Prelude ClientHello TlsRecord TlsKeys TlsMessages TlsCert TlsHandshake.

(** * Reading the presentation language (sections 3.2 to 3.4) *)

Definition take_n (n : Z) (b : bytes) : option (bytes * bytes) :=
  if n <=? len b then Some (take (Z.to_nat n) b, drop (Z.to_nat n) b) else None.

(** A number of [k] bytes, and a vector whose length field has [k] bytes. *)
Definition read_uint (k : nat) (b : bytes) : option (Z * bytes) :=
  '(x, r) ← take_n (Z.of_nat k) b; Some (be_val x, r).
Definition read_vec (k : nat) (b : bytes) : option (bytes * bytes) :=
  '(n, r) ← read_uint k b; take_n n r.

Definition write_vec (k : nat) (v : bytes) : bytes := be_bytes k (len v) ++ v.

Definition require (b : bool) : option unit := if b then Some tt else None.

(** * Messages (section 4) *)

(** [Extension extensions<..>]: types with their data. *)
Fixpoint read_extensions (fuel : nat) (b : bytes) : option (list (Z * bytes)) :=
  match b, fuel with
  | [], _ => Some []
  | _, O => None
  | _, S f =>
      '(t, r) ← read_uint 2 b; '(d, r) ← read_vec 2 r;
      l ← read_extensions f r; Some ((t, d) :: l)
  end.

Definition extension (t : Z) (l : list (Z * bytes)) : option bytes :=
  match find (fun x => x.1 =? t) l with Some x => Some x.2 | None => None end.

(** [ServerHello] (4.1.3): the echoed session id, the suite and the extensions. *)
Definition read_server_hello (m : bytes) : option (bytes * Z * list (Z * bytes)) :=
  '(t, r) ← read_uint 1 m; '(body, rest) ← read_vec 3 r;
  '(version, r) ← read_uint 2 body; '(_, r) ← take_n 32 r; '(sid, r) ← read_vec 1 r;
  '(cipher, r) ← read_uint 2 r; '(compression, r) ← read_uint 1 r; '(exts, r) ← read_vec 2 r;
  _ ← require ((t =? 2) && bytes_eqb rest [] && (version =? 0x0303) && (compression =? 0) && bytes_eqb r []);
  l ← read_extensions (length exts) exts;
  Some (sid, cipher, l).

(** [KeyShareServerHello] (4.2.8) for x25519. *)
Definition read_share (d : bytes) : option bytes :=
  '(g, r) ← read_uint 2 d; '(key, r) ← read_vec 2 r;
  _ ← require ((g =? 0x001d) && bytes_eqb r []); Some key.

(** A flight of handshake messages: their types and their bytes, header included. *)
Fixpoint read_messages (fuel : nat) (b : bytes) : option (list (Z * bytes)) :=
  match b, fuel with
  | [], _ => Some []
  | _, O => None
  | _, S f =>
      '(t, r) ← read_uint 1 b; '(body, r) ← read_vec 3 r;
      l ← read_messages f r; Some ((t, t :: write_vec 3 body) :: l)
  end.

(** * The key schedule (sections 4.4.4 and 7) *)

(** The suites of B.4: cipher, hash and length of the key. *)
Definition suite_of (id : Z) : option (CipherSuite * HashAlg * Z) :=
  if id =? 0x1301 then Some (Aes128GcmSha256, Sha256, 16)
  else if id =? 0x1302 then Some (Aes256GcmSha384, Sha384, 32)
  else if id =? 0x1303 then Some (ChaCha20Poly1305Sha256, Sha256, 32)
  else None.

Definition hash_length (h : HashAlg) : Z := match h with Sha256 => 32 | Sha384 => 48 end.

Section client.
Context `{TlsAead} `{TlsHash} `{X25519}.

Definition Expand_Label (h : HashAlg) (secret : bytes) (label : string) (context : bytes) (n : Z) : option bytes :=
  let hkdf_label := be_bytes 2 n ++ write_vec 1 (bytes_of_string ("tls13 " ++ label)) ++ write_vec 1 context in
  hkdf_expand h secret hkdf_label n.

Definition Derive_Secret (h : HashAlg) (secret : bytes) (label : string) (messages : bytes) : option bytes :=
  Expand_Label h secret label (digest h messages) (hash_length h).

Record secrets := mk_secrets { client_handshake : bytes; server_handshake : bytes; master : bytes }.

(** The figure of 7.1 without a pre-shared key, up to the master secret; [hellos] are the
    messages from the ClientHello to the ServerHello. *)
Definition handshake_secrets (h : HashAlg) (ecdhe hellos : bytes) : option secrets :=
  let zeros := replicate (Z.to_nat (hash_length h)) 0 in
  let early := hkdf_extract_raw h zeros zeros in
  salt ← Derive_Secret h early "derived" [];
  let handshake := hkdf_extract_raw h salt ecdhe in
  c ← Derive_Secret h handshake "c hs traffic" hellos;
  s ← Derive_Secret h handshake "s hs traffic" hellos;
  salt ← Derive_Secret h handshake "derived" [];
  Some (mk_secrets c s (hkdf_extract_raw h salt zeros)).

(** [messages] end with the server's Finished. *)
Definition application_secrets (h : HashAlg) (master messages : bytes) : option (bytes * bytes) :=
  c ← Derive_Secret h master "c ap traffic" messages;
  s ← Derive_Secret h master "s ap traffic" messages;
  Some (c, s).

(** The key and the vector of a traffic secret (7.3). *)
Definition traffic_key (h : HashAlg) (secret : bytes) (key_length : Z) : option (bytes * bytes) :=
  key ← Expand_Label h secret "key" [] key_length;
  iv ← Expand_Label h secret "iv" [] 12;
  Some (key, iv).

(** The Finished message over [messages] (4.4.4). *)
Definition finished (h : HashAlg) (base messages : bytes) : option bytes :=
  key ← Expand_Label h base "finished" [] (hash_length h);
  Some (20 :: write_vec 3 (hmac_raw h key (digest h messages))).

(** * Records (section 5) *)

(** The five bytes of the header, the body and what follows. *)
Definition read_record (b : bytes) : option (bytes * bytes * bytes) :=
  '(h, r) ← take_n 5 b; '(body, r) ← take_n (be_val (drop 3 h)) r; Some (h, body, r).

Definition record_type (h : bytes) : Z := default 0 (head h).

(** The counter, left-padded to the length of the vector, XOR the vector (5.3). *)
Definition nonce (iv : bytes) (sequence : Z) : bytes :=
  zip_with Z.lxor iv (replicate (length iv - 8) 0 ++ be_bytes 8 sequence).

(** [TLSInnerPlaintext] (5.2): the last byte that is not zero is the content type. *)
Fixpoint skip_zeros (b : bytes) : bytes :=
  match b with x :: b' => if x =? 0 then skip_zeros b' else b | [] => [] end.

Definition read_inner (b : bytes) : option (Z * bytes) :=
  match skip_zeros (rev b) with t :: content => Some (t, rev content) | [] => None end.

(** Unprotecting a record; a client aborts with [record_overflow] above the two limits. *)
Definition unprotect (s : CipherSuite) (k : bytes * bytes) (sequence : Z) (header body : bytes) : option (Z * bytes) :=
  _ ← require ((record_type header =? 23) && (16 <=? len body) && (len body <=? 2 ^ 14 + 256));
  let n := Z.to_nat (len body - 16) in
  inner ← decrypt_detached s k.1 (nonce k.2 sequence) header (take n body) (drop n body);
  _ ← require (len inner <=? 2 ^ 14 + 1);
  read_inner inner.

Definition protect (s : CipherSuite) (k : bytes * bytes) (sequence t : Z) (content : bytes) : option bytes :=
  let header := [23; 3; 3] ++ be_bytes 2 (len content + 1 + 16) in
  '(c, tag) ← encrypt_detached s k.1 (nonce k.2 sequence) header (content ++ [t]);
  Some (header ++ c ++ tag).

(** A ChangeCipherSpec record is dropped (section 5). *)
Definition skip_change_cipher_spec (b : bytes) : option bytes :=
  '(h, body, r) ← read_record b;
  Some (if (record_type h =? 20) && bytes_eqb body [1] then r else b).

(** * The handshake *)

(** The secret of its x25519 share, its ClientHello, and what it offered there. *)
Record tls_client := mk_tls_client { cl_secret : bytes; cl_hello : bytes; cl_session : bytes; cl_suites : list Z }.

(** What the handshake leaves: the suite, then key and vector of each direction. *)
Record session_keys := mk_session_keys { sk_suite : CipherSuite; sk_client : bytes * bytes; sk_server : bytes * bytes }.

(** From the bytes the server sent: its EncryptedExtensions, Certificate and
    CertificateVerify, the client's Finished record, the application keys and the rest. *)
Definition client_connect (c : tls_client) (received : bytes) : option (list bytes * bytes * session_keys * bytes) :=
  '(h, hello, received) ← read_record received;
  _ ← require ((record_type h =? 22) && (len hello <=? 2 ^ 14));
  '(sid, id, extensions) ← read_server_hello hello;
  _ ← require (bytes_eqb sid (cl_session c) && existsb (Z.eqb id) (cl_suites c));
  '(s, h, n) ← suite_of id;
  version ← extension 43 extensions;
  _ ← require (bytes_eqb version [3; 4]);
  key ← extension 51 extensions ≫= read_share;
  x ← handshake_secrets h (diffie_hellman (cl_secret c) key) (cl_hello c ++ hello);
  client_keys ← traffic_key h (client_handshake x) n;
  server_keys ← traffic_key h (server_handshake x) n;
  received ← skip_change_cipher_spec received;
  '(header, body, received) ← read_record received;
  '(t, flight) ← unprotect s server_keys 0 header body;
  _ ← require (t =? 22);
  messages ← read_messages (length flight) flight;
  match messages with
  | [(8, ee); (11, certificate); (15, verify); (20, fin)] =>
      let before := cl_hello c ++ hello ++ ee ++ certificate ++ verify in
      expected ← finished h (server_handshake x) before;
      _ ← require (bytes_eqb fin expected);
      own ← finished h (client_handshake x) (before ++ fin);
      record ← protect s client_keys 0 22 own;
      '(ap_c, ap_s) ← application_secrets h (master x) (before ++ fin);
      ck ← traffic_key h ap_c n;
      sk ← traffic_key h ap_s n;
      Some ([ee; certificate; verify], record, mk_session_keys s ck sk, received)
  | _ => None
  end.
End client.

(** * Lemmas *)

(** ** Reading back *)

Lemma take_n_app n a r : n = len a -> take_n n (a ++ r) = Some (a, r).
Proof.
  intros ->. unfold take_n. rewrite (proj2 (Z.leb_le _ _)) by (rewrite len_app; pose proof (len_nonneg r); lia).
  unfold len. by rewrite Nat2Z.id, take_app_length, drop_app_length.
Qed.

Lemma read_uint_app k n r : 0 <= n < 256 ^ Z.of_nat k -> read_uint k (be_bytes k n ++ r) = Some (n, r).
Proof.
  intros Hn. unfold read_uint. rewrite take_n_app by (by rewrite len_be_bytes). cbn [mbind option_bind].
  by rewrite be_val_be_bytes.
Qed.

Lemma read_vec_app k v r : len v < 256 ^ Z.of_nat k -> read_vec k (write_vec k v ++ r) = Some (v, r).
Proof.
  intros Hv. pose proof (len_nonneg v). unfold read_vec, write_vec. rewrite <- app_assoc, read_uint_app by lia.
  cbn [mbind option_bind]. by apply take_n_app.
Qed.

Lemma read_byte_app t r : byte_ok t -> read_uint 1 (t :: r) = Some (t, r).
Proof.
  intros Ht. unfold read_uint. change (t :: r) with ([t] ++ r). rewrite take_n_app by done. cbn [mbind option_bind be_val length].
  f_equal. f_equal. change (256 ^ Z.of_nat 0) with 1. lia.
Qed.

Lemma vec16_write v : vec16 v = write_vec 2 v.
Proof. done. Qed.

Lemma vec8_write v : len v < 256 -> vec8 v = write_vec 1 v.
Proof.
  intros Hv. pose proof (len_nonneg v). unfold vec8, write_vec. cbn [be_bytes app]. f_equal.
  change (256 ^ Z.of_nat 0) with 1. by rewrite Z.div_1_r, Z.mod_small by lia.
Qed.

Lemma as_u8_byte n : 0 <= n < 256 -> be_bytes 1 n = [as_u8 n].
Proof. intros Hn. cbn [be_bytes]. change (256 ^ Z.of_nat 0) with 1. by rewrite Z.div_1_r. Qed.

Lemma read_extensions_app fuel t d r :
  0 <= t < 2 ^ 16 -> len d < 2 ^ 16 ->
  read_extensions (S fuel) (be_bytes 2 t ++ write_vec 2 d ++ r) = (l ← read_extensions fuel r; Some ((t, d) :: l)).
Proof.
  intros Ht Hd. cbn [read_extensions]. pose proof (length_be_bytes 2 t) as Hl.
  rewrite read_uint_app by done.
  cbn [mbind option_bind]. rewrite read_vec_app by done. cbn [mbind option_bind].
  by destruct (be_bytes 2 t).
Qed.

Lemma read_messages_app fuel t body r :
  byte_ok t -> len body < 2 ^ 24 ->
  read_messages (S fuel) ((t :: write_vec 3 body) ++ r) = (l ← read_messages fuel r; Some ((t, t :: write_vec 3 body) :: l)).
Proof.
  intros Ht Hb. cbn [app read_messages]. rewrite read_byte_app by done. cbn [mbind option_bind].
  by rewrite read_vec_app.
Qed.

(** ** The ServerHello *)

Lemma read_server_hello_wire rnd sid cipher key :
  length rnd = 32%nat -> len sid <= 32 -> 0 <= cipher < 2 ^ 16 -> len key = 32 ->
  read_server_hello (server_hello_wire [3; 3] rnd sid cipher 0 (sh_extensions [(0x002b, [3; 4])] GROUP_X25519 key [])) =
    Some (sid, cipher, [(43, [3; 4]); (51, be_bytes 2 GROUP_X25519 ++ write_vec 2 key)]).
Proof.
  intros Hr Hs Hc Hk. pose proof (len_nonneg sid). unfold server_hello_wire, read_server_hello, HS_SERVER_HELLO.
  set (exts := sh_extensions _ _ _ _).
  assert (exts = be_bytes 2 43 ++ write_vec 2 [3; 4] ++ be_bytes 2 51 ++ write_vec 2 (be_bytes 2 GROUP_X25519 ++ write_vec 2 key) ++ []) as Hx
    by (unfold exts, sh_extensions; cbn [fmap list_fmap concat]; rewrite !app_nil_r; unfold sh_ext; cbn [fst snd]; by rewrite <- !app_assoc).
  assert (len exts = 46) as Hxl by (rewrite Hx; unfold write_vec; autorewrite with bytes; rewrite Hk; reflexivity).
  set (body := [3; 3] ++ _). assert (len body < 2 ^ 24) as Hb.
  { unfold body. rewrite vec8_write by lia. unfold write_vec, vec16. autorewrite with bytes.
    assert (len rnd = 32) as -> by (unfold len; by rewrite Hr). rewrite Hxl. change (len [3; 3]) with 2. lia. }
  rewrite read_byte_app by done. cbn [mbind option_bind].
  assert (be_bytes 3 (len body) ++ body = write_vec 3 body ++ []) as -> by (unfold write_vec; by rewrite app_nil_r).
  rewrite read_vec_app by done. cbn [mbind option_bind].
  unfold body. change [3; 3] with (be_bytes 2 0x0303). rewrite read_uint_app by done. cbn [mbind option_bind].
  rewrite take_n_app by (unfold len; by rewrite Hr). cbn [mbind option_bind].
  rewrite vec8_write, read_vec_app by (change (256 ^ Z.of_nat 1) with 256; lia). cbn [mbind option_bind].
  rewrite read_uint_app by done. cbn [mbind option_bind app]. rewrite read_byte_app by done. cbn [mbind option_bind].
  rewrite vec16_write, <- (app_nil_r (write_vec 2 exts)), read_vec_app by (rewrite Hxl; done). cbn [mbind option_bind].
  change (require _) with (Some tt). cbn [mbind option_bind].
  assert (length exts = 46%nat) as -> by (unfold len in Hxl; lia). rewrite Hx.
  rewrite read_extensions_app by done. rewrite read_extensions_app; [done|done|].
  unfold write_vec. autorewrite with bytes. rewrite Hk. done.
Qed.

Lemma read_share_wire key : len key = 32 -> read_share (be_bytes 2 GROUP_X25519 ++ write_vec 2 key) = Some key.
Proof.
  intros Hk. unfold read_share. rewrite read_uint_app by done. cbn [mbind option_bind].
  rewrite <- (app_nil_r (write_vec 2 key)), read_vec_app by (rewrite Hk; done). done.
Qed.

Lemma suite_of_id s : suite_of (to_u16 s) = Some (s, suite_hash s, key_len s).
Proof. by destruct s. Qed.

Lemma hash_length_same h : hash_length h = output_len h.
Proof. by destruct h. Qed.

(** ** The key schedule *)

Section agreement.
Context `{TlsAeadLaws} `{TlsHashLaws} `{X25519Laws} {E : Type}.

Lemma Expand_Label_agrees h secret label context n out :
  0 <= n < 2 ^ 16 -> len (bytes_of_string label) <= 249 -> len context <= 255 ->
  @expand_label _ E h secret label context n = Val out -> Expand_Label h secret label context n = Some out.
Proof.
  intros Hn Hl Hc. unfold expand_label, Expand_Label. destruct (_ <? _); [done|].
  assert (hkdf_label label context n =
    be_bytes 2 n ++ write_vec 1 (bytes_of_string ("tls13 " ++ label)) ++ write_vec 1 context) as ->.
  { unfold hkdf_label, wrap. rewrite Z.mod_small by lia.
    change (bytes_of_string ("tls13 " ++ label)) with (bytes_of_string "tls13 " ++ bytes_of_string label).
    pose proof (len_nonneg (bytes_of_string label)). pose proof (len_nonneg context).
    set (l := bytes_of_string "tls13 " ++ _).
    assert (len l = 6 + len (bytes_of_string label)) by (unfold l; by rewrite len_app).
    unfold write_vec. rewrite !as_u8_byte by lia. by rewrite <- app_assoc. }
  destruct (hkdf_expand _ _ _ _); [|done]. by intros [= ->].
Qed.

Lemma Derive_Secret_agrees h secret label m out :
  len (bytes_of_string label) <= 249 ->
  @derive_secret_with_hash _ E h secret label (digest h m) = Val out -> Derive_Secret h secret label m = Some out.
Proof.
  intros Hl Hd. unfold Derive_Secret. rewrite hash_length_same. pose proof (output_len_range h).
  apply Expand_Label_agrees; [lia|done|rewrite digest_len; lia|exact Hd].
Qed.

Lemma handshake_secrets_agree h ecdhe hellos k :
  @KeySchedule_new _ E h ecdhe (digest h hellos) = Val k ->
  handshake_secrets h ecdhe hellos = Some (mk_secrets (client_hs_traffic k) (server_hs_traffic k) (master_secret k)) /\ ks_hash k = h.
Proof.
  unfold KeySchedule_new, handshake_secrets. intros Hk. comp_inv Hk. apply Val_inj in Hk as <-. rewrite hash_length_same.
  repeat match goal with Hd : derive_secret_with_hash _ _ _ _ = Val _ |- _ => apply Derive_Secret_agrees in Hd; [|by vm_compute] end.
  repeat match goal with Hd : derive_secret _ _ _ _ = Val _ |- _ => apply Derive_Secret_agrees in Hd; [|by vm_compute] end.
  unfold hkdf_extract in *. cbv zeta.
  repeat match goal with Hd : Derive_Secret _ _ _ _ = Some _ |- _ => rewrite Hd; clear Hd; cbn [mbind option_bind] end. done.
Qed.

Lemma application_secrets_agree k m c s :
  @application_traffic_secrets _ E k (digest (ks_hash k) m) = Val (c, s) ->
  application_secrets (ks_hash k) (master_secret k) m = Some (c, s).
Proof.
  unfold application_traffic_secrets, application_secrets. intros Ha. comp_inv Ha. apply Val_pair_inj in Ha as [<- <-].
  repeat match goal with Hd : derive_secret_with_hash _ _ _ _ = Val _ |- _ => apply Derive_Secret_agrees in Hd; [|by vm_compute] end.
  repeat match goal with Hd : Derive_Secret _ _ _ _ = Some _ |- _ => rewrite Hd; clear Hd; cbn [mbind option_bind] end. done.
Qed.

Lemma traffic_key_agrees k s secret r :
  @record_keys _ E k s secret = Val r ->
  traffic_key (ks_hash k) secret (key_len s) = Some (rk_key r, rk_iv r) /\
  r = mk_RecordKeys s (rk_key r) (rk_iv r) 0 /\ length (rk_iv r) = 12%nat.
Proof.
  unfold record_keys, traffic_keys, RecordKeys_new, traffic_key. intros Hr. apply comp_bind_inv in Hr as (tk & Htk & Hr).
  apply comp_bind_inv in Htk as (key & Hkey & Htk). apply comp_bind_inv in Htk as (iv & Hiv & Htk).
  destruct (len iv =? 12) eqn:El; [|done]. apply Val_inj in Htk as <-. cbn [tk_key tk_iv] in Hr.
  destruct (len key =? key_len s); [|done]. apply Val_inj in Hr as <-. split_bool. cbn [rk_key rk_iv].
  repeat match goal with He : expand_label _ _ _ _ _ = Val _ |- _ => apply Expand_Label_agrees in He; [|by destruct s|by vm_compute|by vm_compute] end.
  repeat match goal with He : Expand_Label _ _ _ _ _ = Some _ |- _ => rewrite He; clear He; cbn [mbind option_bind] end.
  unfold len in *. repeat split; lia.
Qed.

Lemma finished_agrees k base m v :
  @finished_verify_data _ E k base (digest (ks_hash k) m) = Val v -> finished (ks_hash k) base m = Some (finished_message v).
Proof.
  unfold finished_verify_data, finished. intros Hv. comp_inv Hv. apply Val_inj in Hv as <-. rewrite hash_length_same.
  pose proof (output_len_range (ks_hash k)).
  match goal with He : expand_label _ _ _ _ _ = Val _ |- _ => apply Expand_Label_agrees in He; [|lia|by vm_compute|by vm_compute]; rewrite He end.
  cbn [mbind option_bind]. unfold finished_message. rewrite handshake_message_wire; [done|]. unfold hmac. rewrite hmac_len. lia.
Qed.

(** ** Records *)

Lemma nonce_agrees r : length (rk_iv r) = 12%nat -> nonce (rk_iv r) (rk_seq r) = record_nonce r.
Proof.
  intros Hl. unfold nonce, record_nonce. rewrite Hl. destruct (rk_iv r) as [|a [|b [|c [|d l]]]]; try done.
  cbn [replicate Nat.sub app take drop zip_with]. by rewrite !Z.lxor_0_r.
Qed.

Lemma skip_zeros_inner t p : t <> 0 -> read_inner (p ++ [t]) = Some (t, p).
Proof.
  intros Ht. unfold read_inner. rewrite rev_app_distr. cbn [rev app skip_zeros]. rewrite (proj2 (Z.eqb_neq _ _)) by done.
  by rewrite rev_involutive.
Qed.

Lemma read_record_app header body r :
  length header = 5%nat -> be_val (drop 3 header) = len body -> read_record (header ++ body ++ r) = Some (header, body, r).
Proof.
  intros Hh Hb. unfold read_record. rewrite take_n_app by (unfold len; by rewrite Hh). cbn [mbind option_bind].
  by rewrite Hb, take_n_app.
Qed.

(** What the server seals is what the client reads, and the other way round. *)
Lemma sealed_record r t p r' x :
  @seal _ E r t p = Val (r', x) -> length (rk_iv r) = 12%nat -> t <> 0 -> len p <= 2 ^ 14 ->
  protect (rk_suite r) (rk_key r, rk_iv r) (rk_seq r) t p = Some x /\
  exists header body, x = header ++ body /\ length header = 5%nat /\ be_val (drop 3 header) = len body /\ record_type header = 23 /\
    unprotect (rk_suite r) (rk_key r, rk_iv r) (rk_seq r) header body = Some (t, p).
Proof.
  intros Hs Hiv Ht Hp. pose proof (len_nonneg p). assert (fits p 0) as Hf by (unfold fits, TAG_LEN; lia).
  destruct (seal_into_shape (E := E) r t p 0 Hf) as (c & tag & He & Hs'). unfold seal, seal_with_padding in Hs. rewrite Hs' in Hs.
  apply Val_pair_inj in Hs as [<- <-]. destruct (encrypt_shape _ _ _ _ _ _ _ He) as [Hc Htag]. unfold TAG_LEN in *.
  rewrite len_inner_text in Hc by lia. change (inner_text t p 0) with (p ++ [t]) in He.
  set (n := len p + 1 + 0 + 16) in *. assert (record_header n = [23; 3; 3] ++ be_bytes 2 (len p + 1 + 16)) as Hh.
  { unfold record_header, as_u8. rewrite be_bytes_two, Z.shiftr_div_pow2 by lia. unfold n. by rewrite Z.add_0_r. }
  split.
  - unfold protect. cbn [fst snd]. rewrite nonce_agrees, <- Hh, He by done. cbn [mbind option_bind]. by rewrite Hh.
  - exists (record_header n), (c ++ tag). assert (len (c ++ tag) = n) as Hl by (rewrite len_app; unfold n; lia).
    split; [done|]. split; [done|]. split; [rewrite Hl; apply record_header_val; unfold uint_ok, n; lia|]. split; [done|].
    unfold unprotect. change (record_type (record_header n) =? 23) with true. rewrite Hl.
    rewrite !(proj2 (Z.leb_le _ _)) by (unfold n; lia). cbn [andb require mbind option_bind fst snd].
    replace (n - 16) with (len c) by (unfold n; lia). assert (Z.to_nat (len c) = length c) as -> by (unfold len; by rewrite Nat2Z.id).
    rewrite take_app_length, drop_app_length, nonce_agrees, (decrypt_encrypt _ _ _ _ _ _ _ He) by done. cbn [mbind option_bind].
    rewrite (proj2 (Z.leb_le _ _)) by (rewrite len_app; change (len [t]) with 1; lia). cbn [require mbind option_bind].
    by apply skip_zeros_inner.
Qed.
End agreement.

(** ** Flights *)

Lemma handshake_message_framed t body : len body < 2 ^ 24 -> handshake_message t body = t :: write_vec 3 body.
Proof. intros Hb. apply handshake_message_wire. lia. Qed.

Lemma len_handshake_message t body : len (handshake_message t body) = 4 + len body.
Proof. unfold handshake_message, u24_bytes. rewrite !len_app, !len_cons, len_nil. lia. Qed.

Lemma read_messages_framed l fuel :
  Forall (fun x => byte_ok x.1 /\ len x.2 < 2 ^ 24) l -> (length l <= fuel)%nat ->
  read_messages fuel (concat ((fun x => handshake_message x.1 x.2) <$> l)) = Some ((fun x => (x.1, handshake_message x.1 x.2)) <$> l).
Proof.
  intros Hl. revert fuel. induction Hl as [|[t b] l [Ht Hb] Hl IH]; intros fuel Hf; [by destruct fuel|].
  destruct fuel as [|fuel]; [cbn in Hf; lia|]. cbn [fmap list_fmap concat fst snd] in *.
  rewrite handshake_message_framed by done. rewrite read_messages_app by done. cbn [length] in Hf.
  by rewrite IH by lia.
Qed.

(** The three messages before the Finished are framed as such. *)
Lemma flight_framed `{Ring} alpn chain cv th offered rng identity :
  sign_certificate_verify identity th offered rng = Ok cv ->
  exists a b c, encrypted_extensions_with_alpn alpn = handshake_message 8 a /\ certificate_message chain = handshake_message 11 b /\
    cv = handshake_message 15 c.
Proof.
  unfold sign_certificate_verify. destruct (choose_scheme _ _) as [s|]; [|done]. cbn [ok_or mbind result_bind].
  destruct (map_err _ _) as [x|]; [|done]. cbn [mbind result_bind]. intros Hcv. apply Ok_inj in Hcv as <-.
  destruct alpn as [x0|]; eexists _, _, _; (split; [reflexivity|split; reflexivity]).
Qed.

Lemma skip_one r : skip_change_cipher_spec (change_cipher_spec_record ++ r) = Some r.
Proof.
  unfold skip_change_cipher_spec. change (change_cipher_spec_record ++ r) with ([20; 3; 3; 0; 1] ++ [1] ++ r).
  by rewrite (read_record_app [20; 3; 3; 0; 1] [1]).
Qed.

Section connection.
Context `{TlsAeadLaws} `{TlsHashLaws} `{X25519Laws} `{Ring}.

Lemma plain_hello m r : len m < 2 ^ 16 ->
  read_record (plain_record TLS_RECORD_HANDSHAKE m ++ r) = Some ([0x16; 3; 3] ++ be_bytes 2 (len m), m, r).
Proof.
  intros Hm. pose proof (len_nonneg m). unfold plain_record, wrap. rewrite Z.mod_small by lia.
  rewrite <- !app_assoc. change ([TLS_RECORD_HANDSHAKE] ++ TLS_LEGACY_VERSION ++ be_bytes 2 (len m) ++ m ++ r)
    with (([0x16; 3; 3] ++ be_bytes 2 (len m)) ++ m ++ r).
  apply read_record_app; [done|]. change (drop 3 _) with (be_bytes 2 (len m)). by apply be_val_be_bytes.
Qed.

(** A flight of the four messages is read as such. *)
Lemma flight_read a b c d :
  let text := handshake_message 8 a ++ handshake_message 11 b ++ handshake_message 15 c ++ handshake_message 20 d in
  len text <= 2 ^ 14 ->
  read_messages (length text) text =
    Some [(8, handshake_message 8 a); (11, handshake_message 11 b); (15, handshake_message 15 c); (20, handshake_message 20 d)].
Proof.
  intros text Hl. assert (text = concat ((fun x => handshake_message x.1 x.2) <$> [(8, a); (11, b); (15, c); (20, d)])) as Ht
    by (unfold text; cbn [fmap list_fmap concat fst snd]; by rewrite app_nil_r).
  assert (len text = 16 + len a + len b + len c + len d) as Hsum by (unfold text; rewrite !len_app, !len_handshake_message; lia).
  pose proof (len_nonneg a). pose proof (len_nonneg b). pose proof (len_nonneg c). pose proof (len_nonneg d).
  assert (4 <= length text)%nat as Hf by (unfold len at 1 in Hsum; lia). rewrite Ht at 2.
  rewrite read_messages_framed; [done| |exact Hf].
  repeat (apply Forall_cons_2 || apply Forall_nil_2); cbn [fst snd]; (split; [done|lia]).
Qed.

(** The run of the client, step by step. *)
Lemma client_run cs ch sid suites rnd key cipher sh x kc ks a b c d header body own record ca sa ck sk more :
  sh = server_hello_wire [3; 3] rnd sid (to_u16 cipher) 0 (sh_extensions [(0x002b, [3; 4])] GROUP_X25519 key []) ->
  length rnd = 32%nat -> len sid <= 32 -> len key = 32 -> existsb (Z.eqb (to_u16 cipher)) suites = true ->
  let h := suite_hash cipher in
  let n := key_len cipher in
  let ee := handshake_message 8 a in
  let cert := handshake_message 11 b in
  let cv := handshake_message 15 c in
  let fin := handshake_message 20 d in
  let before := ch ++ sh ++ ee ++ cert ++ cv in
  handshake_secrets h (diffie_hellman cs key) (ch ++ sh) = Some x ->
  traffic_key h (client_handshake x) n = Some kc -> traffic_key h (server_handshake x) n = Some ks ->
  length header = 5%nat -> be_val (drop 3 header) = len body -> record_type header = 23 ->
  unprotect cipher ks 0 header body = Some (22, ee ++ cert ++ cv ++ fin) -> len (ee ++ cert ++ cv ++ fin) <= 2 ^ 14 ->
  finished h (server_handshake x) before = Some fin -> finished h (client_handshake x) (before ++ fin) = Some own ->
  protect cipher kc 0 22 own = Some record -> application_secrets h (master x) (before ++ fin) = Some (ca, sa) ->
  traffic_key h ca n = Some ck -> traffic_key h sa n = Some sk ->
  client_connect (mk_tls_client cs ch sid suites)
      (plain_record TLS_RECORD_HANDSHAKE sh ++ change_cipher_spec_record ++ (header ++ body) ++ more) =
    Some ([ee; cert; cv], record, mk_session_keys cipher ck sk, more).
Proof.
  intros Hsh Hr Hsid Hkey Hs h n ee cert cv fin before Hx Hkc Hks Hhl Hbl Hty Hun Hsize Hsf Hcf Hp Hap Hck Hsk.
  assert (0 <= to_u16 cipher < 2 ^ 16) as Hid by (by destruct cipher).
  pose proof (read_server_hello_wire rnd sid (to_u16 cipher) key Hr Hsid Hid Hkey) as Hread. rewrite <- Hsh in Hread.
  assert (len sh <= 2 ^ 14) as Hl.
  { pose proof (len_nonneg sid). rewrite Hsh. unfold server_hello_wire, sh_extensions, vec8. cbn [fmap list_fmap concat].
    unfold sh_ext, vec16. cbn [fst snd]. autorewrite with bytes. rewrite Hkey.
    assert (len rnd = 32) as -> by (unfold len; by rewrite Hr). change (len [3; 3]) with 2. change (len [3; 4]) with 2. lia. }
  unfold client_connect. rewrite plain_hello by lia. cbn [mbind option_bind]. change (record_type _ =? 22) with true.
  rewrite (proj2 (Z.leb_le _ _) Hl). cbn [andb require mbind option_bind]. rewrite Hread. cbn [mbind option_bind cl_session cl_suites].
  rewrite bytes_eqb_refl, Hs. cbn [andb require mbind option_bind]. rewrite suite_of_id. cbn [mbind option_bind].
  change (extension 43 _) with (Some [3; 4]). cbn [mbind option_bind]. change (require (bytes_eqb [3; 4] [3; 4])) with (Some tt).
  change (extension 51 _) with (Some (be_bytes 2 GROUP_X25519 ++ write_vec 2 key)). cbn [mbind option_bind].
  rewrite read_share_wire by done. cbn [mbind option_bind cl_secret cl_hello]. fold h n. rewrite Hx. cbn [mbind option_bind].
  rewrite Hkc. cbn [mbind option_bind]. rewrite Hks. cbn [mbind option_bind].
  rewrite skip_one. cbn [mbind option_bind]. rewrite <- app_assoc, read_record_app by done. cbn [mbind option_bind].
  rewrite Hun. cbn [mbind option_bind]. change (require (22 =? 22)) with (Some tt). cbn [mbind option_bind].
  unfold ee, cert, cv, fin in Hsize |- *. rewrite flight_read by done. cbn [mbind option_bind]. fold ee cert cv fin. fold before.
  rewrite Hsf. cbn [mbind option_bind]. rewrite bytes_eqb_refl. cbn [require mbind option_bind]. rewrite Hcf. cbn [mbind option_bind].
  rewrite Hp. cbn [mbind option_bind]. rewrite Hap. cbn [mbind option_bind]. rewrite Hck. cbn [mbind option_bind]. by rewrite Hsk.
Qed.
Lemma finished_size {E} k base m v : @finished_verify_data _ E k base m = Val v -> len v <= 48.
Proof.
  intros Hv. unfold finished_verify_data in Hv. comp_inv Hv. apply Val_inj in Hv as <-. unfold hmac. rewrite hmac_len.
  pose proof (output_len_range (ks_hash k)). lia.
Qed.

(** What the server writes for a prepared handshake. *)
Definition server_bytes (p : PreparedServerHandshake) : bytes :=
  plain_record TLS_RECORD_HANDSHAKE (server_hello (flight p)) ++ change_cipher_spec_record ++ encrypted_handshake_record (flight p).

(** The client goes through with it. *)
Lemma client_connects ch cipher identity alpns secret rnd rng p cs more :
  prepare_server_handshake ch (server_hello_template cipher GROUP_X25519) identity alpns secret rnd rng = Val p ->
  length rnd = 32%nat ->
  ks_data <$> find (fun s => ClientHello.group s =? GROUP_X25519) (key_shares (ch_offers (client p))) = Some (x25519_public cs) ->
  len (encrypted_handshake_plaintext (flight p)) <= 2 ^ 14 ->
  let ee := encrypted_extensions_with_alpn (select_alpn (client p) alpns) in
  let cert := certificate_message (cert_chain identity) in
  exists cv fin ck sk rk,
    sign_certificate_verify identity (digest (suite_hash cipher) (ch ++ server_hello (flight p) ++ ee ++ cert))
      (signature_schemes (ch_offers (client p))) rng = Ok cv /\
    client_connect (mk_tls_client cs ch (session_id (client p)) (cipher_suites (client p))) (server_bytes p ++ more) =
      Some ([ee; cert; cv], fin, mk_session_keys cipher ck sk, more) /\
    @seal _ handshake_error (client_handshake_read p) RECORD_HANDSHAKE (finished_message (expected_client_finished p)) = Val (rk, fin) /\
    @application_record_keys _ handshake_error p =
      Val (mk_ApplicationRecordKeys (mk_RecordKeys cipher ck.1 ck.2 0) (mk_RecordKeys cipher sk.1 sk.2 0)).
Proof.
  intros Hp Hrnd Hshare Hsize. cbv zeta. pose proof (prepared_schedule_ok _ _ _ _ _ _ _ _ Hp) as [Hok Hh].
  destruct (prepared_server_hello _ _ _ _ _ _ _ _ Hp Hrnd) as (Hsuite & Hsid & Hoff & Hmsg & share & Hfind & Hk).
  rewrite Hfind in Hshare. injection Hshare as Hshare. rewrite Hshare in Hk. rewrite Hsuite in Hh.
  apply prepare_inv in Hp as (_ & _ & _ & _ & ks & cv & _ & _ & _ & _ & _ & _ & Halpn & Hcv & _ & Hcr & Hf & Hth & Hvd).
  apply flight_inv in Hf as (_ & Hsh & _ & vd & rk & rk' & Hsvd & Hfin & Htext & Hrk & Hseal).
  cbv zeta in *. rewrite Halpn, Hsuite in *. rewrite <- Hsh in *. clear Halpn.
  set (ee := encrypted_extensions_with_alpn _) in *. set (cert := certificate_message _) in *. set (sh := server_hello _) in *.
  unfold hash in *. rewrite app_assoc in Hth.
  destruct (traffic_key_agrees _ _ _ _ Hcr) as (Tc & Ec & Ic). destruct (traffic_key_agrees _ _ _ _ Hrk) as (Ts & Es & Is).
  destruct (application_secrets_ok (E := handshake_error) (schedule p) (transcript_hash_to_client_finished p) Hok) as (ca & sa & Hap & _).
  destruct (application_keys_eq p ca sa Hok Hap) as (ck & sk & Hck & Hsk & Happ). rewrite Hsuite in Hck, Hsk.
  destruct (traffic_key_agrees _ _ _ _ Hck) as (Tck & Eck & _). destruct (traffic_key_agrees _ _ _ _ Hsk) as (Tsk & Esk & _).
  pose proof (finished_size _ _ _ _ Hvd) as Hshort. rewrite Hth in Hap, Hvd. rewrite <- Hh in Hap, Hvd. rewrite <- Hh in Hk.
  apply application_secrets_agree in Hap. apply finished_agrees in Hvd, Hsvd. rewrite shared_commutes in Hk.
  apply handshake_secrets_agree in Hk as [Hx _]. rewrite Hh in *.
  assert (len (finished_message (expected_client_finished p)) <= 52) as Hfl by (unfold finished_message; rewrite len_handshake_message; lia).
  destruct (sealed_record _ _ _ _ _ Hseal Is ltac:(done) Hsize) as (_ & header & body & Hrec & Hhl & Hbl & Hty & Hun).
  rewrite Es in Hun. cbn [rk_suite rk_seq rk_key rk_iv] in Hun.
  destruct (seal_into_succeeds (E := handshake_error) (client_handshake_read p) RECORD_HANDSHAKE (finished_message (expected_client_finished p)) 0)
    as [fin Hfinrec]; [unfold fits, TAG_LEN; lia|].
  destruct (sealed_record _ _ _ _ _ Hfinrec Ic ltac:(done) ltac:(lia)) as (Hprot & _).
  rewrite Ec in Hprot. cbn [rk_suite rk_seq rk_key rk_iv] in Hprot.
  exists cv, fin, (rk_key ck, rk_iv ck), (rk_key sk, rk_iv sk). eexists. split; [exact Hcv|].
  split; [|split; [exact Hfinrec|rewrite Happ, Eck, Esk; done]].
  destruct (flight_framed (select_alpn (client p) alpns) (cert_chain identity) cv _ _ _ _ Hcv) as (a & b & c & Ha & Hb & Hc).
  fold ee in Ha. fold cert in Hb. rewrite Htext, Hfin in Hun, Hsize. rewrite Hfin in Hvd, Hap. rewrite <- !(app_assoc _ _ cv) in Hvd, Hap.
  unfold server_bytes. fold sh. rewrite Hrec, <- !(app_assoc _ _ more). clearbody ee cert sh. subst ee cert cv.
  change (finished_message vd) with (handshake_message 20 vd) in *.
  assert (len (x25519_public secret) = 32) as Hpl by (unfold len; by rewrite public_length).
  rewrite (app_assoc header body more). apply (client_run cs ch _ _ rnd (x25519_public secret) cipher sh _ _ _ a b c vd header body _ fin ca sa _ _ more Hmsg Hrnd Hsid Hpl Hoff
    Hx Tc Ts Hhl Hbl Hty Hun Hsize Hsvd Hvd Hprot Hap Tck Tsk).
Qed.
End connection.

(** C14: client and server agree.  A client written from RFC 8446 alone, whose ClientHello
    the server reads from the connection, and the server go through with the handshake
    over the bytes they send: the client finds its session id, the suite and the server's
    share in the ServerHello, opens the encrypted flight, finds the extensions with the
    selected protocol, the certificate chain, the signature over the transcript and the
    Finished it expects, and answers with a record after which (and after any number of
    ChangeCipherSpec records) the server is done, with nothing more read; both hold the
    same application keys.  The server prepares the handshake with a cipher it chose, the
    client's first X25519 share is the one of its secret, and the flight is no larger
    than the 2^14 bytes a record may carry. *)
Theorem handshake_agreement `{TlsAeadLaws} `{TlsHashLaws} `{X25519Laws} `{Ring} hello_records ch c cipher identity alpns secret rnd rng p cs n rest e :
  (forall r, read_client_hello (mk_source (hello_records ++ r) e) = Val (ch, mk_source r e)) ->
  parse_message ch = Val c -> choose_cipher c = Some cipher ->
  prepare_server_handshake ch (server_hello_template cipher GROUP_X25519) identity alpns secret rnd rng = Val p ->
  length rnd = 32%nat ->
  ks_data <$> find (fun s => ClientHello.group s =? GROUP_X25519) (key_shares (ch_offers c)) = Some (x25519_public cs) ->
  len (encrypted_handshake_plaintext (flight p)) <= 2 ^ 14 ->
  let client := mk_tls_client cs ch (session_id c) (cipher_suites c) in
  let ee := encrypted_extensions_with_alpn (select_alpn c alpns) in
  let cert := certificate_message (cert_chain identity) in
  exists written cv fin ck sk,
    (forall more, client_connect client (written ++ more) = Some ([ee; cert; cv], fin, mk_session_keys cipher ck sk, more)) /\
    sign_certificate_verify identity (digest (suite_hash cipher) (ch ++ server_hello (flight p) ++ ee ++ cert))
      (signature_schemes (ch_offers c)) rng = Ok cv /\
    handshake identity alpns secret rnd rng (mk_source (hello_records ++ concat (replicate n CHANGE_CIPHER_SPEC) ++ fin ++ rest) e) =
      Val (written, mk_ApplicationRecordKeys (mk_RecordKeys cipher ck.1 ck.2 0) (mk_RecordKeys cipher sk.1 sk.2 0), mk_source rest e).
Proof.
  intros Hread Hparse Hchoose Hp Hrnd Hshare Hsize client ee cert. pose proof Hp as Hinv.
  apply prepare_inv in Hinv as (_ & _ & _ & _ & _ & _ & Hc & _). rewrite Hparse in Hc. apply Val_inj in Hc. rewrite Hc in Hshare.
  pose proof (fun more => client_connects _ _ _ _ _ _ _ _ _ more Hp Hrnd Hshare Hsize) as Hgo. cbv zeta in Hgo. rewrite <- Hc in Hgo.
  destruct (Hgo []) as (cv & fin & ck & sk & rk & Hcv & Hrun & Hseal & Happ).
  exists (server_bytes p), cv, fin, ck, sk. split; [|split; [exact Hcv|]].
  - intros more. destruct (Hgo more) as (cv' & fin' & ck' & sk' & rk2 & Hcv' & Hrun' & Hseal' & Happ').
    rewrite Hcv in Hcv'. apply Ok_inj in Hcv' as <-. rewrite Hseal in Hseal'. apply Val_pair_inj in Hseal' as [_ <-].
    rewrite Happ in Happ'. apply Val_inj in Happ'. injection Happ' as E1 E2 E3 E4.
    destruct ck, ck', sk, sk'. cbn in E1, E2, E3, E4. by subst.
  - destruct (handshake_completed _ ch n fin rest e c cipher identity alpns secret rnd rng p rk (Hread _) Hparse Hchoose Hp Hseal) as (keys & Hk & Hh).
    rewrite Happ in Hk. apply Val_inj in Hk as <-. exact Hh.
Qed.

(** * Witness *)

#[local] Existing Instance toy_tls_aead.
#[local] Existing Instance toy_tls_laws.
#[local] Existing Instance toy_tls_hash.
#[local] Existing Instance toy_tls_hash_laws.
#[local] Existing Instance toy_x25519.
#[local] Existing Instance toy_x25519_laws.
#[local] Existing Instance toy_ring.

(** The toy hello in one record. *)
Lemma toy_hello_read r : read_client_hello (mk_source (fragment_wire 3 1 toy_hello ++ r) AtEof) = Val (toy_hello, mk_source r AtEof).
Proof.
  assert (toy_hello = framed (drop 4 toy_hello)) as Hf by (vm_compute; reflexivity). rewrite Hf at 2.
  apply (client_hello_reassembled [] 3 1 toy_hello); [constructor|vm_compute; discriminate|done|exact Hf|vm_compute; discriminate].
Qed.

Definition toy_tls_client : tls_client := mk_tls_client toy_client_secret toy_hello [7; 7] [0x1301; 0x1303].

(** The client closes with [5; 6]; both sides end with ChaCha20-Poly1305 keys. *)
Lemma handshake_agreement_witness :
  exists written messages fin ck sk,
    client_connect toy_tls_client (written ++ [8]) = Some (messages, fin, mk_session_keys ChaCha20Poly1305Sha256 ck sk, [8]) /\
    handshake toy_identity [bytes_of_string "h2"] (replicate 32 0x22) (replicate 32 0x33) [9]
        (mk_source (fragment_wire 3 1 toy_hello ++ concat (replicate 1 CHANGE_CIPHER_SPEC) ++ fin ++ [5; 6]) AtEof) =
      Val (written, mk_ApplicationRecordKeys (mk_RecordKeys ChaCha20Poly1305Sha256 ck.1 ck.2 0)
                      (mk_RecordKeys ChaCha20Poly1305Sha256 sk.1 sk.2 0), mk_source [5; 6] AtEof).
Proof.
  assert (exists c, parse_message toy_hello = Val c) as [c Hc] by (eexists; vm_compute; reflexivity).
  assert (exists p, toy_prepare = Val p /\ len (encrypted_handshake_plaintext (flight p)) <= 2 ^ 14) as (p & Hp & Hl).
  { eexists. split; [vm_compute; reflexivity|]. vm_compute. discriminate. }
  pose proof Hc as Hc'. vm_compute in Hc'. apply Val_inj in Hc'.
  edestruct (handshake_agreement (fragment_wire 3 1 toy_hello) toy_hello c ChaCha20Poly1305Sha256 toy_identity [bytes_of_string "h2"]
    (replicate 32 0x22) (replicate 32 0x33) [9] p toy_client_secret 1 [5; 6] AtEof toy_hello_read Hc) as (written & cv & fin & ck & sk & Hrun & _ & Hh);
    [subst c; vm_compute; reflexivity|exact Hp|reflexivity|subst c; vm_compute; reflexivity|exact Hl|].
  eexists written, _, fin, ck, sk. split; [|exact Hh]. subst c. exact (Hrun [8]).
Defined.
