(* ===== verification/TlsStream.v ===== *)
(** [TlsStream] of [src/tls/nginx_backend.rs]: application data over TLS records.

    The fields of the Rust struct are split into the half [poll_read] uses and the
    half [poll_write], [poll_flush] and [poll_shutdown] use; no function touches
    both.  The socket is a polled source in one direction and a [sink] in the
    other. *)

From S2P Require Import Prelude TlsRecord ClientHello.

Definition MAX_APP_PLAINTEXT : Z := 16 * 1024.

(** * Reading *)

Record read_half := mk_read_half {
  in_left : list (option bytes);
  in_end : ending;
  read_keys : RecordKeys;
  encrypted : bytes;
  plaintext : bytes;
  expected_record_len : option Z }.

Definition read_half_new (i : inner) (e : ending) (k : RecordKeys) : read_half := mk_read_half i e k [] [] None.

Definition set_in_left (t : read_half) (i : inner) : read_half :=
  mk_read_half i (in_end t) (read_keys t) (encrypted t) (plaintext t) (expected_record_len t).
Definition set_plaintext (t : read_half) (p : bytes) : read_half :=
  mk_read_half (in_left t) (in_end t) (read_keys t) (encrypted t) p (expected_record_len t).
Definition set_expected (t : read_half) (n : option Z) : read_half :=
  mk_read_half (in_left t) (in_end t) (read_keys t) (encrypted t) (plaintext t) n.
Definition set_split (t : read_half) (k : RecordKeys) (rest : bytes) : read_half :=
  mk_read_half (in_left t) (in_end t) k rest (plaintext t) None.
Definition set_encrypted (t : read_half) (b : bytes) : read_half :=
  mk_read_half (in_left t) (in_end t) (read_keys t) b (plaintext t) (expected_record_len t).

Inductive read_round : Type :=
| Return (t : read_half) (p : polled)
| Continue (t : read_half)
| Panic.

Section read.
Context `{TlsAead}.

(** The poll of the socket at the end of the loop. *)
Definition receive_round (t : read_half) : read_round :=
  let '(i, p) := poll_source (in_left t) (in_end t) (Z.to_nat 8192) in
  let t := set_in_left t i in
  match p with
  | Pending => Return t Pending
  | Failed k => Return t (Failed k)
  | Ready [] =>
      match encrypted t with
      | [] => Return t (Ready [])
      | _ => Return t (Failed UnexpectedEof)
      end
  | Ready b => Continue (set_encrypted t (encrypted t ++ b))
  end.

(** A complete record is split off and opened. *)
Definition record_round (t : read_half) : read_round :=
  match expected_record_len t with
  | Some n =>
      if 5 + n <=? len (encrypted t) then
        let record := take (Z.to_nat (5 + n)) (encrypted t) in
        let rest := drop (Z.to_nat (5 + n)) (encrypted t) in
        match @open _ unit (read_keys t) record with
        | Val (k, Some (content_type, p)) =>
            let t := set_split t k rest in
            if content_type =? RECORD_APPLICATION_DATA then
              match p with [] => Continue t | _ => Continue (set_plaintext t p) end
            else if content_type =? RECORD_ALERT then Return t (Ready [])
            else Return t (Failed InvalidData)
        | Val (k, None) => Return (set_split t k rest) (Failed InvalidData)
        | _ => Panic
        end
      else receive_round t
  | None => receive_round t
  end.

Definition poll_round (t : read_half) (room : nat) : read_round :=
  match plaintext t with
  | _ :: _ =>
      let n := Nat.min (length (plaintext t)) room in
      Return (set_plaintext t (drop n (plaintext t))) (Ready (take n (plaintext t)))
  | [] =>
      match expected_record_len t, get_at (encrypted t) 3, get_at (encrypted t) 4 with
      | None, Some b3, Some b4 =>
          let n := be_val [b3; b4] in
          if MAX_TLS_RECORD <? n then Return t (Failed InvalidData)
          else record_round (set_expected t (Some n))
      | _, _, _ => record_round t
      end
  end.

Fixpoint poll_read_fuel (fuel : nat) (t : read_half) (room : nat) : option (read_half * polled) :=
  match fuel with
  | O => None
  | S f =>
      match poll_round t room with
      | Return t' p => Some (t', p)
      | Continue t' => poll_read_fuel f t' room
      | Panic => None
      end
  end.

(** A round that goes on takes bytes from the socket or a record from the buffer. *)
Definition read_fuel (t : read_half) : nat := 2 * length (wire_of (in_left t)) + length (encrypted t).

Definition poll_read (t : read_half) (room : nat) : option (read_half * polled) :=
  poll_read_fuel (S (S (read_fuel t))) t room.

(** [read_to_end] with reads into [room] bytes. *)
Fixpoint drain (fuel : nat) (t : read_half) (room : nat) : option (bytes * option io_kind) :=
  match fuel with
  | O => None
  | S f =>
      match poll_read t room with
      | Some (t', Pending) => drain f t' room
      | Some (t', Ready []) => Some ([], None)
      | Some (t', Ready b) => '(o, e) ← drain f t' room; Some (b ++ o, e)
      | Some (t', Failed k) => Some ([], Some k)
      | None => None
      end
  end.

(** * The reference: decoding the whole byte stream at once *)

Definition at_eof (e : ending) (k : io_kind) : option io_kind :=
  match e with AtEof => Some k | AtError k' => Some k' end.

(** The plaintext of the application records up to the end, an alert, or the first
    error, and the error. *)
Fixpoint decode_records (fuel : nat) (k : RecordKeys) (w : bytes) (e : ending) : bytes * option io_kind :=
  match fuel with
  | O => ([], None)
  | S f =>
      match w with
      | [] => ([], match e with AtEof => None | AtError k' => Some k' end)
      | _ =>
          match get_at w 3, get_at w 4 with
          | Some b3, Some b4 =>
              let n := be_val [b3; b4] in
              if MAX_TLS_RECORD <? n then ([], Some InvalidData)
              else if len w <? 5 + n then ([], at_eof e UnexpectedEof)
              else
                match @open _ unit k (take (Z.to_nat (5 + n)) w) with
                | Val (k', Some (content_type, p)) =>
                    if content_type =? RECORD_APPLICATION_DATA then
                      let '(o, r) := decode_records f k' (drop (Z.to_nat (5 + n)) w) e in (p ++ o, r)
                    else if content_type =? RECORD_ALERT then ([], None)
                    else ([], Some InvalidData)
                | _ => ([], Some InvalidData)
                end
          | _, _ => ([], at_eof e UnexpectedEof)
          end
      end
  end.

Definition decode (k : RecordKeys) (w : bytes) (e : ending) : bytes * option io_kind := decode_records (S (length w)) k w e.
End read.

(** * Lemmas on the reference *)

Lemma be_val_2_nonneg a b : byte_ok a -> byte_ok b -> 0 <= be_val [a; b] < 2 ^ 16.
Proof. intros Ha Hb. unfold byte_ok in *. cbn. lia. Qed.

(** The two length bytes of a header. *)
Lemma header_bytes w : bytes_ok w ->
  (len w < 5 /\ (get_at w 3 = None \/ get_at w 4 = None)) \/
  (exists b3 b4, 5 <= len w /\ get_at w 3 = Some b3 /\ get_at w 4 = Some b4 /\ 0 <= be_val [b3; b4] < 2 ^ 16).
Proof.
  intros Hok. destruct w as [|x0 [|x1 [|x2 [|x3 [|x4 w]]]]]; try (left; split; [done|by auto]).
  right. exists x3, x4. unfold bytes_ok in Hok. rewrite !list.Forall_cons in Hok. destruct_and!.
  split; [rewrite !len_cons; pose proof (len_nonneg w); lia|]. split; [done|]. split; [done|]. by apply be_val_2_nonneg.
Qed.

Lemma get_at_app_l {A} (l k : list A) i : i < len l -> get_at (l ++ k) i = get_at l i.
Proof. intros Hi. unfold get_at. destruct (0 <=? i) eqn:E; [|done]. split_bool. apply lookup_app_l. unfold len in Hi. lia. Qed.

Section reference.
Context `{TlsAead}.

Lemma decode_records_fuel f g k w e :
  bytes_ok w -> (length w < f)%nat -> (length w < g)%nat -> decode_records f k w e = decode_records g k w e.
Proof.
  revert g k w. induction f as [|f IH]; intros g k w Hok Hf Hg; [lia|]. destruct g as [|g]; [lia|].
  cbn [decode_records]. destruct w as [|w0 w'] eqn:Ew; [done|]. rewrite <- Ew in *. clear Ew w'.
  destruct (header_bytes w Hok) as [[_ [->| ->]]|(b3 & b4 & H5 & -> & -> & Hn)]; [done|by destruct (get_at w 3)|].
  set (n := be_val [b3; b4]) in *. destruct (MAX_TLS_RECORD <? n); [done|]. destruct (len w <? 5 + n) eqn:El; [done|]. split_bool.
  destruct (open _ _) as [[k' [[t p]|]]|?| |]; try done. destruct (t =? _); [|done].
  rewrite (IH g); [done|auto with bytes|..]; rewrite length_drop; unfold len in *; lia.
Qed.

Lemma decode_nil k e : decode k [] e = ([], match e with AtEof => None | AtError k' => Some k' end).
Proof. done. Qed.

(** What is not a whole header or a whole record is the end. *)
Lemma decode_short k w e : w <> [] -> bytes_ok w -> len w < 5 -> decode k w e = ([], at_eof e UnexpectedEof).
Proof.
  intros Hne Hok Hl. unfold decode. cbn [decode_records]. destruct w as [|w0 w'] eqn:Ew; [done|]. rewrite <- Ew in *. clear Ew.
  destruct (header_bytes w Hok) as [[_ [->| ->]]|(b3 & b4 & H5 & _)]; [done|by destruct (get_at w 3)|lia].
Qed.

Lemma decode_header k w e b3 b4 :
  bytes_ok w -> get_at w 3 = Some b3 -> get_at w 4 = Some b4 ->
  let n := be_val [b3; b4] in
  decode k w e =
    if MAX_TLS_RECORD <? n then ([], Some InvalidData)
    else if len w <? 5 + n then ([], at_eof e UnexpectedEof)
    else
      match @open _ unit k (take (Z.to_nat (5 + n)) w) with
      | Val (k', Some (content_type, p)) =>
          if content_type =? RECORD_APPLICATION_DATA then
            let '(o, r) := decode k' (drop (Z.to_nat (5 + n)) w) e in (p ++ o, r)
          else if content_type =? RECORD_ALERT then ([], None)
          else ([], Some InvalidData)
      | _ => ([], Some InvalidData)
      end.
Proof.
  intros Hok H3 H4 n. destruct (header_bytes w Hok) as [[_ [?|?]]|(c3 & c4 & H5 & H3' & H4' & Hn)]; [congruence..|].
  assert (0 <= n < 2 ^ 16) as Hn' by (unfold n; congruence). clear Hn H3' H4'.
  unfold decode at 1. cbn [decode_records]. destruct w as [|w0 w'] eqn:Ew; [done|]. rewrite <- Ew in *. clear Ew w'.
  rewrite H3, H4. fold n. destruct (MAX_TLS_RECORD <? n); [done|]. destruct (len w <? 5 + n) eqn:El; [done|]. split_bool.
  destruct (open _ _) as [[k' [[t p]|]]|?| |]; try done. destruct (t =? _); [|done].
  unfold decode. rewrite (decode_records_fuel (length w) (S (length (drop (Z.to_nat (5 + n)) w)))); [done|auto with bytes|..];
    rewrite length_drop; unfold len in *; lia.
Qed.
End reference.

(** * The reader follows the reference *)

Record read_wf (t : read_half) : Prop := mk_read_wf {
  rw_inner : inner_ok (in_left t);
  rw_bytes : bytes_ok (encrypted t);
  rw_expected : match expected_record_len t with
                | None => True
                | Some n => n <= MAX_TLS_RECORD /\ exists b3 b4, get_at (encrypted t) 3 = Some b3 /\ get_at (encrypted t) 4 = Some b4 /\ n = be_val [b3; b4]
                end }.

Section refines.
Context `{TlsAeadLaws}.

(** All bytes the socket will still deliver, from the first undecoded one on. *)
Definition pending_wire (t : read_half) : bytes := encrypted t ++ wire_of (in_left t).

Definition still_to_read (t : read_half) : bytes * option io_kind :=
  let '(o, r) := decode (read_keys t) (pending_wire t) (in_end t) in (plaintext t ++ o, r).

Definition poll_ok (t t' : read_half) (p : polled) : Prop :=
  match p with
  | Pending => read_wf t' /\ still_to_read t' = still_to_read t /\ (length (in_left t') < length (in_left t))%nat
  | Ready [] => still_to_read t = ([], None)
  | Ready b => read_wf t' /\ still_to_read t = (b ++ (still_to_read t').1, (still_to_read t').2) /\ (length (in_left t') <= length (in_left t))%nat
  | Failed k => still_to_read t = ([], Some k)
  end.

Definition round_ok (t : read_half) (r : read_round) : Prop :=
  match r with
  | Return t' p => poll_ok t t' p
  | Continue t' =>
      read_wf t' /\ still_to_read t' = still_to_read t /\ (length (in_left t') <= length (in_left t))%nat /\ (read_fuel t' < read_fuel t)%nat
  | Panic => False
  end.

Lemma wire_bytes_ok i : inner_ok i -> bytes_ok (wire_of i).
Proof.
  unfold wire_of. induction 1 as [|x i Hx _ IH]; [apply Forall_nil_2|]. cbn [fmap list_fmap concat]. apply bytes_ok_app.
  split; [|done]. by destruct x as [b|]; cbn; [apply Hx|apply Forall_nil_2].
Qed.

Lemma pending_bytes_ok t : read_wf t -> bytes_ok (pending_wire t).
Proof. intros [Hi Hb _]. apply bytes_ok_app. split; [done|by apply wire_bytes_ok]. Qed.

(** No record is complete in the buffer. *)
Definition waiting (t : read_half) : Prop :=
  match expected_record_len t with None => len (encrypted t) < 5 | Some n => len (encrypted t) < 5 + n end.

Lemma waiting_at_end t :
  read_wf t -> plaintext t = [] -> waiting t -> in_left t = [] ->
  still_to_read t = ([], match encrypted t with [] => match in_end t with AtEof => None | AtError k => Some k end | _ => at_eof (in_end t) UnexpectedEof end).
Proof.
  intros [Hi Hb He] Hp Hw Hl. unfold still_to_read, pending_wire. rewrite Hl, Hp. cbn [wire_of fmap list_fmap concat]. rewrite app_nil_r.
  destruct (encrypted t) as [|e0 e] eqn:Ee; [done|]. rewrite <- Ee in *. assert (encrypted t <> []) as Hne by congruence. clear Ee.
  unfold waiting in Hw. destruct (expected_record_len t) as [n|].
  - destruct He as (Hm & b3 & b4 & H3 & H4 & ->). rewrite (decode_header _ _ _ _ _ Hb H3 H4).
    rewrite (proj2 (Z.ltb_ge _ _)) by lia. by rewrite (proj2 (Z.ltb_lt _ _)) by lia.
  - by rewrite decode_short.
Qed.

Lemma tls_receive_round_ok t : read_wf t -> plaintext t = [] -> waiting t -> round_ok t (receive_round t).
Proof.
  intros Hwf Hp Hw. pose proof Hwf as [Hi Hb He]. unfold receive_round.
  pose proof (poll_source_spec (in_left t) (in_end t) (Z.to_nat 8192) Hi ltac:(lia)) as Hps.
  pose proof (poll_source_length (in_left t) (in_end t) (Z.to_nat 8192)) as Hpl.
  destruct (poll_source _ _ _) as [r [|b|k]].
  - destruct Hps as [Hok Hwire]. split; [by split|]. split; [|done]. unfold still_to_read, pending_wire. cbn. by rewrite Hwire.
  - destruct Hps as (Hok & Hwire & _ & Hbok & Hemp). destruct b as [|b0 b].
    + destruct (Hemp eq_refl) as (-> & Hil & Hend). pose proof (waiting_at_end t Hwf Hp Hw Hil) as Hs. cbn [encrypted set_in_left].
      rewrite Hend in Hs. by destruct (encrypted t).
    + cbv iota. assert (0 < length (b0 :: b))%nat as Hbl by (cbn; lia). revert Hwire Hbl Hbok. generalize (b0 :: b). intros bb Hwire Hbl Hbok.
      cbn [encrypted set_in_left]. split; [|split; [|split; [done|]]].
      * split; cbn [in_left encrypted expected_record_len set_encrypted set_in_left]; [done|by apply bytes_ok_app|]. destruct (expected_record_len t) as [n|]; [|done].
        destruct He as (Hm & b3 & b4 & H3 & H4 & ->). split; [done|]. exists b3, b4.
        assert (4 < len (encrypted t)) as Hl4.
        { unfold get_at in H4. cbn in H4. apply lookup_lt_Some in H4. unfold len. lia. }
        by rewrite !get_at_app_l by lia.
      * unfold still_to_read, pending_wire. cbn. rewrite Hwire. by rewrite <- app_assoc.
      * unfold read_fuel. cbn [in_left encrypted set_encrypted set_in_left]. rewrite Hwire, !length_app. lia.
  - destruct Hps as (-> & Hil & Hend). pose proof (waiting_at_end t Hwf Hp Hw Hil) as Hs. cbn. rewrite Hend in Hs. by destruct (encrypted t).
Qed.

(** A whole record in the buffer is opened as the reference opens it. *)
Lemma tls_record_round_opens t n :
  read_wf t -> plaintext t = [] -> expected_record_len t = Some n -> 5 + n <= len (encrypted t) -> round_ok t (record_round t).
Proof.
  intros Hwf Hp En Hn. pose proof (pending_bytes_ok t Hwf) as Hpok. destruct Hwf as [Hi Hb He]. rewrite En in He.
  destruct He as (Hm & b3 & b4 & H3 & H4 & Hnb). unfold record_round. rewrite En, (proj2 (Z.leb_le _ _)) by lia. cbv zeta.
  assert (0 <= n) as Hn0.
  { destruct (header_bytes _ Hb) as [[_ [?|?]]|(c3 & c4 & _ & H3' & H4' & Hc)]; [congruence..|]. rewrite Hnb. assert (b3 = c3) as -> by congruence. assert (b4 = c4) as -> by congruence. lia. }
  assert (4 < len (encrypted t)) as Hl4 by (unfold get_at in H4; cbn in H4; apply lookup_lt_Some in H4; unfold len; lia).
  assert (forall k' p, still_to_read (set_plaintext (set_split t k' (drop (Z.to_nat (5 + n)) (encrypted t))) p) =
    let '(o, r) := decode k' (drop (Z.to_nat (5 + n)) (pending_wire t)) (in_end t) in (p ++ o, r)) as Hrest.
  { intros k' p. unfold still_to_read, pending_wire. cbn. by rewrite drop_app_le by (unfold len in *; lia). }
  assert (still_to_read t = match @open _ unit (read_keys t) (take (Z.to_nat (5 + n)) (encrypted t)) with
      | Val (k', Some (content_type, p)) =>
          if content_type =? RECORD_APPLICATION_DATA then
            let '(o, r) := decode k' (drop (Z.to_nat (5 + n)) (pending_wire t)) (in_end t) in (p ++ o, r)
          else if content_type =? RECORD_ALERT then ([], None)
          else ([], Some InvalidData)
      | _ => ([], Some InvalidData)
      end) as Hspec.
  { unfold still_to_read. rewrite Hp. rewrite (decode_header _ _ _ b3 b4 Hpok) by (unfold pending_wire; by rewrite get_at_app_l by lia).
    rewrite <- Hnb, (proj2 (Z.ltb_ge _ _)) by lia. unfold pending_wire at 1. rewrite len_app. pose proof (len_nonneg (wire_of (in_left t))).
    rewrite (proj2 (Z.ltb_ge _ _)) by lia. unfold pending_wire at 1. rewrite take_app_le by (unfold len in *; lia).
    destruct (open _ _) as [[k' [[ct p]|]]|?| |]; try done. destruct (ct =? _); [by destruct (decode _ _ _)|]. by destruct (ct =? _). }
  destruct (open_total (E := unit) (read_keys t) (take (Z.to_nat (5 + n)) (encrypted t))) as [[k' o] Ho]. rewrite Ho in *.
  assert (forall p, round_ok t (Continue (set_plaintext (set_split t k' (drop (Z.to_nat (5 + n)) (encrypted t))) p)) <->
    still_to_read t = (let '(o, r) := decode k' (drop (Z.to_nat (5 + n)) (pending_wire t)) (in_end t) in (p ++ o, r))) as Hgo.
  { intros p. split; [intros (_ & <- & _); apply Hrest|]. intros Heq. split; [split; cbn; auto with bytes|]. split; [by rewrite Hrest|].
    split; [done|]. unfold read_fuel. cbn [in_left encrypted set_plaintext set_split]. rewrite length_drop. clear -Hn Hn0. unfold len in *. lia. }
  destruct o as [[ct p]|]; [|done]. destruct (ct =? RECORD_APPLICATION_DATA).
  - destruct p as [|p0 p].
    + replace (set_split t k' _) with (set_plaintext (set_split t k' (drop (Z.to_nat (5 + n)) (encrypted t))) []) by (cbn; unfold set_plaintext, set_split; cbn; by rewrite Hp).
      by apply Hgo.
    + by apply Hgo.
  - by destruct (ct =? RECORD_ALERT).
Qed.

Lemma tls_record_round_ok t :
  read_wf t -> plaintext t = [] -> (expected_record_len t = None -> len (encrypted t) < 5) -> round_ok t (record_round t).
Proof.
  intros Hwf Hp H5. destruct (expected_record_len t) as [n|] eqn:En.
  - destruct (Z.le_gt_cases (5 + n) (len (encrypted t))) as [Hle|Hgt]; [by eapply tls_record_round_opens|].
    unfold record_round. rewrite En, (proj2 (Z.leb_gt _ _)) by lia. apply tls_receive_round_ok; [done|done|]. unfold waiting. by rewrite En.
  - unfold record_round. rewrite En. apply tls_receive_round_ok; [done|done|]. unfold waiting. rewrite En. auto.
Qed.

Lemma tls_poll_round_ok t room : read_wf t -> (0 < room)%nat -> round_ok t (poll_round t room).
Proof.
  intros Hwf Hroom. pose proof Hwf as [Hi Hb He]. unfold poll_round. destruct (plaintext t) as [|p0 p] eqn:Ep.
  - destruct (expected_record_len t) as [n|] eqn:En.
    { apply tls_record_round_ok; [done|done|]. by rewrite En. }
    destruct (header_bytes _ Hb) as [[Hs Hno]|(b3 & b4 & H5 & H3 & H4 & Hn)].
    + assert (round_ok t (record_round t)) as Hr by (by apply tls_record_round_ok).
      destruct Hno as [->| ->]; [done|]. by destruct (get_at (encrypted t) 3).
    + rewrite H3, H4. cbv zeta. destruct (MAX_TLS_RECORD <? be_val [b3; b4]) eqn:Em.
      * pose proof (pending_bytes_ok t Hwf) as Hpok. cbn. unfold still_to_read. rewrite Ep.
        rewrite (decode_header _ _ _ b3 b4 Hpok) by (unfold pending_wire; by rewrite get_at_app_l by lia). by rewrite Em.
      * split_bool. apply (tls_record_round_ok (set_expected t (Some (be_val [b3; b4])))); [|done|done].
        split; [done|done|]. cbn [expected_record_len encrypted set_expected]. split; [done|]. eauto.
  - cbv zeta. set (m := Nat.min _ room). destruct (take m (p0 :: p)) as [|x0 x] eqn:Et.
    { subst m. cbn [length] in Et. destruct room; [lia|done]. }
    cbn [round_ok poll_ok]. split; [by split|]. split; [|done]. rewrite <- Et. unfold still_to_read, pending_wire.
    cbn [read_keys encrypted in_left in_end plaintext set_plaintext]. rewrite Ep.
    destruct (decode _ _ _) as [o r]. cbn [fst snd]. by rewrite app_assoc, take_drop.
Qed.

Lemma poll_ok_mono t t1 t' p :
  still_to_read t1 = still_to_read t -> (length (in_left t1) <= length (in_left t))%nat -> poll_ok t1 t' p -> poll_ok t t' p.
Proof.
  intros Hs Hl Ho. unfold poll_ok in *. rewrite <- Hs. destruct p as [|[|b0 b]|k]; try done.
  - destruct Ho as (? & ? & ?). split; [done|]. split; [done|lia].
  - destruct Ho as (? & ? & ?). split; [done|]. split; [done|lia].
Qed.

Lemma tls_poll_read_fuel_ok fuel t room :
  read_wf t -> (0 < room)%nat -> (read_fuel t < fuel)%nat -> exists t' p, poll_read_fuel fuel t room = Some (t', p) /\ poll_ok t t' p.
Proof.
  intros Hwf Hroom. revert t Hwf. induction fuel as [|fuel IH]; intros t Hwf Hf; [lia|]. cbn [poll_read_fuel].
  pose proof (tls_poll_round_ok t room Hwf Hroom) as Hr. destruct (poll_round t room) as [t' p|t1|]; [by eexists _, _| |done].
  destruct Hr as (Hwf1 & Hs & Hl & Hfu). destruct (IH t1 Hwf1 ltac:(lia)) as (t' & p & Hp & Hok).
  exists t', p. split; [done|]. by eapply poll_ok_mono.
Qed.

Lemma tls_drain_ok fuel t room :
  read_wf t -> (0 < room)%nat -> (length (in_left t) + length (still_to_read t).1 < fuel)%nat -> drain fuel t room = Some (still_to_read t).
Proof.
  intros Hwf Hroom. revert t Hwf. induction fuel as [|fuel IH]; intros t Hwf Hf; [lia|]. cbn [drain]. unfold poll_read.
  destruct (tls_poll_read_fuel_ok (S (S (read_fuel t))) t room Hwf Hroom ltac:(lia)) as (t' & p & -> & Hok).
  destruct p as [|[|b0 b]|k]; cbn [poll_ok] in Hok.
  - destruct Hok as (Hwf' & Hs & Hl). rewrite <- Hs. apply IH; [done|]. rewrite Hs. lia.
  - by rewrite Hok.
  - destruct Hok as (Hwf' & Hs & Hl). rewrite Hs in Hf |- *. cbn [fst snd] in Hf. rewrite length_app in Hf. cbn [length] in Hf.
    rewrite IH by (done || lia). by destruct (still_to_read t') as [o r].
  - by rewrite Hok.
Qed.
End refines.

(** ** The reference on sealed records *)

Lemma decode_sealed `{TlsAeadLaws} k ps k' xs rest e :
  @seal_all _ unit k ((fun p => (RECORD_APPLICATION_DATA, p, 0)) <$> ps) = Val (k', xs) ->
  Forall (fun p => len p <= MAX_APP_PLAINTEXT) ps -> Forall bytes_ok xs -> bytes_ok rest ->
  decode k (concat xs ++ rest) e = (concat ps ++ (decode k' rest e).1, (decode k' rest e).2).
Proof.
  intros Hs Hps. revert k xs Hs. induction Hps as [|p ps Hp _ IH]; intros k xs Hs Hxs Hrest; cbn [fmap list_fmap seal_all] in Hs.
  - apply Val_pair_inj in Hs as [<- <-]. cbn [concat app]. by destruct (decode k rest e).
  - comp_inv Hs. apply Val_pair_inj in Hs as [<- <-]. apply list.Forall_cons in Hxs as [Hx Hxs]. rename l into x.
    unfold MAX_APP_PLAINTEXT in Hp. unfold seal_with_padding in Hm.
    assert (fits p 0) as Hf by (unfold fits, TAG_LEN; lia).
    destruct (seal_into_shape (E := unit) k RECORD_APPLICATION_DATA p 0 Hf) as (c & tag & He & Hsh).
    assert (RECORD_APPLICATION_DATA <> 0) as Hne by done.
    destruct (tls_open_seal (E := unit) _ _ _ _ _ _ [] Hf Hne Hm) as (_ & _ & Ho). rewrite app_nil_r in Ho.
    rewrite Hm in Hsh. apply Val_pair_inj in Hsh as [-> Hxe]. destruct (encrypt_shape _ _ _ _ _ _ _ He) as [Hc Ht].
    rewrite len_inner_text in Hc by lia. pose proof (len_nonneg p). set (n := len p + 1 + 0 + TAG_LEN) in *.
    assert (0 <= n <= MAX_TLS_RECORD) as Hn by (unfold n, TAG_LEN, MAX_TLS_RECORD; lia).
    assert (len x = 5 + n) as Hlx by (rewrite Hxe, !len_app, Hc, Ht; unfold len at 1; rewrite record_header_len; unfold n; lia).
    cbn [concat]. rewrite <- app_assoc. rewrite (decode_header _ _ _ (as_u8 (Z.shiftr n 8)) (as_u8 n)).
    + rewrite record_header_val by (unfold uint_ok, MAX_TLS_RECORD in *; lia). rewrite (proj2 (Z.ltb_ge _ _)) by lia.
      rewrite len_app, Hlx, (proj2 (Z.ltb_ge _ _)) by (pose proof (len_nonneg (concat l0 ++ rest)); lia).
      rewrite take_app_len, drop_app_len by (unfold len in Hlx; lia). rewrite Ho.
      change (RECORD_APPLICATION_DATA =? RECORD_APPLICATION_DATA) with true. cbv iota. rewrite (IH _ _ Hm0 Hxs Hrest).
      cbn [concat]. by rewrite <- app_assoc.
    + apply bytes_ok_app. split; [done|]. apply bytes_ok_app. split; [|done]. clear -Hxs. induction Hxs; [apply Forall_nil_2|]. cbn. by apply bytes_ok_app.
    + rewrite Hxe. reflexivity.
    + rewrite Hxe. reflexivity.
Qed.

Lemma concat_bytes_ok xs : bytes_ok (concat xs) <-> Forall bytes_ok xs.
Proof.
  induction xs as [|x xs IH]; cbn [concat]; [by split; intros; apply Forall_nil_2|]. by rewrite bytes_ok_app, list.Forall_cons, IH.
Qed.

(** A close alert ends the stream. *)
Lemma decode_alert `{TlsAeadLaws} k k2 alert tail e :
  @seal _ unit k RECORD_ALERT [1; 0] = Val (k2, alert) -> bytes_ok (alert ++ tail) -> decode k (alert ++ tail) e = ([], None).
Proof.
  intros Hs Hok. unfold seal, seal_with_padding in Hs. assert (fits [1; 0] 0) as Hf by (unfold fits, TAG_LEN, len; cbn; lia).
  assert (RECORD_ALERT <> 0) as Hne by done.
  destruct (tls_open_seal (E := unit) _ _ _ _ _ _ [] Hf Hne Hs) as (_ & _ & Ho). rewrite app_nil_r in Ho.
  destruct (seal_into_shape (E := unit) k RECORD_ALERT [1; 0] 0 Hf) as (c & tag & He & Hsh). rewrite Hs in Hsh.
  apply Val_pair_inj in Hsh as [-> Hxe]. destruct (encrypt_shape _ _ _ _ _ _ _ He) as [Hc Ht]. rewrite len_inner_text in Hc by lia.
  change (len [1; 0] + 1 + 0) with 3 in Hc. change (len [1; 0] + 1 + 0 + TAG_LEN) with 19 in Hxe.
  assert (len alert = 24) as Hl by (rewrite Hxe, !len_app, Hc, Ht; done).
  rewrite (decode_header _ _ _ 0 19 Hok) by (by rewrite Hxe). change (be_val [0; 19]) with 19.
  change (MAX_TLS_RECORD <? 19) with false. cbv iota. rewrite len_app, Hl. pose proof (len_nonneg tail).
  rewrite (proj2 (Z.ltb_ge _ _)) by lia. rewrite take_app_len by (unfold len in Hl; lia). by rewrite Ho.
Qed.

(** * Writing *)

(** What a socket does on its coming polls for writing: it is busy, takes at most
    [n] bytes (or completes a flush), or fails.  After the last event it takes
    everything. *)
Inductive wevent : Type := WBusy | WTake (n : nat) | WError (k : io_kind).

Record sink := mk_sink { events : list wevent; written : bytes }.

Inductive wpolled (A : Type) : Type := WPending | WReady (a : A) | WFailed (k : io_kind).
Arguments WPending {A}.
Arguments WReady {A} a.
Arguments WFailed {A} k.

Definition sink_write (s : sink) (buf : bytes) : sink * wpolled nat :=
  match events s with
  | [] => (mk_sink [] (written s ++ buf), WReady (length buf))
  | WBusy :: es => (mk_sink es (written s), WPending)
  | WTake n :: es => (mk_sink es (written s ++ take n buf), WReady (Nat.min n (length buf)))
  | WError k :: es => (mk_sink es (written s), WFailed k)
  end.

(** [poll_flush] and [poll_shutdown] of the socket. *)
Definition sink_finish (s : sink) : sink * wpolled unit :=
  match events s with
  | [] => (s, WReady tt)
  | WBusy :: es => (mk_sink es (written s), WPending)
  | WTake _ :: es => (mk_sink es (written s), WReady tt)
  | WError k :: es => (mk_sink es (written s), WFailed k)
  end.

Record write_half := mk_write_half {
  out : sink; write_keys : RecordKeys; write_buf : bytes; write_pos : nat; close_sent : bool }.

Definition write_half_new (s : sink) (k : RecordKeys) : write_half := mk_write_half s k [] 0 false.

Definition set_out (w : write_half) (s : sink) : write_half :=
  mk_write_half s (write_keys w) (write_buf w) (write_pos w) (close_sent w).
Definition set_pos (w : write_half) (s : sink) (p : nat) : write_half :=
  mk_write_half s (write_keys w) (write_buf w) p (close_sent w).
Definition set_record (w : write_half) (k : RecordKeys) (b : bytes) (c : bool) : write_half := mk_write_half (out w) k b 0 c.

Fixpoint flush_loop (fuel : nat) (w : write_half) : option (write_half * wpolled unit) :=
  match fuel with
  | O => None
  | S f =>
      if (write_pos w <? length (write_buf w))%nat then
        match sink_write (out w) (drop (write_pos w) (write_buf w)) with
        | (s, WPending) => Some (set_out w s, WPending)
        | (s, WFailed k) => Some (set_out w s, WFailed k)
        | (s, WReady O) => Some (set_out w s, WFailed WriteZero)
        | (s, WReady n) => flush_loop f (set_pos w s (write_pos w + n))
        end
      else Some (mk_write_half (out w) (write_keys w) [] 0 (close_sent w), WReady tt)
  end.

(** Every round writes at least one byte. *)
Definition poll_flush_pending (w : write_half) : option (write_half * wpolled unit) :=
  flush_loop (S (length (write_buf w))) w.

Section write.
Context `{TlsAead}.

Definition poll_write (w : write_half) (buf : bytes) : option (write_half * wpolled nat) :=
  '(w, r) ← poll_flush_pending w;
  match r with
  | WPending => Some (w, WPending)
  | WFailed k => Some (w, WFailed k)
  | WReady _ =>
      match buf with
      | [] => Some (w, WReady O)
      | _ =>
          let n := Nat.min (length buf) (Z.to_nat MAX_APP_PLAINTEXT) in
          match @seal _ unit (write_keys w) RECORD_APPLICATION_DATA (take n buf) with
          | Val (k, record) =>
              '(w, _) ← poll_flush_pending (set_record w k record (close_sent w));
              Some (w, WReady n)
          | _ => None
          end
      end
  end.

Definition poll_flush (w : write_half) : option (write_half * wpolled unit) :=
  '(w, r) ← poll_flush_pending w;
  match r with
  | WReady _ => let '(s, r) := sink_finish (out w) in Some (set_out w s, r)
  | r => Some (w, r)
  end.

(** The flush of the socket and its shutdown, at the end of [poll_shutdown]. *)
Definition finish_shutdown (w : write_half) : write_half * wpolled unit :=
  let '(s, r) := sink_finish (out w) in
  let w := set_out w s in
  match r with
  | WReady _ => let '(s, r) := sink_finish (out w) in (set_out w s, r)
  | r => (w, r)
  end.

Definition poll_shutdown (w : write_half) : option (write_half * wpolled unit) :=
  '(w, r) ← poll_flush_pending w;
  match r with
  | WReady _ =>
      if close_sent w then Some (finish_shutdown w)
      else
        match @seal _ unit (write_keys w) RECORD_ALERT [1; 0] with
        | Val (k, record) =>
            '(w, r) ← poll_flush_pending (set_record w k record true);
            match r with
            | WReady _ => Some (finish_shutdown w)
            | r => Some (w, r)
            end
        | _ => None
        end
  | r => Some (w, r)
  end.

(** * Traces of the writer *)

Inductive write_op : Type := OWrite (buf : bytes) | OFlush | OShutdown.

(** One operation, with the messages it accepts for sending. *)
Inductive write_step : write_half -> write_op -> list (Z * bytes * Z) -> write_half -> Prop :=
| step_write w buf w' n :
    poll_write w buf = Some (w', WReady n) ->
    write_step w (OWrite buf) (if (n =? 0)%nat then [] else [(RECORD_APPLICATION_DATA, take n buf, 0)]) w'
| step_write_not w buf w' r :
    poll_write w buf = Some (w', r) -> (forall n, r <> WReady n) -> write_step w (OWrite buf) [] w'
| step_flush w w' r : poll_flush w = Some (w', r) -> write_step w OFlush [] w'
| step_shutdown w w' r :
    poll_shutdown w = Some (w', r) ->
    write_step w OShutdown (if negb (close_sent w) && close_sent w' then [(RECORD_ALERT, [1; 0], 0)] else []) w'.

Inductive write_trace : write_half -> list (Z * bytes * Z) -> write_half -> Prop :=
| trace_nil w : write_trace w [] w
| trace_step w op ms w1 ms' w' : write_step w op ms w1 -> write_trace w1 ms' w' -> write_trace w (ms ++ ms') w'.
End write.

(** * Lemmas on the writer *)

(** The bytes a writer has handed to the socket or still holds. *)
Definition sent (w : write_half) : bytes := written (out w) ++ drop (write_pos w) (write_buf w).

Lemma flush_loop_ok fuel w :
  (length (write_buf w) - write_pos w < fuel)%nat ->
  exists w' r, flush_loop fuel w = Some (w', r) /\ sent w' = sent w /\ write_keys w' = write_keys w /\
    close_sent w' = close_sent w /\ (r = WReady tt -> drop (write_pos w') (write_buf w') = []).
Proof.
  revert w. induction fuel as [|fuel IH]; intros w Hf; [lia|]. cbn [flush_loop].
  destruct (Nat.ltb_spec (write_pos w) (length (write_buf w))) as [Hlt|Hge].
  - unfold sink_write. assert (0 < length (drop (write_pos w) (write_buf w)))%nat as Hd by (rewrite length_drop; lia).
    assert (forall es n, (0 < n)%nat -> exists w' r,
      flush_loop fuel (set_pos w (mk_sink es (written (out w) ++ take n (drop (write_pos w) (write_buf w)))) (write_pos w + Nat.min n (length (drop (write_pos w) (write_buf w))))) = Some (w', r) /\
      sent w' = sent w /\ write_keys w' = write_keys w /\ close_sent w' = close_sent w /\ (r = WReady tt -> drop (write_pos w') (write_buf w') = [])) as Hgo.
    { intros es n Hn. destruct (IH (set_pos w (mk_sink es (written (out w) ++ take n (drop (write_pos w) (write_buf w))))
        (write_pos w + Nat.min n (length (drop (write_pos w) (write_buf w)))))) as (w' & r & Hr & Hs & Hk & Hc & Hd'); [cbn; lia|].
      exists w', r. split; [done|]. split; [|done]. rewrite Hs. unfold sent. cbn. rewrite <- app_assoc, <- drop_drop. f_equal.
      destruct (Nat.le_ge_cases n (length (drop (write_pos w) (write_buf w)))) as [Hle|Hle].
      - rewrite Nat.min_l by done. apply take_drop.
      - rewrite Nat.min_r, drop_all, take_ge, app_nil_r by done. done. }
    destruct (events (out w)) as [|[|n|k] es].
    + destruct (length (drop _ _)) as [|m] eqn:Em; [lia|]. specialize (Hgo [] (S m) ltac:(lia)). rewrite Nat.min_id, take_ge in Hgo by lia. exact Hgo.
    + by eexists _, _.
    + destruct (Nat.min n _) as [|m] eqn:Em; [assert (n = O) as -> by lia; eexists _, _; split; [done|]; split; [unfold sent; cbn; by rewrite take_0, app_nil_r|done]|].
      rewrite <- Em. apply Hgo. lia.
    + by eexists _, _.
  - eexists _, _. split; [done|]. unfold sent. cbn. by rewrite (drop_ge (write_buf w)) by done.
Qed.

Lemma poll_flush_pending_ok w :
  exists w' r, poll_flush_pending w = Some (w', r) /\ sent w' = sent w /\ write_keys w' = write_keys w /\
    close_sent w' = close_sent w /\ (r = WReady tt -> drop (write_pos w') (write_buf w') = []).
Proof. apply flush_loop_ok. lia. Qed.

Lemma sink_finish_written s s' r : sink_finish s = (s', r) -> written s' = written s.
Proof. unfold sink_finish. destruct (events s) as [|[|n|k] es]; by intros [= <- <-]. Qed.

Lemma seal_all_snoc `{TlsAead} {E} k ms k1 xs t p pad k2 x :
  @seal_all _ E k ms = Val (k1, xs) -> @seal_into _ E k1 t p pad = Val (k2, x) ->
  @seal_all _ E k (ms ++ [(t, p, pad)]) = Val (k2, xs ++ [x]).
Proof.
  revert k xs. induction ms as [|[[t' p'] pad'] ms IH]; intros k xs Hs Hx; cbn [seal_all app] in *.
  - apply Val_pair_inj in Hs as [-> <-]. unfold seal_with_padding. by rewrite Hx.
  - comp_inv Hs. apply Val_pair_inj in Hs as [-> <-]. rewrite Hm. cbn [mbind comp_bind]. by rewrite (IH _ _ Hm0 Hx).
Qed.

Section writer.
Context `{TlsAeadLaws}.

(** What was accepted is sealed in order, and nothing else is sent. *)
Definition exact (k0 : RecordKeys) (ms : list (Z * bytes * Z)) (w : write_half) : Prop :=
  exists xs, @seal_all _ unit k0 ms = Val (write_keys w, xs) /\ sent w = concat xs.

Lemma exact_same k0 ms w w' : sent w' = sent w -> write_keys w' = write_keys w -> exact k0 ms w -> exact k0 ms w'.
Proof. intros Hs Hk (xs & Hx & He). exists xs. by rewrite Hs, Hk. Qed.

(** A new record after everything before it was written. *)
Lemma exact_record k0 ms w t p c :
  exact k0 ms w -> drop (write_pos w) (write_buf w) = [] -> fits p 0 ->
  exists k record w' r, @seal _ unit (write_keys w) t p = Val (k, record) /\
    poll_flush_pending (set_record w k record c) = Some (w', r) /\ close_sent w' = c /\
    exact k0 (ms ++ [(t, p, 0)]) w' /\ (r = WReady tt -> drop (write_pos w') (write_buf w') = []).
Proof.
  intros (xs & Hx & He) Hd Hf. destruct (seal_into_succeeds (E := unit) (write_keys w) t p 0 Hf) as [record Hr].
  destruct (poll_flush_pending_ok (set_record w (next_seq (write_keys w)) record c)) as (w' & r & Hp & Hs & Hk & Hc & Hd').
  exists (next_seq (write_keys w)), record, w', r. split; [exact Hr|]. split; [done|]. split; [done|]. split; [|done].
  exists (xs ++ [record]). rewrite Hk. split; [by eapply seal_all_snoc|].
  rewrite Hs, concat_app, <- He. unfold sent. cbn. by rewrite Hd, !app_nil_r.
Qed.

Lemma poll_write_ok k0 ms w buf :
  exact k0 ms w ->
  exists w' r, poll_write w buf = Some (w', r) /\ close_sent w' = close_sent w /\
    exact k0 (ms ++ match r with WReady (S n) => [(RECORD_APPLICATION_DATA, take (S n) buf, 0)] | _ => [] end) w' /\
    (forall n, r = WReady n -> n = Nat.min (length buf) (Z.to_nat MAX_APP_PLAINTEXT)).
Proof.
  intros Hex. unfold poll_write. destruct (poll_flush_pending_ok w) as (w1 & r & -> & Hs & Hk & Hc & Hd). cbn [mbind option_bind].
  pose proof (exact_same _ _ _ _ Hs Hk Hex) as Hex1. destruct r as [|[]|k]; [eexists _, _; split; [done|]; by rewrite app_nil_r| |eexists _, _; split; [done|]; by rewrite app_nil_r].
  destruct buf as [|b0 b]; [eexists _, _; split; [done|]; rewrite app_nil_r; split; [done|]; split; [done|]; by intros n [= <-]|].
  set (buf := b0 :: b). set (n := Nat.min (length buf) (Z.to_nat MAX_APP_PLAINTEXT)).
  assert (0 < n)%nat as Hn by (unfold n, buf, MAX_APP_PLAINTEXT; cbn [length]; lia).
  assert (fits (take n buf) 0) as Hf by (unfold fits, len, TAG_LEN; rewrite length_take; unfold n, MAX_APP_PLAINTEXT; lia).
  destruct (exact_record k0 ms w1 RECORD_APPLICATION_DATA (take n buf) (close_sent w1) Hex1 (Hd eq_refl) Hf)
    as (k & record & w' & r & -> & -> & Hc' & Hex' & _). cbn [mbind option_bind]. eexists _, _. split; [done|]. split; [congruence|].
  split; [|by intros m [= <-]]. destruct n; [lia|done].
Qed.

Lemma finish_shutdown_ok w w' r : finish_shutdown w = (w', r) -> sent w' = sent w /\ write_keys w' = write_keys w /\ close_sent w' = close_sent w.
Proof.
  unfold finish_shutdown. destruct (sink_finish (out w)) as [s1 r1] eqn:E1. apply sink_finish_written in E1.
  destruct r1 as [|[]|k]; [intros [= <- <-]; unfold sent; cbn; by rewrite E1| |intros [= <- <-]; unfold sent; cbn; by rewrite E1].
  cbn [out set_out]. destruct (sink_finish s1) as [s2 r2] eqn:E2. apply sink_finish_written in E2. intros [= <- <-].
  unfold sent. cbn. by rewrite E2, E1.
Qed.

Lemma poll_flush_ok k0 ms w :
  exact k0 ms w -> exists w' r, poll_flush w = Some (w', r) /\ exact k0 ms w' /\ close_sent w' = close_sent w /\
    (r = WReady tt -> drop (write_pos w') (write_buf w') = []).
Proof.
  intros Hex. unfold poll_flush. destruct (poll_flush_pending_ok w) as (w1 & r & -> & Hs & Hk & Hc & Hd). cbn [mbind option_bind].
  pose proof (exact_same _ _ _ _ Hs Hk Hex) as Hex1. destruct r as [|[]|k]; [by eexists _, _| |by eexists _, _].
  destruct (sink_finish (out w1)) as [s r] eqn:Ef. apply sink_finish_written in Ef. eexists _, _. split; [done|].
  split; [|split; [done|]; intros _; by apply Hd]. eapply exact_same; [| |exact Hex1]; [|done]. unfold sent. cbn. by rewrite Ef.
Qed.

Lemma poll_shutdown_ok k0 ms w :
  exact k0 ms w -> exists w' r, poll_shutdown w = Some (w', r) /\
    exact k0 (ms ++ if negb (close_sent w) && close_sent w' then [(RECORD_ALERT, [1; 0], 0)] else []) w'.
Proof.
  intros Hex. unfold poll_shutdown. destruct (poll_flush_pending_ok w) as (w1 & r & -> & Hs & Hk & Hc & Hd). cbn [mbind option_bind].
  pose proof (exact_same _ _ _ _ Hs Hk Hex) as Hex1.
  assert (negb (close_sent w) && close_sent w1 = false) as Hno by (rewrite Hc; by destruct (close_sent w)).
  destruct r as [|[]|k]; [eexists _, _; split; [done|]; by rewrite Hno, app_nil_r| |eexists _, _; split; [done|]; by rewrite Hno, app_nil_r].
  destruct (close_sent w1) eqn:Ec.
  - destruct (finish_shutdown w1) as [w2 r2] eqn:Ef. destruct (finish_shutdown_ok _ _ _ Ef) as (Hs2 & Hk2 & Hc2).
    eexists _, _. split; [done|]. rewrite <- Hc. cbn [negb andb]. rewrite app_nil_r. by eapply exact_same.
  - destruct (exact_record k0 ms w1 RECORD_ALERT [1; 0] true Hex1 (Hd eq_refl) ltac:(unfold fits, TAG_LEN, len; cbn; lia))
      as (k & record & w2 & r2 & -> & -> & Hc2 & Hex2 & _). cbn [mbind option_bind]. rewrite <- Hc. cbn [negb andb].
    destruct r2 as [|[]|k2].
    + eexists _, _. split; [done|]. by rewrite Hc2.
    + destruct (finish_shutdown w2) as [w3 r3] eqn:Ef. destruct (finish_shutdown_ok _ _ _ Ef) as (Hs3 & Hk3 & Hc3).
      eexists _, _. split; [done|]. rewrite Hc3, Hc2. by eapply exact_same.
    + eexists _, _. split; [done|]. by rewrite Hc2.
Qed.
End writer.

Section traces.
Context `{TlsAeadLaws}.

Lemma write_step_ok k0 ms w op new w' : exact k0 ms w -> write_step w op new w' -> exact k0 (ms ++ new) w'.
Proof.
  intros Hex Hstep. destruct Hstep as [w buf w' n Hp|w buf w' r Hp Hr|w w' r Hp|w w' r Hp].
  - destruct (poll_write_ok k0 ms w buf Hex) as (w2 & r & Hp' & _ & Hex' & _). rewrite Hp in Hp'. injection Hp' as <- <-.
    by destruct n.
  - destruct (poll_write_ok k0 ms w buf Hex) as (w2 & r' & Hp' & _ & Hex' & _). rewrite Hp in Hp'. injection Hp' as <- <-.
    destruct r as [|[|n]|k]; try done. by destruct (Hr (S n)).
  - destruct (poll_flush_ok k0 ms w Hex) as (w2 & r' & Hp' & Hex' & _). rewrite Hp in Hp'. injection Hp' as <- <-. by rewrite app_nil_r.
  - destruct (poll_shutdown_ok k0 ms w Hex) as (w2 & r' & Hp' & Hex'). rewrite Hp in Hp'. by injection Hp' as <- <-.
Qed.

Lemma write_trace_ok k0 ms w new w' : exact k0 ms w -> write_trace w new w' -> exact k0 (ms ++ new) w'.
Proof.
  intros Hex Ht. revert ms Hex. induction Ht as [w|w op ms1 w1 ms2 w' Hs _ IH]; intros ms Hex; [by rewrite app_nil_r|].
  rewrite app_assoc. apply IH. by eapply write_step_ok.
Qed.

Lemma exact_new s k : written s = [] -> exact k [] (write_half_new s k).
Proof. intros Hs. exists []. split; [done|]. unfold sent. cbn. by rewrite Hs. Qed.
End traces.

(** * Theorems *)

(** C21: the TLS reader decodes the byte stream.  Whatever the bytes on the connection
    and however the socket cuts and delays them, reading to the end gives exactly
    what the reference decoder gives on the whole stream: the plaintext of the
    application records in order up to the end, an alert or the first bad, oversized
    or truncated record, with the same error; no poll panics or loops. *)
Theorem tls_reader_refines `{TlsAeadLaws} i e k room :
  inner_ok i -> (0 < room)%nat ->
  drain (S (length i + length (decode k (wire_of i) e).1)) (read_half_new i e k) room = Some (decode k (wire_of i) e).
Proof.
  intros Hi Hroom. assert (still_to_read (read_half_new i e k) = decode k (wire_of i) e) as Hs.
  { unfold still_to_read, pending_wire. cbn [read_half_new encrypted in_left in_end read_keys plaintext app]. by destruct (decode k (wire_of i) e). }
  rewrite <- Hs. apply tls_drain_ok; [|done|cbn [in_left read_half_new]; lia]. split; [done|apply Forall_nil_2|done].
Qed.

(** Application data arrives.  If the peer seals any chunks of at most 16384
    bytes, in order, under the reader's keys, and then closes the connection at a
    record boundary or after a close alert, then the reader delivers the
    concatenation of the chunks and a clean end, however the wire is fragmented. *)
Theorem tls_stream_delivers `{TlsAeadLaws} k ps k' xs alert i room tail :
  @seal_all _ unit k ((fun p => (RECORD_APPLICATION_DATA, p, 0)) <$> ps) = Val (k', xs) ->
  Forall (fun p => len p <= MAX_APP_PLAINTEXT) ps -> inner_ok i -> (0 < room)%nat ->
  wire_of i = concat xs ++ alert ++ tail ->
  (alert = [] /\ tail = [] \/ exists k2, @seal _ unit k' RECORD_ALERT [1; 0] = Val (k2, alert)) ->
  drain (S (length i + length (concat ps))) (read_half_new i AtEof k) room = Some (concat ps, None).
Proof.
  intros Hs Hps Hi Hroom Hw Hend. pose proof (wire_bytes_ok i Hi) as Hok. rewrite Hw in Hok.
  apply bytes_ok_app in Hok as [Hxs Hrest].
  assert (decode k (wire_of i) AtEof = (concat ps, None)) as Hd.
  { rewrite Hw, (decode_sealed _ _ _ _ _ _ Hs Hps); [|by apply concat_bytes_ok|done].
    assert (decode k' (alert ++ tail) AtEof = ([], None)) as ->; [|by rewrite app_nil_r].
    destruct Hend as [[-> ->]|[k2 Ha]]; [done|]. by eapply decode_alert. }
  assert (still_to_read (read_half_new i AtEof k) = (concat ps, None)) as Hst.
  { unfold still_to_read, pending_wire. cbn [read_half_new encrypted in_left in_end read_keys plaintext app]. by rewrite Hd. }
  rewrite <- Hst. apply tls_drain_ok; [|done|rewrite Hst; cbn; lia]. split; [done|apply Forall_nil_2|done].
Qed.

(** C22: the TLS writer sends what it accepted.  After any sequence of writes, flushes
    and shutdowns, whatever the socket accepts, delays or refuses, the bytes handed
    to the socket followed by the bytes still buffered are exactly the records of
    the accepted chunks in order (and of one close alert per writer), sealed under
    consecutive counters: nothing is lost, repeated or reordered, and once a flush
    completes all of it is on the wire. *)
Theorem tls_writer_exact `{TlsAeadLaws} es k ms w :
  write_trace (write_half_new (mk_sink es []) k) ms w ->
  exists xs, @seal_all _ unit k ms = Val (write_keys w, xs) /\ sent w = concat xs /\
    exists w' r, poll_flush w = Some (w', r) /\ (r = WReady tt -> written (out w') = concat xs).
Proof.
  intros Ht. destruct (write_trace_ok k [] _ ms w (exact_new (mk_sink es []) k eq_refl) Ht) as (xs & Hx & Hs).
  cbn [app] in Hx. exists xs. split; [done|]. split; [done|].
  destruct (poll_flush_ok k ms w (ex_intro _ xs (conj Hx Hs))) as (w' & r & Hp & (xs' & Hx' & Hs') & _ & Hd).
  exists w', r. split; [done|]. intros Hr. unfold sent in Hs'. rewrite (Hd Hr), app_nil_r in Hs'. rewrite Hs'.
  rewrite Hx in Hx'. by apply Val_pair_inj in Hx' as [_ <-].
Qed.

(** * Witnesses *)

#[local] Existing Instance toy_tls_aead.
#[local] Existing Instance toy_tls_laws.

Definition toy_keys : RecordKeys := mk_RecordKeys Aes128GcmSha256 (replicate 16 7) (replicate 12 0x5a) 0.

(** The wire of two chunks and a close alert. *)
Definition toy_records : list bytes :=
  match @seal_all _ unit toy_keys [(RECORD_APPLICATION_DATA, [1; 2; 0], 0); (RECORD_APPLICATION_DATA, [], 0); (RECORD_APPLICATION_DATA, [3], 0)] with
  | Val (_, xs) => xs
  | _ => []
  end.

(** The same bytes, one at a time with a delay after the fourth, then cut off. *)
Definition toy_inner : list (option bytes) :=
  let w := concat toy_records in
  ((fun b => Some [b]) <$> take 4 w) ++ [None] ++ [Some (drop 4 w)].

Lemma tls_reader_refines_witness :
  drain (S (length (toy_inner ++ [Some [23; 3]]) + 4)) (read_half_new (toy_inner ++ [Some [23; 3]]) AtEof toy_keys) 2 =
    Some ([1; 2; 0; 3], Some UnexpectedEof).
Proof.
  pose proof (tls_reader_refines (toy_inner ++ [Some [23; 3]]) AtEof toy_keys 2) as Hr.
  replace (decode toy_keys (wire_of (toy_inner ++ [Some [23; 3]])) AtEof) with ([1; 2; 0; 3], Some UnexpectedEof) in Hr
    by (vm_compute; reflexivity).
  apply Hr; [apply inner_ok_compute; vm_compute; reflexivity|lia].
Defined.

Lemma tls_stream_delivers_witness :
  drain (S (length toy_inner + length (concat [[1; 2; 0]; []; [3]]))) (read_half_new toy_inner AtEof toy_keys) 2 =
    Some (concat [[1; 2; 0]; []; [3]], None).
Proof.
  apply (tls_stream_delivers toy_keys [[1; 2; 0]; []; [3]] (Nat.iter 3 next_seq toy_keys) toy_records [] toy_inner 2 []).
  - vm_compute. reflexivity.
  - repeat (apply Forall_cons_2 || apply Forall_nil_2); apply Z.leb_le; reflexivity.
  - apply inner_ok_compute. vm_compute. reflexivity.
  - lia.
  - vm_compute. reflexivity.
  - left. done.
Defined.

(** A socket that takes three bytes, is busy, and then takes the rest. *)
Lemma tls_writer_exact_witness :
  exists w xs, poll_write (write_half_new (mk_sink [WTake 3; WBusy] []) toy_keys) [9; 8] = Some (w, WReady 2%nat) /\
    @seal_all _ unit toy_keys [(RECORD_APPLICATION_DATA, [9; 8], 0)] = Val (write_keys w, xs) /\ sent w = concat xs.
Proof.
  eexists _, _. split; [vm_compute; reflexivity|]. match goal with |- context [write_keys ?w] => set (w' := w) end.
  destruct (tls_writer_exact [WTake 3; WBusy] toy_keys [(RECORD_APPLICATION_DATA, [9; 8], 0)] w') as (xs & Hx & Hs & _).
  { change [(RECORD_APPLICATION_DATA, [9; 8], 0)] with ((if (2 =? 0)%nat then [] else [(RECORD_APPLICATION_DATA, take 2 [9; 8], 0)]) ++ []).
    eapply trace_step; [apply step_write|apply trace_nil]. vm_compute. reflexivity. }
  revert Hx Hs. vm_compute. intros Hx Hs. injection Hx as <-. split; reflexivity.
Defined.
