(* ===== verification/EncKeys.v ===== *)
(** [src/vless/encryption/config.rs] and [src/vless/encryption/keys.rs]: the text of
    the decryption setting, and the key exchanges of the VLESS encryption handshake.

    X25519 is the class of [TlsKeys]; ML-KEM-768 and base64 are third-party code with
    classes of their own. *)

From S2P Require Import Prelude TlsKeys.

(** * Configuration *)

Inductive EncryptionMode : Type := Native | XorPublic | Random.

#[global] Instance EncryptionMode_eq_dec : EqDecision EncryptionMode.
Proof. solve_decision. Defined.

Inductive KeySeed : Type := SeedX25519 (seed : bytes) | SeedMlKem768 (seed : bytes).

Record EncryptionConfig := mk_EncryptionConfig {
  mode : EncryptionMode; lifetime_from : Z; lifetime_to : Z; padding : bytes; seeds : list KeySeed }.

Inductive ConfigError : Type := Scheme | Mode | Lifetime | Key | PaddingAfterKey.

Definition DOT : Z := 46.
Definition DASH : Z := 45.

Definition parse_mode (part : option bytes) : result ConfigError EncryptionMode :=
  match part with
  | Some p =>
      if bytes_eqb p (bytes_of_string "native") then Ok Native
      else if bytes_eqb p (bytes_of_string "xorpub") then Ok XorPublic
      else if bytes_eqb p (bytes_of_string "random") then Ok Random
      else Err Mode
  | None => Err Mode
  end.

Definition parse_lifetime (value : bytes) : result ConfigError Z := ok_or (parse_uint u16_max value) Lifetime.

Section parse.
Context `{Base64Url}.

(** The loop over the remaining parts. *)
Fixpoint parse_parts (parts : list bytes) (pad : list bytes) (keys : list KeySeed) :
    result ConfigError (list bytes * list KeySeed) :=
  match parts with
  | [] => Ok (pad, keys)
  | part :: rest =>
      if len part <? 20 then
        match keys with
        | [] => parse_parts rest (pad ++ [part]) keys
        | _ :: _ => Err PaddingAfterKey
        end
      else
        decoded ← ok_or (url_safe_no_pad_decode part) Key;
        if len decoded =? 32 then parse_parts rest pad (keys ++ [SeedX25519 decoded])
        else if len decoded =? 64 then parse_parts rest pad (keys ++ [SeedMlKem768 decoded])
        else Err Key
  end.

Definition parse_lifetimes (lifetime : bytes) : result ConfigError (Z * Z) :=
  match split_once DASH lifetime with
  | Some (from, to) => f ← parse_lifetime from; t ← parse_lifetime to; mret (f, t)
  | None => f ← parse_lifetime lifetime; mret (f, 0)
  end.

(** [EncryptionConfig::parse]; [parts !! i] is the [i]-th call of [next]. *)
Definition parse (value : bytes) : result ConfigError EncryptionConfig :=
  let parts := split_on DOT value in
  if negb (bool_decide (parts !! 0%nat = Some (bytes_of_string "mlkem768x25519plus"))) then Err Scheme
  else
    mode ← parse_mode (parts !! 1%nat);
    lifetime ← ok_or (parts !! 2%nat) Lifetime;
    lifetime ← ok_or (strip_suffix [115] lifetime) Lifetime;
    '(from, to) ← parse_lifetimes lifetime;
    '(pad, keys) ← parse_parts (drop 3 parts) [] [];
    match keys with
    | [] => Err Key
    | _ :: _ => Ok (mk_EncryptionConfig mode from to (join_with DOT pad) keys)
    end.
End parse.

(** * Keys *)

(** [MlKem768::generate_deterministic], [encapsulate] with the random draw it makes,
    and [decapsulate]; keys are in their encoded form. *)
Class MlKem := {
  mlkem_generate : bytes -> bytes -> bytes * bytes;
  mlkem_encapsulate : bytes -> bytes -> option (bytes * bytes);
  mlkem_decapsulate : bytes -> bytes -> option bytes }.

(** The documented sizes, and that decapsulation gives the encapsulated secret. *)
Class MlKemLaws `{MlKem} := {
  mlkem_public_length : forall d z, length (mlkem_generate d z).2 = 1184%nat;
  mlkem_encapsulate_total : forall p r, length p = 1184%nat -> is_Some (mlkem_encapsulate p r);
  mlkem_encapsulate_length : forall p r ct ss,
    mlkem_encapsulate p r = Some (ct, ss) -> length ct = 1088%nat /\ length ss = 32%nat;
  mlkem_correct : forall d z r ct ss,
    mlkem_encapsulate (mlkem_generate d z).2 r = Some (ct, ss) -> mlkem_decapsulate (mlkem_generate d z).1 ct = Some ss }.

(** A public X25519 key is the encoding of a number below 2^255. *)
Class X25519Canonical `{X25519} := {
  public_high_bit : forall s b, x25519_public s !! 31%nat = Some b -> b <= 127 }.

Inductive ServerKey : Type :=
| KeyX25519 (secret public : bytes)
| KeyMlKem768 (secret public : bytes).

Inductive KeyError : Type := PeerKey | X25519HighBit | NonContributory | Decapsulation | Encapsulation.

Definition public_key (k : ServerKey) : bytes :=
  match k with KeyX25519 _ public => public | KeyMlKem768 _ public => public end.

Definition relay_len (k : ServerKey) : Z := match k with KeyX25519 _ _ => 32 | KeyMlKem768 _ _ => 1088 end.

Record ServerKeys := mk_ServerKeys { keys : list ServerKey; total_relay_len : Z }.

Section keys.
Context `{X25519} `{MlKem}.

Definition decapsulate (k : ServerKey) (peer : bytes) : result KeyError bytes :=
  match k with
  | KeyX25519 secret _ =>
      if negb (len peer =? 32) then Err PeerKey
      else if 127 <? default 0 (peer !! 31%nat) then Err X25519HighBit
      else
        let shared := diffie_hellman secret peer in
        if was_contributory shared then Ok shared else Err NonContributory
  | KeyMlKem768 secret _ =>
      if negb (len peer =? 1088) then Err PeerKey
      else ok_or (mlkem_decapsulate secret peer) Decapsulation
  end.

Definition server_key (seed : KeySeed) : ServerKey :=
  match seed with
  | SeedX25519 seed => KeyX25519 seed (x25519_public seed)
  | SeedMlKem768 seed =>
      let '(secret, public) := mlkem_generate (take 32 seed) (drop 32 seed) in KeyMlKem768 secret public
  end.

Definition from_seeds (l : list KeySeed) : ServerKeys :=
  let ks := server_key <$> l in
  mk_ServerKeys ks (saturating_sub (list_sum (fun k => relay_len k + 32) ks) 32).

(** The two draws of the random generator are arguments. *)
Definition generate_pfs_response (client_mlkem_public client_x25519_public draw secret : bytes) :
    result KeyError (bytes * bytes) :=
  if negb (len client_mlkem_public =? 1184) then Err PeerKey
  else
    '(ciphertext, mlkem_shared) ← ok_or (mlkem_encapsulate client_mlkem_public draw) Encapsulation;
    if negb (len client_x25519_public =? 32) then Err PeerKey
    else
      let x25519_shared := diffie_hellman secret client_x25519_public in
      if negb (was_contributory x25519_shared) then Err NonContributory
      else Ok (ciphertext ++ x25519_public secret, mlkem_shared ++ x25519_shared).
End keys.

(** * Specification of the setting *)

(** What the base64 crate documents of the decoder and the matching encoder: the
    encoding is in an alphabet without dots, no shorter than the data, and decodes
    to it; only bytes are decoded. *)
Class Base64UrlLaws `{Base64Url} (encode : bytes -> bytes) := {
  decode_encode : forall b, bytes_ok b -> url_safe_no_pad_decode (encode b) = Some b;
  encode_no_dot : forall b, Forall (fun x => x <> DOT) (encode b);
  encode_length : forall b, len b <= len (encode b);
  decode_bytes : forall t b, url_safe_no_pad_decode t = Some b -> bytes_ok b }.

Definition seed_bytes (s : KeySeed) : bytes := match s with SeedX25519 b => b | SeedMlKem768 b => b end.
Definition seed_size (s : KeySeed) : Z := match s with SeedX25519 _ => 32 | SeedMlKem768 _ => 64 end.
Definition seed_ok (s : KeySeed) : Prop := len (seed_bytes s) = seed_size s /\ bytes_ok (seed_bytes s).

Record config_wf (c : EncryptionConfig) : Prop := {
  wf_from : uint_ok 16 (lifetime_from c);
  wf_to : uint_ok 16 (lifetime_to c);
  wf_padding : Forall (fun p => len p < 20) (split_on DOT (padding c));
  wf_seeds : Forall seed_ok (seeds c);
  wf_some : seeds c <> [] }.

Definition mode_name (m : EncryptionMode) : bytes :=
  bytes_of_string match m with Native => "native" | XorPublic => "xorpub" | Random => "random" end.

Definition lifetime_text (c : EncryptionConfig) : bytes :=
  decimal (lifetime_from c) ++ (if lifetime_to c =? 0 then [] else DASH :: decimal (lifetime_to c)).

Definition padding_parts (c : EncryptionConfig) : list bytes :=
  match padding c with [] => [] | _ :: _ => split_on DOT (padding c) end.

(** The text of a configuration. *)
Definition render (encode : bytes -> bytes) (c : EncryptionConfig) : bytes :=
  join_with DOT ([bytes_of_string "mlkem768x25519plus"; mode_name (mode c); lifetime_text c ++ [115]]
    ++ padding_parts c ++ ((fun s => encode (seed_bytes s)) <$> seeds c)).

(** * Lemmas *)

Lemma decimal_nodelim c n : 0 <= n -> (c < 48 \/ 57 < c) -> Forall (fun b => b <> c) (decimal n).
Proof. intros Hn Hc. eapply list.Forall_impl; [by apply decimal_digits_fuel|]. cbn. lia. Qed.

Lemma parse_lifetimes_text c : config_wf c -> parse_lifetimes (lifetime_text c) = Ok (lifetime_from c, lifetime_to c).
Proof.
  intros [Hf Ht _ _ _]. unfold uint_ok in *. unfold parse_lifetimes, lifetime_text, parse_lifetime.
  destruct (lifetime_to c =? 0) eqn:E; split_bool.
  - rewrite app_nil_r, split_once_none by (apply decimal_nodelim; unfold DASH; lia).
    rewrite decimal_parse by (unfold u16_max; lia). cbn. by rewrite E.
  - rewrite split_once_app by (apply decimal_nodelim; unfold DASH; lia).
    by rewrite !decimal_parse by (unfold u16_max; lia).
Qed.

Lemma lifetime_text_nodot c : config_wf c -> Forall (fun b => b <> DOT) (lifetime_text c ++ [115]).
Proof.
  intros [Hf Ht _ _ _]. unfold uint_ok in *. unfold lifetime_text. rewrite !Forall_app.
  assert (forall n, 0 <= n -> Forall (fun b => b <> DOT) (decimal n)) as Hd
    by (intros; apply decimal_nodelim; unfold DOT; lia).
  split; [split|by repeat constructor]; [apply Hd; lia|]. case_match; [constructor|]. constructor; [done|]. apply Hd. lia.
Qed.

Lemma parse_mode_name m : parse_mode (Some (mode_name m)) = Ok m.
Proof. by destruct m. Qed.

Section texts.
Context `{Base64Url} (encode : bytes -> bytes) `{!Base64UrlLaws encode}.

Lemma parse_parts_padding ps rest pad :
  Forall (fun p => len p < 20) ps -> parse_parts (ps ++ rest) pad [] = parse_parts rest (pad ++ ps) [].
Proof.
  intros Hps. revert pad. induction Hps as [|p ps Hp _ IH]; intros pad; [by rewrite app_nil_r|].
  cbn [app parse_parts]. rewrite (proj2 (Z.ltb_lt _ _)) by done. by rewrite IH, <- app_assoc.
Qed.

Lemma parse_parts_seeds ss pad ks :
  Forall seed_ok ss -> parse_parts ((fun s => encode (seed_bytes s)) <$> ss) pad ks = Ok (pad, ks ++ ss).
Proof.
  intros Hss. revert ks. induction Hss as [|s ss [Hl Hb] _ IH]; intros ks; [by rewrite app_nil_r|].
  cbn [fmap list_fmap parse_parts]. pose proof (encode_length (seed_bytes s)) as He.
  rewrite (proj2 (Z.ltb_ge _ _)) by (destruct s; cbn in *; lia). rewrite decode_encode by done. cbn [ok_or mbind result_bind].
  rewrite Hl. destruct s; cbn [seed_size Z.eqb Pos.eqb]; by rewrite IH, <- app_assoc.
Qed.

Lemma padding_parts_short c : config_wf c -> Forall (fun p => len p < 20) (padding_parts c).
Proof. intros Hc. unfold padding_parts. pose proof (wf_padding c Hc). case_match; [constructor|done]. Qed.

Lemma padding_parts_join c : join_with DOT (padding_parts c) = padding c.
Proof. unfold padding_parts. destruct (padding c) eqn:E; [done|]. apply join_split_on. Qed.

Lemma render_parts c :
  config_wf c ->
  split_on DOT (render encode c) =
    [bytes_of_string "mlkem768x25519plus"; mode_name (mode c); lifetime_text c ++ [115]]
    ++ padding_parts c ++ ((fun s => encode (seed_bytes s)) <$> seeds c).
Proof.
  intros Hc. apply split_on_join; [done|]. rewrite !Forall_app. split; [|split].
  - rewrite !list.Forall_cons, list.Forall_nil. split; [by repeat constructor|].
    split; [by destruct (mode c); repeat constructor|]. split; [by apply lifetime_text_nodot|done].
  - unfold padding_parts. case_match; [constructor|]. apply split_on_pieces.
  - apply Forall_fmap, Forall_true. intros s. cbn. apply (encode_no_dot (encode := encode)).
Qed.

Lemma parse_render c : config_wf c -> parse (render encode c) = Ok c.
Proof.
  intros Hc. unfold parse. rewrite render_parts by done. cbn [app lookup list_lookup drop].
  rewrite bool_decide_eq_true_2 by done. cbn [negb]. rewrite parse_mode_name. cbn [mbind result_bind ok_or].
  rewrite strip_suffix_app. cbn [ok_or mbind result_bind]. rewrite parse_lifetimes_text by done.
  cbn [mbind result_bind]. rewrite drop_0.
  rewrite parse_parts_padding by (by apply padding_parts_short). rewrite parse_parts_seeds by apply Hc. cbn [app mbind result_bind].
  rewrite padding_parts_join. pose proof (wf_some c Hc). destruct c as [m f t p [|s ss]]; [done|]. done.
Qed.

(** What the loop has read. *)
Lemma parse_parts_wf parts pad ks pad' ks' :
  parse_parts parts pad ks = Ok (pad', ks') ->
  Forall (Forall (fun b => b <> DOT)) parts ->
  Forall (fun p => len p < 20 /\ Forall (fun b => b <> DOT) p) pad -> Forall seed_ok ks ->
  Forall (fun p => len p < 20 /\ Forall (fun b => b <> DOT) p) pad' /\ Forall seed_ok ks'.
Proof.
  intros Hp Hd. revert pad ks Hp. induction Hd as [|p ps Hpd Hd IH]; intros pad ks Hp Hpad Hks.
  { cbn in Hp. apply Ok_inj in Hp. by simplify_eq. }
  cbn [parse_parts] in Hp. destruct (len p <? 20) eqn:E; split_bool.
  - destruct ks; [|done]. eapply IH; [exact Hp| |done]. apply Forall_app. split; [done|]. by repeat constructor.
  - destruct (url_safe_no_pad_decode p) as [b|] eqn:Eb; [|done]. cbn [ok_or mbind result_bind] in Hp.
    apply decode_bytes in Eb. destruct (len b =? 32) eqn:E32; [|destruct (len b =? 64) eqn:E64; [|done]]; split_bool;
      (eapply IH; [exact Hp|done|]; apply Forall_app; split; [done|]; repeat constructor; done).
Qed.

Lemma parse_lifetimes_wf t f to : parse_lifetimes t = Ok (f, to) -> uint_ok 16 f /\ uint_ok 16 to.
Proof.
  unfold parse_lifetimes, parse_lifetime, uint_ok. intros Hp.
  assert (forall l n, parse_uint u16_max l = Some n -> 0 <= n < 2 ^ 16) as Hu
    by (intros l n Hl; apply parse_uint_range in Hl; unfold u16_max in *; lia).
  destruct (split_once DASH t) as [[a b]|].
  - destruct (parse_uint u16_max a) eqn:Ea; [|done]. cbn in Hp. destruct (parse_uint u16_max b) eqn:Eb; [|done].
    cbn in Hp. apply Ok_inj in Hp. injection Hp as <- <-. split; by eapply Hu.
  - destruct (parse_uint u16_max t) eqn:Ea; [|done]. cbn in Hp. apply Ok_inj in Hp. injection Hp as <- <-. split; [by eapply Hu|lia].
Qed.

Lemma parse_wf v c : parse v = Ok c -> config_wf c.
Proof.
  unfold parse. destruct (negb _); [done|]. destruct (parse_mode _) as [m|]; [|done]. cbn [mbind result_bind].
  destruct (split_on DOT v !! 2%nat) as [t|]; [|done]. cbn [ok_or mbind result_bind].
  destruct (strip_suffix [115] t) as [t'|]; [|done]. cbn [ok_or mbind result_bind].
  destruct (parse_lifetimes t') as [[f to]|] eqn:El; [|done]. cbn [mbind result_bind].
  destruct (parse_parts _ _ _) as [[pad ks]|] eqn:Ep; [|done]. cbn [mbind result_bind].
  apply parse_lifetimes_wf in El as [Hf Ht].
  apply parse_parts_wf in Ep as [Hpad Hks]; [|apply Forall_drop, split_on_pieces|constructor|constructor].
  destruct ks as [|k ks]; [done|]. intros Hc. apply Ok_inj in Hc. subst c. split; cbn; try done.
  destruct pad as [|p pad]; [by repeat constructor|]. rewrite split_on_join; [|done|].
  - eapply list.Forall_impl; [exact Hpad|]. by intros ? [? _].
  - eapply list.Forall_impl; [exact Hpad|]. by intros ? [_ ?].
Qed.

(** The results of the parser of the decryption setting are exactly the
    well-formed configurations (16-bit lifetimes, seeds of 32 or 64 bytes, at least
    one of them, padding of parts shorter than 20 bytes), and parsing the text of a
    well-formed configuration gives it back. *)
Theorem encryption_config_roundtrip c :
  ((exists v, parse v = Ok c) <-> config_wf c) /\ (config_wf c -> parse (render encode c) = Ok c).
Proof.
  split; [|by apply parse_render]. split.
  - intros [v Hv]. by eapply parse_wf.
  - intros Hc. exists (render encode c). by apply parse_render.
Qed.
End texts.

(** * Functions for the witnesses *)

(** Two letters per byte. *)
Definition toy_encode (b : bytes) : bytes := concat ((fun x => [97 + (x / 16) mod 16; 97 + x mod 16]) <$> b).

Fixpoint toy_decode (t : bytes) : option bytes :=
  match t with
  | [] => Some []
  | [_] => None
  | h :: l :: t' =>
      if (97 <=? h) && (h <? 113) && (97 <=? l) && (l <? 113)
      then rest ← toy_decode t'; Some ((h - 97) * 16 + (l - 97) :: rest) else None
  end.

Definition toy_base64url : Base64Url := {| url_safe_no_pad_decode := toy_decode |}.
#[local] Existing Instance toy_base64url.

Lemma toy_decode_bytes t b : toy_decode t = Some b -> bytes_ok b.
Proof.
  remember (length t) as n eqn:Hn. revert t b Hn. induction (lt_wf n) as [n _ IH]. intros t b ->.
  destruct t as [|h [|l t]]; [by intros [= <-]; constructor|done|]. cbn [toy_decode].
  destruct (_ && _) eqn:E; [|done]. split_bool. destruct (toy_decode t) as [r|] eqn:Er; [|done]. intros [= <-].
  constructor; [unfold byte_ok; lia|]. eapply IH; [|reflexivity|exact Er]. cbn. lia.
Qed.

Lemma toy_base64url_laws : Base64UrlLaws toy_encode.
Proof.
  split.
  - intros b Hb. unfold toy_encode. cbn [url_safe_no_pad_decode toy_base64url]. induction Hb as [|x b Hx _ IH]; [done|]. unfold byte_ok in Hx.
    pose proof (Z.mod_pos_bound x 16 ltac:(lia)). pose proof (Z.div_mod x 16 ltac:(lia)).
    pose proof (Z.div_lt_upper_bound x 16 16). pose proof (Z.div_pos x 16).
    cbn [fmap list_fmap concat app toy_decode]. rewrite (Z.mod_small (x / 16)) by lia. rewrite !(proj2 (Z.leb_le _ _)), !(proj2 (Z.ltb_lt _ _)) by lia.
    cbn [andb]. rewrite IH. cbn. do 2 f_equal. lia.
  - intros b. unfold toy_encode. induction b as [|x b IH]; [constructor|].
    cbn [fmap list_fmap concat app]. constructor; [|constructor; [|done]]; unfold DOT.
    + pose proof (Z.mod_pos_bound (x / 16) 16 ltac:(lia)). lia.
    + pose proof (Z.mod_pos_bound x 16 ltac:(lia)). lia.
  - intros b. unfold toy_encode, len. induction b as [|x b IH]; [done|]. cbn [fmap list_fmap concat app length] in *. lia.
  - apply toy_decode_bytes.
Qed.

Definition toy_enc_config : EncryptionConfig :=
  mk_EncryptionConfig Random 300 600 (bytes_of_string "100-111-1111.75-0-111") [SeedMlKem768 (replicate 64 7); SeedX25519 (replicate 32 9)].

Lemma encryption_config_roundtrip_witness :
  ((exists v, parse v = Ok toy_enc_config) <-> config_wf toy_enc_config) /\
  (config_wf toy_enc_config -> parse (render toy_encode toy_enc_config) = Ok toy_enc_config) /\
  parse (render toy_encode toy_enc_config) = Ok toy_enc_config.
Proof.
  destruct (@encryption_config_roundtrip toy_base64url toy_encode toy_base64url_laws toy_enc_config) as [H1 H2].
  split; [exact H1|]. split; [exact H2|]. vm_compute. reflexivity.
Defined.
