(* ===== verification/EncHandshake.v ===== *)
(** [src/vless/encryption/handshake.rs]: the handshake of VLESS encryption, with the
    relay chain, the 1-RTT exchange, 0-RTT resumption by tickets and its replay check.

    A handshake is a tree of its interactions with the outside ([prog]): reads, sends,
    readings of the clock and the critical sections on the ticket table.  [run]
    executes one alone; [wstep] interleaves any number of them on one table.  Values
    drawn from the random generator are arguments ([draws]). *)

From S2P Require Import Prelude Kdf Record Xor TlsKeys EncKeys.

(** A [blake3::Hash] has 32 bytes. *)
Class Blake3Laws `{Blake3} := { blake3_length : forall b, length (blake3_hash b) = 32%nat }.

Inductive HandshakeError : Type :=
| HIo (k : io_kind)
| HRecord (e : record_error)
| HKey (e : KeyError)
| HRelay
| HRelayHash
| HAuthentication
| PfsLength (n : Z)
| HPadding
| ZeroRttDisabled
| HTicket
| ExpiredTicket
| Replay
| SendClosed.

(** * The ticket table *)

Record TicketSession := mk_TicketSession { ts_pfs_key : bytes; replay_keys : gset bytes; expires : Z }.

Abbreviation tickets := (gmap (list Z) TicketSession) (only parsing).

(** The three critical sections.  [store] reads the clock under the lock. *)
Definition store (now : Z) (ticket pfs : bytes) (lifetime : Z) (m : tickets) : tickets :=
  <[ticket := mk_TicketSession pfs ∅ (now + lifetime)]> m.

Definition sweep (now : Z) (m : tickets) : tickets := filter (fun '(_, s) => now < expires s) m.

Definition redeem (ticket nfs : bytes) (m : tickets) : tickets * option (option bytes) :=
  match m !! ticket with
  | Some s =>
      if decide (nfs ∈ replay_keys s) then (m, Some None)
      else (<[ticket := mk_TicketSession (ts_pfs_key s) ({[nfs]} ∪ replay_keys s) (expires s)]> m, Some (Some (ts_pfs_key s)))
  | None => (m, None)
  end.

(** * Interactions *)

Inductive prog (A : Type) : Type :=
| Done (m : comp HandshakeError A)
| Read (n : Z) (k : bytes -> prog A)
| Emit (b : bytes) (k : prog A)
| Clock (k : Z -> prog A)
| Store (ticket pfs : bytes) (lifetime : Z) (k : prog A)
| Sweep (now : Z) (k : prog A)
| Redeem (ticket nfs : bytes) (k : option (option bytes) -> prog A).
Arguments Done {A} m.
Arguments Read {A} n k.
Arguments Emit {A} b k.
Arguments Clock {A} k.
Arguments Store {A} ticket pfs lifetime k.
Arguments Sweep {A} now k.
Arguments Redeem {A} ticket nfs k.

#[global] Instance prog_ret : MRet prog := fun A a => Done (Val a).
#[global] Instance prog_bind : MBind prog := fun A B f =>
  fix go (p : prog A) : prog B :=
    match p with
    | Done m => match m with Val a => f a | Fail e => Done (Fail e) | Crash => Done Crash | Diverge => Done Diverge end
    | Read n k => Read n (fun b => go (k b))
    | Emit b k => Emit b (go k)
    | Clock k => Clock (fun now => go (k now))
    | Store t p l k => Store t p l (go k)
    | Sweep now k => Sweep now (go k)
    | Redeem t n k => Redeem t n (fun r => go (k r))
    end.

Definition read_exact_stage (n : Z) : prog bytes := Read n mret.
Definition emit (b : bytes) : prog unit := Emit b (mret tt).

(** A record operation inside the handshake, with [From<RecordError>]. *)
Definition aead_op (x : aead_state * result record_error bytes) : prog (aead_state * bytes) :=
  Done (match x with (s, Ok b) => Val (s, b) | (_, Err e) => Fail (HRecord e) end).

(** [<[u8; 2]>::try_from(v).unwrap()] and [u16::from_be_bytes]. *)
Definition u16_of (b : bytes) : prog Z := Done (if len b =? 2 then Val (be_val b) else Crash).

(** * The server *)

Record Server := mk_Server { srv_config : EncryptionConfig; srv_keys : ServerKeys }.

Record HandshakeResult := mk_HandshakeResult {
  r_decrypt : aead_state; r_encrypt : aead_state; inbound_xor : option header_xor;
  outbound_xor : option header_xor; zero_rtt : bool }.

(** The values a handshake draws: the randomness of the encapsulation, the X25519
    secret, the choice of a lifetime, the bytes of a ticket, of the 0-RTT answer and
    of the decoy with its length. *)
Record draws := mk_draws {
  d_encapsulation : bytes; d_secret : bytes; d_lifetime : Z; d_ticket : bytes; d_random : bytes;
  d_decoy_len : Z; d_decoy : nat -> Z }.

(** [gen_range(lo..=hi)], which panics on an empty range, from an unbounded draw. *)
Definition gen_range {E} (lo hi draw : Z) : comp E Z := if hi <? lo then Crash else Val (lo + draw mod (hi - lo + 1)).

(** A CTR cipher: key, initial counter and position. *)
Record ctr := mk_ctr { ctr_key : bytes; ctr_iv : bytes; ctr_pos : nat }.

Definition new_ctr (k iv : bytes) : ctr := mk_ctr (kdf (bytes_of_string "VLESS") k) iv 0.

Section handshake.
Context `{Aead} `{KeyStream} `{X25519} `{MlKem} `{Blake3}.

Definition ctr_apply (c : ctr) (l : bytes) : ctr * bytes :=
  (mk_ctr (ctr_key c) (ctr_iv c) (ctr_pos c + length l), apply_keystream (ctr_key c) (ctr_iv c) (ctr_pos c) l).

Definition Server_new (c : EncryptionConfig) : Server := mk_Server c (from_seeds (seeds c)).

(** The loop of [process_relays] from one key on.  The parts of the buffer it decrypts
    in place are not read again. *)
Fixpoint relay_loop (m : EncryptionMode) (iv relays : bytes) (ks : list ServerKey) (offset : Z)
    (previous_ctr : option ctr) (nfs_key : bytes) : result HandshakeError bytes :=
  match ks with
  | [] => Ok nfs_key
  | k :: ks' =>
      relay ← ok_or (get_range relays offset (offset + relay_len k)) HRelay;
      let relay := match previous_ctr with
                   | Some c => (ctr_apply c (take 32 relay)).2 ++ drop 32 relay
                   | None => relay
                   end in
      let relay := if bool_decide (m = Native) then relay else (ctr_apply (new_ctr (public_key k) iv) relay).2 in
      nfs_key ← map_err HKey (decapsulate k relay);
      let offset := offset + relay_len k in
      match ks' with
      | [] => Ok nfs_key
      | next :: _ =>
          hash ← ok_or (get_range relays offset (offset + 32)) HRelay;
          let '(c, hash) := ctr_apply (new_ctr nfs_key iv) hash in
          if negb (bytes_eqb hash (blake3_hash (public_key next))) then Err HRelayHash
          else relay_loop m iv relays ks' (offset + 32) (Some c) nfs_key
      end
  end.

Definition process_relays (srv : Server) (iv relays : bytes) : result HandshakeError bytes :=
  relay_loop (mode (srv_config srv)) iv relays (keys (srv_keys srv)) 0 None (replicate 32 0).

Fixpoint try_kinds (kinds : list cipher_kind) (iv nfs_key ciphertext : bytes) :
    result HandshakeError (aead_state * cipher_kind * bytes) :=
  match kinds with
  | [] => Err HAuthentication
  | k :: kinds' =>
      match open_raw (aead_new iv nfs_key k) ciphertext [] None with
      | (aead, Ok plain) => Ok (aead, k, plain)
      | (_, Err _) => try_kinds kinds' iv nfs_key ciphertext
      end
  end.

Definition open_first_length (iv nfs_key ciphertext : bytes) : result HandshakeError (aead_state * cipher_kind * bytes) :=
  try_kinds [Aes256Gcm; ChaCha20Poly1305] iv nfs_key ciphertext.

Definition xor_pair (srv : Server) (united iv out_iv : bytes) : option header_xor * option header_xor :=
  if bool_decide (mode (srv_config srv) = Random) then (Some (inbound united iv 0), Some (outbound united out_iv 0))
  else (None, None).

Definition cleanup_tickets : prog unit := Clock (fun now => Sweep now (mret tt)).

Definition create_ticket (srv : Server) (d : draws) (pfs_key : bytes) : prog (bytes * Z) :=
  let c := srv_config srv in
  lifetime ← Done (if negb (lifetime_to c =? 0) then gen_range (lifetime_from c) (lifetime_to c) (d_lifetime d)
                   else if negb (lifetime_from c =? 0) then gen_range (lifetime_from c / 2) (lifetime_from c) (d_lifetime d)
                   else Val 0);
  let ticket := be_bytes 2 lifetime ++ drop 2 (d_ticket d) in
  if negb (lifetime =? 0) then Store ticket pfs_key lifetime (mret (ticket, lifetime))
  else mret (ticket, lifetime).

Definition send_expired_decoy (d : draws) : prog unit :=
  n ← Done (gen_range 1279 2279 (d_decoy_len d));
  emit (d_decoy d <$> seq 0 (Z.to_nat n)).

Definition handshake_zero_rtt (srv : Server) (d : draws) (iv nfs_key : bytes) (nfs_aead : aead_state) (k : cipher_kind) :
    prog HandshakeResult :=
  if (lifetime_from (srv_config srv) =? 0) && (lifetime_to (srv_config srv) =? 0) then Done (Fail ZeroRttDisabled)
  else
    encrypted_ticket ← read_exact_stage 32;
    '(nfs_aead, ticket) ← aead_op (open_raw nfs_aead encrypted_ticket [] None);
    _ ← Done (fail_if (negb (len ticket =? 16)) HTicket);
    _ ← cleanup_tickets;
    pfs_key ← Redeem ticket nfs_key (fun r =>
      match r with
      | Some (Some pfs) => mret pfs
      | Some None => Done (Fail Replay)
      | None => _ ← send_expired_decoy d; Done (Fail ExpiredTicket)
      end);
    let united := pfs_key ++ nfs_key in
    let server_random := d_random d in
    _ ← emit server_random;
    let encrypt_state := aead_new server_random united k in
    let decrypt_state := aead_new encrypted_ticket united k in
    let '(i, o) := xor_pair srv united iv server_random in
    mret (mk_HandshakeResult decrypt_state encrypt_state i o true).

Definition padding_len : Z := 111.

(** [handshake] after the first length was read: the 1-RTT exchange. *)
Definition handshake_one_rtt (srv : Server) (d : draws) (iv nfs_key : bytes) (nfs_aead : aead_state) (k : cipher_kind) (n : Z) :
    prog HandshakeResult :=
  _ ← Done (fail_if (n <? 1184 + 32 + 16) (PfsLength n));
  encrypted_pfs ← read_exact_stage n;
  '(nfs_aead, pfs_plain) ← aead_op (open_raw nfs_aead encrypted_pfs [] None);
  _ ← Done (fail_if (len pfs_plain <? 1216) (PfsLength (len pfs_plain)));
  '(pfs_response, pfs_key) ← Done (lift HKey (generate_pfs_response (take 1184 pfs_plain) (take 32 (drop 1184 pfs_plain))
                                                (d_encapsulation d) (d_secret d)));
  let united := pfs_key ++ nfs_key in
  let encrypt_state := aead_new pfs_response united k in
  let decrypt_state := aead_new (take 1216 pfs_plain) united k in
  '(nfs_aead, hello) ← aead_op (seal_raw nfs_aead pfs_response [] (Some MAX_NONCE));
  '(ticket, lifetime) ← create_ticket srv d pfs_key;
  '(encrypt_state, sealed_ticket) ← aead_op (seal_raw encrypt_state ticket [] None);
  '(encrypt_state, sealed_length) ← aead_op (seal_raw encrypt_state (be_bytes 2 (wrap 16 (padding_len - 18))) [] None);
  '(encrypt_state, sealed_padding) ← aead_op (seal_raw encrypt_state (replicate (Z.to_nat (padding_len - 34)) 0) [] None);
  _ ← emit (hello ++ sealed_ticket ++ sealed_length ++ sealed_padding);
  client_padding_length ← read_exact_stage 18;
  '(nfs_aead, length_bytes) ← aead_op (open_raw nfs_aead client_padding_length [] None);
  _ ← Done (fail_if (negb (len length_bytes =? 2)) HPadding);
  n ← u16_of length_bytes;
  encrypted_padding ← read_exact_stage n;
  '(nfs_aead, _) ← aead_op (open_raw nfs_aead encrypted_padding [] None);
  let '(i, o) := xor_pair srv united iv ticket in
  mret (mk_HandshakeResult decrypt_state encrypt_state i o false).

Definition handshake (srv : Server) (d : draws) : prog HandshakeResult :=
  iv_and_relays ← read_exact_stage (16 + total_relay_len (srv_keys srv));
  let iv := take 16 iv_and_relays in
  nfs_key ← Done (lift id (process_relays srv iv (drop 16 iv_and_relays)));
  encrypted_length ← read_exact_stage 18;
  '(nfs_aead, k, length_bytes) ← Done (lift id (open_first_length iv nfs_key encrypted_length));
  n ← u16_of length_bytes;
  if n =? 32 then handshake_zero_rtt srv d iv nfs_key nfs_aead k
  else handshake_one_rtt srv d iv nfs_key nfs_aead k n.

(** * Execution *)

(** One handshake alone: what is left of the source, the state of the table, what was
    sent, and the outcome.  [sent] is the outcome of the (single) send. *)
Fixpoint run {A} (p : prog A) (s : source) (now : Z) (sent : result HandshakeError unit) (m : tickets) :
    tickets * list bytes * source * comp HandshakeError A :=
  match p with
  | Done r => (m, [], s, r)
  | Read n k =>
      match read_exact (Z.to_nat n) s with
      | Ok (b, s') => run (k b) s' now sent m
      | Err e => (m, [], s, Fail (HIo e))
      end
  | Emit b k =>
      match sent with
      | Ok _ => let '(m', out, s', r) := run k s now sent m in (m', b :: out, s', r)
      | Err e => (m, [], s, Fail e)
      end
  | Clock k => run (k now) s now sent m
  | Store t pfs l k => run k s now sent (store now t pfs l m)
  | Sweep t k => run k s now sent (sweep t m)
  | Redeem t n k => let '(m', r) := redeem t n m in run (k r) s now sent m'
  end.
End handshake.

(** * Concurrent handshakes *)

(** What happened to the table, newest first; [Granted] carries the thread. *)
Inductive event : Type :=
| Stored (ticket pfs : bytes) (until : Z)
| Swept (now : Z)
| Granted (thread : nat) (ticket nfs pfs : bytes).

Record world := mk_world {
  w_tickets : gmap (list Z) TicketSession; w_now : Z; w_threads : list (prog HandshakeResult); w_log : list event }.

(** Thread [i] goes from [p] to [q] and logs [evs]. *)
Inductive pstep (i : nat) (now : Z) : tickets -> prog HandshakeResult -> tickets -> prog HandshakeResult -> list event -> Prop :=
| step_read m n k b : length b = Z.to_nat n -> pstep i now m (Read n k) m (k b) []
| step_read_error m n k e : pstep i now m (Read n k) m (Done (Fail (HIo e))) []
| step_emit m b k : pstep i now m (Emit b k) m k []
| step_emit_error m b k e : pstep i now m (Emit b k) m (Done (Fail e)) []
| step_clock m k : pstep i now m (Clock k) m (k now) []
| step_store m t pfs l k : pstep i now m (Store t pfs l k) (store now t pfs l m) k [Stored t pfs (now + l)]
| step_sweep m t k : pstep i now m (Sweep t k) (sweep t m) k [Swept t]
| step_redeem m t n k m' r :
    redeem t n m = (m', r) ->
    pstep i now m (Redeem t n k) m' (k r) match r with Some (Some pfs) => [Granted i t n pfs] | _ => [] end.

(** Time passes, a connection starts a handshake, or a handshake makes a step. *)
Inductive wstep `{Aead} `{KeyStream} `{X25519} `{MlKem} `{Blake3} (srv : Server) : world -> world -> Prop :=
| wstep_time w t : w_now w <= t -> wstep srv w (mk_world (w_tickets w) t (w_threads w) (w_log w))
| wstep_accept w d :
    wstep srv w (mk_world (w_tickets w) (w_now w) (w_threads w ++ [handshake srv d]) (w_log w))
| wstep_thread w i p m q evs :
    w_threads w !! i = Some p -> pstep i (w_now w) (w_tickets w) p m q evs ->
    wstep srv w (mk_world m (w_now w) (<[i := q]> (w_threads w)) (evs ++ w_log w)).

(** [Server::new]: no ticket, no connection. *)
Definition world_init (now : Z) : world := mk_world ∅ now [] [].

(** * Specification of resumption *)

(** The log justifies a grant: the ticket was stored with this PFS key, and since then
    it was not stored again, every sweep was before its expiry, and this key was not
    granted. *)
Definition event_allows (ticket nfs : bytes) (until : Z) (ev : event) : Prop :=
  match ev with
  | Stored t _ _ => t <> ticket
  | Swept now => now < until
  | Granted _ t n _ => ~ (t = ticket /\ n = nfs)
  end.

Definition justified (log : list event) (ticket nfs pfs : bytes) : Prop :=
  exists later until earlier, log = later ++ Stored ticket pfs until :: earlier /\
    Forall (event_allows ticket nfs until) later.

(** Every grant of a log was justified when it was made. *)
Fixpoint log_ok (log : list event) : Prop :=
  match log with
  | [] => True
  | ev :: log' =>
      log_ok log' /\ match ev with Granted _ t n pfs => justified log' t n pfs | _ => True end
  end.

(** The log explains the table. *)
Definition explains (log : list event) (m : tickets) : Prop :=
  forall t s, m !! t = Some s ->
    exists later earlier, log = later ++ Stored t (ts_pfs_key s) (expires s) :: earlier /\
      Forall (fun ev => match ev with
        | Stored t' _ _ => t' <> t
        | Swept now => now < expires s
        | Granted _ t' n _ => t' = t -> n ∈ replay_keys s
        end) later.

(** Every 0-RTT result a program can return uses the last PFS key it was granted,
    together with the key it redeemed the ticket with. *)
Fixpoint uses_grant (g : option (bytes * bytes)) (p : prog HandshakeResult) : Prop :=
  match p with
  | Done (Val r) => zero_rtt r = true -> exists pfs nfs, g = Some (pfs, nfs) /\
      united_key (r_decrypt r) = pfs ++ nfs /\ united_key (r_encrypt r) = pfs ++ nfs
  | Done _ => True
  | Read _ k => forall b, uses_grant g (k b)
  | Emit _ k | Store _ _ _ k | Sweep _ k => uses_grant g k
  | Clock k => forall now, uses_grant g (k now)
  | Redeem _ nfs k => uses_grant g (k None) /\ uses_grant g (k (Some None)) /\
      forall pfs, uses_grant (Some (pfs, nfs)) (k (Some (Some pfs)))
  end.

(** Thread [i] of the log. *)
Definition granted_to (log : list event) (i : nat) (g : option (bytes * bytes)) : Prop :=
  match g with Some (pfs, nfs) => exists t, Granted i t nfs pfs ∈ log | None => True end.

Definition world_ok (w : world) : Prop :=
  log_ok (w_log w) /\ explains (w_log w) (w_tickets w) /\
  forall i p, w_threads w !! i = Some p -> exists g, uses_grant g p /\ granted_to (w_log w) i g.

(** ** Lemmas *)

Lemma explains_cons log m ev :
  (forall t s, m !! t = Some s -> match ev with
     | Stored t' _ _ => t' <> t
     | Swept now => now < expires s
     | Granted _ t' n _ => t' = t -> n ∈ replay_keys s end) ->
  explains log m -> explains (ev :: log) m.
Proof.
  intros Hev He t s Hs. destruct (He t s Hs) as (later & earlier & -> & Hl). exists (ev :: later), earlier.
  split; [done|]. constructor; [by apply Hev|done].
Qed.

Lemma explains_store log m now t pfs l : explains log m -> explains (Stored t pfs (now + l) :: log) (store now t pfs l m).
Proof.
  intros He t' s. unfold store. destruct (decide (t = t')) as [<-|Hn].
  - rewrite lookup_insert_eq. intros [= <-]. exists [], log. split; [done|constructor].
  - rewrite lookup_insert_ne by done. intros Hs. destruct (He t' s Hs) as (later & earlier & -> & Hl).
    exists (Stored t pfs (now + l) :: later), earlier. split; [done|]. by constructor.
Qed.

Lemma explains_sweep log m now : explains log m -> explains (Swept now :: log) (sweep now m).
Proof.
  intros He. unfold sweep. apply explains_cons.
  - intros t s Hs. by apply map_lookup_filter_Some in Hs as [_ Hs].
  - intros t s Hs. apply map_lookup_filter_Some in Hs as [Hs _]. by apply He.
Qed.

Lemma explains_redeem log m t n m' i pfs :
  explains log m -> redeem t n m = (m', Some (Some pfs)) ->
  explains (Granted i t n pfs :: log) m' /\ justified log t n pfs.
Proof.
  intros He. unfold redeem. destruct (m !! t) as [s|] eqn:Es; [|done]. case_decide as Hn; [done|]. intros [= <- <-].
  destruct (He t s Es) as (later & earlier & -> & Hl). split.
  - intros t' s'. destruct (decide (t = t')) as [<-|Hne].
    + rewrite lookup_insert_eq. intros [= <-]. eexists (_ :: later), earlier. split; [done|]. cbn. constructor; [set_solver|].
      eapply list.Forall_impl; [exact Hl|]. intros [] Hx; set_solver.
    + rewrite lookup_insert_ne by done. intros Hs'. destruct (He t' s' Hs') as (later' & earlier' & Heq & Hl').
      eexists (_ :: later'), earlier'. rewrite Heq. split; [done|]. by constructor.
  - exists later, (expires s), earlier. split; [done|]. eapply list.Forall_impl; [exact Hl|].
    intros [] Hx; cbn in *; [done|done|]. intros [-> ->]. by apply Hn, Hx.
Qed.

Lemma redeem_refused t n m m' r : redeem t n m = (m', r) -> (forall pfs, r <> Some (Some pfs)) -> m' = m.
Proof.
  unfold redeem. intros Hr Hno. destruct (m !! t); [|by simplify_eq]. case_decide; simplify_eq; [done|]. by edestruct Hno.
Qed.

Lemma granted_to_app evs log i g : granted_to log i g -> granted_to (evs ++ log) i g.
Proof. destruct g as [[pfs nfs]|]; [|done]. intros [t Ht]. exists t. set_solver. Qed.

(** A step keeps what the log says of the table and of the thread. *)
Lemma pstep_ok i now m p m' q evs log g :
  pstep i now m p m' q evs -> log_ok log -> explains log m -> uses_grant g p -> granted_to log i g ->
  log_ok (evs ++ log) /\ explains (evs ++ log) m' /\ exists g', uses_grant g' q /\ granted_to (evs ++ log) i g'.
Proof.
  intros Hs Hlog He Hu Hg. destruct Hs as [| | | | | | |m t n k m' r Hr]; cbn [app].
  - eauto.
  - split; [done|]. split; [done|]. by exists None.
  - eauto.
  - split; [done|]. split; [done|]. by exists None.
  - eauto.
  - split; [done|]. split; [by apply explains_store|]. exists g. split; [done|]. by apply (granted_to_app [_]).
  - split; [done|]. split; [by apply explains_sweep|]. exists g. split; [done|]. by apply (granted_to_app [_]).
  - cbn in Hu. destruct Hu as (Hu1 & Hu2 & Hu3). destruct r as [[pfs|]|]; cbn [app].
    + destruct (explains_redeem _ _ _ _ _ i _ He Hr) as [He' Hj]. split; [done|]. split; [done|].
      exists (Some (pfs, n)). split; [by apply Hu3|]. exists t. set_solver.
    + apply redeem_refused in Hr as ->; [|done]. eauto.
    + apply redeem_refused in Hr as ->; [|done]. eauto.
Qed.

Lemma uses_grant_done {A} g (m : comp HandshakeError A) f :
  (forall a, uses_grant g (f a)) -> uses_grant g (mbind f (Done m)).
Proof. by destruct m; cbn; auto. Qed.

Lemma uses_grant_read g n f : (forall b, uses_grant g (f b)) -> uses_grant g (mbind f (read_exact_stage n)).
Proof. by cbn. Qed.

Lemma uses_grant_emit g b f : uses_grant g (f tt) -> uses_grant g (mbind f (emit b)).
Proof. by cbn. Qed.

Lemma uses_grant_cleanup g f : uses_grant g (f tt) -> uses_grant g (mbind f cleanup_tickets).
Proof. by cbn. Qed.

Lemma uses_grant_create g srv d pfs f :
  (forall a, uses_grant g (f a)) -> uses_grant g (mbind f (create_ticket srv d pfs)).
Proof.
  intros Hf. unfold create_ticket. cbv zeta.
  destruct (if negb (lifetime_to _ =? 0) then _ else _) as [l| | |]; cbn [mbind prog_bind]; try exact I.
  destruct (negb (l =? 0)); cbn; apply Hf.
Qed.

Ltac uses_grant_run :=
  repeat match goal with
         | |- uses_grant _ (mbind _ (aead_op _)) => apply uses_grant_done; intros
         | |- uses_grant _ (mbind _ (u16_of _)) => apply uses_grant_done; intros
         | |- uses_grant _ (mbind _ _) =>
             first [apply uses_grant_done | apply uses_grant_read | apply uses_grant_emit | apply uses_grant_cleanup
                   | apply uses_grant_create]; intros
         | |- uses_grant _ (let '(_, _) := ?x in _) => destruct x
         | |- uses_grant _ (if ?b then _ else _) => destruct b
         | |- uses_grant _ (let x := _ in _) => cbv zeta
         end.

Section resumption.
Context `{Aead} `{KeyStream} `{X25519} `{MlKem} `{Blake3}.

Lemma zero_rtt_uses_grant srv d iv nfs s k g : uses_grant g (handshake_zero_rtt srv d iv nfs s k).
Proof.
  unfold handshake_zero_rtt. uses_grant_run; [exact I|]. cbn [mbind prog_bind uses_grant]. split; [|split; [exact I|]].
  - unfold send_expired_decoy. by destruct (gen_range _ _ _).
  - intros pfs. cbn. destruct (xor_pair _ _ _ _) as [i o]. cbn. eauto.
Qed.

Lemma handshake_uses_grant srv d : uses_grant None (handshake srv d).
Proof. unfold handshake. uses_grant_run; [apply zero_rtt_uses_grant|]. unfold handshake_one_rtt. uses_grant_run. done. Qed.

Lemma wstep_ok srv w w' : wstep srv w w' -> world_ok w -> world_ok w'.
Proof.
  intros Hs (Hlog & He & Ht). destruct Hs as [w t _|w d|w i p m q evs Hp Hs]; cbn.
  - done.
  - split; [done|]. split; [done|]. cbn. intros i p Hi. apply lookup_app_Some in Hi as [Hi|[_ Hi]]; [by apply Ht|].
    apply list_lookup_singleton_Some in Hi as [_ <-]. exists None. split; [apply handshake_uses_grant|done].
  - destruct (Ht i p Hp) as (g & Hu & Hg). destruct (pstep_ok _ _ _ _ _ _ _ _ _ Hs Hlog He Hu Hg) as (Hlog' & He' & Hq).
    split; [done|]. split; [done|]. cbn. intros j p' Hj. apply list_lookup_insert_Some in Hj as [(<- & <- & _)|[_ Hj]]; [done|].
    destruct (Ht j p' Hj) as (g' & Hu' & Hg'). exists g'. split; [done|]. by apply granted_to_app.
Qed.

Lemma reachable_ok srv now w : rtc (wstep srv) (world_init now) w -> world_ok w.
Proof.
  intros Hr. assert (world_ok (world_init now)) as Hinit.
  { split; [done|]. split; [by intros t s Hs|]. intros i p Hi. cbn in Hi. by destruct i. }
  induction Hr as [w|w w1 w2 Hw _ IH]; [done|]. apply IH. by eapply wstep_ok.
Qed.

Lemma log_ok_app later log : log_ok (later ++ log) -> log_ok log.
Proof. induction later as [|ev later IH]; [done|]. cbn. intros [Hl _]. by apply IH. Qed.

(** C5: 0-RTT resumption is safe against replay under any interleaving of any number of
    handshakes with an arbitrary network: a ticket is only granted for a PFS key that
    was stored with it, which no sweep since then found expired, and the same client
    key is not granted the same ticket twice unless the ticket is issued anew in
    between; and a handshake that ends in 0-RTT mode was granted the key it uses. *)
Theorem zero_rtt_replay_safe srv now w :
  rtc (wstep srv) (world_init now) w ->
  (forall later i t n pfs earlier, w_log w = later ++ Granted i t n pfs :: earlier -> justified earlier t n pfs) /\
  (forall a i t n pfs b j pfs' c, w_log w = a ++ Granted i t n pfs :: b ++ Granted j t n pfs' :: c ->
     exists p u, Stored t p u ∈ b) /\
  (forall i r, w_threads w !! i = Some (Done (Val r)) -> zero_rtt r = true ->
     exists t nfs pfs, Granted i t nfs pfs ∈ w_log w /\ united_key (r_decrypt r) = pfs ++ nfs).
Proof.
  intros Hr. destruct (reachable_ok _ _ _ Hr) as (Hlog & He & Ht).
  assert (forall later i t n pfs earlier, w_log w = later ++ Granted i t n pfs :: earlier -> justified earlier t n pfs) as Hj.
  { intros later i t n pfs earlier Heq. rewrite Heq in Hlog. by apply log_ok_app in Hlog as [_ Hlog]. }
  split; [done|]. split.
  - intros a i t n pfs b j pfs' c Heq. destruct (Hj _ _ _ _ _ _ Heq) as (later & until & earlier & Hl & Hall).
    apply app_eq_inv in Hl as [(k & Hb & Hk)|(k & Hlat & Hk)].
    + destruct k as [|ev k]; [discriminate Hk|]. injection Hk as <- _. exists pfs, until. rewrite Hb. set_solver.
    + destruct k as [|ev k]; [discriminate Hk|]. injection Hk as <- _. rewrite Hlat in Hall.
      apply Forall_app in Hall as [_ Hall]. apply list.Forall_cons in Hall as [Hev _]. by destruct Hev.
  - intros i r Hi Hz. destruct (Ht i _ Hi) as (g & Hu & Hg). cbn in Hu.
    destruct (Hu Hz) as (pfs & nfs & -> & Hun & _). destruct Hg as [t Ht']. eauto.
Qed.
End resumption.

(** * No panic *)

Fixpoint safe {A} (p : prog A) : Prop :=
  match p with
  | Done m => graceful m
  | Read n k => forall b, length b = Z.to_nat n -> safe (k b)
  | Emit _ k | Store _ _ _ k | Sweep _ k => safe k
  | Clock k => forall now, safe (k now)
  | Redeem _ _ k => forall r, safe (k r)
  end.

Lemma safe_bind {A B} (p : prog A) (f : A -> prog B) : safe p -> (forall a, safe (f a)) -> safe (mbind f p).
Proof.
  intros Hp Hf. induction p as [m|n k IH|b k IH|k IH|t pfs l k IH|now k IH|t n k IH]; cbn in *; auto. by destruct m.
Qed.

Lemma safe_done {A B} (m : comp HandshakeError A) (f : A -> prog B) :
  graceful m -> (forall a, m = Val a -> safe (f a)) -> safe (mbind f (Done m)).
Proof. destruct m; cbn; auto. Qed.

Lemma safe_read {B} n (f : bytes -> prog B) :
  (forall b, length b = Z.to_nat n -> safe (f b)) -> safe (mbind f (read_exact_stage n)).
Proof. by cbn. Qed.

Lemma graceful_lift {E F A} (f : E -> F) (m : result E A) : graceful (lift f m).
Proof. by destruct m. Qed.

Lemma graceful_fail_if {E} c (e : E) : graceful (fail_if c e).
Proof. by destruct c. Qed.

Lemma safe_aead_op x : safe (aead_op x).
Proof. by destruct x as [s [b|e]]. Qed.

Lemma safe_emit b : safe (emit b).
Proof. done. Qed.

#[local] Hint Resolve graceful_lift graceful_fail_if safe_aead_op safe_emit : safe.

Ltac safe_run :=
  repeat match goal with
         | |- safe (mbind _ (Done _)) => apply safe_done; [by auto with safe|]; intros
         | |- safe (mbind _ (read_exact_stage _)) => apply safe_read; intros
         | |- safe (mbind _ (aead_op _)) => apply safe_bind; [by auto with safe|]; intros
         | |- safe (mbind _ (emit _)) => apply safe_bind; [by auto with safe|]; intros
         | |- safe (let '(_, _) := ?x in _) => destruct x
         | |- safe (if ?b then _ else _) => destruct b eqn:?
         | |- safe (let x := _ in _) => cbv zeta
         | |- safe (mret _) => exact I
         end.

(** The lifetimes are in order, so that [gen_range] has a range to draw from. *)
Definition lifetimes_ok (c : EncryptionConfig) : Prop :=
  0 <= lifetime_from c /\ (lifetime_to c = 0 \/ lifetime_from c <= lifetime_to c).

Lemma gen_range_val {E} lo hi draw : lo <= hi -> exists n, @gen_range E lo hi draw = Val n /\ lo <= n <= hi.
Proof.
  intros Hr. unfold gen_range. rewrite (proj2 (Z.ltb_ge _ _)) by lia. eexists. split; [done|].
  pose proof (Z.mod_pos_bound draw (hi - lo + 1) ltac:(lia)). lia.
Qed.

Section panics.
Context `{Aead} `{KeyStream} `{X25519} `{MlKem} `{Blake3} `{!AeadLaws}.

Lemma create_ticket_safe srv d pfs : lifetimes_ok (srv_config srv) -> safe (create_ticket srv d pfs).
Proof.
  intros [Hf Ht]. unfold create_ticket. apply safe_bind; [|by intros l; case_match].
  cbn. destruct (lifetime_to _ =? 0) eqn:E1; [destruct (lifetime_from _ =? 0) eqn:E2|]; split_bool; cbn; [done| |].
  - destruct (@gen_range_val HandshakeError (lifetime_from (srv_config srv) / 2) (lifetime_from (srv_config srv)) (d_lifetime d))
      as (n & -> & _); [|done]. apply Z.div_le_upper_bound; lia.
  - destruct (@gen_range_val HandshakeError (lifetime_from (srv_config srv)) (lifetime_to (srv_config srv)) (d_lifetime d))
      as (n & -> & _); [lia|done].
Qed.

Lemma open_length s c o s' p : open_raw s c [] o = (s', Ok p) -> len c = len p + 16.
Proof.
  unfold open_raw. intros Ho. destruct (aead_open _ _ _ _ c) as [q|] eqn:E; [|done]. cbn in Ho. simplify_eq.
  apply seal_of_open in E. by apply seal_length in E.
Qed.

Lemma try_kinds_length ks iv nfs c s k p : try_kinds ks iv nfs c = Ok (s, k, p) -> len c = len p + 16.
Proof.
  induction ks as [|k' ks IH]; [done|]. cbn [try_kinds].
  destruct (open_raw _ c [] None) as [s' [q|e]] eqn:E; [|done]. intros Hk. apply Ok_inj in Hk. simplify_eq.
  by eapply open_length.
Qed.

Lemma zero_rtt_safe srv d iv nfs s k : safe (handshake_zero_rtt srv d iv nfs s k).
Proof.
  unfold handshake_zero_rtt. safe_run; [done|].
  apply safe_bind; [by cbn|]. intros []. apply safe_bind.
  - by intros [[pfs|]|].
  - intros pfs. safe_run.
Qed.

Lemma handshake_safe srv d : lifetimes_ok (srv_config srv) -> safe (handshake srv d).
Proof.
  intros Hl. unfold handshake. safe_run.
  match goal with Ho : lift id (open_first_length _ _ _) = Val _ |- _ => apply lift_inv, try_kinds_length in Ho end.
  apply safe_bind; [|intros n].
  { unfold u16_of. cbn. rewrite (proj2 (Z.eqb_eq _ _)); [done|]. unfold len in *. lia. }
  safe_run; [apply zero_rtt_safe|]. unfold handshake_one_rtt. safe_run. apply safe_bind; [by apply create_ticket_safe|]. intros []. safe_run.
  match goal with Hp : fail_if (negb (len _ =? 2)) _ = Val _ |- _ => apply fail_if_inv in Hp; split_bool end.
  apply safe_bind; [unfold u16_of; cbn; by rewrite (proj2 (Z.eqb_eq _ _))|intros n'; safe_run].
Qed.
End panics.

Lemma run_graceful {A} (p : prog A) s now sent m : safe p -> graceful (run p s now sent m).2.
Proof.
  revert s m. induction p as [r|n k IH|b k IH|k IH|t pfs l k IH|t k IH|t n k IH]; intros s m Hp; cbn in *; auto.
  - destruct (read_exact _ s) as [[b s']|] eqn:E; [|done]. apply IH, Hp. by apply read_exact_inv in E as (_ & ? & _).
  - destruct sent; [|done]. specialize (IH s m Hp). by destruct (run k s now (Ok a) m) as [[[m' out] s'] r].
  - destruct (redeem t n m) as [m' r]. apply IH, Hp.
Qed.

(** Whatever a client sends, and however the connection ends, the handshake returns
    a result or an error: none of its [unwrap]s, slices and random ranges panics, as
    long as the configured lifetimes are in order. *)
Theorem encryption_handshake_graceful `{Aead} `{KeyStream} `{X25519} `{MlKem} `{Blake3} `{!AeadLaws} srv d s now sent m :
  lifetimes_ok (srv_config srv) -> graceful (run (handshake srv d) s now sent m).2.
Proof. intros Hl. apply run_graceful. by apply handshake_safe. Qed.

(** * The client *)

(** A client: the initial vector, its draws for the relays, the seeds of its ML-KEM
    key, its X25519 secret, its choice of cipher and its padding. *)
Record client := mk_client {
  c_iv : bytes; c_draws : list bytes; c_d : bytes; c_z : bytes; c_x : bytes; c_kind : cipher_kind; c_padding : bytes }.

Section client.
Context `{Aead} `{KeyStream} `{X25519} `{MlKem} `{Blake3}.

(** The share for a server key, from its public part. *)
Definition client_share (k : ServerKey) (draw : bytes) : option (bytes * bytes) :=
  match k with
  | KeyX25519 _ public =>
      let shared := diffie_hellman draw public in
      if was_contributory shared then Some (x25519_public draw, shared) else None
  | KeyMlKem768 _ public => mlkem_encapsulate public draw
  end.

Definition mask_share (m : EncryptionMode) (iv : bytes) (prev : option bytes) (k : ServerKey) (share : bytes) : bytes :=
  let share := if bool_decide (m = Native) then share
               else apply_keystream (ctr_key (new_ctr (public_key k) iv)) iv 0 share in
  match prev with
  | Some nfs => apply_keystream (ctr_key (new_ctr nfs iv)) iv 32 (take 32 share) ++ drop 32 share
  | None => share
  end.

(** The relay chain, and the key shared with the last server key. *)
Fixpoint client_relays (m : EncryptionMode) (iv : bytes) (prev : option bytes) (ks : list ServerKey) (ds : list bytes) :
    option (bytes * bytes) :=
  match ks, ds with
  | k :: ks', draw :: ds' =>
      '(share, nfs) ← client_share k draw;
      let relay := mask_share m iv prev k share in
      match ks' with
      | [] => Some (relay, nfs)
      | next :: _ =>
          '(rest, last) ← client_relays m iv (Some nfs) ks' ds';
          Some (relay ++ apply_keystream (ctr_key (new_ctr nfs iv)) iv 0 (blake3_hash (public_key next)) ++ rest, last)
      end
  | _, _ => None
  end.

Definition client_seal (s : aead_state) (plain : bytes) : option (aead_state * bytes) :=
  match seal_raw s plain [] None with (s', Ok b) => Some (s', b) | _ => None end.
Definition client_open (s : aead_state) (b : bytes) (explicit : option bytes) : option (aead_state * bytes) :=
  match open_raw s b [] explicit with (s', Ok p) => Some (s', p) | _ => None end.

Definition client_pfs (c : client) : bytes := (mlkem_generate (c_d c) (c_z c)).2 ++ x25519_public (c_x c).

(** All the client sends, and the shared key. *)
Definition client_start (srv : Server) (c : client) : option (bytes * bytes) :=
  '(relays, nfs) ← client_relays (mode (srv_config srv)) (c_iv c) None (keys (srv_keys srv)) (c_draws c);
  let s := aead_new (c_iv c) nfs (c_kind c) in
  '(s, n) ← client_seal s (be_bytes 2 (len (client_pfs c) + 16));
  '(s, pfs) ← client_seal s (client_pfs c);
  '(s, pn) ← client_seal s (be_bytes 2 (len (c_padding c) + 16));
  '(s, pad) ← client_seal s (c_padding c);
  Some ((c_iv c ++ relays) ++ n ++ pfs ++ pn ++ pad, nfs).

(** What the client makes of the server's answer: the ticket, the PFS key, and the
    states it writes and reads with. *)
Definition client_finish (c : client) (nfs hello : bytes) : option (bytes * bytes * aead_state * aead_state) :=
  '(_, response) ← client_open (aead_new (c_iv c) nfs (c_kind c)) (take 1136 hello) (Some MAX_NONCE);
  shared ← mlkem_decapsulate (mlkem_generate (c_d c) (c_z c)).1 (take 1088 response);
  let pfs_key := shared ++ diffie_hellman (c_x c) (drop 1088 response) in
  let united := pfs_key ++ nfs in
  let s := aead_new response united (c_kind c) in
  let rest := drop 1136 hello in
  '(s, ticket) ← client_open s (take 32 rest) None;
  '(s, n) ← client_open s (take 18 (drop 32 rest)) None;
  '(s, padding) ← client_open s (take (Z.to_nat (be_val n)) (drop 50 rest)) None;
  Some (ticket, pfs_key, aead_new (client_pfs c) united (c_kind c), s).

(** The 0-RTT opening with a ticket; and the states for the server's answer. *)
Definition client_resume (srv : Server) (c : client) (ticket pfs_key : bytes) : option (bytes * bytes * aead_state) :=
  '(relays, nfs) ← client_relays (mode (srv_config srv)) (c_iv c) None (keys (srv_keys srv)) (c_draws c);
  let s := aead_new (c_iv c) nfs (c_kind c) in
  '(s, n) ← client_seal s (be_bytes 2 32);
  '(s, sealed) ← client_seal s ticket;
  Some ((c_iv c ++ relays) ++ n ++ sealed, nfs, aead_new sealed (pfs_key ++ nfs) (c_kind c)).
End client.

(** ** The relay chain *)

Section chain.
Context `{Aead} `{KeyStream} `{X25519} `{MlKem} `{Blake3}.
Context `{!X25519Laws} `{!X25519Canonical} `{!MlKemLaws} `{!Blake3Laws}.

Lemma apply_keystream_twice k iv p l : apply_keystream k iv p (apply_keystream k iv p l) = l.
Proof.
  revert p. induction l as [|b l IH]; intros p; cbn; [done|]. rewrite IH, Z.lxor_assoc, Z.lxor_nilpotent, Z.lxor_0_r. done.
Qed.

Definition own_key (k : ServerKey) : Prop := exists seed, k = server_key seed.

Lemma client_share_length k draw share nfs :
  own_key k -> client_share k draw = Some (share, nfs) -> len share = relay_len k.
Proof.
  intros [seed ->]. unfold len. destruct seed as [seed|seed]; cbn.
  - destruct (was_contributory _); [|done]. intros [= <- _]. by rewrite public_length.
  - destruct (mlkem_generate _ _) as [secret public] eqn:Eg. cbn. intros Hs.
    by apply mlkem_encapsulate_length in Hs as [-> _].
Qed.

(** The server computes the key of the client. *)
Lemma decapsulate_share k draw share nfs :
  own_key k -> client_share k draw = Some (share, nfs) -> decapsulate k share = Ok nfs.
Proof.
  intros Hk Hs. pose proof (client_share_length _ _ _ _ Hk Hs) as Hl. destruct Hk as [seed ->].
  destruct seed as [seed|seed]; cbn in *.
  - destruct (was_contributory _) eqn:Ec; [|done]. injection Hs as <- <-.
    rewrite Hl. cbn [Z.eqb Pos.eqb negb]. rewrite shared_commutes, Ec.
    destruct (x25519_public draw !! 31%nat) as [b|] eqn:Eb; cbn; [|done].
    apply public_high_bit in Eb. by rewrite (proj2 (Z.ltb_ge _ _)).
  - destruct (mlkem_generate (take 32 seed) (drop 32 seed)) as [secret public] eqn:Eg. cbn in *.
    rewrite Hl. cbn [Z.eqb Pos.eqb negb].
    pose proof (mlkem_correct (take 32 seed) (drop 32 seed) draw share nfs) as Hc. rewrite Eg in Hc. cbn in Hc. by rewrite (Hc Hs).
Qed.

Lemma mask_share_length m iv prev k share : length (mask_share m iv prev k share) = length share.
Proof.
  unfold mask_share. destruct (bool_decide _), prev as [nfs|]; cbv zeta;
    rewrite ?length_app, ?apply_keystream_length, ?length_take, ?length_drop, ?apply_keystream_length; lia.
Qed.

Definition chain_ctr (iv : bytes) (prev : option bytes) : option ctr :=
  (fun nfs => mk_ctr (ctr_key (new_ctr nfs iv)) iv 32) <$> prev.

(** What the loop does to a masked share. *)
Lemma unmask_share m iv prev k share :
  (32 <= length share)%nat ->
  let relay := mask_share m iv prev k share in
  let relay := match chain_ctr iv prev with
               | Some c => (ctr_apply c (take 32 relay)).2 ++ drop 32 relay
               | None => relay
               end in
  (if bool_decide (m = Native) then relay else (ctr_apply (new_ctr (public_key k) iv) relay).2) = share.
Proof.
  intros Hl. unfold mask_share. cbv zeta.
  set (own := if bool_decide (m = Native) then share else _).
  assert (length own = length share) as Hown by (unfold own; case_match; [done|apply apply_keystream_length]).
  assert ((if bool_decide (m = Native) then own else (ctr_apply (new_ctr (public_key k) iv) own).2) = share) as Hs.
  { unfold own. destruct (bool_decide _); [done|]. apply apply_keystream_twice. }
  destruct prev as [nfs|]; [|exact Hs]. cbn [chain_ctr fmap option_fmap option_map].
  assert (length (apply_keystream (ctr_key (new_ctr nfs iv)) iv 32 (take 32 own)) = 32%nat) as Hk.
  { rewrite apply_keystream_length, length_take. lia. }
  rewrite take_app_len, drop_app_len by done.
  assert ((ctr_apply (mk_ctr (ctr_key (new_ctr nfs iv)) iv 32)
    (apply_keystream (ctr_key (new_ctr nfs iv)) iv 32 (take 32 own))).2 = take 32 own) as -> by apply apply_keystream_twice.
  rewrite take_drop. exact Hs.
Qed.

Lemma client_relays_len m iv prev ks ds w last :
  Forall own_key ks -> client_relays m iv prev ks ds = Some (w, last) ->
  len w = saturating_sub (list_sum (fun k => relay_len k + 32) ks) 32.
Proof.
  intros Hks Hc. enough (len w + 32 = list_sum (fun k => relay_len k + 32) ks) by (unfold saturating_sub; pose proof (len_nonneg w); lia).
  revert ds prev w last Hc. induction Hks as [|k ks Hk Hks IH]; intros [|d ds] prev w last Hc; try done.
  cbn [client_relays] in Hc. destruct (client_share k d) as [[share nfs]|] eqn:Es; [|done]. cbn [mbind option_bind] in Hc.
  pose proof (client_share_length _ _ _ _ Hk Es) as Hl. pose proof (mask_share_length m iv prev k share) as Hm.
  destruct ks as [|k2 ks].
  - injection Hc as <- _. cbn. unfold len in *. lia.
  - destruct (client_relays m iv (Some nfs) (k2 :: ks) ds) as [[rest l]|] eqn:Er; [|done].
    cbn [mbind option_bind] in Hc. injection Hc as <- _. apply IH in Er.
    rewrite !len_app. unfold list_sum in *. cbn [foldr] in *. unfold len in *.
    rewrite apply_keystream_length, blake3_length. lia.
Qed.

Lemma own_keys l : Forall own_key (keys (from_seeds l)).
Proof. cbn. apply Forall_fmap, Forall_true. intros seed. by exists seed. Qed.

Lemma relay_loop_client m iv prev ks ds w last pre post nfs0 :
  Forall own_key ks -> client_relays m iv prev ks ds = Some (w, last) ->
  relay_loop m iv (pre ++ w ++ post) ks (len pre) (chain_ctr iv prev) nfs0 = Ok last.
Proof.
  intros Hks. revert ds prev w last pre nfs0. induction Hks as [|k ks Hk Hks IH]; intros [|d ds] prev w last pre nfs0 Hc; try done.
  cbn [client_relays] in Hc. destruct (client_share k d) as [[share nfs]|] eqn:Es; [|done]. cbn [mbind option_bind] in Hc.
  pose proof (client_share_length _ _ _ _ Hk Es) as Hl. pose proof (mask_share_length m iv prev k share) as Hm.
  assert (32 <= length share)%nat as H32 by (unfold len in Hl; destruct k; cbn in Hl; lia).
  set (relay := mask_share m iv prev k share) in *. assert (len relay = relay_len k) as Hr by (unfold len in *; lia).
  assert (exists tail, w = relay ++ tail) as [tail ->].
  { destruct ks; [injection Hc as <- _; exists []; by rewrite app_nil_r|].
    destruct (client_relays _ _ _ _ _) as [[rest l]|]; [|done]. apply Some_pair_inj in Hc as [<- _]. eauto. }
  cbn [relay_loop]. rewrite <- Hr, <- app_assoc, get_range_app. cbn [ok_or mbind result_bind].
  pose proof (unmask_share m iv prev k share H32) as Hun. cbv zeta in Hun |- *. fold relay in Hun. rewrite Hun.
  rewrite (decapsulate_share _ _ _ _ Hk Es). cbn [map_err mbind result_bind].
  destruct ks as [|k2 ks]; [injection Hc as _ <-; done|].
  destruct (client_relays m iv (Some nfs) (k2 :: ks) ds) as [[rest l]|] eqn:Er; [|done].
  cbn [mbind option_bind] in Hc. apply Some_pair_inj in Hc as [Ht <-]. apply app_inv_head in Ht. subst tail.
  set (masked := apply_keystream (ctr_key (new_ctr nfs iv)) iv 0 (blake3_hash (public_key k2))).
  assert (len masked = 32) as Hm32 by (unfold masked, len; rewrite apply_keystream_length, blake3_length; done).
  replace (pre ++ relay ++ (masked ++ rest) ++ post) with ((pre ++ relay) ++ masked ++ rest ++ post) by (by rewrite <- !app_assoc).
  rewrite (get_range_at (pre ++ relay) masked) by (rewrite ?len_app; lia). cbn [ok_or mbind result_bind].
  rewrite (surjective_pairing (ctr_apply _ masked)).
  assert ((ctr_apply (new_ctr nfs iv) masked).2 = blake3_hash (public_key k2)) as -> by apply apply_keystream_twice.
  assert ((ctr_apply (new_ctr nfs iv) masked).1 = mk_ctr (ctr_key (new_ctr nfs iv)) iv 32) as ->.
  { unfold ctr_apply. cbn [fst ctr_key ctr_iv ctr_pos new_ctr]. f_equal. unfold len in Hm32. lia. }
  rewrite bytes_eqb_refl. cbn [negb].
  pose proof (IH ds (Some nfs) rest l ((pre ++ relay) ++ masked) nfs Er) as Hi.
  rewrite <- app_assoc, !len_app, Hm32 in Hi. exact Hi.
Qed.

Lemma opening_length c iv ds relays nfs :
  length iv = 16%nat -> client_relays (mode c) iv None (keys (from_seeds (seeds c))) ds = Some (relays, nfs) ->
  length (iv ++ relays) = Z.to_nat (16 + total_relay_len (srv_keys (Server_new c))).
Proof.
  intros Hiv Hr. apply (client_relays_len _ _ _ _ _ _ _ (own_keys (seeds c))) in Hr. rewrite length_app, Hiv.
  cbn [Server_new srv_keys from_seeds total_relay_len keys] in *. rewrite <- Hr. unfold len. lia.
Qed.

Lemma process_relays_client c iv ds w last :
  client_relays (mode c) iv None (keys (from_seeds (seeds c))) ds = Some (w, last) ->
  process_relays (Server_new c) iv w = Ok last.
Proof.
  intros Hc. unfold process_relays. cbn [srv_config srv_keys Server_new].
  pose proof (relay_loop_client (mode c) iv None _ ds w last [] [] (replicate 32 0) (own_keys (seeds c)) Hc) as Hl.
  by rewrite app_nil_r in Hl.
Qed.
End chain.

(** ** Running *)

Section running.
Context {A B : Type} (now : Z) (sent : result HandshakeError unit).

Lemma run_done (x : comp HandshakeError A) (f : A -> prog B) a s m r :
  x = Val a -> run (f a) s now sent m = r -> run (mbind f (Done x)) s now sent m = r.
Proof. by intros ->. Qed.

Lemma run_read (f : bytes -> prog B) n b rest e m r :
  length b = Z.to_nat n -> run (f b) (mk_source rest e) now sent m = r ->
  run (mbind f (read_exact_stage n)) (mk_source (b ++ rest) e) now sent m = r.
Proof. intros Hl Hr. cbn. by rewrite read_exact_app. Qed.

Lemma run_emit (f : unit -> prog B) b s m m' out s' r :
  run (f tt) s now (Ok tt) m = (m', out, s', r) -> run (mbind f (emit b)) s now (Ok tt) m = (m', b :: out, s', r).
Proof. intros Hr. cbn. by rewrite Hr. Qed.

Lemma run_cleanup (f : unit -> prog B) s m :
  run (mbind f cleanup_tickets) s now sent m = run (f tt) s now sent (sweep now m).
Proof. done. Qed.

Lemma run_redeem (f : A -> prog B) t n k s m :
  run (mbind f (Redeem t n k)) s now sent m = let '(m', r) := redeem t n m in run (mbind f (k r)) s now sent m'.
Proof. done. Qed.
End running.

Section agreement.
Context `{Aead} `{KeyStream} `{X25519} `{MlKem} `{Blake3}.
Context `{!AeadLaws} `{!X25519Laws} `{!X25519Canonical} `{!MlKemLaws} `{!Blake3Laws}.

Lemma run_aead {B} now sent (f : aead_state * bytes -> prog B) x s' b s m r :
  x = (s', Ok b) -> run (f (s', b)) s now sent m = r -> run (mbind f (aead_op x)) s now sent m = r.
Proof. intros ->. by apply run_done. Qed.

Lemma seal_raw_open s p o s' b : seal_raw s p [] o = (s', Ok b) -> open_raw s b [] o = (s', Ok p) /\ len b = len p + 16.
Proof.
  unfold seal_raw, open_raw. intros Hs. destruct (aead_seal _ _ _ _ p) as [c|] eqn:E; [|done]. cbn in Hs. simplify_eq.
  rewrite (open_of_seal _ _ _ _ _ _ E). split; [done|]. by apply seal_length in E.
Qed.

Lemma seal_raw_total s p o : len p <= 16384 -> exists s' b, seal_raw s p [] o = (s', Ok b).
Proof.
  intros Hp. unfold seal_raw. cbv zeta.
  match goal with |- context [aead_seal ?k ?key ?n [] p] => destruct (seal_total k key n [] p Hp) as [c ->] end. cbn. eauto.
Qed.

Lemma client_seal_inv s p s' b : client_seal s p = Some (s', b) -> seal_raw s p [] None = (s', Ok b).
Proof. unfold client_seal. destruct (seal_raw s p [] None) as [s1 [c|]]; [|done]. by intros [= -> ->]. Qed.

Lemma client_seal_open s p s' b :
  client_seal s p = Some (s', b) -> open_raw s b [] None = (s', Ok p) /\ len b = len p + 16.
Proof. intros Hs. by apply seal_raw_open, client_seal_inv. Qed.

(** The first ciphertext does not also open under AES-GCM. *)
Definition unambiguous (k : cipher_kind) (iv nfs first : bytes) : Prop :=
  k = Aes256Gcm \/ is_ok (open_raw (aead_new iv nfs Aes256Gcm) first [] None).2 = false.

Lemma open_first_client iv nfs k p s first :
  client_seal (aead_new iv nfs k) p = Some (s, first) -> unambiguous k iv nfs first ->
  open_first_length iv nfs first = Ok (s, k, p).
Proof.
  intros Hs Hu. apply client_seal_open in Hs as [Ho _]. unfold open_first_length. cbn [try_kinds].
  destruct Hu as [->|Hu]; [by rewrite Ho|]. destruct (open_raw (aead_new iv nfs Aes256Gcm) first [] None) as [s1 [q|e]] eqn:E; [done|].
  destruct k; [congruence|]. by rewrite Ho.
Qed.

(** The common beginning of both modes. *)
Lemma run_opening c d iv k ds relays nfs s n first rest e now sent m :
  length iv = 16%nat -> client_relays (mode c) iv None (keys (from_seeds (seeds c))) ds = Some (relays, nfs) ->
  client_seal (aead_new iv nfs k) (be_bytes 2 n) = Some (s, first) -> unambiguous k iv nfs first -> 0 <= n < 65536 ->
  run (handshake (Server_new c) d) (mk_source ((iv ++ relays) ++ first ++ rest) e) now sent m =
  run (if n =? 32 then handshake_zero_rtt (Server_new c) d iv nfs s k else handshake_one_rtt (Server_new c) d iv nfs s k n)
    (mk_source rest e) now sent m.
Proof.
  intros Hiv Hr Hs Hu Hn.
  destruct (client_seal_open _ _ _ _ Hs) as [_ Hf]. rewrite len_be_bytes in Hf.
  unfold handshake. apply run_read; [by eapply opening_length|].
  cbv zeta. rewrite take_app_len, drop_app_len by done.
  eapply run_done; [by rewrite (process_relays_client _ _ _ _ _ Hr)|]. apply run_read; [unfold len in Hf; lia|].
  eapply run_done; [by rewrite (open_first_client _ _ _ _ _ _ Hs Hu)|]. cbv beta iota.
  eapply (run_done _ _ _ _ n); [|done]. rewrite len_be_bytes. cbn [Z.of_nat Pos.of_succ_nat Pos.succ Z.eqb Pos.eqb].
  by rewrite be_val_be_bytes.
Qed.

(** The lifetimes a configuration allows. *)
Definition lifetime_of (c : EncryptionConfig) (l : Z) : Prop :=
  (lifetime_to c <> 0 -> lifetime_from c <= l <= lifetime_to c) /\ (lifetime_to c = 0 -> lifetime_from c / 2 <= l <= lifetime_from c).

(** The lifetime of a ticket is within the configured limits, and its first bytes. *)
Lemma run_create c d pfs now sent :
  config_wf c -> lifetimes_ok c -> length (d_ticket d) = 16%nat ->
  exists t l, length t = 16%nat /\ be_val (take 2 t) = l /\ lifetime_of c l /\
    forall B (f : bytes * Z -> prog B) s m r,
      run (f (t, l)) s now sent (if l =? 0 then m else store now t pfs l m) = r ->
      run (mbind f (create_ticket (Server_new c) d pfs)) s now sent m = r.
Proof.
  intros [Hf Ht _ _ _] [Hf0 Hto] Hd. unfold uint_ok in *.
  assert (exists l, (if negb (lifetime_to c =? 0) then gen_range (lifetime_from c) (lifetime_to c) (d_lifetime d)
     else if negb (lifetime_from c =? 0) then gen_range (lifetime_from c / 2) (lifetime_from c) (d_lifetime d)
     else Val 0) = @Val HandshakeError Z l /\ 0 <= l < 65536 /\ lifetime_of c l) as (l & Hl & Hb & Hz).
  { destruct (lifetime_to c =? 0) eqn:E1; [destruct (lifetime_from c =? 0) eqn:E2|]; split_bool; cbn [negb].
    - exists 0. split; [done|]. unfold lifetime_of. rewrite E1, E2. change (0 / 2) with 0. lia.
    - destruct (@gen_range_val HandshakeError (lifetime_from c / 2) (lifetime_from c) (d_lifetime d)) as (l & -> & Hl).
      { apply Z.div_le_upper_bound; lia. }
      exists l. split; [done|]. unfold lifetime_of. pose proof (Z.div_pos (lifetime_from c) 2). lia.
    - destruct (@gen_range_val HandshakeError (lifetime_from c) (lifetime_to c) (d_lifetime d)) as (l & -> & Hl); [lia|].
      exists l. split; [done|]. unfold lifetime_of. lia. }
  exists (be_bytes 2 l ++ drop 2 (d_ticket d)), l.
  split; [rewrite length_app, length_be_bytes, length_drop; lia|].
  split; [rewrite take_app_len by done; by apply be_val_be_bytes|]. split; [done|].
  intros B f s m r. unfold create_ticket. cbn [srv_config Server_new]. rewrite Hl. cbn [mbind prog_bind]. by destruct (l =? 0).
Qed.

Definition client_xors (m : EncryptionMode) (united iv in_iv : bytes) : option header_xor * option header_xor :=
  if bool_decide (m = Random) then (Some (outbound united iv 0), Some (inbound united in_iv 0)) else (None, None).

Lemma xor_pair_peer c united iv in_iv :
  xor_pair (Server_new c) united iv in_iv =
  (peer <$> (client_xors (mode c) united iv in_iv).1, peer <$> (client_xors (mode c) united iv in_iv).2).
Proof. unfold xor_pair, client_xors. cbn [srv_config Server_new]. by destruct (bool_decide _). Qed.

Lemma client_pfs_parts cl :
  take 1184 (client_pfs cl) = (mlkem_generate (c_d cl) (c_z cl)).2 /\
  take 32 (drop 1184 (client_pfs cl)) = x25519_public (c_x cl) /\ length (client_pfs cl) = 1216%nat.
Proof.
  unfold client_pfs. pose proof (mlkem_public_length (c_d cl) (c_z cl)) as H1'. pose proof (public_length (c_x cl)) as H2'.
  split; [by apply take_app_len|]. split; [|rewrite length_app; lia].
  rewrite drop_app_len by done. apply take_ge. lia.
Qed.

Lemma pfs_response_client cl draw secret :
  was_contributory (diffie_hellman secret (x25519_public (c_x cl))) = true ->
  exists ct ss, generate_pfs_response (mlkem_generate (c_d cl) (c_z cl)).2 (x25519_public (c_x cl)) draw secret =
      Ok (ct ++ x25519_public secret, ss ++ diffie_hellman secret (x25519_public (c_x cl))) /\
    length ct = 1088%nat /\ mlkem_decapsulate (mlkem_generate (c_d cl) (c_z cl)).1 ct = Some ss.
Proof.
  intros Hw. unfold generate_pfs_response, len. pose proof (mlkem_public_length (c_d cl) (c_z cl)) as Hp.
  rewrite Hp, public_length. cbn [Z.of_nat Pos.of_succ_nat Pos.succ Z.eqb Pos.eqb negb].
  destruct (mlkem_encapsulate_total _ draw Hp) as [[ct ss] He]. rewrite He. cbn [ok_or mbind result_bind].
  change (Z.of_nat 32 =? 32) with true. cbn [negb]. rewrite Hw. exists ct, ss. split; [done|].
  split; [by apply mlkem_encapsulate_length in He as [-> _]|]. by apply mlkem_correct in He.
Qed.

(** Only the counter changes. *)
Lemma client_seal_keys s p s' b : client_seal s p = Some (s', b) -> kind s' = kind s /\ key s' = key s.
Proof.
  unfold client_seal, seal_raw. destruct (aead_seal _ _ _ _ _); [|done]. cbn. by intros [= <- _].
Qed.

Lemma seal_explicit_open s s0 p n s' b :
  kind s = kind s0 -> key s = key s0 -> seal_raw s p [] (Some n) = (s', Ok b) ->
  s' = s /\ open_raw s0 b [] (Some n) = (s0, Ok p) /\ len b = len p + 16.
Proof.
  unfold seal_raw, open_raw. intros -> ->. destruct (aead_seal _ _ _ _ p) as [c|] eqn:E; cbn [ok_or]; [|done].
  intros [= <- <-]. rewrite (open_of_seal _ _ _ _ _ _ E). split; [done|]. split; [done|]. by apply seal_length in E.
Qed.

(** The server's answer for a PFS response, a ticket and the states it starts with. *)
Definition answers (nfs_aead : aead_state) (encrypt : aead_state) (response ticket : bytes) (encrypt' : aead_state) (hello : bytes) : Prop :=
  exists a s1 b s2 c d,
    seal_raw nfs_aead response [] (Some MAX_NONCE) = (nfs_aead, Ok a) /\
    seal_raw encrypt ticket [] None = (s1, Ok b) /\
    seal_raw s1 (be_bytes 2 (wrap 16 (padding_len - 18))) [] None = (s2, Ok c) /\
    seal_raw s2 (replicate (Z.to_nat (padding_len - 34)) 0) [] None = (encrypt', Ok d) /\
    hello = a ++ b ++ c ++ d.

Lemma answers_total nfs_aead encrypt response ticket :
  len response = 1120 -> length ticket = 16%nat -> exists encrypt' hello, answers nfs_aead encrypt response ticket encrypt' hello.
Proof.
  intros Hr Ht. destruct (seal_raw_total nfs_aead response (Some MAX_NONCE)) as (s0 & a & Ha); [lia|].
  assert (s0 = nfs_aead) as -> by (unfold seal_raw in Ha; by destruct (aead_seal _ _ _ _ _); simplify_eq/=).
  destruct (seal_raw_total encrypt ticket None) as (s1 & b & Hb); [unfold len; lia|].
  destruct (seal_raw_total s1 (be_bytes 2 (wrap 16 (padding_len - 18))) None) as (s2 & c & Hc); [rewrite len_be_bytes; lia|].
  destruct (seal_raw_total s2 (replicate (Z.to_nat (padding_len - 34)) 0) None) as (s3 & e & Hd).
  { unfold len. rewrite length_replicate. unfold padding_len. lia. }
  exists s3, (a ++ b ++ c ++ e), a, s1, b, s2, c, e. done.
Qed.

Lemma answers_len nfs_aead encrypt response ticket encrypt' hello :
  len response = 1120 -> length ticket = 16%nat -> answers nfs_aead encrypt response ticket encrypt' hello -> len hello = 1279.
Proof.
  intros Hr Ht (a & s1 & b & s2 & c & e & Ha & Hb & Hc & He & ->).
  apply seal_raw_open in Ha as [_ Ha], Hb as [_ Hb], Hc as [_ Hc], He as [_ He].
  rewrite !len_app, Ha, Hb, Hc, He, Hr, len_be_bytes. unfold len. rewrite length_replicate, Ht. unfold padding_len. lia.
Qed.

(** The client understands it. *)
Lemma client_finish_answers cl nfs nfs_aead ct ss secret ticket encrypt' hello :
  kind nfs_aead = c_kind cl -> key nfs_aead = key (aead_new (c_iv cl) nfs (c_kind cl)) ->
  length ct = 1088%nat -> mlkem_decapsulate (mlkem_generate (c_d cl) (c_z cl)).1 ct = Some ss -> length ticket = 16%nat ->
  let pfs := ss ++ diffie_hellman (c_x cl) (x25519_public secret) in
  answers nfs_aead (aead_new (ct ++ x25519_public secret) (pfs ++ nfs) (c_kind cl)) (ct ++ x25519_public secret) ticket encrypt' hello ->
  client_finish cl nfs hello = Some (ticket, pfs, aead_new (client_pfs cl) (pfs ++ nfs) (c_kind cl), encrypt').
Proof.
  intros Hk Hkey Hct Hss Ht pfs (a & s1 & b & s2 & c & e & Ha & Hb & Hc & He & ->).
  destruct (seal_explicit_open _ (aead_new (c_iv cl) nfs (c_kind cl)) _ _ _ _ Hk Hkey Ha) as (_ & Hoa & Hla).
  apply seal_raw_open in Hb as [Hob Hlb], Hc as [Hoc Hlc], He as [Hoe Hle].
  rewrite len_app in Hla. pose proof (public_length secret) as Hpl. rewrite len_be_bytes in Hlc.
  unfold len in Hla, Hlb, Hlc, Hle. rewrite length_replicate in Hle. unfold padding_len in Hle.
  unfold client_finish, client_open.
  rewrite (take_app_len 1136 a), (drop_app_len 1136 a) by lia. rewrite Hoa. cbn [mbind option_bind].
  rewrite (take_app_len 1088 ct), (drop_app_len 1088 ct) by lia. rewrite Hss. cbn [mbind option_bind]. fold pfs.
  rewrite (take_app_len 32 b) by lia. rewrite Hob. cbn [mbind option_bind].
  rewrite (drop_app_len 32 b), (take_app_len 18 c) by lia. rewrite Hoc. cbn [mbind option_bind].
  rewrite (app_assoc b c e), (drop_app_len 50 (b ++ c)) by (rewrite length_app; lia).
  assert (be_val (be_bytes 2 (wrap 16 (padding_len - 18))) = 93) as -> by reflexivity.
  rewrite take_ge by lia. by rewrite Hoe.
Qed.

(** The rest of the 1-RTT exchange, for a client that seals its key and its padding. *)
Lemma run_one_rtt c cl d nfs s1 s2 s3 s4 pfs pn pad now :
  config_wf c -> lifetimes_ok c -> length (d_ticket d) = 16%nat -> len (c_padding cl) < 65520 ->
  kind s1 = c_kind cl -> key s1 = key (aead_new (c_iv cl) nfs (c_kind cl)) ->
  client_seal s1 (client_pfs cl) = Some (s2, pfs) ->
  client_seal s2 (be_bytes 2 (len (c_padding cl) + 16)) = Some (s3, pn) -> client_seal s3 (c_padding cl) = Some (s4, pad) ->
  was_contributory (diffie_hellman (d_secret d) (x25519_public (c_x cl))) = true ->
  exists hello ticket pfs_key l read,
    (forall rest e m,
      run (handshake_one_rtt (Server_new c) d (c_iv cl) nfs s1 (c_kind cl) 1232) (mk_source (pfs ++ pn ++ pad ++ rest) e) now (Ok tt) m =
      (if l =? 0 then m else store now ticket pfs_key l m, [hello], mk_source rest e,
       Val (mk_HandshakeResult (aead_new (client_pfs cl) (pfs_key ++ nfs) (c_kind cl)) read
         (peer <$> (client_xors (mode c) (pfs_key ++ nfs) (c_iv cl) ticket).1)
         (peer <$> (client_xors (mode c) (pfs_key ++ nfs) (c_iv cl) ticket).2) false))) /\
    len hello = 1279 /\ be_val (take 2 ticket) = l /\ lifetime_of c l /\ length ticket = 16%nat /\
    client_finish cl nfs hello = Some (ticket, pfs_key, aead_new (client_pfs cl) (pfs_key ++ nfs) (c_kind cl), read).
Proof.
  intros Hwf Hlo Hd Hpad Hk Hkey Hs2 Hs3 Hs4 Hw. destruct (client_pfs_parts cl) as (Hp1 & Hp2 & Hp3).
  destruct (client_seal_keys _ _ _ _ Hs2) as [Hk2 Hkey2].
  apply client_seal_open in Hs2 as [Ho2 Hl2], Hs3 as [Ho3 Hl3], Hs4 as [Ho4 Hl4]. rewrite len_be_bytes in Hl3. unfold len in Hl2, Hl3, Hl4.
  destruct (pfs_response_client cl (d_encapsulation d) (d_secret d) Hw) as (ct & ss & Hresp & Hct & Hss).
  rewrite shared_commutes in Hresp. set (pfs_key := ss ++ diffie_hellman (c_x cl) (x25519_public (d_secret d))) in *.
  set (response := ct ++ x25519_public (d_secret d)) in *.
  assert (len response = 1120) as Hrl by (unfold response, len; rewrite length_app, public_length; lia).
  destruct (run_create c d pfs_key now (Ok tt) Hwf Hlo Hd) as (t & l & Ht & Htl & Hlife & Hcreate).
  destruct (answers_total s2 (aead_new response (pfs_key ++ nfs) (c_kind cl)) response t Hrl Ht) as (read & hello & Hans).
  exists hello, t, pfs_key, l, read. split; [|split; [by eapply answers_len|split; [done|split; [done|split; [done|]]]]].
  2: { apply (client_finish_answers cl nfs s2 ct ss (d_secret d) t); [congruence|congruence|done|done|done|exact Hans]. }
  destruct Hans as (a & s5 & b & s6 & x & y & Ha & Hb & Hx & Hy & ->). intros rest e m.
  unfold handshake_one_rtt. eapply run_done; [reflexivity|]. apply run_read; [lia|].
  eapply run_aead; [exact Ho2|]. cbv beta iota. eapply run_done; [unfold len; by rewrite Hp3|].
  eapply run_done; [rewrite Hp1, Hp2, Hresp; reflexivity|]. cbv beta iota zeta. rewrite (take_ge (client_pfs cl)) by lia.
  eapply run_aead; [exact Ha|]. apply Hcreate. eapply run_aead; [exact Hb|]. eapply run_aead; [exact Hx|]. eapply run_aead; [exact Hy|].
  cbv beta iota. apply run_emit. apply run_read; [lia|]. eapply run_aead; [exact Ho3|]. cbv beta iota.
  eapply run_done; [by rewrite len_be_bytes|]. eapply run_done; [by rewrite len_be_bytes|].
  rewrite be_val_be_bytes by (pose proof (len_nonneg (c_padding cl)); lia).
  apply run_read; [unfold len; lia|]. eapply run_aead; [exact Ho4|]. cbv beta iota. by rewrite xor_pair_peer.
Qed.

Lemma one_rtt_run c cl d wire nfs now :
  config_wf c -> lifetimes_ok c -> length (d_ticket d) = 16%nat ->
  length (c_iv cl) = 16%nat -> len (c_padding cl) < 65520 ->
  client_start (Server_new c) cl = Some (wire, nfs) ->
  unambiguous (c_kind cl) (c_iv cl) nfs (take 18 (drop (Z.to_nat (16 + total_relay_len (srv_keys (Server_new c)))) wire)) ->
  was_contributory (diffie_hellman (d_secret d) (x25519_public (c_x cl))) = true ->
  exists hello ticket pfs_key l write read r,
    (forall rest e m, run (handshake (Server_new c) d) (mk_source (wire ++ rest) e) now (Ok tt) m =
      (if l =? 0 then m else store now ticket pfs_key l m, [hello], mk_source rest e, Val r)) /\
    len hello = 1279 /\ be_val (take 2 ticket) = l /\ lifetime_of c l /\ length ticket = 16%nat /\
    client_finish cl nfs hello = Some (ticket, pfs_key, write, read) /\
    r_decrypt r = write /\ r_encrypt r = read /\ zero_rtt r = false /\
    inbound_xor r = peer <$> (client_xors (mode c) (pfs_key ++ nfs) (c_iv cl) ticket).1 /\
    outbound_xor r = peer <$> (client_xors (mode c) (pfs_key ++ nfs) (c_iv cl) ticket).2.
Proof.
  intros Hwf Hlo Hd Hiv Hpad Hstart Hu Hw. unfold client_start in Hstart. cbn [srv_config srv_keys Server_new] in Hstart.
  destruct (client_relays _ _ _ _ _) as [[relays nfs']|] eqn:Er; [|done]. cbn [mbind option_bind] in Hstart.
  destruct (client_seal _ _) as [[s1 n]|] eqn:E1; [|done]. cbn [mbind option_bind] in Hstart.
  destruct (client_seal s1 _) as [[s2 pfs]|] eqn:E2; [|done]. cbn [mbind option_bind] in Hstart.
  destruct (client_seal s2 _) as [[s3 pn]|] eqn:E3; [|done]. cbn [mbind option_bind] in Hstart.
  destruct (client_seal s3 _) as [[s4 pad]|] eqn:E4; [|done]. cbn [mbind option_bind] in Hstart.
  apply Some_pair_inj in Hstart as [<- <-]. destruct (client_pfs_parts cl) as (_ & _ & Hp).
  assert (len (client_pfs cl) + 16 = 1232) as Hn by (unfold len; lia). rewrite Hn in E1.
  pose proof (opening_length _ _ _ _ _ Hiv Er) as Hpre.
  pose proof (client_seal_open _ _ _ _ E1) as [_ Hl1]. rewrite len_be_bytes in Hl1. unfold len in Hl1.
  rewrite drop_app_len, take_app_len in Hu by lia. destruct (client_seal_keys _ _ _ _ E1) as [Hk Hkey].
  destruct (run_one_rtt c cl d nfs' s1 s2 s3 s4 pfs pn pad now) as (hello & t & pfs_key & l & read & Hrun & Hlen & Ht & Hlife & Ht16 & Hf); try done.
  exists hello, t, pfs_key, l, (aead_new (client_pfs cl) (pfs_key ++ nfs') (c_kind cl)), read, (mk_HandshakeResult (aead_new (client_pfs cl) (pfs_key ++ nfs') (c_kind cl)) read
         (peer <$> (client_xors (mode c) (pfs_key ++ nfs') (c_iv cl) t).1)
         (peer <$> (client_xors (mode c) (pfs_key ++ nfs') (c_iv cl) t).2) false).
  split; [|done]. intros rest e m. rewrite <- (Hrun rest e m), <- !app_assoc, (app_assoc (c_iv cl)).
  rewrite (run_opening c d _ _ _ _ _ _ _ _ _ _ _ _ _ Hiv Er E1 Hu) by lia. done.
Qed.

(** C6: The 1-RTT handshake of a client that knows the public keys of the server, over
    any relay chain and in any mode, completes: the server sends one hello of 1279
    bytes, consumes exactly the client's messages whatever follows them, and both ends hold the same record
    states in either direction and matching header masks; the client learns a ticket
    whose first bytes are its lifetime, and if that is not zero the server has stored
    the shared PFS key under it. *)
Theorem encryption_handshake_agreement c cl d wire nfs now :
  config_wf c -> lifetimes_ok c -> length (d_ticket d) = 16%nat ->
  length (c_iv cl) = 16%nat -> len (c_padding cl) < 65520 ->
  client_start (Server_new c) cl = Some (wire, nfs) ->
  unambiguous (c_kind cl) (c_iv cl) nfs (take 18 (drop (Z.to_nat (16 + total_relay_len (srv_keys (Server_new c)))) wire)) ->
  was_contributory (diffie_hellman (d_secret d) (x25519_public (c_x cl))) = true ->
  exists hello ticket pfs_key l write read r,
    (forall rest e m, run (handshake (Server_new c) d) (mk_source (wire ++ rest) e) now (Ok tt) m =
      (if l =? 0 then m else store now ticket pfs_key l m, [hello], mk_source rest e, Val r)) /\
    len hello = 1279 /\ be_val (take 2 ticket) = l /\ lifetime_of c l /\ length ticket = 16%nat /\
    client_finish cl nfs hello = Some (ticket, pfs_key, write, read) /\
    r_decrypt r = write /\ r_encrypt r = read /\ zero_rtt r = false /\
    inbound_xor r = peer <$> (client_xors (mode c) (pfs_key ++ nfs) (c_iv cl) ticket).1 /\
    outbound_xor r = peer <$> (client_xors (mode c) (pfs_key ++ nfs) (c_iv cl) ticket).2.
Proof. apply one_rtt_run. Qed.

(** The decoy for an unknown ticket. *)
Definition decoy (d : draws) : bytes := d_decoy d <$> seq 0 (Z.to_nat (1279 + d_decoy_len d mod 1001)).

Lemma zero_rtt_run c cl d ticket pfs_key wire nfs write rest e now m :
  lifetime_from c <> 0 \/ lifetime_to c <> 0 -> length (c_iv cl) = 16%nat -> length ticket = 16%nat ->
  client_resume (Server_new c) cl ticket pfs_key = Some (wire, nfs, write) ->
  unambiguous (c_kind cl) (c_iv cl) nfs (take 18 (drop (Z.to_nat (16 + total_relay_len (srv_keys (Server_new c)))) wire)) ->
  exists r, run (handshake (Server_new c) d) (mk_source (wire ++ rest) e) now (Ok tt) m =
    match sweep now m !! ticket with
    | None => (sweep now m, [decoy d], mk_source rest e, Fail ExpiredTicket)
    | Some s =>
        if decide (nfs ∈ replay_keys s) then (sweep now m, [], mk_source rest e, Fail Replay)
        else (<[ticket := mk_TicketSession (ts_pfs_key s) ({[nfs]} ∪ replay_keys s) (expires s)]> (sweep now m),
              [d_random d], mk_source rest e, Val r)
    end /\
    1279 <= len (decoy d) <= 2279 /\
    forall s, sweep now m !! ticket = Some s -> ts_pfs_key s = pfs_key ->
      r_decrypt r = write /\ r_encrypt r = aead_new (d_random d) (pfs_key ++ nfs) (c_kind cl) /\ zero_rtt r = true /\
      inbound_xor r = peer <$> (client_xors (mode c) (pfs_key ++ nfs) (c_iv cl) (d_random d)).1 /\
      outbound_xor r = peer <$> (client_xors (mode c) (pfs_key ++ nfs) (c_iv cl) (d_random d)).2.
Proof.
  intros Hlt Hiv Ht Hstart Hu. unfold client_resume in Hstart. cbn [srv_config srv_keys Server_new] in Hstart.
  destruct (client_relays _ _ _ _ _) as [[relays nfs']|] eqn:Er; [|done]. cbn [mbind option_bind] in Hstart.
  destruct (client_seal _ _) as [[s1 n]|] eqn:E1; [|done]. cbn [mbind option_bind] in Hstart.
  destruct (client_seal s1 _) as [[s2 sealed]|] eqn:E2; [|done]. cbn [mbind option_bind] in Hstart.
  apply Some_pair_inj in Hstart as [Hpair <-]. apply pair_eq in Hpair as [<- <-].
  pose proof (opening_length _ _ _ _ _ Hiv Er) as Hpre.
  pose proof (client_seal_open _ _ _ _ E1) as [_ Hl1]. rewrite len_be_bytes in Hl1. unfold len in Hl1.
  rewrite drop_app_len, take_app_len in Hu by lia. apply client_seal_open in E2 as [Ho2 Hl2]. unfold len in Hl2.
  set (pk := default pfs_key (ts_pfs_key <$> sweep now m !! ticket)).
  exists (mk_HandshakeResult (aead_new sealed (pk ++ nfs') (c_kind cl)) (aead_new (d_random d) (pk ++ nfs') (c_kind cl))
    (peer <$> (client_xors (mode c) (pk ++ nfs') (c_iv cl) (d_random d)).1)
    (peer <$> (client_xors (mode c) (pk ++ nfs') (c_iv cl) (d_random d)).2) true).
  split; [|split].
  - rewrite <- !app_assoc, (app_assoc (c_iv cl)). rewrite (run_opening c d _ _ _ _ _ _ _ _ _ _ _ _ _ Hiv Er E1 Hu) by lia.
    cbn [Z.eqb Pos.eqb]. unfold handshake_zero_rtt. cbn [srv_config Server_new].
    assert ((lifetime_from c =? 0) && (lifetime_to c =? 0) = false) as ->.
    { destruct (lifetime_from c =? 0) eqn:Ea, (lifetime_to c =? 0) eqn:Eb; split_bool; try done. lia. }
    apply run_read; [lia|]. eapply run_aead; [exact Ho2|]. cbv beta iota. eapply run_done; [unfold len; by rewrite Ht|].
    rewrite run_cleanup, run_redeem. unfold redeem, pk. clear pk.
    destruct (sweep now m !! ticket) as [s|] eqn:Es; [|reflexivity].
    case_decide; [done|]. eapply run_done; [reflexivity|]. apply run_emit. by rewrite xor_pair_peer.
  - unfold decoy, len. rewrite length_fmap, length_seq. pose proof (Z.mod_pos_bound (d_decoy_len d) 1001 ltac:(lia)). lia.
  - intros s Hs Hp. assert (pk = pfs_key) as -> by (unfold pk; rewrite Hs; exact Hp). done.
Qed.

(** The outcome of a 0-RTT opening, for a client that knows the server's public keys
    and presents any ticket of 16 bytes, on any ticket table: an unknown or expired
    ticket is answered by a decoy of 1279 to 2279 bytes and an error, a key already
    used with the ticket is refused without an answer, and otherwise the key is noted,
    16 random bytes are sent, and both ends that share the stored PFS key have the same
    record states and header masks. *)
Theorem zero_rtt_outcome c cl d ticket pfs_key wire nfs write rest e now m :
  lifetime_from c <> 0 \/ lifetime_to c <> 0 -> length (c_iv cl) = 16%nat -> length ticket = 16%nat ->
  client_resume (Server_new c) cl ticket pfs_key = Some (wire, nfs, write) ->
  unambiguous (c_kind cl) (c_iv cl) nfs (take 18 (drop (Z.to_nat (16 + total_relay_len (srv_keys (Server_new c)))) wire)) ->
  exists r, run (handshake (Server_new c) d) (mk_source (wire ++ rest) e) now (Ok tt) m =
    match sweep now m !! ticket with
    | None => (sweep now m, [decoy d], mk_source rest e, Fail ExpiredTicket)
    | Some s =>
        if decide (nfs ∈ replay_keys s) then (sweep now m, [], mk_source rest e, Fail Replay)
        else (<[ticket := mk_TicketSession (ts_pfs_key s) ({[nfs]} ∪ replay_keys s) (expires s)]> (sweep now m),
              [d_random d], mk_source rest e, Val r)
    end /\
    1279 <= len (decoy d) <= 2279 /\
    forall s, sweep now m !! ticket = Some s -> ts_pfs_key s = pfs_key ->
      r_decrypt r = write /\ r_encrypt r = aead_new (d_random d) (pfs_key ++ nfs) (c_kind cl) /\ zero_rtt r = true /\
      inbound_xor r = peer <$> (client_xors (mode c) (pfs_key ++ nfs) (c_iv cl) (d_random d)).1 /\
      outbound_xor r = peer <$> (client_xors (mode c) (pfs_key ++ nfs) (c_iv cl) (d_random d)).2.
Proof. apply zero_rtt_run. Qed.
(** A client that draws contributory secrets can always start. *)
Lemma client_share_total k draw :
  (forall a b, was_contributory (diffie_hellman a b) = true) -> own_key k -> is_Some (client_share k draw).
Proof.
  intros Hw [seed ->]. destruct seed as [seed|seed]; cbn [server_key client_share]; [rewrite Hw; eauto|].
  pose proof (mlkem_public_length (take 32 seed) (drop 32 seed)) as Hl.
  destruct (mlkem_generate _ _) as [secret public]. by apply mlkem_encapsulate_total.
Qed.

Lemma client_relays_total m iv prev ks ds :
  (forall a b, was_contributory (diffie_hellman a b) = true) -> Forall own_key ks -> ks <> [] -> length ds = length ks ->
  is_Some (client_relays m iv prev ks ds).
Proof.
  intros Hw Hks. revert prev ds. induction Hks as [|k ks Hk Hks IH]; intros prev [|draw ds] Hn Hl; try done.
  cbn [client_relays]. destruct (client_share_total k draw Hw Hk) as [[share nfs] ->]. cbn [mbind option_bind].
  destruct ks as [|k2 ks]; [eauto|]. destruct (IH (Some nfs) ds) as [[rest last] ->]; [done|by injection Hl|].
  cbn [mbind option_bind]. eauto.
Qed.

Lemma client_seal_total s p : len p <= 16384 -> exists s' b, client_seal s p = Some (s', b).
Proof. intros Hp. unfold client_seal. destruct (seal_raw_total s p None Hp) as (s' & b & ->). eauto. Qed.

Lemma client_start_total c cl :
  (forall a b, was_contributory (diffie_hellman a b) = true) -> seeds c <> [] -> length (c_draws cl) = length (seeds c) ->
  len (c_padding cl) <= 16384 -> exists wire nfs, client_start (Server_new c) cl = Some (wire, nfs).
Proof.
  intros Hw Hn Hl Hp. unfold client_start. cbn [srv_config srv_keys Server_new].
  destruct (client_relays_total (mode c) (c_iv cl) None (keys (from_seeds (seeds c))) (c_draws cl)) as [[w nfs] ->];
    [done|apply own_keys|cbn; by destruct (seeds c)|cbn; by rewrite length_fmap|]. cbn [mbind option_bind].
  destruct (client_pfs_parts cl) as (_ & _ & Hc).
  destruct (client_seal_total (aead_new (c_iv cl) nfs (c_kind cl)) (be_bytes 2 (len (client_pfs cl) + 16))) as (s1 & n & ->);
    [by rewrite len_be_bytes|]. cbn [mbind option_bind].
  destruct (client_seal_total s1 (client_pfs cl)) as (s2 & q & ->); [unfold len; lia|]. cbn [mbind option_bind].
  destruct (client_seal_total s2 (be_bytes 2 (len (c_padding cl) + 16))) as (s3 & pn & ->); [by rewrite len_be_bytes|].
  cbn [mbind option_bind]. destruct (client_seal_total s3 (c_padding cl) Hp) as (s4 & pad & ->). cbn [mbind option_bind]. eauto.
Qed.

Lemma client_resume_total c cl ticket pfs :
  (forall a b, was_contributory (diffie_hellman a b) = true) -> seeds c <> [] -> length (c_draws cl) = length (seeds c) ->
  length ticket = 16%nat -> exists wire nfs write, client_resume (Server_new c) cl ticket pfs = Some (wire, nfs, write).
Proof.
  intros Hw Hn Hl Ht. unfold client_resume. cbn [srv_config srv_keys Server_new].
  destruct (client_relays_total (mode c) (c_iv cl) None (keys (from_seeds (seeds c))) (c_draws cl)) as [[w nfs] ->];
    [done|apply own_keys|cbn; by destruct (seeds c)|cbn; by rewrite length_fmap|]. cbn [mbind option_bind].
  destruct (client_seal_total (aead_new (c_iv cl) nfs (c_kind cl)) (be_bytes 2 32)) as (s1 & n & ->);
    [by rewrite len_be_bytes|]. cbn [mbind option_bind].
  destruct (client_seal_total s1 ticket) as (s2 & q & ->); [unfold len; lia|]. cbn [mbind option_bind]. eauto.
Qed.
End agreement.

(** ** A handshake alone is a behaviour of the server *)

Lemma run_wsteps `{Aead} `{KeyStream} `{X25519} `{MlKem} `{Blake3} srv p s m out s' m' r w i :
  w_threads w !! i = Some p -> w_tickets w = m -> run p s (w_now w) (Ok tt) m = (m', out, s', Val r) ->
  exists log, rtc (wstep srv) w (mk_world m' (w_now w) (<[i := Done (Val r)]> (w_threads w)) log).
Proof.
  assert (forall w q m1 evs, w_threads w !! i = Some q -> forall q1, pstep i (w_now w) (w_tickets w) q m1 q1 evs ->
    (forall w1, w_threads w1 !! i = Some q1 -> w_tickets w1 = m1 -> w_now w1 = w_now w -> w_threads w1 = <[i := q1]> (w_threads w) ->
      exists log, rtc (wstep srv) w1 (mk_world m' (w_now w1) (<[i := Done (Val r)]> (w_threads w1)) log)) ->
    exists log, rtc (wstep srv) w (mk_world m' (w_now w) (<[i := Done (Val r)]> (w_threads w)) log)) as Hstep.
  { clear. intros w q m1 evs Hq q1 Hs Hnext.
    destruct (Hnext (mk_world m1 (w_now w) (<[i := q1]> (w_threads w)) (evs ++ w_log w))) as [log Hlog]; try done.
    { cbn. apply list_lookup_insert_eq. by eapply lookup_lt_Some. }
    exists log. cbn in Hlog. rewrite list_insert_insert_eq in Hlog. eapply rtc_l; [|exact Hlog]. by eapply wstep_thread. }
  revert s m out s' w. induction p as [x|n k IH|b k IH|k IH|t pfs l k IH|now k IH|t n k IH]; intros s m out s' w Hi Hm Hr; cbn in Hr.
  - injection Hr as <- _ _ ->. exists (w_log w). rewrite list_insert_id by done. subst m. by destruct w.
  - destruct (read_exact _ s) as [[b s1]|] eqn:E; [|done]. apply read_exact_inv in E as (_ & Hl & _).
    eapply Hstep; [exact Hi|by apply (step_read _ _ _ _ _ b)|]. intros w1 Hw1 Ht Hn _. eapply IH; [exact Hw1|exact Ht|]. by rewrite Hn, <- Hm in *.
  - destruct (run k s (w_now w) (Ok tt) m) as [[[m1 o] s1] r1] eqn:E. injection Hr as -> <- -> ->.
    eapply Hstep; [exact Hi|apply step_emit|]. intros w1 Hw1 Ht Hn _. eapply IH; [exact Hw1|exact Ht|]. rewrite Hn, Hm. exact E.
  - eapply Hstep; [exact Hi|apply step_clock|]. intros w1 Hw1 Ht Hn _. eapply IH; [exact Hw1|exact Ht|]. rewrite Hn, Hm. exact Hr.
  - eapply Hstep; [exact Hi|apply step_store|]. intros w1 Hw1 Ht Hn _. eapply IH; [exact Hw1|exact Ht|]. rewrite Hn, Hm. exact Hr.
  - eapply Hstep; [exact Hi|apply step_sweep|]. intros w1 Hw1 Ht Hn _. eapply IH; [exact Hw1|exact Ht|]. rewrite Hn, Hm. exact Hr.
  - destruct (redeem t n m) as [m1 r1] eqn:E. eapply Hstep; [exact Hi|apply step_redeem; rewrite Hm; exact E|].
    intros w1 Hw1 Ht Hn _. eapply IH; [exact Hw1|exact Ht|]. rewrite Hn. exact Hr.
Qed.

(** Two handshakes, one after the other. *)
Lemma two_runs `{Aead} `{KeyStream} `{X25519} `{MlKem} `{Blake3} srv d1 d2 s1 s2 t1 t2 m1 o1 e1 r1 m2 o2 e2 r2 :
  run (handshake srv d1) s1 t1 (Ok tt) ∅ = (m1, o1, e1, Val r1) -> (t1 <=? t2) = true ->
  run (handshake srv d2) s2 t2 (Ok tt) m1 = (m2, o2, e2, Val r2) ->
  exists log, rtc (wstep srv) (world_init t1) (mk_world m2 t2 [Done (Val r1); Done (Val r2)] log).
Proof.
  intros E1 Ht E2. split_bool.
  destruct (run_wsteps srv _ _ _ _ _ _ _ (mk_world ∅ t1 [handshake srv d1] []) 0%nat eq_refl eq_refl E1) as [l1 W1].
  destruct (run_wsteps srv _ _ _ _ _ _ _ (mk_world m1 t2 [Done (Val r1); handshake srv d2] l1) 1%nat eq_refl eq_refl E2) as [l2 W2].
  exists l2. eapply rtc_l; [apply (wstep_accept srv (world_init t1) d1)|]. etrans; [exact W1|].
  eapply rtc_l; [by apply (wstep_time srv _ t2)|]. eapply rtc_l; [apply (wstep_accept srv _ d2)|]. exact W2.
Qed.

(** * Functions for the witnesses *)

(** Public keys whose last byte is zero; a shared secret that is the sum of both sides. *)
Definition toy_dh : X25519 := {|
  x25519_public := fun s => toy_fit 31 s ++ [0];
  diffie_hellman := fun s p => zip_with Z.lxor (toy_fit 31 s ++ [0]) p;
  was_contributory := fun _ => true |}.

(** The ciphertext carries the shared secret. *)
Definition toy_mlkem : MlKem := {|
  mlkem_generate := fun d z => (d, toy_fit 1184 (d ++ z));
  mlkem_encapsulate := fun p r => Some (toy_fit 32 r ++ toy_fit 1056 [], toy_fit 32 r);
  mlkem_decapsulate := fun _ ct => Some (take 32 ct) |}.

Definition toy_blake3 : Blake3 := {| blake3_hash := fun b => toy_fit 32 (as_u8 (len b) :: b) |}.

Lemma toy_fit_length n l : length (toy_fit (Z.of_nat n) l) = n.
Proof. pose proof (toy_fit_len (Z.of_nat n) l ltac:(lia)). unfold len in *. lia. Qed.

Lemma toy_dh_laws : @X25519Laws toy_dh.
Proof.
  split; cbn.
  - intros s. by rewrite length_app, (toy_fit_length 31).
  - intros a b. apply zip_lxor_comm.
Qed.

Lemma toy_dh_canonical : @X25519Canonical toy_dh.
Proof.
  split. cbn. intros s b. rewrite lookup_app_r by (rewrite (toy_fit_length 31); lia). rewrite (toy_fit_length 31).
  cbn. intros [= <-]. lia.
Qed.

Lemma toy_mlkem_laws : @MlKemLaws toy_mlkem.
Proof.
  split; cbn.
  - intros d z. apply (toy_fit_length 1184).
  - eauto.
  - intros p r ct ss [= <- <-]. rewrite length_app, (toy_fit_length 32), (toy_fit_length 1056). done.
  - intros d z r ct ss [= <- <-]. f_equal. apply take_app_len. by rewrite (toy_fit_length 32).
Qed.

Lemma toy_blake3_laws : @Blake3Laws toy_blake3.
Proof. split. intros b. apply (toy_fit_length 32). Qed.

#[local] Existing Instance Record.toy_aead.
#[local] Existing Instance Record.toy_laws.
#[local] Existing Instance Xor.toy_keystream.
#[local] Existing Instance toy_dh.
#[local] Existing Instance toy_dh_laws.
#[local] Existing Instance toy_dh_canonical.
#[local] Existing Instance toy_mlkem.
#[local] Existing Instance toy_mlkem_laws.
#[local] Existing Instance toy_blake3.
#[local] Existing Instance toy_blake3_laws.

Definition toy_draws : draws :=
  mk_draws (replicate 32 1) (replicate 32 2) 77 (replicate 16 3) (replicate 16 4) 5000 (fun i => Z.of_nat i mod 256).

(** An ML-KEM relay before an X25519 server, all masked. *)
Definition toy_server_config : EncryptionConfig :=
  mk_EncryptionConfig Random 300 600 [] [SeedMlKem768 (replicate 64 7); SeedX25519 (replicate 32 9)].

Definition toy_enc_client : client :=
  mk_client (replicate 16 5) [replicate 32 11; replicate 32 12] (replicate 32 13) (replicate 32 14) (replicate 32 15)
    Aes256Gcm (replicate 40 0).

Definition toy_resuming : client :=
  mk_client (replicate 16 6) [replicate 32 21; replicate 32 22] [] [] [] Aes256Gcm [].

Lemma toy_config_wf : config_wf toy_server_config.
Proof.
  split; cbn; [split; lia|split; lia|by repeat constructor| |done].
  repeat constructor; cbn; lia.
Qed.

Definition toy_server : Server := Server_new toy_server_config.

Lemma encryption_handshake_graceful_witness :
  lifetimes_ok (srv_config toy_server) /\
  graceful (run (handshake toy_server toy_draws) (mk_source (replicate 3000 1) AtEof) 7 (Err SendClosed) ∅).2.
Proof.
  split; [split; cbn; lia|]. apply (encryption_handshake_graceful toy_server toy_draws). split; cbn; lia.
Defined.

Lemma toy_starts : exists wire nfs, client_start toy_server toy_enc_client = Some (wire, nfs).
Proof. by apply client_start_total. Qed.

Lemma encryption_handshake_agreement_witness :
  exists wire nfs hello ticket pfs_key l write read r,
    (forall rest e m, run (handshake toy_server toy_draws) (mk_source (wire ++ rest) e) 1000 (Ok tt) m =
      (if l =? 0 then m else store 1000 ticket pfs_key l m, [hello], mk_source rest e, Val r)) /\
    len hello = 1279 /\ be_val (take 2 ticket) = l /\ lifetime_of toy_server_config l /\ length ticket = 16%nat /\
    client_finish toy_enc_client nfs hello = Some (ticket, pfs_key, write, read) /\
    r_decrypt r = write /\ r_encrypt r = read /\ zero_rtt r = false /\
    inbound_xor r = peer <$> (client_xors Random (pfs_key ++ nfs) (c_iv toy_enc_client) ticket).1 /\
    outbound_xor r = peer <$> (client_xors Random (pfs_key ++ nfs) (c_iv toy_enc_client) ticket).2.
Proof.
  destruct toy_starts as (wire & nfs & Hs). exists wire, nfs.
  apply (encryption_handshake_agreement toy_server_config toy_enc_client toy_draws wire nfs 1000).
  - exact toy_config_wf.
  - split; cbn; lia.
  - reflexivity.
  - reflexivity.
  - reflexivity.
  - exact Hs.
  - by left.
  - reflexivity.
Defined.

(** A table with one ticket, unknown keys and an expiry. *)
Definition toy_table : gmap (list Z) TicketSession := {[replicate 16 3 := mk_TicketSession (replicate 64 8) ∅ 1500]}.

Lemma zero_rtt_outcome_witness :
  exists wire nfs r, run (handshake toy_server toy_draws) (mk_source (wire ++ [42]) AtEof) 1001 (Ok tt) toy_table =
    (<[replicate 16 3 := mk_TicketSession (replicate 64 8) ({[nfs]} ∪ ∅) 1500]> (sweep 1001 toy_table),
      [d_random toy_draws], mk_source [42] AtEof, Val r) /\ zero_rtt r = true.
Proof.
  destruct (client_resume_total toy_server_config toy_resuming (replicate 16 3) (replicate 64 8)) as (wire & nfs & write & Hs); try done.
  exists wire, nfs.
  destruct (zero_rtt_outcome toy_server_config toy_resuming toy_draws (replicate 16 3) (replicate 64 8) wire nfs write [42] AtEof 1001 toy_table)
    as (r & Hr & _ & Hz).
  - left. done.
  - reflexivity.
  - reflexivity.
  - exact Hs.
  - by left.
  - exists r. split; [exact Hr|]. by apply (Hz (mk_TicketSession (replicate 64 8) ∅ 1500)).
Defined.

(** A handshake and a resumption of it on one server. *)
Lemma zero_rtt_replay_safe_witness :
  exists w r, rtc (wstep toy_server) (world_init 1000) w /\ w_threads w !! 1%nat = Some (Done (Val r)) /\ zero_rtt r = true /\
    exists t nfs pfs, Granted 1 t nfs pfs ∈ w_log w /\ united_key (r_decrypt r) = pfs ++ nfs.
Proof.
  destruct toy_starts as (wire & nfs & Hs).
  destruct (one_rtt_run toy_server_config toy_enc_client toy_draws wire nfs 1000)
    as (hello & ticket & pfs & l & write & read & r1 & Hrun & _ & _ & Hl & Ht & _);
    [exact toy_config_wf|split; cbn; lia|done|done|done|exact Hs|by left|done|].
  assert (300 <= l) as Hl3 by (apply Hl; done). specialize (Hrun [] AtEof ∅). rewrite (proj2 (Z.eqb_neq l 0)) in Hrun by lia.
  destruct (client_resume_total toy_server_config toy_resuming ticket pfs) as (wire2 & nfs2 & write2 & Hs2); try done.
  destruct (zero_rtt_run toy_server_config toy_resuming toy_draws ticket pfs wire2 nfs2 write2 [] AtEof 1001 (store 1000 ticket pfs l ∅))
    as (r2 & Hrun2 & _ & Hz); [by left|done|done|exact Hs2|by left|].
  assert (sweep 1001 (store 1000 ticket pfs l ∅) !! ticket = Some (mk_TicketSession pfs ∅ (1000 + l))) as Hlook.
  { apply map_lookup_filter_Some. split; [apply lookup_insert_eq|]. cbn. lia. }
  rewrite Hlook in Hrun2. rewrite decide_False in Hrun2 by (cbn; set_solver). destruct (Hz _ Hlook eq_refl) as (_ & _ & Hzero & _).
  destruct (two_runs toy_server _ _ _ _ _ _ _ _ _ _ _ _ _ _ Hrun (eq_refl : (1000 <=? 1001) = true) Hrun2) as [log Hr].
  eexists _, r2. split; [exact Hr|]. split; [reflexivity|]. split; [exact Hzero|].
  exact (proj2 (proj2 (zero_rtt_replay_safe toy_server 1000 _ Hr)) 1%nat _ eq_refl Hzero).
Defined.

(** Lifetimes in the wrong order are accepted by the parser, and then every ticket
    creation panics. *)
Definition toy_reversed : EncryptionConfig := mk_EncryptionConfig Native 600 300 [] [SeedX25519 (replicate 32 9)].

Example reversed_lifetimes_panic :
  config_wf toy_reversed /\ forall d pfs, create_ticket (Server_new toy_reversed) d pfs = Done Crash.
Proof.
  split; [split; cbn; [split; lia|split; lia|by repeat constructor|by repeat constructor; cbn; lia|done]|]. done.
Qed.
