(* ===== verification/Metrics.v ===== *)
(** [src/metrics.rs]: the process metrics and their text output.

    The struct of atomics is a function from its fields; every operation on a field is
    one atomic step.  Gauges are 64-bit signed and counters 64-bit unsigned, and both
    wrap as [fetch_add] does. *)

From S2P Require Import Prelude.

Inductive metric : Type :=
| active_sessions | active_h2_connections | active_h2_streams | pending_packets | pending_bytes | active_target_conns
| upload_bytes | download_bytes | vless_auth_failures | encryption_handshake_failures | ticket_replay_rejections
| target_connect_failures | session_timeouts | request_header_rejections | request_body_rejections | memory_limit_rejections.

#[global] Instance metric_eq_dec : EqDecision metric.
Proof. solve_decision. Defined.

Definition is_gauge (m : metric) : bool :=
  match m with
  | active_sessions | active_h2_connections | active_h2_streams | pending_packets | pending_bytes | active_target_conns => true
  | _ => false
  end.

Definition Metrics : Type := metric -> Z.

Definition Metrics_new : Metrics := fun _ => 0.

Definition set_metric (s : Metrics) (m : metric) (v : Z) : Metrics := fun m' => if decide (m = m') then v else s m'.

(** Two's complement of 64 bits. *)
Definition wrap_i64 (n : Z) : Z := (n + 2 ^ 63) mod 2 ^ 64 - 2 ^ 63.

Definition add_gauge (s : Metrics) (g : metric) (delta : Z) : Metrics := set_metric s g (wrap_i64 (s g + delta)).
Definition add (s : Metrics) (c : metric) (n : Z) : Metrics := set_metric s c (wrap 64 (s c + n)).
Definition inc (s : Metrics) (c : metric) : Metrics := add s c 1.

(** [snapshot] loads the fields one by one. *)
Definition snapshot (s : Metrics) : Metrics := s.

(** The lines, in the order of the source. *)
Definition metric_lines : list (string * metric) :=
  [("active_sessions", active_sessions); ("active_h2_connections", active_h2_connections);
   ("active_h2_streams", active_h2_streams); ("pending_packets", pending_packets); ("pending_bytes", pending_bytes);
   ("active_target_conns", active_target_conns); ("upload_bytes", upload_bytes); ("download_bytes", download_bytes);
   ("vless_auth_failures", vless_auth_failures); ("encryption_handshake_failures", encryption_handshake_failures);
   ("ticket_replay_rejections", ticket_replay_rejections); ("target_connect_failures", target_connect_failures);
   ("session_timeouts", session_timeouts); ("request_header_rejections", request_header_rejections);
   ("request_body_rejections", request_body_rejections); ("memory_limit_rejections", memory_limit_rejections)].

(** [to_string] of a signed number. *)
Definition display (n : Z) : bytes := if n <? 0 then 45 :: decimal (- n) else decimal n.

Definition line (s : Metrics) (l : string * metric) : bytes :=
  bytes_of_string "rxhttp_" ++ bytes_of_string l.1 ++ [32] ++ display (s l.2) ++ [10].

Definition to_prometheus (s : Metrics) : bytes := concat (line s <$> metric_lines).

(** * Reading the exposition format *)

Definition parse_value (v : bytes) : option Z :=
  match v with
  | b :: r => if b =? 45 then Z.opp <$> parse_uint u64_max r else parse_uint u64_max v
  | [] => None
  end.

Definition parse_line (l : bytes) : option (bytes * Z) :=
  '(name, v) ← split_once 32 l; n ← strip_prefix (bytes_of_string "rxhttp_") name; v ← parse_value v; Some (n, v).

(** A scraper: one value per line, the text ends with a newline. *)
Definition scrape (text : bytes) : option (list (bytes * Z)) :=
  l ← mapM parse_line (removelast (split_on 10 text)); Some l.

Definition metrics_ok (s : Metrics) : Prop :=
  forall m, if is_gauge m then - 2 ^ 63 <= s m < 2 ^ 63 else 0 <= s m < 2 ^ 64.

(** * Lemmas *)

Lemma wrap_i64_bound n : - 2 ^ 63 <= wrap_i64 n < 2 ^ 63.
Proof. unfold wrap_i64. pose proof (Z.mod_pos_bound (n + 2 ^ 63) (2 ^ 64) ltac:(lia)). lia. Qed.

Lemma wrap_i64_id n : - 2 ^ 63 <= n < 2 ^ 63 -> wrap_i64 n = n.
Proof. intros Hn. unfold wrap_i64. rewrite Z.mod_small; lia. Qed.

Lemma metrics_ok_set s m v :
  metrics_ok s -> (if is_gauge m then - 2 ^ 63 <= v < 2 ^ 63 else 0 <= v < 2 ^ 64) -> metrics_ok (set_metric s m v).
Proof. intros Hs Hv m'. unfold set_metric. case_decide; [by subst|]. apply Hs. Qed.

Lemma metrics_ok_new : metrics_ok Metrics_new.
Proof. intros m. unfold Metrics_new. destruct (is_gauge m); lia. Qed.

Lemma metrics_ok_gauge s g d : is_gauge g = true -> metrics_ok s -> metrics_ok (add_gauge s g d).
Proof. intros Hg Hs. apply metrics_ok_set; [done|]. rewrite Hg. apply wrap_i64_bound. Qed.

Lemma metrics_ok_add s c n : is_gauge c = false -> metrics_ok s -> metrics_ok (add s c n).
Proof. intros Hc Hs. apply metrics_ok_set; [done|]. rewrite Hc. apply Z.mod_pos_bound. lia. Qed.

#[export] Hint Resolve metrics_ok_new metrics_ok_gauge metrics_ok_add : metrics.

Lemma display_nodelim c n : (c < 45 \/ 57 < c) -> Forall (fun b => b <> c) (display n).
Proof.
  intros Hc. assert (forall m, 0 <= m -> Forall (fun b => b <> c) (decimal m)) as Hd.
  { intros m Hm. eapply list.Forall_impl; [by apply decimal_digits_fuel|]. cbn. lia. }
  unfold display. destruct (n <? 0) eqn:E; split_bool; [constructor; [lia|]|]; apply Hd; lia.
Qed.

Lemma parse_value_display n : - 2 ^ 63 <= n < 2 ^ 64 -> parse_value (display n) = Some n.
Proof.
  intros Hn. unfold display. destruct (n <? 0) eqn:E; split_bool.
  - cbn [parse_value]. rewrite Z.eqb_refl, decimal_parse by (unfold u64_max; lia). cbn. f_equal. lia.
  - pose proof (decimal_parse u64_max n ltac:(unfold u64_max; lia)) as Hp.
    pose proof (decimal_digits_fuel (S (Z.to_nat (Z.log2 n))) n ltac:(lia)) as Hd. unfold decimal in *.
    destruct (decimal_fuel _ n) as [|b l]; [done|]. apply list.Forall_cons in Hd as [Hb _].
    cbn [parse_value]. destruct (b =? 45) eqn:Eb; split_bool; [lia|done].
Qed.

Definition line_body (s : Metrics) (l : string * metric) : bytes :=
  (bytes_of_string "rxhttp_" ++ bytes_of_string l.1) ++ 32 :: display (s l.2).

Lemma line_is_body s l : line s l = line_body s l ++ [10].
Proof. unfold line, line_body. by rewrite <- !app_assoc. Qed.

Lemma split_on_lines c ls :
  Forall (Forall (fun b => b <> c)) ls -> split_on c (concat ((fun l => l ++ [c]) <$> ls)) = ls ++ [[]].
Proof.
  induction 1 as [|l ls Hl _ IH]; [done|]. cbn [fmap list_fmap concat]. rewrite <- app_assoc. cbn [app].
  rewrite split_on_app by done. by rewrite IH.
Qed.

(** No name has a space or a newline. *)
Lemma metric_names :
  Forall (fun l => Forall (fun b => b <> 32 /\ b <> 10) (bytes_of_string "rxhttp_" ++ bytes_of_string l.1)) metric_lines.
Proof.
  apply Forall_forall. intros l Hl. apply Forall_forall. intros b Hb.
  assert (forallb (fun l => forallb (fun b => negb (b =? 32) && negb (b =? 10)) (bytes_of_string "rxhttp_" ++ bytes_of_string l.1))
    metric_lines = true) as Hall by reflexivity.
  rewrite forallb_forall in Hall. specialize (Hall l Hl).
  rewrite forallb_forall in Hall. specialize (Hall b Hb). split_bool. done.
Qed.

Lemma parse_line_body s l :
  metrics_ok s -> Forall (fun b => b <> 32 /\ b <> 10) (bytes_of_string "rxhttp_" ++ bytes_of_string l.1) ->
  parse_line (line_body s l) = Some (bytes_of_string l.1, s l.2).
Proof.
  intros Hs Hn. unfold parse_line, line_body. rewrite split_once_app.
  2: { eapply list.Forall_impl; [exact Hn|]. by intros ? []. }
  cbn [mbind option_bind]. rewrite strip_prefix_app. cbn [mbind option_bind]. rewrite parse_value_display; [done|].
  specialize (Hs l.2). destruct (is_gauge l.2); lia.
Qed.

(** The text of the metrics is a faithful encoding of them: a scraper of the
    exposition format reads back every field, under its name and in the order of the
    source, with its exact value, negative gauges included. *)
Theorem prometheus_roundtrip s :
  metrics_ok s -> scrape (to_prometheus (snapshot s)) = Some ((fun l => (bytes_of_string l.1, s l.2)) <$> metric_lines).
Proof.
  intros Hs. unfold scrape, to_prometheus, snapshot. pose proof metric_names as Hnames.
  assert (line s <$> metric_lines = (fun l => l ++ [10]) <$> (line_body s <$> metric_lines)) as ->.
  { rewrite <- list_fmap_compose. apply list_fmap_ext. intros i l _. apply line_is_body. }
  rewrite split_on_lines, removelast_last.
  - revert Hnames. generalize metric_lines. intros ls Hls. induction Hls as [|l ls Hl _ IH]; [done|].
    cbn [fmap list_fmap mapM]. rewrite parse_line_body by done. cbn [mbind option_bind].
    destruct (mapM parse_line (line_body s <$> ls)) as [r|]; [|done]. cbn [mbind option_bind mret option_ret] in *.
    injection IH as ->. done.
  - apply Forall_fmap. eapply list.Forall_impl; [exact Hnames|]. intros l Hl. unfold compose, line_body.
    apply Forall_app. split; [eapply list.Forall_impl; [exact Hl|]; by intros ? []|].
    constructor; [done|]. apply display_nodelim. lia.
Qed.

Lemma prometheus_roundtrip_witness :
  metrics_ok (add_gauge Metrics_new active_target_conns (-1)) /\
  scrape (to_prometheus (snapshot (add_gauge Metrics_new active_target_conns (-1)))) =
    Some ((fun l => (bytes_of_string l.1, add_gauge Metrics_new active_target_conns (-1) l.2)) <$> metric_lines).
Proof.
  split; [by auto with metrics|]. apply prometheus_roundtrip. by auto with metrics.
Defined.
