(* ===== verification/Dispatch.v ===== *)
(** [src/dispatcher.rs]: from an accepted session to its target.

    A session runs in a state monad over what the rest of the process sees of it: the
    protocol writer and the downlink it feeds, the metrics, the ticket table, and the
    log of what was done towards targets.  Sockets, the resolver and the clock are the
    answers of an environment; the loops that wait for several things at once consume
    the list of what happened, in the order in which it happened. *)

From S2P Require Import Prelude Address Addons Header Xudp Vision Kdf Record Xor Stream TlsKeys EncKeys EncHandshake Metrics.

(** * Errors *)

Inductive DispatchError : Type :=
| DHeader (e : header_error)
| DXudp (e : xudp_error)
| DVision (e : vision_error)
| EncryptionHandshake (e : HandshakeError)
| EncryptionRecord (e : record_error)
| EncryptionXor (e : record_error)
| DIo (k : io_kind)
| FlowMismatch
| VisionUdpUnsupported
| VisionXudpUnavailable
| UnsupportedCommand (c : command)
| MissingAddress
| ConnectTimeout
| HandshakeTimeout
| UdpIdle
| AssociationClosed
| UnknownAssociation (n : Z)
| UnsupportedXudpStatus (s : Z)
| DownloadClosed
| ShuttingDown.

(** * The state of a session *)

(** The downlink channel: what went in, and how many more chunks it takes before the
    download is gone. *)
Record sink := mk_sink { delivered : list bytes; sends_left : option nat }.

(** [DownlinkSink::send]: an empty chunk is not sent. *)
Definition sink_send (s : sink) (b : bytes) : sink * result DispatchError unit :=
  match b with
  | [] => (s, Ok tt)
  | _ =>
      match sends_left s with
      | Some O => (s, Err DownloadClosed)
      | Some (S n) => (mk_sink (delivered s ++ [b]) (Some n), Ok tt)
      | None => (mk_sink (delivered s ++ [b]) None, Ok tt)
      end
  end.

Inductive ProtocolWriter : Type :=
| WPlain
| WEncrypted (cipher : aead_state) (x : option header_xor).

Record socket_address := mk_socket_address { so_ip : bytes; so_port : Z }.

Definition is_ipv6 (a : socket_address) : bool := bool_decide (length (so_ip a) = 16%nat).

(** What a session does towards the outside; associations are numbered. *)
Inductive action : Type :=
| AConnect (a : address) (port : Z)
| ABind (v6 : bool)
| AConnectUdp (a : socket_address)
| AWrite (b : bytes)
| AShutdown
| ASendUdp (b : bytes)
| ASendTo (b : bytes) (a : socket_address)
| AAssociate (n : nat) (sid : Z) (t : target)
| AMessage (n : nat) (t : target) (b : bytes).

Record dstate := mk_dstate {
  d_writer : ProtocolWriter; d_sink : sink; d_metrics : Metrics; d_tickets : gmap (list Z) TicketSession; d_log : list action }.

Definition set_writer (st : dstate) (w : ProtocolWriter) (s : sink) : dstate :=
  mk_dstate w s (d_metrics st) (d_tickets st) (d_log st).
Definition set_metrics (st : dstate) (m : Metrics) : dstate :=
  mk_dstate (d_writer st) (d_sink st) m (d_tickets st) (d_log st).
Definition set_tickets (st : dstate) (t : gmap (list Z) TicketSession) (s : sink) : dstate :=
  mk_dstate (d_writer st) s (d_metrics st) t (d_log st).
Definition log_action (st : dstate) (a : action) : dstate :=
  mk_dstate (d_writer st) (d_sink st) (d_metrics st) (d_tickets st) (d_log st ++ [a]).

(** [Diverge] is a session that has not ended when the list of events has. *)
Definition dm (A : Type) : Type := dstate -> dstate * comp DispatchError A.

#[global] Instance dm_ret : MRet dm := fun A a st => (st, Val a).
#[global] Instance dm_bind : MBind dm := fun A B f m st =>
  match m st with
  | (st', Val a) => f a st'
  | (st', Fail e) => (st', Fail e)
  | (st', Crash) => (st', Crash)
  | (st', Diverge) => (st', Diverge)
  end.

Lemma dm_bind_eq {A B} (f : A -> dm B) (m : dm A) st :
  mbind f m st = match m st with
                 | (st', Val a) => f a st'
                 | (st', Fail e) => (st', Fail e)
                 | (st', Crash) => (st', Crash)
                 | (st', Diverge) => (st', Diverge)
                 end.
Proof. done. Qed.

Definition pure {A} (m : comp DispatchError A) : dm A := fun st => (st, m).
Definition fail {A} (e : DispatchError) : dm A := pure (Fail e).
Definition act (a : action) : dm unit := fun st => (log_action st a, Val tt).
Definition count (c : metric) : dm unit := fun st => (set_metrics st (inc (d_metrics st) c), Val tt).
Definition count_bytes (c : metric) (n : Z) : dm unit := fun st => (set_metrics st (add (d_metrics st) c n), Val tt).
Definition gauge (g : metric) (delta : Z) : dm unit := fun st => (set_metrics st (add_gauge (d_metrics st) g delta), Val tt).

(** [if let Err(e) = r] of an input or output operation. *)
Definition io {A} (r : result io_kind A) : dm A := pure (lift DIo r).

(** * Environment *)

(** One round of the TCP pump: the client side reads at most [n] bytes and the write to
    the target succeeds or not; or the target delivers bytes (none at its end). *)
Inductive pump_event : Type :=
| EvUp (n : nat) (write : result io_kind unit)
| EvDown (r : result io_kind bytes) (pad : nat -> Z).

(** One event of the plain UDP loop. *)
Inductive udp_event : Type :=
| UvRead (n : nat) (send : result io_kind unit)
| UvSocket (r : result io_kind bytes)
| UvIdle.

(** One event of an XUDP association. *)
Inductive association_event : Type :=
| AvMessage (m : option (target * bytes)) (send : result io_kind unit)
| AvSocket (r : result io_kind (bytes * socket_address))
| AvIdle.

(** For a frame: a permit, the socket of a new association, and whether the task of the
    association still receives. *)
Record xudp_answer := mk_xudp_answer { x_permit : bool; x_bind : result io_kind unit; x_alive : bool }.

Record env := mk_env {
  e_draws : draws;
  e_now : Z;
  e_stalled : bool;                            (* the client sends no more, but does not close *)
  e_permit : bool;
  e_connect : address -> Z -> option (result io_kind unit);    (* [None]: timed out *)
  e_lookup : bytes -> Z -> result io_kind (list socket_address);
  e_resolve_timeout : bool;
  e_bind : result io_kind unit;
  e_udp_connect : result io_kind unit;
  e_tcp : list pump_event;
  e_udp : list udp_event;
  e_xudp : nat -> xudp_answer }.

(** A read that ran out of bytes while the client is silent ends in a timeout; bytes
    that are wrong do not. *)
Definition stalls (e : env) (k : io_kind) : bool := e_stalled e && negb (bool_decide (k = InvalidData)).

Section dispatcher.
Context `{Aead} `{KeyStream} `{X25519} `{MlKem} `{Blake3}.

Record Dispatcher := mk_Dispatcher { dp_validator : gmap (list Z) user; dp_encryption : option Server }.

(** * The protocol writer *)

(** The loop over the chunks of one call, with the lock held. *)
Fixpoint send_chunks (cs : list bytes) (cipher : aead_state) (x : option header_xor) (s : sink) :
    aead_state * option header_xor * sink * comp DispatchError unit :=
  match cs with
  | [] => (cipher, x, s, Val tt)
  | c :: cs' =>
      match seal cipher c with
      | (cipher, Err e) => (cipher, x, s, Fail (EncryptionRecord e))
      | (cipher, Ok record) =>
          match (match x with
                 | None => Some (None, record, Ok tt)
                 | Some x => '(x, r, o) ← apply x record; Some (Some x, r, o)
                 end) with
          | None => (cipher, x, s, Diverge)
          | Some (x, _, Err e) => (cipher, x, s, Fail (EncryptionXor e))
          | Some (x, record, Ok _) =>
              match sink_send s record with
              | (s, Err e) => (cipher, x, s, Fail e)
              | (s, Ok _) => send_chunks cs' cipher x s
              end
          end
      end
  end.

(** [ProtocolWriter::send]. *)
Definition writer_send (w : ProtocolWriter) (s : sink) (b : bytes) : ProtocolWriter * sink * comp DispatchError unit :=
  match w with
  | WPlain => let '(s, r) := sink_send s b in (WPlain, s, lift id r)
  | WEncrypted cipher x =>
      let '(cipher, x, s, r) := send_chunks (chunks (Z.to_nat 8192) b) cipher x s in (WEncrypted cipher x, s, r)
  end.

Definition send (b : bytes) : dm unit := fun st =>
  let '(w, s, r) := writer_send (d_writer st) (d_sink st) b in (set_writer st w s, r).

Fixpoint send_all (bs : list bytes) : dm unit :=
  match bs with
  | [] => mret tt
  | b :: bs' => _ ← send b; send_all bs'
  end.

(** * Readers *)

(** What an [EncryptedReader] over a source gives out, and how it ends. *)
Definition as_frags (b : bytes) : list (option bytes) := match b with [] => [] | _ => [Some b] end.

Definition drained (r : option (bytes * option io_kind)) : comp DispatchError source :=
  match r with
  | None => Diverge
  | Some (b, None) => Val (mk_source b AtEof)
  | Some (b, Some k) => Val (mk_source b (AtError k))
  end.

Definition decrypted (cipher : aead_state) (x : option header_xor) (s : source) : comp DispatchError source :=
  drained (Stream.drain (length (content s) + 3) (enc_reader_new (as_frags (content s)) (at_end s) cipher x) (Z.to_nat 32768)).

(** The same for a [VisionReader]. *)
Definition unpadded (u : bytes) (s : source) : comp DispatchError source :=
  drained (Vision.drain (length (content s) + 3) (reader_new (as_frags (content s)) (at_end s) u) (Z.to_nat 32768)).

(** * Copying *)

(** The reads go to a buffer of 32 KiB. *)
Definition chunk_of (n : nat) : nat := Nat.max 1 (Nat.min n (Z.to_nat 32768)).

(** [copy_upload]: one round; [None] at the end of the upload. *)
Definition copy_upload (n : nat) (write : result io_kind unit) (s : source) : dm (option source) :=
  match content s with
  | [] =>
      match at_end s with
      | AtEof => _ ← io write; _ ← act AShutdown; mret None
      | AtError k => fail (DIo k)
      end
  | _ =>
      _ ← io write; _ ← act (AWrite (take (chunk_of n) (content s)));
      mret (Some (mk_source (drop (chunk_of n) (content s)) (at_end s)))
  end.

(** [copy_download] for bytes that were read. *)
Definition copy_download (b : bytes) (pad : nat -> Z) (vision : option writer) : dm (option writer) :=
  _ ← count_bytes download_bytes (len b);
  match vision with
  | Some w =>
      '(w, frames) ← pure (lift DVision (Vision.encode w pad b));
      _ ← send_all frames; mret (Some w)
  | None => _ ← send b; mret None
  end.

(** [pump_tcp]: [up] is [None] when the upload has ended. *)
Fixpoint pump_tcp (evs : list pump_event) (up : option source) (vision : option writer) : dm unit :=
  match evs with
  | [] => pure Diverge
  | EvUp n w :: evs' =>
      match up with
      | None => pump_tcp evs' None vision
      | Some s => up ← copy_upload n w s; pump_tcp evs' up vision
      end
  | EvDown (Err k) _ :: _ => fail (DIo k)
  | EvDown (Ok b) pad :: evs' =>
      match b with
      | [] => mret tt
      | _ => vision ← copy_download b pad vision; pump_tcp evs' up vision
      end
  end.

(** The gauge around the use of a target; a task that panics does not come back. *)
Definition with_target (m : dm unit) : dm unit := fun st =>
  let '(st1, r) := m (set_metrics st (add_gauge (d_metrics st) active_target_conns 1)) in
  match r with
  | Val _ | Fail _ => (set_metrics st1 (add_gauge (d_metrics st1) active_target_conns (-1)), r)
  | _ => (st1, r)
  end.

Definition acquire (permit : bool) : dm unit := if permit then mret tt else fail ShuttingDown.

Definition serve_tcp (e : env) (reader : source) (a : address) (port : Z) (vision_uuid : option bytes) : dm unit :=
  _ ← acquire (e_permit e);
  _ ← act (AConnect a port);
  _ ← match e_connect e a port with
      | Some (Ok _) => mret tt
      | Some (Err k) => _ ← count target_connect_failures; fail (DIo k)
      | None => _ ← count target_connect_failures; fail ConnectTimeout
      end;
  with_target
    match vision_uuid with
    | Some u => reader ← pure (unpadded u reader); pump_tcp (e_tcp e) (Some reader) (Some (writer_new u))
    | None => pump_tcp (e_tcp e) (Some reader) None
    end.

(** * UDP *)

Definition resolve_address (e : env) (a : address) (port : Z) : comp DispatchError socket_address :=
  match a with
  | Ipv4 ip | Ipv6 ip => Val (mk_socket_address ip port)
  | Domain d =>
      l ← lift DIo (e_lookup e d port);
      match l with x :: _ => Val x | [] => Fail MissingAddress end
  end.

Definition resolve_target (e : env) (t : target) : comp DispatchError socket_address := resolve_address e (t_address t) (t_port t).

Definition socket_target (a : socket_address) : target :=
  mk_target (if is_ipv6 a then Ipv6 (so_ip a) else Ipv4 (so_ip a)) (so_port a).

(** What the pending [read_plain_datagram] still needs, when it has read [partial]. *)
Definition udp_needs (partial : bytes) : Z :=
  if len partial <? 2 then 2 - len partial else 2 + be_val (take 2 partial) - len partial.

(** A poll of it takes no more than it needs. *)
Definition udp_read (n : nat) (s : source) (partial : bytes) : source * bytes :=
  let k := Nat.min (Nat.max 1 n) (Z.to_nat (udp_needs partial)) in
  (mk_source (drop k (content s)) (at_end s), partial ++ take k (content s)).

(** The length and the payload have been read. *)
Definition udp_complete (partial : bytes) : bool := (2 <=? len partial) && (udp_needs partial =? 0).

(** The loop of [serve_udp].  When the socket is ready first, [select!] drops the pending
    read together with the bytes it has taken from the reader. *)
Fixpoint udp_loop (evs : list udp_event) (s : source) (partial : bytes) : dm unit :=
  match evs with
  | [] => pure Diverge
  | UvRead n w :: evs' =>
      match content s with
      | [] => fail (DXudp (XIo match at_end s with AtEof => UnexpectedEof | AtError k => k end))
      | _ =>
          let '(s, partial) := udp_read n s partial in
          if udp_complete partial then
            _ ← io w; _ ← act (ASendUdp (drop 2 partial)); udp_loop evs' s []
          else udp_loop evs' s partial
      end
  | UvSocket (Err k) :: _ => fail (DIo k)
  | UvSocket (Ok d) :: evs' =>
      _ ← count_bytes download_bytes (len d);
      b ← pure (lift DXudp (encode_plain_datagram d));
      _ ← send b; udp_loop evs' s []
  | UvIdle :: _ => fail UdpIdle
  end.

Definition serve_udp (e : env) (reader : source) (a : address) (port : Z) : dm unit :=
  _ ← acquire (e_permit e);
  _ ← (if e_resolve_timeout e then fail ConnectTimeout else mret tt);
  t ← pure (resolve_address e a port);
  _ ← act (ABind (is_ipv6 t)); _ ← io (e_bind e);
  _ ← act (AConnectUdp t); _ ← io (e_udp_connect e);
  with_target (udp_loop (e_udp e) reader []).

(** * XUDP *)

(** [spawn_association], up to the task it starts. *)
Definition spawn_association (e : env) (n : nat) (sid : Z) (t : target) (bind : result io_kind unit) : dm unit :=
  a ← pure (resolve_target e t);
  _ ← act (ABind (is_ipv6 a)); _ ← io bind;
  act (AAssociate n sid t).

(** The task of an association. *)
Fixpoint association_loop (e : env) (sid : Z) (evs : list association_event) : dm unit :=
  match evs with
  | [] => pure Diverge
  | AvMessage None _ :: _ => fail AssociationClosed
  | AvMessage (Some (t, b)) w :: evs' =>
      a ← pure (resolve_target e t);
      _ ← io w; _ ← act (ASendTo b a); association_loop e sid evs'
  | AvSocket (Err k) :: _ => fail (DIo k)
  | AvSocket (Ok (d, from)) :: evs' =>
      _ ← count_bytes download_bytes (len d);
      b ← pure (lift DXudp (Xudp.encode_frame (mk_frame sid STATUS_KEEP OPTION_DATA (Some (socket_target from)) None d)));
      _ ← send b; association_loop e sid evs'
  | AvIdle :: _ => fail UdpIdle
  end.

Definition association_task (e : env) (sid : Z) (evs : list association_event) : dm unit :=
  with_target (association_loop e sid evs).

Definition send_message (alive : bool) (n : nat) (t : target) (b : bytes) : dm unit :=
  if alive then act (AMessage n t b) else fail AssociationClosed.

(** One frame: the new table of associations and the number of the next one. *)
Definition xudp_frame (e : env) (ans : xudp_answer) (f : frame) (assoc : gmap Z nat) (next : nat) : dm (gmap Z nat * nat) :=
  if status f =? STATUS_NEW then
    t ← pure (lift id (ok_or (f_target f) MissingAddress));
    _ ← acquire (x_permit ans);
    _ ← spawn_association e next (session_id f) t (x_bind ans);
    _ ← (if has_data (option_bits f) then send_message (x_alive ans) next t (payload f) else mret tt);
    mret (<[session_id f := next]> assoc, S next)
  else if status f =? STATUS_KEEP then
    if negb (has_data (option_bits f)) then mret (assoc, next)
    else
      n ← pure (lift id (ok_or (assoc !! session_id f) (UnknownAssociation (session_id f))));
      t ← pure (lift id (ok_or (f_target f) MissingAddress));
      _ ← send_message (x_alive ans) n t (payload f);
      mret (assoc, next)
  else if status f =? STATUS_END then mret (delete (session_id f) assoc, next)
  else if status f =? STATUS_KEEP_ALIVE then mret (assoc, next)
  else fail (UnsupportedXudpStatus (status f)).

(** The loop of [serve_xudp]; every frame takes bytes from the reader. *)
Fixpoint xudp_loop (fuel : nat) (e : env) (i : nat) (s : source) (assoc : gmap Z nat) (next : nat) : dm unit :=
  match fuel with
  | O => pure Diverge
  | S fuel' =>
      '(f, s) ← pure match read_frame s with
                     | Val x => Val x
                     | Fail (XIo k) => Fail (if stalls e k then UdpIdle else DXudp (XIo k))
                     | Fail x => Fail (DXudp x)
                     | Crash => Crash
                     | Diverge => Diverge
                     end;
      '(assoc, next) ← xudp_frame e (e_xudp e i) f assoc next;
      xudp_loop fuel' e (S i) s assoc next
  end.

Definition serve_xudp (e : env) (reader : source) : dm unit :=
  xudp_loop (S (length (content reader))) e 0 reader ∅ 0.

(** * A session *)

(** The encryption handshake, and the reader and writer it gives.  Its only send is
    refused when the download is gone. *)
Definition encryption_handshake (D : Dispatcher) (e : env) (s : source) : dm source :=
  match dp_encryption D with
  | None => mret s
  | Some server => fun st =>
      let sent := match sends_left (d_sink st) with Some O => Err SendClosed | _ => Ok tt end in
      let '(m, out, rest, r) := run (handshake server (e_draws e)) s (e_now e) sent (d_tickets st) in
      let st := set_tickets st m (fold_left (fun s b => (sink_send s b).1) out (d_sink st)) in
      match r with
      | Val h => (set_writer st (WEncrypted (r_encrypt h) (outbound_xor h)) (d_sink st), decrypted (r_decrypt h) (inbound_xor h) rest)
      | Fail x =>
          (set_metrics st (inc (d_metrics st) encryption_handshake_failures),
           Fail match x with
                | HIo k => if e_stalled e then HandshakeTimeout else EncryptionHandshake (HIo k)
                | _ => EncryptionHandshake x
                end)
      | Crash => (st, Crash)
      | Diverge => (st, Diverge)
      end
  end.

Definition request_header_of (D : Dispatcher) (e : env) (s : source) : dm (user * request_header * addons * source) :=
  match decode_request_header s (dp_validator D) with
  | Val x => mret x
  | Fail x =>
      _ ← count vless_auth_failures;
      fail match x with
           | Io k => if stalls e k then HandshakeTimeout else DHeader (Io k)
           | _ => DHeader x
           end
  | Crash => pure Crash
  | Diverge => pure Diverge
  end.

Definition flow_ok (u : user) (a : addons) : bool :=
  bytes_eqb (flow a) (user_flow u) && (bytes_eqb (flow a) [] || bytes_eqb (flow a) XRV).

(** After the header: the response, and the command. *)
Definition serve_request (e : env) (h : request_header) (vision_uuid : option bytes) (reader : source) : dm unit :=
  response ← pure (lift DHeader (encode_response_header (version h) addons_default));
  _ ← send response;
  match cmd h with
  | Tcp =>
      a ← pure (lift id (ok_or (req_address h) MissingAddress));
      serve_tcp e reader a (port h) vision_uuid
  | Udp =>
      match vision_uuid with
      | Some _ => fail VisionUdpUnsupported
      | None =>
          a ← pure (lift id (ok_or (req_address h) MissingAddress));
          serve_udp e reader a (port h)
      end
  | Mux => match vision_uuid with None => serve_xudp e reader | Some _ => fail VisionXudpUnavailable end
  | Reverse => fail (UnsupportedCommand Reverse)
  end.

Definition serve (D : Dispatcher) (e : env) (s : source) : dm unit :=
  reader ← encryption_handshake D e s;
  '(u, h, a, reader) ← request_header_of D e reader;
  if negb (flow_ok u a) then fail FlowMismatch
  else serve_request e h (if bytes_eqb (flow a) XRV then Some (raw_id h) else None) reader.
End dispatcher.

(** * The downlink *)

(** A mask at the start of a record. *)
Definition mask_ok (x : option header_xor) : Prop :=
  match x with None => True | Some x => decrypt x = false /\ skip x = 0 /\ header x = [] end.

Definition writer_ok (w : ProtocolWriter) : Prop := match w with WPlain => True | WEncrypted _ x => mask_ok x end.

(** The client's end: the bytes of the channel as they are, or through a reader that
    starts in the state the writer started in. *)
Definition client_reads (w : ProtocolWriter) (frags : list (option bytes)) (fuel : nat) (room : nat) `{Aead} `{KeyStream} :
    option (bytes * option io_kind) :=
  match w with
  | WPlain => Some (wire_of frags, None)
  | WEncrypted cipher x => Stream.drain fuel (enc_reader_new frags AtEof cipher (peer <$> x)) room
  end.

Section downlink.
Context `{Aead} `{KeyStream} `{!AeadLaws}.

(** What [n] records look like after the mask. *)
Definition masked_as (x : option header_xor) (plain sent : bytes) (x' : option header_xor) : Prop :=
  match x, x' with
  | None, None => sent = plain
  | Some x, Some x' => byte_fold x plain = (x', sent, Ok tt)
  | _, _ => False
  end.

Lemma masked_as_app x a a' x1 b b' x2 :
  masked_as x a a' x1 -> masked_as x1 b b' x2 -> masked_as x (a ++ b) (a' ++ b') x2.
Proof.
  destruct x as [x|], x1 as [x1|], x2 as [x2|]; cbn; try done; [|by intros -> ->].
  intros Ha Hb. rewrite byte_fold_app, Ha, Hb. done.
Qed.

(** Masking a sealed record. *)
Lemma mask_record x c p c' r :
  mask_ok x -> seal c p = (c', Ok r) ->
  exists x' r', (match x with None => Some (None, r, Ok tt) | Some x => '(x, r, o) ← apply x r; Some (Some x, r, o) end)
      = Some (x', r', Ok tt) /\ masked_as x r r' x' /\ mask_ok x' /\ r' <> [].
Proof.
  intros Hx Hs. destruct (seal_shape _ _ _ _ Hs) as [Hd Hl].
  destruct x as [x|].
  - destruct Hx as (Hdec & Hskip & Hh). rewrite apply_is_fold by (split; [lia|rewrite Hh; cbn; lia]).
    assert (record_ok (take 5 r, drop 5 r)) as Hr.
    { split; cbn; [rewrite length_take; unfold len in Hl; lia|]. rewrite Hd. f_equal. unfold len in *. rewrite length_drop. lia. }
    pose proof (byte_fold_records x [(take 5 r, drop 5 r)] Hdec Hskip Hh ltac:(by constructor)) as Hf.
    cbn [map concat fst snd] in Hf. rewrite app_nil_r, take_drop in Hf. rewrite Hf. cbn [mbind option_bind].
    eexists (Some _), _. split; [reflexivity|]. split; [exact Hf|]. split; [done|].
    cbn [masked fst snd]. intros Hz. apply app_eq_nil in Hz as [Hz _].
    assert (length (take 5 r) = 0%nat) as Hz0 by (rewrite <- (apply_keystream_length (x_key x) (x_iv x) (pos x)), Hz; done).
    rewrite length_take in Hz0. unfold len in Hl. lia.
  - exists None, r. split; [done|]. split; [done|]. split; [done|]. intros ->. unfold len in Hl. cbn in Hl. lia.
Qed.

Lemma send_chunks_ok cs c x d :
  Forall (fun p => 0 < len p <= 8192) cs -> mask_ok x ->
  exists c' x' rs outs, send_chunks cs c x (mk_sink d None) = (c', x', mk_sink (d ++ outs) None, Val tt) /\
    seal_all c cs = (c', Ok rs) /\ masked_as x (concat rs) (concat outs) x' /\ mask_ok x'.
Proof.
  intros Hcs. revert c x d. induction Hcs as [|p cs Hp _ IH]; intros c x d Hx.
  - exists c, x, [], []. cbn. rewrite app_nil_r. split; [done|]. split; [done|]. split; [|done]. by destruct x.
  - destruct (seal_succeeds c p Hp) as (c1 & r & Hs). cbn [send_chunks seal_all]. rewrite Hs.
    destruct (mask_record _ _ _ _ _ Hx Hs) as (x1 & r' & -> & Hm & Hx1 & Hne).
    unfold sink_send. cbn [delivered sends_left]. destruct r' as [|b0 r']; [done|].
    destruct (IH c1 x1 (d ++ [b0 :: r']) Hx1) as (c2 & x2 & rs & outs & -> & Ha & Hm2 & Hx2).
    exists c2, x2, (r :: rs), ((b0 :: r') :: outs). rewrite Ha, <- app_assoc. split; [done|]. split; [done|]. split; [|done].
    cbn [concat]. by eapply masked_as_app.
Qed.

Lemma chunks_sizes b : Forall (fun p => 0 < len p <= 8192) (chunks (Z.to_nat 8192) b).
Proof.
  eapply list.Forall_impl; [apply (chunks_bounds (Z.to_nat 8192) b); lia|]. unfold len. intros p Hp. cbn in Hp. lia.
Qed.

(** [sent] carries [plain] from a writer in state [w], which it leaves in state [w']. *)
Definition carries (w : ProtocolWriter) (plain sent : bytes) (w' : ProtocolWriter) : Prop :=
  match w, w' with
  | WPlain, WPlain => sent = plain
  | WEncrypted c x, WEncrypted c' x' => exists ps rs, seal_all c ps = (c', Ok rs) /\ concat ps = plain /\
      Forall (fun p => 0 < len p <= 8192) ps /\ masked_as x (concat rs) sent x'
  | _, _ => False
  end.

Lemma seal_all_app c ps c1 rs qs c2 rs2 :
  seal_all c ps = (c1, Ok rs) -> seal_all c1 qs = (c2, Ok rs2) -> seal_all c (ps ++ qs) = (c2, Ok (rs ++ rs2)).
Proof.
  revert c rs. induction ps as [|p ps IH]; intros c rs; cbn; [by intros [= <- <-]|].
  destruct (seal c p) as [c3 [r|]]; [|done]. destruct (seal_all c3 ps) as [c4 [rs'|]] eqn:E; [|done].
  intros [= -> <-] Hq. by rewrite (IH _ _ E Hq).
Qed.

Lemma carries_refl w : carries w [] [] w.
Proof. destruct w as [|c x]; [done|]. exists [], []. repeat split; [constructor|]. by destruct x. Qed.

Lemma carries_app w a a' w1 b b' w2 : carries w a a' w1 -> carries w1 b b' w2 -> carries w (a ++ b) (a' ++ b') w2.
Proof.
  destruct w as [|c x], w1 as [|c1 x1], w2 as [|c2 x2]; cbn; try done; [by intros -> ->|].
  intros (ps & rs & Hs & <- & Hps & Hm) (qs & rs2 & Hs2 & <- & Hqs & Hm2). exists (ps ++ qs), (rs ++ rs2).
  split; [by eapply seal_all_app|]. rewrite !concat_app. split; [done|]. split; [by apply Forall_app|]. by eapply masked_as_app.
Qed.

Lemma writer_send_ok w d b :
  writer_ok w -> exists w' outs, writer_send w (mk_sink d None) b = (w', mk_sink (d ++ outs) None, Val tt) /\
    writer_ok w' /\ carries w b (concat outs) w'.
Proof.
  destruct w as [|c x]; intros Hw; cbn [writer_send].
  - exists WPlain, (match b with [] => [] | _ => [b] end). unfold sink_send. cbn [sends_left delivered].
    destruct b; cbn; rewrite ?app_nil_r; done.
  - destruct (send_chunks_ok (chunks (Z.to_nat 8192) b) c x d (chunks_sizes b) Hw) as (c' & x' & rs & outs & -> & Hs & Hm & Hx).
    exists (WEncrypted c' x'), outs. split; [done|]. split; [done|]. exists (chunks (Z.to_nat 8192) b), rs.
    split; [done|]. split; [apply chunks_concat; lia|]. split; [apply chunks_sizes|done].
Qed.

(** The client reads what was carried. *)
Lemma client_reads_carried w plain sent w' frags fuel room :
  writer_ok w -> carries w plain sent w' -> inner_ok frags -> wire_of frags = sent -> (0 < room)%nat ->
  (length plain + length frags < fuel)%nat -> client_reads w frags fuel room = Some (plain, None).
Proof.
  intros Hw Hc Hok Hwire Hroom Hfuel. destruct w as [|c x], w' as [|c' x']; try done; cbn [client_reads].
  { cbn in Hc. congruence. }
  destruct Hc as (ps & rs & Hs & <- & Hps & Hm).
  rewrite (enc_drain_ok _ _ (concat ps) []); [done| |done|done|cbn [inner_left enc_reader_new]; lia].
  destruct (seal_succeeds c' [0]) as (s2 & r2 & Hs2); [unfold len; cbn [length]; lia|]. destruct (seal_shape _ _ _ _ Hs2) as [_ Hl2].
  split; cbn [inner_left e_cipher e_xor encrypted plaintext expected enc_reader_new]; [done| |done].
  exists ps, rs, c', (concat rs). split; [done|]. split.
  { eapply list.Forall_impl; [exact Hps|]. intros p Hp ->. by destruct Hp. }
  split; [exists [0], s2, r2, 0%nat; split; [done|]; split; [done|unfold len in Hl2; lia]|].
  split; [|by rewrite app_nil_r]. rewrite Hwire. destruct x as [x|], x' as [x'|]; cbn in Hm |- *; try done.
  destruct Hw as (Hd & Hsk & Hh). split; [split; cbn; [lia|rewrite Hh; cbn; lia]|]. exists (peer x').
  by apply byte_fold_peer.
Qed.

(** ** The TCP pump *)

(** The bytes of the target up to its end, and the bytes written to it. *)
Fixpoint downs (evs : list pump_event) : bytes :=
  match evs with
  | EvDown (Ok (b0 :: b)) _ :: evs' => (b0 :: b) ++ downs evs'
  | EvDown _ _ :: _ => []
  | EvUp _ _ :: evs' => downs evs'
  | [] => []
  end.

Definition written (a : action) : bytes := match a with AWrite b => b | _ => [] end.

(** What a pump without Vision has done to a session with an open downlink: it sent the
    target's bytes, and wrote a part of the client's bytes to the target, all of them
    before shutting it down. *)
Record pumped (st st' : dstate) (up : option source) (down : bytes) (acts : list action) : Prop := {
  pu_log : d_log st' = d_log st ++ acts;
  pu_sent : exists outs, d_sink st' = mk_sink (delivered (d_sink st) ++ outs) None /\
    carries (d_writer st) down (concat outs) (d_writer st') /\ writer_ok (d_writer st');
  pu_metrics : forall m, m <> download_bytes -> d_metrics st' m = d_metrics st m;
  pu_upload : match up with
    | None => acts = []
    | Some s => exists rest, content s = concat (written <$> acts) ++ rest /\ (AShutdown ∈ acts -> rest = [] /\ at_end s = AtEof)
    end }.

Definition downlink_open (st : dstate) : Prop := sends_left (d_sink st) = None /\ writer_ok (d_writer st).

Lemma pumped_refl st up : downlink_open st -> pumped st st up [] [].
Proof.
  intros [Hs Hw]. split; [by rewrite app_nil_r| |done|].
  - exists []. rewrite app_nil_r. destruct (d_sink st). cbn in *. subst. split; [done|]. split; [apply carries_refl|done].
  - destruct up as [s|]; [|done]. exists (content s). split; [done|]. set_solver.
Qed.

Lemma pumped_open st st' up down acts : pumped st st' up down acts -> downlink_open st'.
Proof. intros [_ (outs & Hs & _ & Hw) _ _]. split; [by rewrite Hs|done]. Qed.

(** A round of the upload that logged [a], before the rest. *)
Lemma pumped_up st st' s up' a down acts :
  pumped (log_action st a) st' up' down acts ->
  match up' with
  | None => a = AShutdown /\ content s = [] /\ at_end s = AtEof
  | Some s' => content s = written a ++ content s' /\ at_end s' = at_end s /\ a <> AShutdown
  end -> pumped st st' (Some s) down (a :: acts).
Proof.
  intros [Hl Hs Hm Hu] Ha. split; [by rewrite Hl; cbn; rewrite <- app_assoc|done|done|].
  destruct up' as [s'|].
  - destruct Ha as (Hc & He & Hna), Hu as (rest & Hr & Hsh). exists rest. rewrite Hc, Hr. cbn. rewrite app_assoc. split; [done|].
    intros Hin. apply elem_of_cons in Hin as [Hin|Hin]; [congruence|]. rewrite <- He. by apply Hsh.
  - destruct Ha as (-> & Hc & He). subst acts. exists []. by rewrite Hc.
Qed.

(** A round of the download. *)
Lemma pumped_down st up b st' down acts outs w' :
  writer_send (d_writer st) (d_sink st) b = (w', mk_sink (delivered (d_sink st) ++ outs) None, Val tt) ->
  carries (d_writer st) b (concat outs) w' ->
  pumped (set_writer (set_metrics st (add (d_metrics st) download_bytes (len b))) w' (mk_sink (delivered (d_sink st) ++ outs) None))
    st' up down acts -> pumped st st' up (b ++ down) acts.
Proof.
  intros _ Hc [Hl (outs2 & Hs & Hc2 & Hw2) Hm Hu]. split; [done| | |done].
  - exists (outs ++ outs2). rewrite Hs. cbn. rewrite app_assoc, concat_app. split; [done|]. split; [by eapply carries_app|done].
  - intros m Hne. rewrite Hm by done. cbn. unfold add, set_metric. by rewrite decide_False by done.
Qed.

Lemma copy_upload_round n w s st st1 x :
  copy_upload n w s st = (st1, x) ->
  match x with
  | Val up' => exists a, st1 = log_action st a /\
      match up' with
      | None => a = AShutdown /\ content s = [] /\ at_end s = AtEof
      | Some s' => content s = written a ++ content s' /\ at_end s' = at_end s /\ a <> AShutdown
      end
  | _ => st1 = st
  end.
Proof.
  unfold copy_upload, mbind, dm_bind, io, pure, act, fail, mret, dm_ret. intros Hc.
  destruct (content s) as [|b0 b] eqn:Ec.
  - destruct (at_end s) eqn:Ee; [destruct w|]; cbn in Hc; injection Hc as <- <-; try done. by exists AShutdown.
  - destruct w; cbn [lift] in Hc; simplify_eq; [|done]. eexists. split; [done|]. cbn [written content].
    by rewrite take_drop.
Qed.

Lemma pump_tcp_pumped evs up st st' r :
  downlink_open st -> pump_tcp evs up None st = (st', r) ->
  exists down acts, pumped st st' up down acts /\ (r = Val tt -> down = downs evs).
Proof.
  revert up st. induction evs as [|ev evs IH]; intros up st Ho Hp.
  { injection Hp as <- <-. exists [], []. split; [by apply pumped_refl|done]. }
  destruct ev as [n w|[b|k] pad]; cbn [pump_tcp] in Hp.
  - destruct up as [s|].
    + rewrite dm_bind_eq in Hp. destruct (copy_upload n w s st) as [st1 x] eqn:Ec.
      apply copy_upload_round in Ec. destruct x as [up'|k| |].
      * destruct Ec as (a & -> & Ha). destruct (IH up' (log_action st a) Ho Hp) as (down & acts & Hpu & Hd).
        exists down, (a :: acts). split; [by eapply pumped_up|done].
      * simplify_eq. exists [], []. split; [by apply pumped_refl|done].
      * simplify_eq. exists [], []. split; [by apply pumped_refl|done].
      * simplify_eq. exists [], []. split; [by apply pumped_refl|done].
    + destruct (IH None st Ho Hp) as (down & acts & Hpu & Hd). by exists down, acts.
  - destruct b as [|b0 b].
    + injection Hp as <- <-. exists [], []. split; [by apply pumped_refl|done].
    + destruct Ho as [Hs Hw]. destruct (d_sink st) as [dl sl] eqn:Esink. cbn in Hs. subst sl.
      destruct (writer_send_ok (d_writer st) dl (b0 :: b) Hw) as (w' & outs & Hsend & Hw' & Hc).
      assert (copy_download (b0 :: b) pad None st =
        (set_writer (set_metrics st (add (d_metrics st) download_bytes (len (b0 :: b)))) w' (mk_sink (dl ++ outs) None), Val None)) as Hcd.
      { unfold copy_download, count_bytes, send, mbind, dm_bind, mret, dm_ret. cbn [d_writer d_sink set_metrics].
        rewrite Esink, Hsend. done. }
      rewrite dm_bind_eq in Hp. rewrite Hcd in Hp.
      apply IH in Hp as (down & acts & Hpu & Hd); [|by split].
      exists ((b0 :: b) ++ down), acts. split; [|intros Hv; rewrite (Hd Hv); done].
      eapply pumped_down; rewrite ?Esink; [exact Hsend|exact Hc|exact Hpu].
  - injection Hp as <- <-. exists [], []. split; [by apply pumped_refl|done].
Qed.

(** C7: A TCP session copies both directions faithfully under any interleaving of reads
    and writes: when the target has ended, a client that decrypts the downlink, however
    it is fragmented, reads exactly the bytes of the target; and whatever the outcome,
    what was written to the target is a prefix of the client's bytes, all of them when
    the target was shut down for writing; no metric but the byte counter changes. *)
Theorem tcp_pump_copies evs s st st' r :
  downlink_open st -> pump_tcp evs (Some s) None st = (st', r) ->
  exists acts outs rest, d_log st' = d_log st ++ acts /\ delivered (d_sink st') = delivered (d_sink st) ++ outs /\
    content s = concat (written <$> acts) ++ rest /\ (AShutdown ∈ acts -> rest = [] /\ at_end s = AtEof) /\
    (forall m, m <> download_bytes -> d_metrics st' m = d_metrics st m) /\
    (r = Val tt -> forall frags room, inner_ok frags -> wire_of frags = concat outs -> (0 < room)%nat ->
       client_reads (d_writer st) frags (length (downs evs) + length frags + 1) room = Some (downs evs, None)).
Proof.
  intros Ho Hp. destruct (pump_tcp_pumped _ _ _ _ _ Ho Hp) as (down & acts & [Hl (outs & Hs & Hc & Hw) Hm (rest & Hr & Hsh)] & Hd).
  exists acts, outs, rest. rewrite Hs. split; [done|]. split; [done|]. split; [done|]. split; [done|]. split; [done|].
  intros Hv frags room Hok Hwire Hroom. rewrite (Hd Hv) in Hc. eapply client_reads_carried; [apply Ho|exact Hc|done|done|done|lia].
Qed.
End downlink.

(** * What a session does *)

(** Every action that [m] logs satisfies [P]. *)
Definition logs {A} (P : action -> Prop) (m : dm A) : Prop :=
  forall st st' r, m st = (st', r) -> exists acts, d_log st' = d_log st ++ acts /\ Forall P acts.

Lemma logs_quiet {A} P (m : dm A) : (forall st, d_log (m st).1 = d_log st) -> logs P m.
Proof. intros Hq st st' r Hm. exists []. rewrite app_nil_r. specialize (Hq st). rewrite Hm in Hq. done. Qed.

Lemma logs_pure {A} P (x : comp DispatchError A) : logs P (pure x).
Proof. by apply logs_quiet. Qed.

Lemma logs_ret {A} P (a : A) : logs P (mret a).
Proof. by apply logs_quiet. Qed.

Lemma logs_fail {A} P x : logs P (fail (A := A) x).
Proof. by apply logs_quiet. Qed.

Lemma logs_io {A} P (x : result io_kind A) : logs P (io x).
Proof. by apply logs_quiet. Qed.

Lemma logs_count P c : logs P (count c).
Proof. by apply logs_quiet. Qed.

Lemma logs_count_bytes P c n : logs P (count_bytes c n).
Proof. by apply logs_quiet. Qed.

Lemma logs_acquire P b : logs P (acquire b).
Proof. by destruct b; apply logs_quiet. Qed.

Lemma logs_act (P : action -> Prop) a : P a -> logs P (act a).
Proof. intros Ha st st' r [= <- <-]. exists [a]. split; [done|]. by constructor. Qed.

Lemma logs_bind {A B} P (m : dm A) (f : A -> dm B) : logs P m -> (forall a, logs P (f a)) -> logs P (mbind f m).
Proof.
  intros Hm Hf st st' r Hr. rewrite dm_bind_eq in Hr. destruct (m st) as [st1 x] eqn:Em.
  destruct (Hm _ _ _ Em) as (acts & Hl & Hp). destruct x as [a| | |]; [|by simplify_eq; exists acts..].
  destruct (Hf a _ _ _ Hr) as (acts2 & Hl2 & Hp2). exists (acts ++ acts2). rewrite Hl2, Hl, app_assoc. split; [done|].
  by apply Forall_app.
Qed.

Lemma logs_impl {A} (P Q : action -> Prop) (m : dm A) : (forall a, P a -> Q a) -> logs P m -> logs Q m.
Proof. intros Hpq Hm st st' r Hr. destruct (Hm _ _ _ Hr) as (acts & Hl & Hp). exists acts. split; [done|]. by eapply list.Forall_impl. Qed.

#[export] Hint Resolve logs_pure logs_ret logs_fail logs_io logs_count logs_count_bytes logs_acquire logs_act : logs.

Ltac logs_run :=
  repeat match goal with
         | |- logs _ (mbind _ _) => apply logs_bind; [|intros]
         | |- logs _ (let '(_, _) := ?x in _) => destruct x
         | |- logs _ (if ?b then _ else _) => destruct b
         | |- logs _ match ?x with _ => _ end => destruct x
         | |- logs _ _ => solve [eauto with logs]
         end.

(** The actions a request allows: the target of its header, or the targets of its
    frames. *)
Definition allowed (e : env) (h : request_header) (a : action) : Prop :=
  match cmd h, a with
  | Tcp, AConnect x p => req_address h = Some x /\ p = port h
  | Tcp, (AWrite _ | AShutdown) => True
  | Udp, ABind _ => True
  | Udp, AConnectUdp t => exists x, req_address h = Some x /\ resolve_address e x (port h) = Val t
  | Udp, ASendUdp _ => True
  | Mux, (ABind _ | AAssociate _ _ _ | AMessage _ _ _) => True
  | _, _ => False
  end.

Section actions.
Context `{Aead} `{KeyStream} `{X25519} `{MlKem} `{Blake3}.

Lemma logs_send P b : logs P (send b).
Proof. apply logs_quiet. intros st. unfold send. by destruct (writer_send _ _ b) as [[w s] r]. Qed.

Lemma logs_send_all P bs : logs P (send_all bs).
Proof. induction bs as [|b bs IH]; cbn [send_all]; [apply logs_ret|]. apply logs_bind; [apply logs_send|done]. Qed.

Lemma logs_with_target P m : logs P m -> logs P (with_target m).
Proof.
  intros Hm st st' r Hr. unfold with_target in Hr. destruct (m _) as [st1 x] eqn:Em.
  destruct (Hm _ _ _ Em) as (acts & Hl & Hp). exists acts. split; [|done]. destruct x; by simplify_eq.
Qed.

#[local] Hint Resolve logs_send logs_send_all logs_with_target : logs.

Lemma logs_pump P evs up v : (forall b, P (AWrite b)) -> P AShutdown -> logs P (pump_tcp evs up v).
Proof.
  intros Hw Hs. revert up v. induction evs as [|ev evs IH]; intros up v; cbn [pump_tcp]; [apply logs_pure|].
  unfold copy_upload, copy_download. logs_run.
Qed.

Lemma logs_udp_loop P evs s partial : (forall b, P (ASendUdp b)) -> logs P (udp_loop evs s partial).
Proof. intros Hp. revert s partial. induction evs as [|ev evs IH]; intros s partial; cbn [udp_loop]; logs_run. Qed.

Lemma logs_xudp_loop P fuel e i s assoc next :
  (forall b, P (ABind b)) -> (forall n sid t, P (AAssociate n sid t)) -> (forall n t b, P (AMessage n t b)) ->
  logs P (xudp_loop fuel e i s assoc next).
Proof.
  intros H1' H2' H3'. revert i s assoc next. induction fuel as [|fuel IH]; intros i s assoc next; cbn [xudp_loop]; [apply logs_pure|].
  unfold xudp_frame, spawn_association, send_message. logs_run.
Qed.

Lemma logs_serve_tcp e reader h a v :
  cmd h = Tcp -> req_address h = Some a -> logs (allowed e h) (serve_tcp e reader a (port h) v).
Proof.
  intros Hc Ha. unfold serve_tcp. logs_run; try (apply logs_act; unfold allowed; rewrite Hc; done);
    apply logs_with_target; logs_run; apply logs_pump; unfold allowed; by rewrite Hc.
Qed.

Lemma logs_serve_udp e reader h a :
  cmd h = Udp -> req_address h = Some a -> logs (allowed e h) (serve_udp e reader a (port h)).
Proof.
  intros Hc Ha. unfold serve_udp. apply logs_bind; [eauto with logs|intros _]. apply logs_bind; [logs_run|intros _].
  intros st st' r Hr. rewrite dm_bind_eq in Hr. unfold pure in Hr. destruct (resolve_address e a (port h)) as [t| | |] eqn:Et;
    [|by simplify_eq; exists []; rewrite app_nil_r..].
  revert st st' r Hr. change (logs (allowed e h) (_ ← act (ABind (is_ipv6 t)); _ ← io (e_bind e); _ ← act (AConnectUdp t);
    _ ← io (e_udp_connect e); with_target (udp_loop (e_udp e) reader []))).
  logs_run; try (apply logs_act; unfold allowed; rewrite Hc; eauto).
  apply logs_with_target, logs_udp_loop. unfold allowed. by rewrite Hc.
Qed.

Lemma logs_serve_request e h v reader : logs (allowed e h) (serve_request e h v reader).
Proof.
  unfold serve_request. apply logs_bind; [eauto with logs|intros resp]. apply logs_bind; [eauto with logs|intros _].
  destruct (cmd h) eqn:Hc.
  - destruct (req_address h) as [a|] eqn:Ea; [|by apply logs_quiet]. by apply logs_serve_tcp.
  - destruct v; [eauto with logs|]. destruct (req_address h) as [a|] eqn:Ea; [|by apply logs_quiet]. by apply logs_serve_udp.
  - destruct v; [eauto with logs|]. apply logs_xudp_loop; intros; unfold allowed; by rewrite Hc.
  - eauto with logs.
Qed.

Lemma handshake_quiet D e s st : d_log (encryption_handshake D e s st).1 = d_log st.
Proof.
  unfold encryption_handshake. destruct (dp_encryption D); [|done].
  destruct (run _ _ _ _ _) as [[[m out] rest] r]. by destruct r.
Qed.

Lemma header_quiet D e s st : d_log (request_header_of D e s st).1 = d_log st.
Proof. unfold request_header_of. by destruct (decode_request_header _ _). Qed.

Lemma decode_request_user s v u h a s' :
  decode_request_header s v = Val (u, h, a, s') -> get_shared v (raw_id h) = Some u.
Proof. intros Hd. unfold decode_request_header in Hd. comp_inv Hd. done. Qed.

(** C8: Nothing is done towards any target before the client is authenticated: a session
    with any logged action has passed the encryption handshake if one is configured,
    its request header was decoded to a user of the table whose flow it uses, the
    response header was accepted by the downlink, and every action is one the request
    allows, for TCP only a connection to the address and port of the header. *)
Theorem no_target_without_authentication D e s st st' r :
  serve D e s st = (st', r) -> d_log st' <> d_log st ->
  exists st1 reader u h a rest st2 response acts,
    encryption_handshake D e s st = (st1, Val reader) /\
    decode_request_header reader (dp_validator D) = Val (u, h, a, rest) /\
    get_shared (dp_validator D) (raw_id h) = Some u /\ flow_ok u a = true /\
    encode_response_header (version h) addons_default = Ok response /\ send response st1 = (st2, Val tt) /\
    d_log st' = d_log st ++ acts /\ Forall (allowed e h) acts.
Proof.
  unfold serve. rewrite dm_bind_eq. pose proof (handshake_quiet D e s st) as Hq1.
  destruct (encryption_handshake D e s st) as [st1 x1]. cbn [fst] in Hq1. intros Hs Hne.
  destruct x1 as [reader| | |]; [|by simplify_eq..]. rewrite dm_bind_eq in Hs.
  pose proof (header_quiet D e reader st1) as Hq2. destruct (decode_request_header reader (dp_validator D)) as [[[[u h] a] rest]| | |] eqn:Ed;
    unfold request_header_of in Hs, Hq2; rewrite Ed in Hs, Hq2; [|cbn in Hs; injection Hs as <- _; cbn in Hne; congruence..]. cbn [mret dm_ret fst] in Hs, Hq2.
  destruct (flow_ok u a) eqn:Ef; cbn [negb] in Hs; [|by injection Hs as <- _; rewrite Hq1 in Hne].
  set (v := if bytes_eqb (flow a) XRV then _ else _) in Hs.
  destruct (logs_serve_request e h v rest st1 st' r Hs) as (acts & Hl & Hp).
  unfold serve_request in Hs. rewrite dm_bind_eq in Hs. unfold pure in Hs.
  destruct (encode_response_header (version h) addons_default) as [response|] eqn:Er; [|by injection Hs as <- _; rewrite Hq1 in Hne].
  cbn [lift] in Hs. rewrite dm_bind_eq in Hs. pose proof (logs_send (fun _ => True) response st1) as Hsend.
  destruct (send response st1) as [st2 x2] eqn:Es. destruct (Hsend _ _ eq_refl) as (acts2 & Hl2 & _).
  assert (d_log st2 = d_log st1) as Hq3.
  { unfold send in Es. destruct (writer_send _ _ response) as [[w s'] x]. by injection Es as <- _. }
  destruct x2 as [[]| | |]; [|by injection Hs as <- _; rewrite Hq3, Hq1 in Hne..].
  exists st1, reader, u, h, a, rest, st2, response, acts. rewrite Hl, Hq1. repeat (split; [done|]).
  split; [by eapply decode_request_user|]. done.
Qed.
End actions.

(** * Metrics of a session *)

(** At most one failure is counted, and only for a session that fails; the gauge of
    target connections is back when the session has ended. *)
Definition accounted {A} (st st' : dstate) (r : comp DispatchError A) : Prop :=
  exists c : option metric,
    match c with
    | None => True
    | Some k => k ∈ [encryption_handshake_failures; vless_auth_failures; target_connect_failures] /\ exists x, r = Fail x
    end /\
    (forall m, m <> download_bytes -> m <> active_target_conns ->
       d_metrics st' m = if decide (Some m = c) then wrap 64 (d_metrics st m + 1) else d_metrics st m) /\
    (graceful r -> d_metrics st' active_target_conns = d_metrics st active_target_conns).

Definition gauge_ok (st : dstate) : Prop := - 2 ^ 63 <= d_metrics st active_target_conns < 2 ^ 63.

Definition accounts {A} (m : dm A) : Prop :=
  forall st st' r, gauge_ok st -> m st = (st', r) -> accounted st st' r.

Lemma accounts_quiet {A} (m : dm A) : (forall st, d_metrics (m st).1 = d_metrics st) -> accounts m.
Proof.
  intros Hq st st' r _ Hm. specialize (Hq st). rewrite Hm in Hq. cbn in Hq. exists None. rewrite Hq.
  split; [done|]. split; [|done]. intros. by rewrite decide_False.
Qed.

Lemma accounts_bind {A B} (m : dm A) (f : A -> dm B) : accounts m -> (forall a, accounts (f a)) -> accounts (mbind f m).
Proof.
  intros Hm Hf st st' r Hg Hr. rewrite dm_bind_eq in Hr. destruct (m st) as [st1 x] eqn:Em.
  destruct (Hm _ _ _ Hg Em) as (c & Hc & Hcount & Hgauge). destruct x as [a|x| |].
  - destruct c as [k|]; [by destruct Hc as (_ & ? & ?)|]. specialize (Hgauge I).
    assert (gauge_ok st1) as Hg1 by (unfold gauge_ok; by rewrite Hgauge).
    destruct (Hf a _ _ _ Hg1 Hr) as (c2 & Hc2 & Hcount2 & Hgauge2). exists c2. split; [done|]. split.
    + intros k H1' H2'. rewrite Hcount2, Hcount by done. by rewrite (decide_False (P := Some k = None)).
    + intros Hgr. by rewrite Hgauge2.
  - injection Hr as <- <-. exists c. split; [|done]. destruct c; [|done]. destruct Hc as (Hk & x' & Hx). split; [done|]. by exists x.
  - injection Hr as <- <-. exists c. split; [|done]. destruct c; [|done]. by destruct Hc as (_ & ? & ?).
  - injection Hr as <- <-. exists c. split; [|done]. destruct c; [|done]. by destruct Hc as (_ & ? & ?).
Qed.

Lemma accounts_pure {A} (x : comp DispatchError A) : accounts (pure x).
Proof. by apply accounts_quiet. Qed.
Lemma accounts_ret {A} (a : A) : accounts (mret a).
Proof. by apply accounts_quiet. Qed.
Lemma accounts_fail {A} x : accounts (fail (A := A) x).
Proof. by apply accounts_quiet. Qed.
Lemma accounts_io {A} (x : result io_kind A) : accounts (io x).
Proof. by apply accounts_quiet. Qed.
Lemma accounts_act a : accounts (act a).
Proof. by apply accounts_quiet. Qed.
Lemma accounts_acquire b : accounts (acquire b).
Proof. destruct b; by apply accounts_quiet. Qed.

Lemma accounts_download n : accounts (count_bytes download_bytes n).
Proof.
  intros st st' r _ [= <- <-]. exists None. split; [done|]. cbn. unfold add, set_metric. split.
  - intros m H1' H2'. rewrite decide_False by done. by rewrite (decide_False (P := Some m = None)).
  - intros _. by rewrite decide_False.
Qed.

(** A failure that is counted. *)
Lemma accounts_failure {A} k x :
  k ∈ [encryption_handshake_failures; vless_auth_failures; target_connect_failures] ->
  accounts (A := A) (_ ← count k; fail x).
Proof.
  intros Hk st st' r _ [= <- <-]. exists (Some k). split; [split; [done|]; by exists x|]. cbn. unfold inc, add, set_metric. split.
  - intros m _ _. destruct (decide (k = m)) as [->|Hne]; [by rewrite decide_True|]. rewrite decide_False; [done|congruence].
  - intros _. rewrite decide_False; [done|]. intros ->. set_solver.
Qed.

#[export] Hint Resolve accounts_pure accounts_ret accounts_fail accounts_io accounts_act accounts_acquire accounts_download : accounts.

Ltac accounts_run :=
  repeat match goal with
         | |- accounts (mbind (fun _ => fail _) (count _)) => apply accounts_failure; set_solver
         | |- accounts (mbind _ _) => apply accounts_bind; [|intros]
         | |- accounts (let '(_, _) := ?x in _) => destruct x
         | |- accounts (if ?b then _ else _) => destruct b
         | |- accounts match ?x with _ => _ end => destruct x
         | |- accounts _ => solve [eauto with accounts]
         end.

Section metrics.
Context `{Aead} `{KeyStream} `{X25519} `{MlKem} `{Blake3}.

Lemma accounts_send b : accounts (send b).
Proof. apply accounts_quiet. intros st. unfold send. by destruct (writer_send _ _ b) as [[w s] r]. Qed.

Lemma accounts_send_all bs : accounts (send_all bs).
Proof. induction bs as [|b bs IH]; cbn [send_all]; [apply accounts_ret|]. apply accounts_bind; [apply accounts_send|done]. Qed.

Lemma accounts_with_target m : accounts m -> accounts (with_target m).
Proof.
  intros Hm st st' r Hg Hr. unfold with_target in Hr.
  set (st0 := set_metrics st (add_gauge (d_metrics st) active_target_conns 1)) in Hr.
  assert (d_metrics st0 active_target_conns = wrap_i64 (d_metrics st active_target_conns + 1)) as Hg0 by done.
  assert (forall k, k <> active_target_conns -> d_metrics st0 k = d_metrics st k) as Hsame.
  { intros k Hk. cbn. unfold add_gauge, set_metric. by rewrite decide_False. }
  destruct (m st0) as [st1 x] eqn:Em.
  assert (gauge_ok st0) as Hok by (unfold gauge_ok; rewrite Hg0; apply wrap_i64_bound).
  destruct (Hm _ _ _ Hok Em) as (c & Hc & Hcount & Hgauge).
  assert (forall k v, k <> active_target_conns -> d_metrics (set_metrics st1 (add_gauge (d_metrics st1) active_target_conns v)) k = d_metrics st1 k) as Hend.
  { intros k v Hk. cbn. unfold add_gauge, set_metric. by rewrite decide_False. }
  assert (graceful x -> wrap_i64 (d_metrics st1 active_target_conns + -1) = d_metrics st active_target_conns) as Hback.
  { intros Hgr. rewrite (Hgauge Hgr), Hg0. unfold wrap_i64, gauge_ok in *.
    replace ((d_metrics st active_target_conns + 1 + 2 ^ 63) mod 2 ^ 64 - 2 ^ 63 + -1 + 2 ^ 63)
      with ((d_metrics st active_target_conns + 1 + 2 ^ 63) mod 2 ^ 64 - 1) by lia.
    rewrite <- Zminus_mod_idemp_l, Z.mod_mod, Zminus_mod_idemp_l by lia. rewrite Z.mod_small; lia. }
  exists c. destruct x as [a|y| |]; injection Hr as <- <-; (split; [done|]).
  1, 2: split; [intros k H1' H2'; rewrite Hend, Hcount, Hsame by done; done|intros Hgr; cbn; unfold add_gauge, set_metric; rewrite decide_True by done; by apply Hback].
  all: split; [intros k H1' H2'; rewrite Hcount, Hsame by done; done|done].
Qed.

#[local] Hint Resolve accounts_send accounts_send_all accounts_with_target : accounts.

Lemma accounts_pump evs up v : accounts (pump_tcp evs up v).
Proof.
  revert up v. induction evs as [|ev evs IH]; intros up v; cbn [pump_tcp]; [apply accounts_pure|].
  unfold copy_upload, copy_download. accounts_run.
Qed.

Lemma accounts_udp_loop evs s partial : accounts (udp_loop evs s partial).
Proof. revert s partial. induction evs as [|ev evs IH]; intros s partial; cbn [udp_loop]; accounts_run. Qed.

Lemma accounts_xudp_loop fuel e i s assoc next : accounts (xudp_loop fuel e i s assoc next).
Proof.
  revert i s assoc next. induction fuel as [|fuel IH]; intros i s assoc next; cbn [xudp_loop]; [apply accounts_pure|].
  unfold xudp_frame, spawn_association, send_message. accounts_run.
Qed.

Lemma accounts_association_loop e sid evs : accounts (association_loop e sid evs).
Proof. induction evs as [|ev evs IH]; cbn [association_loop]; accounts_run. Qed.

#[local] Hint Resolve accounts_pump accounts_udp_loop accounts_xudp_loop accounts_association_loop : accounts.

Lemma accounts_handshake D e s : accounts (encryption_handshake D e s).
Proof.
  unfold encryption_handshake. destruct (dp_encryption D) as [server|]; [|eauto with accounts].
  intros st st' r Hg Hr. destruct (run _ _ _ _ _) as [[[m out] rest] x].
  destruct x as [h|x| |]; injection Hr as <- <-.
  2: { eapply (accounts_failure encryption_handshake_failures _) with (st := set_tickets st m _); [set_solver|done|reflexivity]. }
  all: exists None; split; [done|]; split; [intros; by rewrite decide_False|done].
Qed.

Lemma accounts_header D e s : accounts (request_header_of D e s).
Proof. unfold request_header_of. accounts_run. Qed.

#[local] Hint Resolve accounts_handshake accounts_header : accounts.

(** Every session keeps the metrics in order: it counts at most one failure (of the
    encryption handshake, the request header or the connection to the target), only
    when it ends in an error, by exactly one; the gauge of target connections is back at
    its old value when the session has ended, on every path; and apart from the
    downloaded bytes nothing else changes.  The same holds of the task of an
    association. *)
Theorem session_metrics_exact D e s sid evs :
  accounts (serve D e s) /\ accounts (association_task e sid evs).
Proof.
  split.
  - unfold serve, serve_request, serve_tcp, serve_udp, serve_xudp. accounts_run; apply accounts_with_target; accounts_run.
  - unfold association_task. eauto with accounts.
Qed.
End metrics.

(** * Plain UDP *)

Definition datagram_of (a : action) : option bytes := match a with ASendUdp b => Some b | _ => None end.

(** The socket is ready only between two datagrams of the client. *)
Fixpoint aligned (evs : list udp_event) (s : source) (partial : bytes) : Prop :=
  match evs with
  | UvRead n _ :: evs' => let '(s, partial) := udp_read n s partial in aligned evs' s (if udp_complete partial then [] else partial)
  | UvSocket _ :: evs' => partial = [] /\ aligned evs' s []
  | _ => True
  end.

(** The datagrams of the client, as it writes them. *)
Definition datagram_wire (d : bytes) : bytes := be_bytes 2 (len d) ++ d.

Section udp.
Context `{Aead} `{KeyStream}.

(** A strict prefix of a datagram needs the rest of it, or of its length. *)
Lemma udp_needs_prefix d a b :
  len d <= u16_max -> a ++ b = datagram_wire d -> b <> [] -> 0 < udp_needs a <= len b /\ udp_complete a = false.
Proof.
  intros Hd Hab Hb. assert (len a + len b = 2 + len d) as Hl by (rewrite <- len_app, Hab; unfold datagram_wire; rewrite len_app, len_be_bytes; lia).
  assert (0 < len b) by (destruct b; [done|rewrite len_cons; pose proof (len_nonneg b); lia]).
  pose proof (len_nonneg a). pose proof (len_nonneg d). unfold udp_complete, udp_needs. destruct (len a <? 2) eqn:E; split_bool.
  - rewrite (proj2 (Z.leb_gt _ _)) by lia. split; [lia|done].
  - assert (be_val (take 2 a) = len d) as ->.
    { replace (take 2 a) with (take 2 (a ++ b)) by (rewrite take_app_le; [done|unfold len in E; lia]).
      rewrite Hab. unfold datagram_wire. rewrite take_app_len by done. apply be_val_be_bytes. unfold u16_max in Hd. cbn. lia. }
    rewrite (proj2 (Z.leb_le _ _)) by lia. cbn [andb]. rewrite (proj2 (Z.eqb_neq _ _)) by lia. split; [lia|done].
Qed.

Lemma udp_complete_wire d : len d <= u16_max -> udp_complete (datagram_wire d) = true.
Proof.
  intros Hd. pose proof (len_nonneg d). unfold udp_complete, udp_needs, datagram_wire. rewrite len_app, len_be_bytes, take_app_len by done.
  rewrite (proj2 (Z.leb_le _ _)) by lia. rewrite (proj2 (Z.ltb_ge _ _)) by lia. rewrite be_val_be_bytes by (unfold u16_max in Hd; cbn; lia).
  cbn [andb]. apply Z.eqb_eq. lia.
Qed.

Lemma datagram_wire_nonempty d : datagram_wire d <> [].
Proof. unfold datagram_wire. by destruct (be_bytes 2 (len d)) eqn:E. Qed.

(** The pending read holds a strict prefix of the next datagram. *)
Definition pending (ds : list bytes) (partial : bytes) : Prop :=
  match ds with d :: _ => exists b, b <> [] /\ datagram_wire d = partial ++ b | [] => partial = [] end.

Lemma pending_nil ds : pending ds [].
Proof. destruct ds as [|d ds]; [done|]. exists (datagram_wire d). split; [apply datagram_wire_nonempty|done]. Qed.

(** A poll of the pending read, when bytes are there. *)
Lemma udp_read_step ds n s partial :
  Forall (fun d => len d <= u16_max) ds -> partial ++ content s = concat (datagram_wire <$> ds) -> pending ds partial -> content s <> [] ->
  exists d ds' s' partial', ds = d :: ds' /\ udp_read n s partial = (s', partial') /\
    (udp_complete partial' = true /\ partial' = datagram_wire d /\ content s' = concat (datagram_wire <$> ds') \/
     udp_complete partial' = false /\ partial' ++ content s' = concat (datagram_wire <$> ds) /\ pending ds partial').
Proof.
  intros Hds Hc Hp Hne. destruct ds as [|d ds]; [cbn in Hp, Hc; subst partial; done|].
  destruct Hp as (b & Hb & Hw). apply list.Forall_cons in Hds as [Hd Hds]. cbn [fmap list_fmap concat] in Hc.
  rewrite Hw, <- app_assoc in Hc. apply app_inv_head in Hc.
  destruct (udp_needs_prefix d partial b Hd (eq_sym Hw) Hb) as [Hn _].
  exists d, ds. unfold udp_read. set (k := Nat.min (Nat.max 1 n) (Z.to_nat (udp_needs partial))).
  assert (0 < k <= length b)%nat as Hk by (unfold k, len in *; lia).
  eexists _, _. split; [done|]. split; [reflexivity|]. cbn [content]. rewrite Hc, take_app_le, drop_app_le by lia.
  destruct (decide (k = length b)) as [->|Hkb].
  - left. rewrite firstn_all, drop_all, <- Hw. split; [by apply udp_complete_wire|done].
  - right. assert (drop k b <> []) as Hdb by (intros Hz; apply (f_equal length) in Hz; rewrite length_drop in Hz; cbn in Hz; lia).
    assert ((partial ++ take k b) ++ drop k b = datagram_wire d) as Hw' by (by rewrite <- app_assoc, take_drop).
    destruct (udp_needs_prefix d (partial ++ take k b) (drop k b) Hd Hw' Hdb) as [_ Hinc].
    split; [done|]. split; [cbn [fmap list_fmap concat]; rewrite <- Hw', <- !app_assoc; done|]. by exists (drop k b).
Qed.

Lemma udp_loop_exact ds evs s partial st st' r :
  Forall (fun d => len d <= u16_max) ds -> partial ++ content s = concat (datagram_wire <$> ds) -> pending ds partial ->
  aligned evs s partial -> udp_loop evs s partial st = (st', r) ->
  exists acts n, d_log st' = d_log st ++ acts /\ omap datagram_of acts = take n ds.
Proof.
  assert (forall st, exists acts n, d_log st = d_log st ++ acts /\ omap datagram_of acts = take n ds) as Hstop.
  { intros st0. exists [], 0%nat. by rewrite app_nil_r. }
  revert ds s partial st Hstop. induction evs as [|ev evs IH]; intros ds s partial st Hstop Hds Hc Hp Hal Hr.
  { injection Hr as <- _. apply Hstop. }
  destruct ev as [n w|[d|k]|]; cbn [udp_loop aligned] in *.
  - destruct (content s) as [|b0 bs] eqn:Es; [injection Hr as <- _; apply Hstop|].
    destruct (udp_read_step ds n s partial Hds ltac:(by rewrite Es) Hp ltac:(by rewrite Es)) as (d & ds' & s' & p' & -> & Hread & Hcase).
    rewrite Hread in Hr, Hal. destruct Hcase as [(Hcomp & -> & Hc')|(Hinc & Hc' & Hp')].
    + rewrite Hcomp in Hr, Hal. rewrite dm_bind_eq in Hr. destruct w as [[]|k]; [|injection Hr as <- _; apply Hstop].
      cbn [io pure lift] in Hr. rewrite dm_bind_eq in Hr. cbn [act] in Hr. apply list.Forall_cons in Hds as [_ Hds].
      apply (IH ds') in Hr as (acts & m & Hl & Hm); [|intros st0; exists [], 0%nat; by rewrite app_nil_r|done|done|apply pending_nil|done].
      exists (ASendUdp d :: acts), (S m). rewrite Hl. cbn [log_action d_log]. rewrite <- app_assoc. split; [done|].
      cbn. rewrite Hm. done.
    + rewrite Hinc in Hr, Hal. by eapply (IH (d :: ds')).
  - destruct Hal as [-> Hal]. rewrite dm_bind_eq in Hr. cbn [count_bytes] in Hr. rewrite dm_bind_eq in Hr. unfold pure at 1 in Hr.
    destruct (encode_plain_datagram d) as [b|]; cbn [lift] in Hr; [|injection Hr as <- _; apply (Hstop st)].
    rewrite dm_bind_eq in Hr. destruct (send b _) as [st1 x] eqn:Esend.
    assert (d_log st1 = d_log st) as Hl1.
    { unfold send in Esend. destruct (writer_send _ _ b) as [[w s'] y]. by injection Esend as <- _. }
    destruct x as [[]| | |]; [|injection Hr as <- _; rewrite Hl1; apply Hstop..].
    rewrite <- Hl1. by eapply IH.
  - injection Hr as <- _. apply Hstop.
  - injection Hr as <- _. apply Hstop.
Qed.

(** As long as datagrams from the target arrive only between two datagrams of the
    client, what the server sends to the target is a prefix of the client's datagrams,
    unchanged and in order, however the uplink is fragmented. *)
Theorem udp_datagrams_exact ds evs e st st' r :
  Forall (fun d => len d <= u16_max) ds ->
  aligned evs (mk_source (concat (datagram_wire <$> ds)) e) [] ->
  udp_loop evs (mk_source (concat (datagram_wire <$> ds)) e) [] st = (st', r) ->
  exists acts n, d_log st' = d_log st ++ acts /\ omap datagram_of acts = take n ds.
Proof. intros Hds Hal Hr. eapply udp_loop_exact; [done| |apply pending_nil|exact Hal|exact Hr]. done. Qed.

Lemma udp_read_take n s partial a b :
  content s = a ++ b -> length a = Nat.min (Nat.max 1 n) (Z.to_nat (udp_needs partial)) ->
  udp_read n s partial = (mk_source b (at_end s), partial ++ a).
Proof. intros Hc Hl. unfold udp_read. by rewrite Hc, <- Hl, take_app_length, drop_app_length. Qed.

(** Without that condition the loop loses bytes: when the socket is ready after the
    length of a datagram was read but not its payload, the pending read is dropped with
    the two bytes it took, and the payload is taken for the next datagram.  A client
    datagram whose payload is itself a framed datagram is sent to the target without
    its frame. *)
Theorem udp_read_cancelled `{!AeadLaws} q x e st :
  downlink_open st -> 0 < len q <= 65533 -> len x <= u16_max ->
  exists st', udp_loop [UvRead 2 (Ok tt); UvSocket (Ok x); UvRead 2 (Ok tt); UvRead (length q) (Ok tt)]
      (mk_source (datagram_wire (datagram_wire q)) e) [] st = (st', Diverge) /\
    d_log st' = d_log st ++ [ASendUdp q].
Proof.
  intros [Hopen Hw] Hq Hx. set (p := datagram_wire q). assert (len p = 2 + len q) as Hp by (unfold p, datagram_wire; by rewrite len_app, len_be_bytes).
  destruct (udp_needs_prefix p (be_bytes 2 (len p)) p) as [[_ _] Hc1]; [unfold u16_max; lia|done|apply datagram_wire_nonempty|].
  assert (q <> []) as Hqn by (intros ->; unfold len in Hq; cbn in Hq; lia).
  destruct (udp_needs_prefix q (be_bytes 2 (len q)) q) as [Hn3 Hc3]; [unfold u16_max; lia|done|done|].
  pose proof (udp_complete_wire q ltac:(unfold u16_max; lia)) as Hc4.
  destruct (d_sink st) as [dl sl] eqn:Esink. cbn in Hopen. subst sl.
  assert (encode_plain_datagram x = Ok (be_bytes 2 (wrap 16 (len x)) ++ x)) as Henc
    by (unfold encode_plain_datagram; by rewrite (proj2 (Z.ltb_ge _ _)) by lia).
  destruct (writer_send_ok (d_writer st) dl (be_bytes 2 (wrap 16 (len x)) ++ x) Hw) as (w' & outs & Hsend & _ & _).
  eexists. split; [|shelve]. cbn [udp_loop content]. unfold datagram_wire at 1 2. fold p.
  rewrite (udp_read_take 2 _ [] (be_bytes 2 (len p)) p) by done. cbn [app]. rewrite Hc1.
  destruct (be_bytes 2 (len p) ++ p) eqn:E1; [by destruct (be_bytes 2 (len p)) eqn:E2|]. clear E1.
  rewrite dm_bind_eq. cbn [count_bytes]. rewrite dm_bind_eq. unfold pure at 1. rewrite Henc. cbn [lift].
  rewrite dm_bind_eq. unfold send at 1. cbn [d_writer d_sink set_metrics]. rewrite Esink, Hsend.
  unfold p, datagram_wire. cbn [udp_loop content].
  rewrite (udp_read_take 2 _ [] (be_bytes 2 (len q)) q) by done. cbn [app]. rewrite Hc3.
  destruct (be_bytes 2 (len q) ++ q) eqn:E1; [by destruct (be_bytes 2 (len q)) eqn:E2|]. clear E1.
  rewrite (udp_read_take (length q) _ (be_bytes 2 (len q)) q []); [|by rewrite app_nil_r|].
  2: { unfold udp_needs. rewrite len_be_bytes. change (Z.of_nat 2 <? 2) with false. cbv iota.
       rewrite take_ge by (rewrite length_be_bytes; lia).
       rewrite be_val_be_bytes by (change (256 ^ Z.of_nat 2) with 65536; lia). unfold len in *. lia. }
  change (be_bytes 2 (len q) ++ q) with (datagram_wire q). rewrite Hc4. cbn [content]. destruct q as [|q0 q']; [done|].
  reflexivity.
  Unshelve. reflexivity.
Qed.
End udp.

(** * XUDP associations *)

Fixpoint xudp_frames (e : env) (i : nat) (fs : list frame) (assoc : gmap Z nat) (next : nat) : dm (gmap Z nat * nat) :=
  match fs with
  | [] => mret (assoc, next)
  | f :: fs' => '(assoc, next) ← xudp_frame e (e_xudp e i) f assoc next; xudp_frames e (S i) fs' assoc next
  end.

(** The messages to the association number [n]. *)
Definition message_of (n : nat) (a : action) : option (target * bytes) :=
  match a with AMessage m t b => if decide (m = n) then Some (t, b) else None | _ => None end.

(** The data of a frame that has a target. *)
Definition frame_data (f : frame) : list (target * bytes) :=
  match f_target f with Some t => if has_data (option_bits f) then [(t, payload f)] else [] | None => [] end.

(** The datagrams of session [sid] until it is opened again or ended. *)
Fixpoint session_data (sid : Z) (fs : list frame) : list (target * bytes) :=
  match fs with
  | [] => []
  | f :: fs' =>
      if negb (session_id f =? sid) then session_data sid fs'
      else if (status f =? STATUS_NEW) || (status f =? STATUS_END) then []
      else if status f =? STATUS_KEEP then frame_data f ++ session_data sid fs'
      else session_data sid fs'
  end.

Definition opens (f : frame) : bool := status f =? STATUS_NEW.

Record assoc_wf (assoc : gmap Z nat) (next : nat) : Prop := {
  assoc_old : forall sid n, assoc !! sid = Some n -> (n < next)%nat;
  assoc_inj : forall sid sid' n, assoc !! sid = Some n -> assoc !! sid' = Some n -> sid = sid' }.

(** What one frame does when it is accepted. *)
Lemma xudp_frame_spec e ans f assoc next st st' assoc' next' :
  xudp_frame e ans f assoc next st = (st', Val (assoc', next')) ->
  exists acts, d_log st' = d_log st ++ acts /\
    ((opens f = true /\ assoc' = <[session_id f := next]> assoc /\ next' = S next /\
      exists t b, f_target f = Some t /\ acts = ABind b :: AAssociate next (session_id f) t :: ((fun x => AMessage next x.1 x.2) <$> frame_data f)) \/
     (opens f = false /\ next' = next /\
      (status f = STATUS_KEEP /\ assoc' = assoc /\
         (frame_data f = [] /\ acts = [] \/ exists n, assoc !! session_id f = Some n /\ acts = (fun x => AMessage n x.1 x.2) <$> frame_data f) \/
       status f = STATUS_END /\ assoc' = delete (session_id f) assoc /\ acts = [] \/
       status f = STATUS_KEEP_ALIVE /\ assoc' = assoc /\ acts = []))).
Proof.
  unfold xudp_frame, opens, frame_data, spawn_association, send_message, acquire, io, act, fail, pure, mret, dm_ret, mbind, dm_bind.
  destruct (status f =? STATUS_NEW) eqn:En; [|destruct (status f =? STATUS_KEEP) eqn:Ek; [|destruct (status f =? STATUS_END) eqn:Ee;
    [|destruct (status f =? STATUS_KEEP_ALIVE) eqn:Ea]]]; intros Hr; split_bool.
  - destruct (f_target f) as [t|]; [|done]. cbn [lift ok_or] in Hr. destruct (x_permit ans); [|done].
    destruct (resolve_target e t) as [a| | |]; try done. destruct (x_bind ans) as [[]|]; [|done]. cbn [lift] in Hr.
    destruct (has_data (option_bits f)); [destruct (x_alive ans); [|done]|]; cbn in Hr; injection Hr as <- <- <-; cbn;
      (eexists; split; [rewrite <- ?app_assoc; cbn; reflexivity|]; left; split; [done|]; split; [done|]; split; [done|]; eauto).
  - destruct (has_data (option_bits f)); cbn [negb] in Hr.
    + destruct (assoc !! session_id f) as [n|] eqn:El; [|done]. destruct (f_target f) as [t|]; [|done]. cbn [lift ok_or] in Hr.
      destruct (x_alive ans); [|done]. cbn in Hr. injection Hr as <- <- <-. exists [AMessage n t (payload f)]. split; [done|]. right.
      split; [done|]. split; [done|]. left. split; [done|]. split; [done|]. right. exists n. done.
    + injection Hr as <- <- <-. exists []. rewrite app_nil_r. split; [done|]. right. split; [done|]. split; [done|]. left.
      split; [done|]. split; [done|]. left. by destruct (f_target f).
  - injection Hr as <- <- <-. exists []. rewrite app_nil_r. split; [done|]. right. split; [done|]. split; [done|]. right. by left.
  - injection Hr as <- <- <-. exists []. rewrite app_nil_r. split; [done|]. right. split; [done|]. split; [done|]. right. by right.
  - done.
Qed.

Lemma message_of_other n m (l : list (target * bytes)) : m <> n -> omap (message_of n) ((fun x : target * bytes => AMessage m x.1 x.2) <$> l) = [].
Proof. intros Hne. induction l as [|x l IH]; [done|]. cbn. by rewrite decide_False. Qed.

Lemma message_of_same n (l : list (target * bytes)) : omap (message_of n) ((fun x : target * bytes => AMessage n x.1 x.2) <$> l) = l.
Proof. induction l as [|[t b] l IH]; [done|]. cbn. rewrite decide_True by done. cbn. by f_equal. Qed.

(** The bookkeeping of a frame. *)
Lemma xudp_frame_wf e ans f assoc next st st' assoc' next' :
  xudp_frame e ans f assoc next st = (st', Val (assoc', next')) -> assoc_wf assoc next -> assoc_wf assoc' next'.
Proof.
  intros Hf [Ho Hi]. destruct (xudp_frame_spec _ _ _ _ _ _ _ _ _ Hf) as (acts & _ & [(_ & -> & -> & _)|(_ & -> & Hcase)]).
  - split.
    + intros sid n. rewrite lookup_insert_Some. intros [[_ <-]|[_ Hn]]; [lia|]. apply Ho in Hn. lia.
    + intros sid sid' n. rewrite !lookup_insert_Some. intros [[<- <-]|[Hne Hn]] [[<- Heq]|[Hne' Hn']]; try done.
      * apply Ho in Hn'. lia.
      * subst n. apply Ho in Hn. lia.
      * by eapply Hi.
  - destruct Hcase as [(_ & -> & _)|[(_ & -> & _)|(_ & -> & _)]]; [by split| |by split]. split.
    + intros sid n [_ Hn]%lookup_delete_Some. by eapply Ho.
    + intros sid sid' n [_ Hn]%lookup_delete_Some [_ Hn']%lookup_delete_Some. by eapply Hi.
Qed.

(** One step of the induction over frames. *)
Lemma xudp_frames_cons e i f fs assoc next st st' x :
  xudp_frames e i (f :: fs) assoc next st = (st', Val x) ->
  exists st1 assoc1 next1, xudp_frame e (e_xudp e i) f assoc next st = (st1, Val (assoc1, next1)) /\
    xudp_frames e (S i) fs assoc1 next1 st1 = (st', Val x).
Proof.
  cbn [xudp_frames]. rewrite dm_bind_eq. destruct (xudp_frame _ _ _ _ _ st) as [st1 [[a n]| | |]] eqn:E; try done. eauto 10.
Qed.

(** An association that is not in the table gets nothing. *)
Lemma xudp_silent n e i fs assoc next st st' x :
  (forall sid, assoc !! sid <> Some n) -> (n < next)%nat -> xudp_frames e i fs assoc next st = (st', Val x) ->
  exists acts, d_log st' = d_log st ++ acts /\ omap (message_of n) acts = [].
Proof.
  revert i assoc next st. induction fs as [|f fs IH]; intros i assoc next st Hno Hn Hr.
  { injection Hr as <- _. exists []. by rewrite app_nil_r. }
  apply xudp_frames_cons in Hr as (st1 & assoc1 & next1 & Hf & Hr).
  destruct (xudp_frame_spec _ _ _ _ _ _ _ _ _ Hf) as (acts & Hl & Hcase).
  assert (omap (message_of n) acts = [] /\ (forall sid, assoc1 !! sid <> Some n) /\ (n < next1)%nat) as (Hm & Hno1 & Hn1).
  { destruct Hcase as [(_ & -> & -> & t & b & _ & ->)|(_ & -> & Hcase)].
    - cbn. rewrite message_of_other by lia. split; [done|]. split; [|lia]. intros sid. rewrite lookup_insert_Some.
      intros [[_ Heq]|[_ Hs]]; [lia|by eapply Hno].
    - destruct Hcase as [(_ & -> & Ha)|[(_ & -> & ->)|(_ & -> & ->)]]; [|split; [done|]; split; [|done]|done].
      + split; [|done]. destruct Ha as [[_ ->]|(m & Hm & ->)]; [done|]. apply message_of_other. intros ->. by eapply Hno.
      + intros sid [_ Hs]%lookup_delete_Some. by eapply Hno. }
  destruct (IH _ _ _ _ Hno1 Hn1 Hr) as (acts2 & Hl2 & Hm2). exists (acts ++ acts2).
  by rewrite Hl2, Hl, app_assoc, omap_app, Hm, Hm2.
Qed.

(** An association in the table gets the data of its session. *)
Lemma xudp_live n sid e i fs assoc next st st' x :
  assoc_wf assoc next -> assoc !! sid = Some n -> xudp_frames e i fs assoc next st = (st', Val x) ->
  exists acts, d_log st' = d_log st ++ acts /\ omap (message_of n) acts = session_data sid fs.
Proof.
  revert i assoc next st. induction fs as [|f fs IH]; intros i assoc next st Hwf Hs Hr.
  { injection Hr as <- _. exists []. by rewrite app_nil_r. }
  apply xudp_frames_cons in Hr as (st1 & assoc1 & next1 & Hf & Hr).
  pose proof (xudp_frame_wf _ _ _ _ _ _ _ _ _ Hf Hwf) as Hwf1. pose proof (assoc_old _ _ Hwf _ _ Hs) as Hn.
  destruct (xudp_frame_spec _ _ _ _ _ _ _ _ _ Hf) as (acts & Hl & Hcase). cbn [session_data]. unfold opens in Hcase.
  destruct Hcase as [(Ho & -> & -> & t & b & _ & ->)|(Ho & -> & Hcase)]; rewrite Ho.
  - destruct (session_id f =? sid) eqn:E; split_bool; cbn [negb orb].
    + assert (forall s, <[session_id f := next]> assoc !! s <> Some n) as Hno.
      { intros s. rewrite lookup_insert_Some. intros [[_ Heq]|[Hne Hs2]]; [lia|]. apply Hne. rewrite E. by apply (assoc_inj _ _ Hwf _ _ n). }
      destruct (xudp_silent n _ _ _ _ _ _ _ _ Hno (Nat.lt_lt_succ_r _ _ Hn) Hr) as (acts2 & Hl2 & Hm2).
      eexists. rewrite Hl2, Hl, <- app_assoc. split; [done|]. rewrite omap_app, Hm2. cbn. rewrite message_of_other by lia. done.
    + destruct (IH _ _ _ _ Hwf1 (eq_trans (lookup_insert_ne _ _ _ _ E) Hs) Hr) as (acts2 & Hl2 & Hm2).
      eexists. rewrite Hl2, Hl, <- app_assoc. split; [done|]. rewrite omap_app, Hm2. cbn. rewrite message_of_other by lia. done.
  - destruct Hcase as [(Hst & -> & Ha)|[(Hst & -> & ->)|(Hst & -> & ->)]]; rewrite Hst; cbn [orb].
    + destruct (IH _ _ _ _ Hwf1 Hs Hr) as (acts2 & Hl2 & Hm2). exists (acts ++ acts2). rewrite Hl2, Hl, app_assoc, omap_app, Hm2.
      split; [done|]. change (STATUS_KEEP =? STATUS_END) with false. change (STATUS_KEEP =? STATUS_KEEP) with true. cbv iota.
      destruct (session_id f =? sid) eqn:E; split_bool; cbn [negb].
      * f_equal. destruct Ha as [[-> ->]|(m & Hm & ->)]; [done|]. subst sid. assert (m = n) as -> by congruence. apply message_of_same.
      * destruct Ha as [[_ ->]|(m & Hm & ->)]; [done|]. rewrite message_of_other; [done|]. intros ->.
        by apply E, (assoc_inj _ _ Hwf _ _ n).
    + change (STATUS_END =? STATUS_END) with true. cbv iota. destruct (session_id f =? sid) eqn:E; split_bool; cbn [negb].
      * assert (forall s, delete (session_id f) assoc !! s <> Some n) as Hno.
        { intros s [Hne Hs2]%lookup_delete_Some. apply Hne. rewrite E. by apply (assoc_inj _ _ Hwf _ _ n). }
        destruct (xudp_silent n _ _ _ _ _ _ _ _ Hno Hn Hr) as (acts2 & Hl2 & Hm2). exists acts2. by rewrite Hl2, Hl, app_nil_r.
      * destruct (IH _ _ _ _ Hwf1 (eq_trans (lookup_delete_ne _ _ _ E) Hs) Hr) as (acts2 & Hl2 & Hm2). exists acts2. by rewrite Hl2, Hl, app_nil_r.
    + destruct (IH _ _ _ _ Hwf1 Hs Hr) as (acts2 & Hl2 & Hm2). exists acts2. rewrite Hl2, Hl, app_nil_r. split; [done|]. rewrite Hm2.
      change (STATUS_KEEP_ALIVE =? STATUS_END) with false. change (STATUS_KEEP_ALIVE =? STATUS_KEEP) with false. by destruct (negb _).
Qed.

(** The associations opened so far are numbered in order, and only they get messages. *)
Lemma xudp_early e i fs assoc next st st' assoc' next' :
  assoc_wf assoc next -> xudp_frames e i fs assoc next st = (st', Val (assoc', next')) ->
  assoc_wf assoc' next' /\ next' = (next + length (List.filter opens fs))%nat /\
  exists acts, d_log st' = d_log st ++ acts /\ forall n, (next' <= n)%nat -> omap (message_of n) acts = [].
Proof.
  revert i assoc next st. induction fs as [|f fs IH]; intros i assoc next st Hwf Hr.
  { injection Hr as <- <- <-. split; [done|]. split; [cbn; lia|]. exists []. by rewrite app_nil_r. }
  apply xudp_frames_cons in Hr as (st1 & assoc1 & next1 & Hf & Hr).
  destruct (IH _ _ _ _ (xudp_frame_wf _ _ _ _ _ _ _ _ _ Hf Hwf) Hr) as (Hwf' & Hn & acts2 & Hl2 & Hm2).
  destruct (xudp_frame_spec _ _ _ _ _ _ _ _ _ Hf) as (acts & Hl & Hcase). split; [done|]. cbn [List.filter].
  destruct Hcase as [(Ho & -> & -> & t & b & _ & ->)|(Ho & -> & Hcase)]; rewrite Ho; cbn [length]; (split; [lia|]).
  - eexists. rewrite Hl2, Hl, <- app_assoc. split; [done|]. intros n Hle. rewrite omap_app, (Hm2 n Hle). cbn.
    rewrite message_of_other by lia. done.
  - exists (acts ++ acts2). rewrite Hl2, Hl, app_assoc. split; [done|]. intros n Hle. rewrite omap_app, (Hm2 n Hle), app_nil_r.
    destruct Hcase as [(_ & _ & [[_ ->]|(m & Hm & ->)])|[(_ & _ & ->)|(_ & _ & ->)]]; try done.
    apply message_of_other. apply (assoc_old _ _ Hwf) in Hm. lia.
Qed.

Lemma xudp_frames_app e i fs gs assoc next st st' x :
  xudp_frames e i (fs ++ gs) assoc next st = (st', Val x) ->
  exists st1 assoc1 next1, xudp_frames e i fs assoc next st = (st1, Val (assoc1, next1)) /\
    xudp_frames e (i + length fs) gs assoc1 next1 st1 = (st', Val x).
Proof.
  revert i assoc next st. induction fs as [|f fs IH]; intros i assoc next st Hr.
  { exists st, assoc, next. split; [done|]. cbn [length]. by rewrite Nat.add_0_r. }
  apply xudp_frames_cons in Hr as (st1 & assoc1 & next1 & Hf & Hr). destruct (IH _ _ _ _ Hr) as (st2 & assoc2 & next2 & H1' & H2').
  exists st2, assoc2, next2. cbn [xudp_frames length]. rewrite dm_bind_eq, Hf, Nat.add_succ_r. done.
Qed.

(** The loop reads the frames the client wrote. *)
Lemma xudp_loop_frames fuel e i fs encs rest en assoc next st :
  Forall2 (fun f b => frame_wf f /\ Xudp.encode_frame f = Ok b) fs encs -> (length fs <= fuel)%nat ->
  xudp_loop fuel e i (mk_source (concat encs ++ rest) en) assoc next st =
  match xudp_frames e i fs assoc next st with
  | (st', Val (assoc', next')) => xudp_loop (fuel - length fs) e (i + length fs) (mk_source rest en) assoc' next' st'
  | (st', Fail x) => (st', Fail x)
  | (st', Crash) => (st', Crash)
  | (st', Diverge) => (st', Diverge)
  end.
Proof.
  intros Hfs. revert fuel i assoc next st. induction Hfs as [|f b fs encs [Hwf Henc] _ IH]; intros fuel i assoc next st Hf.
  { cbn [xudp_frames concat app length]. by rewrite Nat.sub_0_r, Nat.add_0_r. }
  destruct fuel as [|fuel]; [cbn in Hf; lia|]. cbn [xudp_loop xudp_frames concat length]. rewrite <- app_assoc, !dm_bind_eq.
  unfold pure at 1. rewrite (read_write_frame f b _ en Hwf Henc). cbv beta iota. rewrite dm_bind_eq.
  destruct (xudp_frame e (e_xudp e i) f assoc next st) as [st1 [[a n]| | |]]; try done.
  rewrite IH by (cbn in Hf; lia). by rewrite Nat.sub_succ, Nat.add_succ_r.
Qed.

Lemma encode_frame_nonempty f b : Xudp.encode_frame f = Ok b -> (1 <= length b)%nat.
Proof.
  unfold Xudp.encode_frame. destruct (_ <? _); [done|]. destruct (_ <? _); [done|]. intros Hb. apply Ok_inj in Hb. subst b.
  rewrite length_app, length_be_bytes. lia.
Qed.

(** C23: XUDP datagrams reach the association they belong to: for any sequence of
    well-formed frames of which none is refused, the association opened by a frame,
    numbered in the order of the opening frames, is given exactly the datagrams of its
    session (the one in the opening frame first) until the session is ended or opened
    again, in order, with their targets, and no others; then the end of the stream ends
    the loop. *)
Theorem xudp_routing e pre f post encs st st1 x :
  Forall2 (fun f b => frame_wf f /\ Xudp.encode_frame f = Ok b) (pre ++ f :: post) encs -> opens f = true ->
  xudp_frames e 0 (pre ++ f :: post) ∅ 0 st = (st1, Val x) ->
  let n := length (List.filter opens pre) in
  exists acts, serve_xudp e (mk_source (concat encs) AtEof) st =
      (st1, Fail (if e_stalled e then UdpIdle else DXudp (XIo UnexpectedEof))) /\
    d_log st1 = d_log st ++ acts /\
    omap (message_of n) acts = frame_data f ++ session_data (session_id f) post /\
    exists t, f_target f = Some t /\ AAssociate n (session_id f) t ∈ acts.
Proof.
  intros Hencs Hop Hr n. assert (length (pre ++ f :: post) <= length (concat encs))%nat as Hlen.
  { clear -Hencs. induction Hencs as [|g b fs encs [_ Hb] _ IH]; [done|]. apply encode_frame_nonempty in Hb. cbn. rewrite length_app. lia. }
  assert (serve_xudp e (mk_source (concat encs) AtEof) st =
      (st1, Fail (if e_stalled e then UdpIdle else DXudp (XIo UnexpectedEof)))) as Hserve.
  { unfold serve_xudp. cbn [content]. rewrite <- (app_nil_r (concat encs)) at 2.
    rewrite (xudp_loop_frames _ e 0 _ _ [] AtEof ∅ 0 st Hencs) by lia. rewrite Hr. destruct x as [a m].
    destruct (S (length (concat encs)) - length (pre ++ f :: post))%nat as [|k] eqn:Ek; [lia|].
    cbn [xudp_loop]. rewrite dm_bind_eq. unfold pure, stalls. by destruct (e_stalled e). }
  apply xudp_frames_app in Hr as (st2 & a2 & n2 & Hpre & Hr).
  assert (assoc_wf ∅ 0) as Hwf0 by (split; intros; by rewrite lookup_empty in *).
  destruct (xudp_early _ _ _ _ _ _ _ _ _ Hwf0 Hpre) as (Hwf2 & Hn2 & acts1 & Hl1 & Hm1).
  apply xudp_frames_cons in Hr as (st3 & a3 & n3 & Hf & Hpost).
  pose proof (xudp_frame_wf _ _ _ _ _ _ _ _ _ Hf Hwf2) as Hwf3.
  destruct (xudp_frame_spec _ _ _ _ _ _ _ _ _ Hf) as (acts2 & Hl2 & [(_ & -> & -> & t & b & Ht & Ha2)|(Hno & _)]); [|congruence].
  destruct (xudp_live n2 (session_id f) _ _ _ _ _ _ _ _ Hwf3 ltac:(apply lookup_insert_eq) Hpost) as (acts3 & Hl3 & Hm3).
  assert (n2 = n) as -> by done. exists (acts1 ++ acts2 ++ acts3). split; [done|].
  split; [by rewrite Hl3, Hl2, Hl1, <- !app_assoc|]. split.
  - rewrite !omap_app, (Hm1 n) by done. rewrite Hm3, Ha2. cbn. by rewrite message_of_same.
  - exists t. split; [done|]. rewrite Ha2. set_solver.
Qed.

(** * Witnesses *)

#[local] Existing Instance Record.toy_aead.
#[local] Existing Instance Record.toy_laws.
#[local] Existing Instance Xor.toy_keystream.
#[local] Existing Instance toy_dh.
#[local] Existing Instance toy_mlkem.
#[local] Existing Instance toy_blake3.

(** The target sends three bytes and ends; the client's bytes are written in two rounds. *)
Definition toy_pump : list pump_event :=
  [EvUp 2 (Ok tt); EvDown (Ok [1; 2; 3]) (fun _ => 0); EvUp 9 (Ok tt); EvUp 1 (Ok tt); EvDown (Ok []) (fun _ => 0)].

Definition toy_env : env :=
  mk_env toy_draws 1000 false true (fun _ _ => Some (Ok tt)) (fun _ _ => Ok []) false (Ok tt) (Ok tt) toy_pump []
    (fun _ => mk_xudp_answer true (Ok tt) true).

Definition toy_dstate (w : ProtocolWriter) : dstate := mk_dstate w (mk_sink [] None) Metrics_new ∅ [].

Lemma tcp_pump_copies_witness :
  exists st', pump_tcp toy_pump (Some (mk_source [7; 8; 9] AtEof)) None (toy_dstate (WEncrypted Record.toy_state None)) = (st', Val tt) /\
    exists acts outs rest, d_log st' = [] ++ acts /\ delivered (d_sink st') = [] ++ outs /\
      [7; 8; 9] = concat (written <$> acts) ++ rest /\
      forall frags, inner_ok frags -> wire_of frags = concat outs ->
        client_reads (WEncrypted Record.toy_state None) frags (length (downs toy_pump) + length frags + 1) 5 = Some ([1; 2; 3], None).
Proof.
  eexists. split; [vm_compute; reflexivity|].
  destruct (tcp_pump_copies toy_pump (mk_source [7; 8; 9] AtEof) (toy_dstate (WEncrypted Record.toy_state None)) _ (Val tt)
    ltac:(by split) ltac:(vm_compute; reflexivity)) as (acts & outs & rest & Hl & Hs & Hc & _ & _ & Hd).
  exists acts, outs, rest. split; [exact Hl|]. split; [exact Hs|]. split; [exact Hc|].
  intros frags Hok Hw. apply (Hd eq_refl frags 5%nat Hok Hw). lia.
Defined.

Definition toy_request : request_header := mk_request_header 0 (replicate 16 7) Tcp (Some (Ipv4 [10; 0; 0; 1])) 443.
Definition toy_user : user := mk_user (replicate 16 7) [] [].
Definition toy_dispatcher : Dispatcher := mk_Dispatcher (validator_new [toy_user]) None.

Lemma no_target_without_authentication_witness :
  exists st' r, serve toy_dispatcher toy_env (mk_source (request_bytes toy_request [0] ++ [7; 8; 9]) AtEof) (toy_dstate WPlain) = (st', r) /\
    exists st1 reader u h a rest st2 response acts,
      encryption_handshake toy_dispatcher toy_env (mk_source (request_bytes toy_request [0] ++ [7; 8; 9]) AtEof) (toy_dstate WPlain) = (st1, Val reader) /\
      decode_request_header reader (dp_validator toy_dispatcher) = Val (u, h, a, rest) /\
      get_shared (dp_validator toy_dispatcher) (raw_id h) = Some u /\ flow_ok u a = true /\
      encode_response_header (version h) addons_default = Ok response /\ send response st1 = (st2, Val tt) /\
      d_log st' = [] ++ acts /\ Forall (allowed toy_env h) acts.
Proof.
  eexists _, _. split; [apply surjective_pairing|].
  apply (no_target_without_authentication toy_dispatcher toy_env _ (toy_dstate WPlain) _ _ (surjective_pairing _)).
  vm_compute. discriminate.
Defined.

Definition toy_udp : list udp_event :=
  [UvRead 1 (Ok tt); UvRead 9 (Ok tt); UvRead 1 (Ok tt); UvRead 9 (Ok tt); UvSocket (Ok [5]); UvRead 2 (Ok tt); UvRead 7 (Ok tt)].

Lemma udp_datagrams_exact_witness :
  exists st' r acts n, udp_loop toy_udp (mk_source (concat (datagram_wire <$> [[1; 2; 3]; [4]])) AtEof) [] (toy_dstate WPlain) = (st', r) /\
    d_log st' = [] ++ acts /\ omap datagram_of acts = take n [[1; 2; 3]; [4]].
Proof.
  destruct (udp_datagrams_exact [[1; 2; 3]; [4]] toy_udp AtEof (toy_dstate WPlain) _ _
    ltac:(by repeat constructor) ltac:(vm_compute; done) (surjective_pairing _)) as (acts & n & Hl & Hd).
  eexists _, _, acts, n. split; [apply surjective_pairing|]. split; [exact Hl|exact Hd].
Defined.

Lemma udp_read_cancelled_witness :
  exists st', udp_loop [UvRead 2 (Ok tt); UvSocket (Ok [5]); UvRead 2 (Ok tt); UvRead (length [7; 8; 9]) (Ok tt)]
      (mk_source (datagram_wire (datagram_wire [7; 8; 9])) AtEof) [] (toy_dstate WPlain) = (st', Diverge) /\
    d_log st' = [] ++ [ASendUdp [7; 8; 9]].
Proof.
  apply (udp_read_cancelled [7; 8; 9] [5] AtEof (toy_dstate WPlain)).
  - by split.
  - unfold len. cbn [length]. lia.
  - unfold len, u16_max. cbn [length]. lia.
Defined.

(** Session 1 is opened, used, opened again and used; session 2 in between. *)
Definition toy_frame (sid st : Z) (b : bytes) : frame :=
  mk_frame sid st OPTION_DATA (Some (mk_target (Ipv4 [10; 0; 0; 1]) 53)) None b.
Definition toy_frames : list frame :=
  [toy_frame 1 STATUS_NEW [1]; toy_frame 2 STATUS_NEW [2]; toy_frame 1 STATUS_KEEP [3]; toy_frame 2 STATUS_KEEP [4];
   toy_frame 1 STATUS_NEW [5]; toy_frame 1 STATUS_KEEP [6]].

Lemma toy_frames_ok : exists encs, Forall2 (fun f b => frame_wf f /\ Xudp.encode_frame f = Ok b) toy_frames encs.
Proof.
  assert (forall sid st b, uint_ok 16 sid -> st = STATUS_NEW \/ st = STATUS_KEEP -> frame_wf (toy_frame sid st b)) as Hwf.
  { intros sid st b Hs Hst. split; [done|]. split; [split; done|]. split; [done|]. split; [|done]. split; [done|].
    split; [split; cbn; lia|]. split; [split; [done|]; by repeat constructor|done]. }
  eexists. unfold toy_frames.
  repeat (constructor; [split; [apply Hwf; [split; lia|by auto]|vm_compute; reflexivity]|]). constructor.
Qed.

Lemma xudp_routing_witness :
  exists encs st1 acts, serve_xudp toy_env (mk_source (concat encs) AtEof) (toy_dstate WPlain) = (st1, Fail (DXudp (XIo UnexpectedEof))) /\
    d_log st1 = [] ++ acts /\
    omap (message_of 0) acts = frame_data (toy_frame 1 STATUS_NEW [1]) ++ session_data 1 (drop 1 toy_frames) /\
    session_data 1 (drop 1 toy_frames) = [(mk_target (Ipv4 [10; 0; 0; 1]) 53, [3])].
Proof.
  destruct toy_frames_ok as [encs Hencs].
  destruct (xudp_routing toy_env [] (toy_frame 1 STATUS_NEW [1]) (drop 1 toy_frames) encs (toy_dstate WPlain) _ _ Hencs eq_refl
    ltac:(vm_compute; reflexivity)) as (acts & Hs & Hl & Hm & _).
  exists encs. eexists _, acts. split; [exact Hs|]. split; [exact Hl|]. split; [exact Hm|]. reflexivity.
Defined.
