(* ===== verification/EndToEnd.v ===== *)
(** The components together: an encrypted TCP session from the client's first byte to the
    target and back.  The client is the one of [EncHandshake]; the server is
    [Dispatch.serve] with the handshake, the record layer, the header mask, the request
    decoder and the pump. *)

From S2P Require Import Prelude Address Addons Header Xudp Vision Kdf Record Xor Stream TlsKeys EncKeys EncHandshake Metrics Dispatch.

Section carried.
Context `{Aead} `{KeyStream} `{!AeadLaws}.

Lemma sealed_len s p s' r : seal s p = (s', Ok r) -> len p <= len r.
Proof.
  unfold seal. destruct (8192 <? len p); [done|]. destruct (encode_header _) as [h|]; [|done]. unfold seal_raw.
  destruct (aead_seal _ _ _ _ p) as [c|] eqn:E; cbn [ok_or]; [|done]. intros [= _ <-]. apply seal_length in E.
  rewrite len_app. pose proof (len_nonneg h). unfold TAG_LEN in E. lia.
Qed.

Lemma sealed_all_len s ps s' rs : seal_all s ps = (s', Ok rs) -> len (concat ps) <= len (concat rs).
Proof.
  revert s rs. induction ps as [|p ps IH]; intros s rs; cbn; [by intros [= _ <-]|].
  destruct (seal s p) as [s1 [r|]] eqn:E; [|done]. destruct (seal_all s1 ps) as [s2 [rs'|]] eqn:E2; [|done].
  intros [= -> <-]. cbn. rewrite !len_app. apply sealed_len in E. apply IH in E2. lia.
Qed.

Lemma carries_len c x plain sent w' : carries (WEncrypted c x) plain sent w' -> (length plain <= length sent)%nat.
Proof.
  destruct w' as [|c' x']; [done|]. intros (ps & rs & Hs & <- & _ & Hm). apply sealed_all_len in Hs. unfold len in Hs.
  destruct x as [x|], x' as [x'|]; cbn in Hm; try done; [|subst; lia]. apply byte_fold_length in Hm. lia.
Qed.

(** The server reads what the client has sealed. *)
Lemma decrypted_carried c x plain sent w' :
  mask_ok x -> carries (WEncrypted c x) plain sent w' -> bytes_ok sent ->
  decrypted c (peer <$> x) (mk_source sent AtEof) = Val (mk_source plain AtEof).
Proof.
  intros Hx Hc Hok. unfold decrypted. cbn [content at_end].
  pose proof (client_reads_carried (WEncrypted c x) plain sent w' (as_frags sent) (length sent + 3) (Z.to_nat 32768)) as Hr.
  cbn [client_reads] in Hr. rewrite Hr; [done|done|done| | |lia|].
  - unfold as_frags. destruct sent; [constructor|]. constructor; [by split|constructor].
  - unfold as_frags. destruct sent as [|b sent]; [done|]. cbn. by rewrite app_nil_r.
  - apply carries_len in Hc. unfold as_frags. destruct sent; cbn [length] in *; lia.
Qed.
End carried.

(** A client that keeps its side after the handshake: it seals and masks what it sends,
    and reads the downlink after the hello. *)
Definition client_writer (m : EncryptionMode) (united iv ticket : bytes) (write : aead_state) : ProtocolWriter :=
  WEncrypted write (client_xors m united iv ticket).1.

Lemma client_xors_ok m united iv ticket : mask_ok (client_xors m united iv ticket).1.
Proof. unfold client_xors. by destruct (bool_decide _). Qed.

Lemma server_mask_ok m united iv ticket : mask_ok (peer <$> (client_xors m united iv ticket).2).
Proof. unfold client_xors. by destruct (bool_decide _). Qed.

Lemma peer_peer (x : option header_xor) : peer <$> (peer <$> x) = x.
Proof. destruct x as [[? ? ? ? ? d]|]; cbn; [|done]. unfold peer. cbn. by rewrite negb_involutive. Qed.

Section session.
Context `{Aead} `{KeyStream} `{X25519} `{MlKem} `{Blake3}.
Context `{!AeadLaws} `{!X25519Laws} `{!X25519Canonical} `{!MlKemLaws} `{!Blake3Laws}.

(** The part of a session after the handshake: a plain TCP request of a known user. *)
Lemma serve_tcp_request D e h u a data st :
  request_wf h -> cmd h = Tcp -> req_address h = Some a -> get_shared (dp_validator D) (raw_id h) = Some u -> user_flow u = [] ->
  e_permit e = true -> e_connect e a (port h) = Some (Ok tt) -> downlink_open st ->
  exists outs st1, d_sink st1 = mk_sink (delivered (d_sink st) ++ outs) None /\ downlink_open st1 /\
    d_log st1 = d_log st ++ [AConnect a (port h)] /\ carries (d_writer st) [version h; 0] (concat outs) (d_writer st1) /\
    ('(u, h, a, reader) ← request_header_of D e (mk_source (request_bytes h [0] ++ data) AtEof);
     if negb (flow_ok u a) then fail FlowMismatch
     else serve_request e h (if bytes_eqb (flow a) XRV then Some (raw_id h) else None) reader) st
    = with_target (pump_tcp (e_tcp e) (Some (mk_source data AtEof)) None) st1.
Proof.
  intros Hwf Hcmd Ha Hu Hflow Hpermit Hconn [Hopen Hw]. destruct (d_sink st) as [dl sl] eqn:Esink. cbn in Hopen. subst sl.
  destruct (writer_send_ok (d_writer st) dl [version h; 0] Hw) as (w' & outs & Hsend & Hw' & Hc).
  exists outs, (log_action (set_writer st w' (mk_sink (dl ++ outs) None)) (AConnect a (port h))).
  split; [done|]. split; [by split|]. split; [done|]. split; [done|].
  rewrite dm_bind_eq. unfold request_header_of.
  rewrite (decode_request_bytes (dp_validator D) h u addons_default [0] data AtEof Hwf Hu eq_refl (or_intror eq_refl)).
  cbn [mret dm_ret]. unfold flow_ok. rewrite Hflow. cbn [flow addons_default]. rewrite bytes_eqb_refl. cbn [andb orb negb].
  change (bytes_eqb [] XRV) with false. cbv iota. unfold serve_request. rewrite dm_bind_eq. unfold pure at 1.
  change (encode_response_header (version h) addons_default) with (@Ok header_error _ [version h; 0]). cbn [lift].
  rewrite dm_bind_eq. unfold send. rewrite Esink, Hsend, Hcmd, Ha, dm_bind_eq. cbn [pure lift ok_or].
  unfold serve_tcp. rewrite dm_bind_eq, Hpermit. cbn [acquire mret dm_ret]. rewrite dm_bind_eq. cbn [act].
  rewrite dm_bind_eq, Hconn. done.
Qed.

(** The pump inside the gauge. *)
Lemma target_pumped evs s st st' r :
  downlink_open st -> with_target (pump_tcp evs (Some s) None) st = (st', r) ->
  exists acts outs rest down, d_log st' = d_log st ++ acts /\ d_sink st' = mk_sink (delivered (d_sink st) ++ outs) None /\
    content s = concat (written <$> acts) ++ rest /\ (AShutdown ∈ acts -> rest = [] /\ at_end s = AtEof) /\
    carries (d_writer st) down (concat outs) (d_writer st') /\ (r = Val tt -> down = downs evs).
Proof.
  intros Ho Hr. unfold with_target in Hr.
  destruct (pump_tcp evs (Some s) None _) as [st1 x] eqn:Ep.
  destruct (pump_tcp_pumped _ _ _ _ _ (Ho : downlink_open (set_metrics st _)) Ep) as (down & acts & [Hl (outs & Hs & Hc & Hw) _ (rest & Hrest & Hsh)] & Hd).
  exists acts, outs, rest, down.
  destruct x as [[]| | |]; injection Hr as <- <-; (split; [exact Hl|]); (split; [exact Hs|]); (split; [exact Hrest|]); (split; [exact Hsh|]); done.
Qed.

Lemma client_finish_write cl nfs hello ticket pfs write read :
  client_finish cl nfs hello = Some (ticket, pfs, write, read) -> write = aead_new (client_pfs cl) (pfs ++ nfs) (c_kind cl).
Proof.
  unfold client_finish. destruct (client_open _ _ _) as [[s1 response]|]; [|done]. cbn [mbind option_bind].
  destruct (mlkem_decapsulate _ _) as [ss|]; [|done]. cbn [mbind option_bind].
  destruct (client_open _ _ _) as [[s2 t]|]; [|done]. cbn [mbind option_bind].
  destruct (client_open _ _ _) as [[s3 n]|]; [|done]. cbn [mbind option_bind].
  destruct (client_open _ _ _) as [[s4 p]|]; [|done]. cbn [mbind option_bind]. by intros [= _ <- <- _].
Qed.

(** What the server answers to the opening of a handshake. *)
Definition server_reply (c : EncryptionConfig) (d : draws) (now : Z) (wire : bytes) : list bytes :=
  (run (handshake (Server_new c) d) (mk_source wire AtEof) now (Ok tt) ∅).1.1.2.

Lemma session_served c cl wire nfs v e h u a :
  config_wf c -> lifetimes_ok c -> length (d_ticket (e_draws e)) = 16%nat ->
  length (c_iv cl) = 16%nat -> len (c_padding cl) < 65520 ->
  client_start (Server_new c) cl = Some (wire, nfs) ->
  unambiguous (c_kind cl) (c_iv cl) nfs (take 18 (drop (Z.to_nat (16 + total_relay_len (srv_keys (Server_new c)))) wire)) ->
  was_contributory (diffie_hellman (d_secret (e_draws e)) (x25519_public (c_x cl))) = true ->
  request_wf h -> cmd h = Tcp -> req_address h = Some a -> get_shared v (raw_id h) = Some u -> user_flow u = [] ->
  e_permit e = true -> e_connect e a (port h) = Some (Ok tt) ->
  exists hello ticket pfs write read, client_finish cl nfs hello = Some (ticket, pfs, write, read) /\ len hello = 1279 /\
    server_reply c (e_draws e) (e_now e) wire = [hello] /\
    forall data sent w' st st' r,
      carries (client_writer (mode c) (pfs ++ nfs) (c_iv cl) ticket write) (request_bytes h [0] ++ data) sent w' -> bytes_ok sent ->
      sends_left (d_sink st) = None ->
      serve (mk_Dispatcher v (Some (Server_new c))) e (mk_source (wire ++ sent) AtEof) st = (st', r) ->
      exists acts outs rest, d_log st' = d_log st ++ AConnect a (port h) :: acts /\
        delivered (d_sink st') = delivered (d_sink st) ++ hello :: outs /\
        data = concat (written <$> acts) ++ rest /\ (AShutdown ∈ acts -> rest = []) /\
        (r = Val tt -> forall frags room, inner_ok frags -> wire_of frags = concat outs -> (0 < room)%nat ->
           Stream.drain (length (downs (e_tcp e)) + length frags + 3)
             (enc_reader_new frags AtEof read (client_xors (mode c) (pfs ++ nfs) (c_iv cl) ticket).2) room
           = Some ([version h; 0] ++ downs (e_tcp e), None)).
Proof.
  intros Hwf Hlo Hd Hiv Hpad Hstart Hu Hw Hreq Hcmd Ha Huser Hflow Hpermit Hconn.
  destruct (one_rtt_run c cl (e_draws e) wire nfs (e_now e) Hwf Hlo Hd Hiv Hpad Hstart Hu Hw)
    as (hello & ticket & pfs & l & write & read & r0 & Hrun & Hlen & _ & _ & _ & Hfin & Hdec & Henc & _ & Hin & Hout).
  exists hello, ticket, pfs, write, read. split; [done|]. split; [done|].
  split; [unfold server_reply; by rewrite <- (app_nil_r wire), Hrun|].
  intros data sent w' st st' r Hcar Hok Hopen Hserve.
  unfold serve in Hserve. rewrite dm_bind_eq in Hserve. unfold encryption_handshake in Hserve. cbn [dp_encryption] in Hserve.
  rewrite Hopen, Hrun in Hserve. rewrite Hdec, Henc, Hin, Hout in Hserve.
  assert (decrypted write (peer <$> (client_xors (mode c) (pfs ++ nfs) (c_iv cl) ticket).1) (mk_source sent AtEof)
    = Val (mk_source (request_bytes h [0] ++ data) AtEof)) as Hplain by (eapply decrypted_carried; [apply client_xors_ok|exact Hcar|done]).
  rewrite Hplain in Hserve. destruct (d_sink st) as [dl sl] eqn:Esink. cbn [sends_left] in Hopen. subst sl.
  destruct hello as [|b0 hello]; [done|]. cbn [fold_left sink_send sends_left delivered fst] in Hserve.
  set (st1 := set_writer _ _ _) in Hserve.
  destruct (serve_tcp_request (mk_Dispatcher v (Some (Server_new c))) e h u a data st1 Hreq Hcmd Ha Huser Hflow Hpermit Hconn)
    as (outs1 & st2 & Hs2 & Ho2 & Hl2 & Hc2 & Heq); [split; [done|apply server_mask_ok]|].
  rewrite Heq in Hserve.
  destruct (target_pumped _ _ _ _ _ Ho2 Hserve) as (acts & outs & rest & down & Hl & Hs & Hrest & Hsh & Hc & Hdown).
  exists acts, (outs1 ++ outs), rest. split; [rewrite Hl, Hl2; cbn; by rewrite <- app_assoc|].
  split; [rewrite Hs; cbn [delivered]; rewrite Hs2; cbn; by rewrite <- !app_assoc|]. split; [done|]. split; [by intros Hin2; apply Hsh|].
  intros Hv frags room Hfr Hwire Hroom. rewrite (Hdown Hv) in Hc. pose proof (carries_app _ _ _ _ _ _ _ Hc2 Hc) as Hall.
  rewrite <- concat_app, <- Hwire in Hall.
  pose proof (client_reads_carried _ _ _ _ frags (length (downs (e_tcp e)) + length frags + 3) room (server_mask_ok _ _ _ _ : writer_ok (d_writer st1)) Hall Hfr eq_refl Hroom) as Hread.
  cbn [client_reads d_writer st1 set_writer] in Hread. rewrite peer_peer in Hread. apply Hread. cbn [length app]. lia.
Qed.
(** C2: An encrypted TCP session works end to end.  For a client that knows the public
    keys and a user of the table, over any relay chain, mode and fragmentation of the
    records: the handshake completes; the server then decrypts the request, connects to
    exactly its address and port, and writes to the target a prefix of the data the
    client sent after its request, all of it before shutting the target down; and when
    the target has ended, the client, reading the downlink after the hello in any
    fragments, decrypts the response header followed by exactly the target's bytes. *)
Theorem encrypted_session_end_to_end c cl wire nfs v e h u a :
  config_wf c -> lifetimes_ok c -> length (d_ticket (e_draws e)) = 16%nat ->
  length (c_iv cl) = 16%nat -> len (c_padding cl) < 65520 ->
  client_start (Server_new c) cl = Some (wire, nfs) ->
  unambiguous (c_kind cl) (c_iv cl) nfs (take 18 (drop (Z.to_nat (16 + total_relay_len (srv_keys (Server_new c)))) wire)) ->
  was_contributory (diffie_hellman (d_secret (e_draws e)) (x25519_public (c_x cl))) = true ->
  request_wf h -> cmd h = Tcp -> req_address h = Some a -> get_shared v (raw_id h) = Some u -> user_flow u = [] ->
  e_permit e = true -> e_connect e a (port h) = Some (Ok tt) ->
  exists hello ticket pfs write read, client_finish cl nfs hello = Some (ticket, pfs, write, read) /\ len hello = 1279 /\
    forall data sent w' st st' r,
      carries (client_writer (mode c) (pfs ++ nfs) (c_iv cl) ticket write) (request_bytes h [0] ++ data) sent w' -> bytes_ok sent ->
      sends_left (d_sink st) = None ->
      serve (mk_Dispatcher v (Some (Server_new c))) e (mk_source (wire ++ sent) AtEof) st = (st', r) ->
      exists acts outs rest, d_log st' = d_log st ++ AConnect a (port h) :: acts /\
        delivered (d_sink st') = delivered (d_sink st) ++ hello :: outs /\
        data = concat (written <$> acts) ++ rest /\ (AShutdown ∈ acts -> rest = []) /\
        (r = Val tt -> forall frags room, inner_ok frags -> wire_of frags = concat outs -> (0 < room)%nat ->
           Stream.drain (length (downs (e_tcp e)) + length frags + 3)
             (enc_reader_new frags AtEof read (client_xors (mode c) (pfs ++ nfs) (c_iv cl) ticket).2) room
           = Some ([version h; 0] ++ downs (e_tcp e), None)).
Proof.
  intros Hwf Hlo Hd Hiv Hpad Hstart Hu Hw Hreq Hcmd Ha Huser Hflow Hpermit Hconn.
  destruct (session_served c cl wire nfs v e h u a) as (hello & ticket & pfs & write & read & Hfin & Hlen & _ & Hall); try done.
  exists hello, ticket, pfs, write, read. split; [done|]. split; [done|]. exact Hall.
Qed.
End session.

(** * Witness *)

#[local] Existing Instance Record.toy_aead.
#[local] Existing Instance Record.toy_laws.
#[local] Existing Instance Xor.toy_keystream.
#[local] Existing Instance toy_dh.
#[local] Existing Instance toy_dh_laws.
#[local] Existing Instance toy_dh_canonical.
#[local] Existing Instance toy_mlkem.
#[local] Existing Instance toy_mlkem_laws.
#[local] Existing Instance toy_blake3.
#[local] Existing Instance toy_blake3_laws.

Definition toy_native : EncryptionConfig := mk_EncryptionConfig Native 0 0 [] [SeedX25519 (replicate 32 9)].
Definition toy_native_client : client :=
  mk_client (replicate 16 5) [replicate 32 11] (replicate 32 13) (replicate 32 14) (replicate 32 15) Aes256Gcm [].

Lemma toy_native_wf : config_wf toy_native.
Proof. split; cbn; [split; lia|split; lia|by repeat constructor|by repeat constructor; cbn; lia|done]. Qed.

Lemma toy_request_wf : request_wf toy_request.
Proof.
  split; [done|]. split; [done|]. split; [split; cbn; lia|]. split; [split; [done|]; by repeat constructor|done].
Qed.

Lemma toy_seal_bytes s p s' r : bytes_ok (nonce s) -> bytes_ok p -> seal s p = (s', Ok r) -> bytes_ok r.
Proof.
  intros Hn Hp. unfold seal. destruct (8192 <? len p); [done|]. unfold encode_header. destruct (negb _); [done|].
  unfold seal_raw. cbn [aead_seal Record.toy_aead ok_or]. intros Hs. assert (r = ([23; 3; 3] ++ be_bytes 2 (wrap 16 (len p + TAG_LEN))) ++ p ++ toy_tag (increment_nonce (nonce s))) as ->.
  { by injection Hs. }
  repeat (apply bytes_ok_app; split); [by repeat constructor|apply be_bytes_ok|done|].
  unfold toy_tag. apply bytes_ok_take, bytes_ok_app. split; [by apply increment_nonce_ok|]. by apply bytes_ok_replicate.
Qed.

Definition toy_upload : bytes := request_bytes toy_request [0] ++ [7; 8; 9].

Lemma encrypted_session_end_to_end_witness :
  exists wire nfs hello ticket pfs write read sent st' r acts outs rest,
    client_start (Server_new toy_native) toy_native_client = Some (wire, nfs) /\
    client_finish toy_native_client nfs hello = Some (ticket, pfs, write, read) /\
    serve (mk_Dispatcher (validator_new [toy_user]) (Some (Server_new toy_native))) toy_env (mk_source (wire ++ sent) AtEof)
      (toy_dstate WPlain) = (st', r) /\
    d_log st' = [] ++ AConnect (Ipv4 [10; 0; 0; 1]) 443 :: acts /\ delivered (d_sink st') = [] ++ hello :: outs /\
    [7; 8; 9] = concat (written <$> acts) ++ rest /\ (AShutdown ∈ acts -> rest = []).
Proof.
  destruct (client_start_total toy_native toy_native_client) as (wire & nfs & Hs); [done|done|done|done|].
  destruct (encrypted_session_end_to_end toy_native toy_native_client wire nfs (validator_new [toy_user]) toy_env toy_request
    (mk_user (process_uuid (replicate 16 7)) [] []) (Ipv4 [10; 0; 0; 1])) as (hello & ticket & pfs & write & read & Hf & Hlen & Hall).
  - exact toy_native_wf.
  - split; cbn; lia.
  - reflexivity.
  - reflexivity.
  - reflexivity.
  - exact Hs.
  - by left.
  - reflexivity.
  - exact toy_request_wf.
  - reflexivity.
  - reflexivity.
  - vm_compute. reflexivity.
  - reflexivity.
  - reflexivity.
  - reflexivity.
  - pose proof (client_finish_write _ _ _ _ _ _ _ Hf) as Hwrite.
    destruct (seal_succeeds write toy_upload) as (c' & sent & Hseal); [unfold len; cbn; lia|].
    destruct (serve (mk_Dispatcher (validator_new [toy_user]) (Some (Server_new toy_native))) toy_env (mk_source (wire ++ sent) AtEof)
      (toy_dstate WPlain)) as [st' r] eqn:Eserve.
    assert (carries (client_writer Native (pfs ++ nfs) (c_iv toy_native_client) ticket write) toy_upload sent (WEncrypted c' None)) as Hcar.
    { exists [toy_upload], [sent]. cbn [seal_all]. rewrite Hseal. split; [reflexivity|]. split; [cbn [concat]; by rewrite app_nil_r|].
      split; [constructor; [unfold len; cbn; lia|constructor]|]. cbn [concat masked_as client_xors]. by rewrite app_nil_r. }
    assert (bytes_ok sent) as Hbytes.
    { eapply toy_seal_bytes; [|apply (bytes_okb_ok toy_upload); vm_compute; reflexivity|exact Hseal]. rewrite Hwrite. by apply bytes_ok_replicate. }
    destruct (Hall [7; 8; 9] sent (WEncrypted c' None) (toy_dstate WPlain) st' r Hcar Hbytes eq_refl Eserve)
      as (acts & outs & rest & Hl & Hd & Hc & Hsh & _).
    exists wire, nfs, hello, ticket, pfs, write, read, sent, st', r, acts, outs, rest. split; [exact Hs|]. split; [exact Hf|].
    split; [exact Eserve|]. split; [exact Hl|]. split; [exact Hd|]. split; [exact Hc|exact Hsh].
Defined.
