(* ===== verification/Whole.v ===== *)
(** The whole tunnel: an encrypted TCP session whose bytes travel in posts and come back in
    the body of a download.  [Tunnel] carries the client's bytes to the reader of a session
    and the dispatcher's chunks to the client; [EndToEnd] is the session in between. *)

From S2P Require Import Prelude Address Addons Header Xudp Vision Kdf Record Xor Stream TlsKeys EncKeys EncHandshake Metrics Dispatch EndToEnd.
From S2P Require Budget Reorder Session Xhttp Site Config Origin Tunnel.
Import Tunnel.

Section whole.
Context `{Aead} `{KeyStream} `{X25519} `{MlKem} `{Blake3}.
Context `{!AeadLaws} `{!X25519Laws} `{!X25519Canonical} `{!MlKemLaws} `{!Blake3Laws}.
Context `{Xhttp.HeaderText} `{Base64Url}.

(** What the posts of a session carry: payload [f k] for every [k] below [n], all answered
    200 by session object [sid]. *)
Definition posted_all (o : Origin.origin) (rs : list Origin.request) (w : world) (sid : nat) (i : bytes) (f : Z -> bytes) (n : Z) : Prop :=
  (forall r q p, r ∈ rs -> first_call o r = Some (CallPush i q p) -> p = f q /\ q < n) /\
  (forall k, 0 <= k < n -> exists m r st p, w_tasks w !! m = Some (r, st) /\ first_call o r = Some (CallPush i k p) /\
    stage_session st = Some sid /\ answered o (r, st) = Some 200).

(** C1: The tunnel works end to end.  Let a client that knows the public keys and a user of
    the table cut the opening of its handshake and its sealed request and data into
    numbered posts, in any way, and send them in any order, among any other requests, and
    open the download of their session.  When all its posts have been answered 200, the
    session has exactly these bytes for the dispatcher; serving them connects to the
    requested address and writes to the target a prefix of the client's data, all of it
    before shutting it down; and the client whose download body has caught up with what
    the dispatcher sent finds the answer to its handshake in the first frame and decrypts
    from the others the response header and exactly the target's bytes. *)
Theorem tunnel_end_to_end o tc b rs acts acts' w w' c cl wire nfs v e h u a hello :
  padding_sane o -> Forall (fun r => Origin.headers_ok (Origin.r_headers r)) rs ->
  0 <= Session.max_sessions tc -> Session.max_sessions tc + Z.max (Session.cfg_shards tc) 1 < 2 ^ 64 ->
  wrun o acts (world_new tc b rs) = Some w -> wrun o acts' w = Some w' ->
  config_wf c -> lifetimes_ok c -> length (d_ticket (e_draws e)) = 16%nat ->
  length (c_iv cl) = 16%nat -> len (c_padding cl) < 65520 ->
  client_start (Server_new c) cl = Some (wire, nfs) ->
  unambiguous (c_kind cl) (c_iv cl) nfs (take 18 (drop (Z.to_nat (16 + total_relay_len (srv_keys (Server_new c)))) wire)) ->
  was_contributory (diffie_hellman (d_secret (e_draws e)) (x25519_public (c_x cl))) = true ->
  request_wf h -> cmd h = Tcp -> req_address h = Some a -> get_shared v (raw_id h) = Some u -> user_flow u = [] ->
  e_permit e = true -> e_connect e a (port h) = Some (Ok tt) ->
  server_reply c (e_draws e) (e_now e) wire = [hello] ->
  exists ticket pfs write read, client_finish cl nfs hello = Some (ticket, pfs, write, read) /\
    forall data sent wr st st' r sid s hi f n,
      carries (client_writer (mode c) (pfs ++ nfs) (c_iv cl) ticket write) (request_bytes h [0] ++ data) sent wr -> bytes_ok sent ->
      Session.heap (w_table w) !! sid = Some s -> is_open (Session.up s) -> Reorder.holder (Session.up s) = None -> w_hist w !! sid = Some (Some hi) ->
      0 <= n <= 2 ^ 64 -> concat (f <$> seqZ 0 n) = wire ++ sent -> posted_all o rs w sid (Session.id s) f n ->
      d_sink st = mk_sink [] None ->
      serve (mk_Dispatcher v (Some (Server_new c))) e (mk_source (Reorder.read_out hi ++ Reorder.in_flight (Session.up s)) AtEof) st = (st', r) ->
      exists acts outs rest, d_log st' = d_log st ++ AConnect a (port h) :: acts /\ delivered (d_sink st') = hello :: outs /\
        data = concat (written <$> acts) ++ rest /\ (AShutdown ∈ acts -> rest = []) /\
        forall j req key got d, w_tasks w' !! j = Some (req, Streaming sid key got) -> w_down w' !! sid = Some (d, delivered (d_sink st')) ->
          Session.dl_chan d = [] ->
          got = hello :: outs /\
          (r = Val tt -> forall frags room, inner_ok frags -> wire_of frags = concat (tail got) -> (0 < room)%nat ->
             Stream.drain (length (downs (e_tcp e)) + length frags + 3)
               (enc_reader_new frags AtEof read (client_xors (mode c) (pfs ++ nfs) (c_iv cl) ticket).2) room
             = Some ([version h; 0] ++ downs (e_tcp e), None)).
Proof.
  intros Hp Hh Hcap Hsmall Hrun Hrun' Hwf Hlo Hd Hiv Hpad Hstart Hu Hw Hreq Hcmd Ha Huser Hflow Hpermit Hconn Hreply.
  destruct (session_served c cl wire nfs v e h u a) as (hello' & ticket & pfs & write & read & Hfin & _ & Hreply' & Hall); try done.
  rewrite Hreply in Hreply'. injection Hreply' as <-. exists ticket, pfs, write, read. split; [done|].
  intros data sent wr st st' r sid s hi f n Hcar Hok Hs Ho Hn Hhi Hle Hcat [Hf Hans] Hsink Hserve.
  rewrite (session_complete Hp Hh Hcap Hsmall Hrun f n sid s hi Hs Ho Hn Hhi Hf Hans Hle), Hcat in Hserve.
  destruct (Hall data sent wr st st' r Hcar Hok) as (ac & outs & rest & Hlog & Hdel & Hdata & Hsh & Hread); [by rewrite Hsink|done|].
  rewrite Hsink in Hdel. exists ac, outs, rest. split; [done|]. split; [exact Hdel|]. split; [done|]. split; [done|].
  intros j req key got d Hj Hdn Hch. pose proof (wrun_down o _ _ _ (wrun_down o _ _ _ (world_new_down tc b rs) Hrun) Hrun') as Hdok.
  pose proof (do_stream _ Hdok _ _ _ _ _ _ _ Hj Hdn) as Hgot. rewrite Hch, app_nil_r in Hgot. cbn in Hdel. rewrite Hdel in Hgot.
  split; [done|]. subst got. cbn [tail]. by apply Hread.
Qed.
End whole.

(** * Witness *)

#[local] Existing Instance Record.toy_aead.
#[local] Existing Instance Record.toy_laws.
#[local] Existing Instance Xor.toy_keystream.
#[local] Existing Instance toy_dh.
#[local] Existing Instance toy_dh_laws.
#[local] Existing Instance toy_dh_canonical.
#[local] Existing Instance toy_mlkem.
#[local] Existing Instance toy_mlkem_laws.
#[local] Existing Instance toy_blake3.
#[local] Existing Instance toy_blake3_laws.
#[local] Existing Instance Origin.toy_text.
#[local] Existing Instance Origin.toy_base64.

(** The client's opening, the server's answer and the sealed request with three bytes. *)
Definition toy_opening : bytes * bytes := Eval vm_compute in default ([], []) (client_start (Server_new toy_native) toy_native_client).
Definition toy_hello : bytes := Eval vm_compute in default [] (head (server_reply toy_native (e_draws toy_env) (e_now toy_env) toy_opening.1)).
Definition toy_keys : option (bytes * bytes * aead_state * aead_state) := Eval vm_compute in client_finish toy_native_client toy_opening.2 toy_hello.
Definition toy_sealed : aead_state * bytes :=
  Eval vm_compute in match toy_keys with
  | Some (_, _, write, _) => match seal write toy_upload with (s, Ok b) => (s, b) | (s, _) => (s, []) end
  | None => (aead_new [] [] Aes256Gcm, [])
  end.
Definition toy_stream : bytes := toy_opening.1 ++ toy_sealed.2.
Definition toy_server : Dispatcher := mk_Dispatcher (validator_new [toy_user]) (Some (Server_new toy_native)).
Definition toy_served : dstate * comp DispatchError unit :=
  Eval vm_compute in serve toy_server toy_env (mk_source toy_stream AtEof) (toy_dstate WPlain).

(** The first 700 bytes go in post 0, which arrives second; the download is opened first.
    The session reads some bytes between the posts; then the answers come down. *)
Definition toy_cut (k : Z) : bytes := if k =? 0 then take 700 toy_stream else drop 700 toy_stream.
Definition toy_whole_origin : Origin.origin :=
  Origin.mk_origin (Config.mk_xhttp_config (Origin.str "/p/") [] 4000 30 30 true 8192 4 8 Config.Body [])
    (Origin.o_site Origin.toy_origin).
Definition toy_posts : list Origin.request :=
  [toy_get; Origin.toy_request "/p/ab/1" "x_padding=XXXX" [Origin.FData (toy_cut 1)];
   Origin.toy_request "/p/ab/0" "x_padding=XXXX" [Origin.FData (toy_cut 0)]].
Definition toy_limits : Session.config := Session.mk_config 2 4 4 4000 4.

Definition toy_up_acts : list act :=
  [ATask 0 false; ATask 0 false; ATask 0 false; ATask 1 false; ATask 1 false; ATask 2 false; ATask 2 false;
   ATask 2 false; ATable (Session.EUplink 0 (Reorder.ERead 500)); ATask 2 false].
Definition toy_down_acts : list act := (ASend 0 <$> delivered (d_sink toy_served.1)) ++ [ABody 0; ABody 0; ABody 0].

Definition toy_start : world := world_new toy_limits None toy_posts.
Definition toy_posted : world := default toy_start (wrun toy_whole_origin toy_up_acts toy_start).
Definition toy_answered : world := default toy_posted (wrun toy_whole_origin toy_down_acts toy_posted).

Lemma toy_opened : client_start (Server_new toy_native) toy_native_client = Some toy_opening.
Proof. vm_compute. reflexivity. Qed.

Lemma toy_replied : server_reply toy_native (e_draws toy_env) (e_now toy_env) toy_opening.1 = [toy_hello].
Proof. vm_compute. reflexivity. Qed.

Lemma toy_finished : client_finish toy_native_client toy_opening.2 toy_hello = toy_keys.
Proof. vm_compute. reflexivity. Qed.

Lemma toy_seals t pfs write read : toy_keys = Some (t, pfs, write, read) -> seal write toy_upload = (toy_sealed.1, Ok toy_sealed.2).
Proof. intros Hk. vm_compute in Hk. injection Hk as _ _ <- _. vm_compute. reflexivity. Qed.

Lemma toy_serves : serve toy_server toy_env (mk_source toy_stream AtEof) (toy_dstate WPlain) = toy_served.
Proof. vm_compute. reflexivity. Qed.

Lemma toy_up : wrun toy_whole_origin toy_up_acts toy_start = Some toy_posted.
Proof. vm_compute. reflexivity. Qed.

Lemma toy_down : wrun toy_whole_origin toy_down_acts toy_posted = Some toy_answered.
Proof. vm_compute. reflexivity. Qed.

Lemma toy_post_calls : first_call toy_whole_origin <$> toy_posts =
  [Some (CallOpen (Origin.str "ab")); Some (CallPush (Origin.str "ab") 1 (toy_cut 1)); Some (CallPush (Origin.str "ab") 0 (toy_cut 0))].
Proof. vm_compute. reflexivity. Qed.

Lemma toy_post_ends : (fun x => (x.1, stage_session x.2, answered toy_whole_origin x)) <$> w_tasks toy_posted = (fun r => (r, Some 0%nat, Some 200)) <$> toy_posts.
Proof. vm_compute. reflexivity. Qed.

Lemma toy_posts_all : posted_all toy_whole_origin toy_posts toy_posted 0 (Origin.str "ab") toy_cut 2.
Proof.
  split.
  - intros r q p Hr Hc. pose proof (post_listed _ _ _ _ _ _ _ toy_post_calls Hr Hc) as Hin. clear Hr Hc. rewrite !elem_of_cons in Hin.
    destruct Hin as [He|[He|[He|He]]]; [discriminate He|injection He as -> ->; by split|injection He as -> ->; by split|by apply elem_of_nil in He].
  - intros k Hk. assert (k = 0 \/ k = 1) as [->| ->] by lia;
      [apply (post_answered _ _ _ _ _ 2 _ (toy_cut 0) toy_post_ends)|apply (post_answered _ _ _ _ _ 1 _ (toy_cut 1) toy_post_ends)];
      rewrite toy_post_calls; reflexivity.
Qed.

Lemma toy_cut_all : concat (toy_cut <$> seqZ 0 2) = toy_opening.1 ++ toy_sealed.2.
Proof. vm_compute. reflexivity. Qed.

Lemma toy_post_headers : Forall (fun r => Origin.headers_ok (Origin.r_headers r)) toy_posts.
Proof. by repeat (apply Forall_cons_2 || apply Forall_nil_2). Qed.

Lemma toy_posted_session : exists s h, Session.heap (w_table toy_posted) !! 0%nat = Some s /\ w_hist toy_posted !! 0%nat = Some (Some h) /\
  Session.id s = Origin.str "ab" /\ is_open (Session.up s) /\ Reorder.holder (Session.up s) = None /\
  Reorder.read_out h ++ Reorder.in_flight (Session.up s) = toy_stream.
Proof. do 2 eexists. split; [vm_compute; reflexivity|]. split; [vm_compute; reflexivity|]. repeat split. Qed.

Lemma toy_sealed_ok : bytes_ok toy_sealed.2.
Proof. apply (bytes_okb_ok toy_sealed.2). vm_compute. reflexivity. Qed.

Lemma toy_carries t pfs write read : toy_keys = Some (t, pfs, write, read) ->
  carries (client_writer Native (pfs ++ toy_opening.2) (c_iv toy_native_client) t write) (request_bytes toy_request [0] ++ [7; 8; 9]) toy_sealed.2
    (WEncrypted toy_sealed.1 None).
Proof.
  intros Hk. exists [toy_upload], [toy_sealed.2]. cbn [seal_all]. rewrite (toy_seals _ _ _ _ Hk). split; [reflexivity|].
  split; [cbn [concat]; by rewrite app_nil_r|]. split; [constructor; [unfold len; cbn; lia|constructor]|].
  cbn [concat masked_as client_xors]. by rewrite app_nil_r.
Qed.

Lemma toy_body : exists req key got d, w_tasks toy_answered !! 0%nat = Some (req, Streaming 0 key got) /\
  w_down toy_answered !! 0%nat = Some (d, delivered (d_sink toy_served.1)) /\ Session.dl_chan d = [] /\ tail got = tail (delivered (d_sink toy_served.1)).
Proof. do 4 eexists. split; [vm_compute; reflexivity|]. split; [vm_compute; reflexivity|]. split; vm_compute; reflexivity. Qed.

(** The target gets the three bytes of the client, and the client those of the target. *)
Lemma tunnel_end_to_end_witness :
  exists ticket pfs write read acts rest frames, client_finish toy_native_client toy_opening.2 toy_hello = Some (ticket, pfs, write, read) /\
    d_log toy_served.1 = AConnect (Ipv4 [10; 0; 0; 1]) 443 :: acts /\ [7; 8; 9] = concat (written <$> acts) ++ rest /\
    forall frags, inner_ok frags -> wire_of frags = concat frames ->
      Stream.drain (length (downs (e_tcp toy_env)) + length frags + 3)
        (enc_reader_new frags AtEof read (client_xors Native (pfs ++ toy_opening.2) (c_iv toy_native_client) ticket).2) 5
      = Some ([version toy_request; 0] ++ downs (e_tcp toy_env), None).
Proof.
  destruct (tunnel_end_to_end toy_whole_origin toy_limits None toy_posts toy_up_acts toy_down_acts toy_posted toy_answered
    toy_native toy_native_client toy_opening.1 toy_opening.2 (validator_new [toy_user]) toy_env toy_request
    (mk_user (process_uuid (replicate 16 7)) [] []) (Ipv4 [10; 0; 0; 1]) toy_hello) as (ticket & pfs & write & read & Hf & Hall).
  - unfold padding_sane. cbn. lia.
  - exact toy_post_headers.
  - vm_compute. discriminate.
  - vm_compute. reflexivity.
  - exact toy_up.
  - exact toy_down.
  - exact toy_native_wf.
  - split; cbn; lia.
  - reflexivity.
  - reflexivity.
  - reflexivity.
  - rewrite toy_opened. by f_equal.
  - by left.
  - reflexivity.
  - exact toy_request_wf.
  - reflexivity.
  - reflexivity.
  - vm_compute. reflexivity.
  - reflexivity.
  - reflexivity.
  - reflexivity.
  - exact toy_replied.
  - pose proof Hf as Hk. rewrite toy_finished in Hk. destruct toy_posted_session as (s & h & Hs & Hh & Hi & Ho & Hn & Hst).
    destruct toy_body as (req & key & got & d & Hj & Hd & Hc & Ht).
    destruct (Hall [7; 8; 9] toy_sealed.2 (WEncrypted toy_sealed.1 None) (toy_dstate WPlain) toy_served.1 toy_served.2 0%nat s h toy_cut 2)
      as (acts & outs & rest & Hl & _ & Hdata & _ & Hdown);
      [exact (toy_carries _ _ _ _ Hk)|exact toy_sealed_ok|exact Hs|exact Ho|exact Hn|exact Hh|lia|exact toy_cut_all
      |rewrite Hi; exact toy_posts_all|reflexivity|rewrite Hst; exact toy_serves|].
    destruct (Hdown 0%nat req key got d Hj Hd Hc) as [_ Hread].
    exists ticket, pfs, write, read, acts, rest, (tail got). split; [exact Hf|]. split; [exact Hl|]. split; [exact Hdata|].
    intros frags Hfr Hw. apply Hread; [vm_compute; reflexivity|exact Hfr|exact Hw|lia].
Defined.
