(* ===== verification/Files.v ===== *)
(** The file operations of [src/management.rs] and [src/acme.rs] over a model of the file
    system.

    A path is its list of components and the file system a map from paths to entries.
    Every call to the system is one step: it may break, with or without a part of its
    effect, and the file system after it is recorded, so that a property of all recorded
    states is a property of what a crash or another process can see.  [exists],
    [is_file] and [is_dir] look without a step.  A symbolic link is an entry with a target
    beside it; reads follow it in the place of the directory of a file ([through]), the
    other calls that would follow one fail. *)

From S2P Require Import Prelude.

(** * Entries and paths *)

Abbreviation path := (list bytes) (only parsing).

Inductive node : Type :=
| File (body : bytes) (mode : Z)
| Dir (mode : Z)
| Link (target : bytes)
| Special.

#[global] Instance node_eq_dec : EqDecision node.
Proof. solve_decision. Defined.

Abbreviation files := (gmap (list bytes) node) (only parsing).

Inductive fs_error : Type :=
| NotFound | AlreadyExists | NotADirectory | IsADirectory | DirectoryNotEmpty | InvalidInput | NotUtf8 | Broken.

(** A boxed error: of the system, or a message. *)
Inductive failure : Type := FIo (e : fs_error) | FMessage (s : string).

(** [Path::strip_prefix]. *)
Fixpoint strip (d p : path) : option path :=
  match d, p with
  | [], _ => Some p
  | x :: d', y :: p' => if bytes_eqb x y then strip d' p' else None
  | _ :: _, [] => None
  end.

(** [Path::starts_with]. *)
Definition under (d p : path) : bool := match strip d p with Some _ => true | None => false end.

Definition parent (p : path) : option path := match p with [] => None | _ => Some (removelast p) end.

Definition is_present (m : files) (p : path) : bool := match m !! p with Some _ => true | None => false end.
Definition is_file (m : files) (p : path) : bool := match m !! p with Some (File _ _) => true | _ => false end.
Definition is_dir (m : files) (p : path) : bool := match m !! p with Some (Dir _) => true | _ => false end.

(** The directory of [p] exists. *)
Definition in_dir (m : files) (p : path) : bool := match parent p with Some d => is_dir m d | None => false end.

(** The file [p] names when its directory is a link. *)
Definition through (m : files) (p : path) : path :=
  match rev p with
  | c :: d => match m !! rev d with Some (Link t) => rev (tail d) ++ [t; c] | _ => p end
  | [] => p
  end.

(** Permission bits. *)
Definition octal (u g o : Z) : Z := 64 * u + 8 * g + o.

(** * Effects of the calls *)

Definition create_new_step (mode : Z) (p : path) (m : files) : result fs_error files :=
  if is_present m p then Err AlreadyExists
  else if in_dir m p then Ok (<[p := File [] mode]> m) else Err NotFound.

Definition append_step (p : path) (b : bytes) (m : files) : result fs_error files :=
  match m !! p with
  | Some (File old mode) => Ok (<[p := File (old ++ b) mode]> m)
  | _ => Err NotFound
  end.

Definition chmod_step (p : path) (mode : Z) (m : files) : result fs_error files :=
  match m !! p with
  | Some (File b _) => Ok (<[p := File b mode]> m)
  | Some (Dir _) => Ok (<[p := Dir mode]> m)
  | _ => Err NotFound
  end.

(** [fs::copy] of the first [n] bytes, with the permission bits. *)
Definition copy_step (n : nat) (src dst : path) (m : files) : result fs_error files :=
  match m !! src with
  | Some (File b mode) =>
      match m !! dst with
      | Some (File _ _) => Ok (<[dst := File (take n b) mode]> m)
      | None => if in_dir m dst then Ok (<[dst := File (take n b) mode]> m) else Err NotFound
      | _ => Err IsADirectory
      end
  | Some _ => Err InvalidInput
  | None => Err NotFound
  end.

Definition open_step (p : path) (m : files) : result fs_error files :=
  match m !! p with Some (File _ _) | Some (Dir _) => Ok m | _ => Err NotFound end.

(** A directory moves with everything below it. *)
Definition swap (a b q : path) : path :=
  match strip a q with
  | Some r => b ++ r
  | None => match strip b q with Some r => a ++ r | None => q end
  end.

Definition move (a b : path) (m : files) : files :=
  kmap (swap a b) (filter (fun x : path * node => under b x.1 = false) m).

Definition is_empty_dir (m : files) (d : path) : bool :=
  forallb (fun x : path * node => negb (under d x.1) || bool_decide (x.1 = d)) (map_to_list m).

Definition rename_step (a b : path) (m : files) : result fs_error files :=
  if under a b || under b a then if bool_decide (a = b) then Ok m else Err InvalidInput
  else if negb (in_dir m b) then Err NotFound
  else
    match m !! a, m !! b with
    | None, _ => Err NotFound
    | Some (Dir _), None => Ok (move a b m)
    | Some (Dir _), Some (Dir _) => if is_empty_dir m b then Ok (move a b m) else Err DirectoryNotEmpty
    | Some (Dir _), Some _ => Err NotADirectory
    | Some _, Some (Dir _) => Err IsADirectory
    | Some n, _ => Ok (<[b := n]> (delete a m))
    end.

Definition symlink_step (target : bytes) (p : path) (m : files) : result fs_error files :=
  if is_present m p then Err AlreadyExists
  else if in_dir m p then Ok (<[p := Link target]> m) else Err NotFound.

Definition remove_file_step (p : path) (m : files) : result fs_error files :=
  match m !! p with
  | None => Err NotFound
  | Some (Dir _) => Err IsADirectory
  | Some _ => Ok (delete p m)
  end.

(** What [keep] says stays below the directory when the call breaks. *)
Definition remove_tree (p : path) (keep : path -> bool) (m : files) : files :=
  filter (fun x : path * node => under p x.1 && negb (keep x.1) = false) m.

Definition remove_dir_step (p : path) (m : files) : result fs_error files :=
  match m !! p with
  | None => Err NotFound
  | Some (Dir _) => Ok (remove_tree p (fun _ => false) m)
  | Some (Link _) => Ok (delete p m)
  | Some _ => Err NotADirectory
  end.

Definition create_dir_step (mode : Z) (p : path) (m : files) : result fs_error files :=
  if is_present m p then Err AlreadyExists
  else if in_dir m p then Ok (<[p := Dir mode]> m) else Err NotFound.

(** The names in a directory. *)
Definition children (m : files) (d : path) : list bytes :=
  omap (fun x : path * node => match strip d x.1 with Some [c] => Some c | _ => None end) (map_to_list m).

(** * The machine *)

(** [fault t] says that call [t] breaks, after how much of its effect; [draw] is the random
    generator, and the rest what the process is started with. *)
Class Machine := {
  fault : nat -> option nat;
  kept : nat -> path -> bool;
  draw : nat -> nat -> bytes;
  process_id : Z;
  new_file_mode : Z;
  new_dir_mode : Z }.

Record world := mk_world { fs : files; past : list files; tick : nat }.

Definition advance (w : world) (m : files) : world := mk_world m (past w ++ [m]) (S (tick w)).

Definition fm (A : Type) : Type := world -> world * result failure A.

#[global] Instance fm_ret : MRet fm := fun A a w => (w, Ok a).
#[global] Instance fm_bind : MBind fm := fun A B f m w =>
  match m w with
  | (w', Ok a) => f a w'
  | (w', Err e) => (w', Err e)
  end.

Definition throw {A : Type} (e : failure) : fm A := fun w => (w, Err e).
Definition message {A : Type} (s : string) : fm A := throw (FMessage s).

(** A result that is looked at instead of being passed on with [?]. *)
Definition attempt {A : Type} (m : fm A) : fm (result failure A) := fun w => let '(w', r) := m w in (w', Ok r).

(** [let _ = m]. *)
Definition ignore {A : Type} (m : fm A) : fm unit := _ ← attempt m; mret tt.

(** A look at the file system. *)
Definition look {A : Type} (f : files -> A) : fm A := fun w => (w, Ok (f (fs w))).

Section operations.
Context `{Machine}.

(** One call: the effect, and what there is of it when the call breaks. *)
Definition call (step : files -> result fs_error files) (part : nat -> files -> files) : fm unit := fun w =>
  match fault (tick w) with
  | Some n => (advance w (part n (fs w)), Err (FIo Broken))
  | None =>
      match step (fs w) with
      | Ok m => (advance w m, Ok tt)
      | Err e => (advance w (fs w), Err (FIo e))
      end
  end.

Definition atomic_call (step : files -> result fs_error files) : fm unit := call step (fun _ m => m).

(** The effect of a call that broke, where there is any. *)
Definition partly (step : files -> result fs_error files) (m : files) : files :=
  match step m with Ok m' => m' | Err _ => m end.

Definition fs_create_mode (mode : Z) (p : path) : fm unit := atomic_call (create_new_step mode p).
Definition fs_create_new (p : path) : fm unit := fs_create_mode new_file_mode p.
Definition fs_write_all (p : path) (b : bytes) : fm unit :=
  call (append_step p b) (fun n => partly (append_step p (take n b))).
Definition fs_set_permissions (p : path) (mode : Z) : fm unit := atomic_call (chmod_step p mode).
Definition fs_copy (src dst : path) : fm unit := fun w =>
  let size := match fs w !! src with Some (File b _) => length b | _ => 0%nat end in
  call (copy_step size src dst) (fun n => if bool_decide (n = 0%nat) then id else partly (copy_step (n - 1) src dst)) w.
Definition fs_sync (p : path) : fm unit := atomic_call (open_step p).
Definition fs_rename (a b : path) : fm unit := atomic_call (rename_step a b).
Definition fs_symlink (target : bytes) (p : path) : fm unit := atomic_call (symlink_step target p).
Definition fs_remove_file (p : path) : fm unit := atomic_call (remove_file_step p).
Definition fs_remove_dir_all (p : path) : fm unit := fun w =>
  call (remove_dir_step p) (fun _ => remove_tree p (kept (tick w))) w.
Definition fs_create_dir (p : path) : fm unit := atomic_call (create_dir_step new_dir_mode p).

(** [fs::read], with the content. *)
Definition fs_read (p : path) : fm bytes := fun w =>
  match fault (tick w), fs w !! through (fs w) p with
  | None, Some (File b _) => (advance w (fs w), Ok b)
  | None, Some (Dir _) => (advance w (fs w), Err (FIo IsADirectory))
  | None, _ => (advance w (fs w), Err (FIo NotFound))
  | Some _, _ => (advance w (fs w), Err (FIo Broken))
  end.

(** [fs::read_to_string]. *)
Definition fs_read_to_string (p : path) : fm bytes :=
  b ← fs_read p; if utf8_valid b then mret b else throw (FIo NotUtf8).

(** [fs::create_dir_all]: the missing directories from the root down. *)
Fixpoint create_missing (done todo : path) : fm unit :=
  match todo with
  | [] => mret tt
  | c :: todo' =>
      present ← look (fun m => is_dir m (done ++ [c]));
      _ ← (if present : bool then mret tt else fs_create_dir (done ++ [c]));
      create_missing (done ++ [c]) todo'
  end.

Definition fs_create_dir_all (p : path) : fm unit := create_missing [] p.

(** * The helpers of [management.rs] *)

Definition create_dir (p : path) (mode : Z) : fm unit :=
  _ ← fs_create_dir_all p; fs_set_permissions p mode.

Definition sync_directory (p : path) : fm unit := fs_sync p.

Definition hex_digit (n : Z) : Z := if n <? 10 then 48 + n else 87 + n.
Definition hex_byte (b : Z) : bytes := [hex_digit (Z.shiftr b 4); hex_digit (Z.land b 15)].
Definition hex (l : bytes) : bytes := concat (hex_byte <$> l).

Definition random_hex (n : nat) : fm bytes := fun w =>
  (mk_world (fs w) (past w) (S (tick w)), Ok (hex (draw (tick w) n))).

Definition temporary_name (prefix : bytes) (suffix : bytes) : bytes :=
  prefix ++ [46] ++ decimal process_id ++ [46] ++ suffix.

(** The 32 attempts of [unique_path]. *)
Fixpoint unique_path_loop (tries : nat) (dir : path) (prefix : bytes) : fm path :=
  match tries with
  | O => message "failed to allocate a unique temporary path"
  | S tries' =>
      r ← random_hex 6;
      let candidate := dir ++ [temporary_name prefix r] in
      taken ← look (fun m => is_present m candidate);
      if taken : bool then unique_path_loop tries' dir prefix else mret candidate
  end.

Definition unique_path (dir : path) (prefix : bytes) : fm path := unique_path_loop 32 dir prefix.

Definition unique_directory (dir : path) (prefix : bytes) : fm path :=
  p ← unique_path dir prefix; _ ← fs_create_dir p; _ ← fs_set_permissions p (octal 7 0 0); mret p.

(** [if result.is_err() { let _ = remove_file(temporary) } result]. *)
Definition cleanup_on_error (temporary : path) (body : fm unit) : fm unit :=
  r ← attempt body;
  match r with
  | Ok _ => mret tt
  | Err e => _ ← ignore (fs_remove_file temporary); throw e
  end.

Definition parent_of (p : path) : fm path := match parent p with Some d => mret d | None => message "has no parent" end.

Definition atomic_write (destination : path) (content : bytes) (mode : Z) : fm unit :=
  dir ← parent_of destination;
  temporary ← unique_path dir (bytes_of_string ".rust-xhttpctl-write");
  cleanup_on_error temporary (
    _ ← fs_create_new temporary; _ ← fs_write_all temporary content; _ ← fs_sync temporary;
    _ ← fs_set_permissions temporary mode; _ ← fs_rename temporary destination; sync_directory dir).

Definition copy_atomic (source destination : path) (mode : Z) : fm unit :=
  dir ← parent_of destination;
  present ← look (fun m => is_dir m dir);
  _ ← (if present : bool then mret tt else create_dir dir (octal 7 5 5));
  temporary ← unique_path dir (bytes_of_string ".rust-xhttpctl-copy");
  cleanup_on_error temporary (
    _ ← fs_copy source temporary; _ ← fs_set_permissions temporary mode; _ ← fs_sync temporary;
    _ ← fs_rename temporary destination; sync_directory dir).

Definition not_found_is_ok (m : fm unit) : fm unit :=
  r ← attempt m;
  match r with Err (FIo NotFound) => mret tt | Err e => throw e | Ok _ => mret tt end.

Definition remove_file_if_present (p : path) : fm unit := not_found_is_ok (fs_remove_file p).
Definition remove_directory_if_present (p : path) : fm unit := not_found_is_ok (fs_remove_dir_all p).
End operations.

(** * Paths *)

Lemma strip_app d r : strip d (d ++ r) = Some r.
Proof. induction d as [|x d IH]; [done|]. cbn [strip app]. by rewrite (proj2 (bytes_eqb_eq x x)). Qed.

Lemma strip_Some d p r : strip d p = Some r -> p = d ++ r.
Proof.
  revert p. induction d as [|x d IH]; intros p Hs; [by injection Hs as <-|]. destruct p as [|y p]; [done|].
  cbn [strip] in Hs. destruct (bytes_eqb x y) eqn:E; [|done]. apply bytes_eqb_eq in E as ->. cbn. f_equal. by apply IH.
Qed.

Lemma under_app d r : under d (d ++ r) = true.
Proof. unfold under. by rewrite strip_app. Qed.

Lemma under_refl d : under d d = true.
Proof. rewrite <- (app_nil_r d) at 2. apply under_app. Qed.

Lemma under_true d p : under d p = true -> exists r, p = d ++ r.
Proof. unfold under. destruct (strip d p) eqn:E; [|done]. intros _. eexists. by apply strip_Some. Qed.

Lemma under_false_strip d p : under d p = false -> strip d p = None.
Proof. unfold under. by destruct (strip d p). Qed.

(** Of two directories above the same path, one is above the other. *)
Lemma under_both a b q : under a q = true -> under b q = true -> under a b = true \/ under b a = true.
Proof.
  intros [r ->]%under_true [s Hs]%under_true. revert b s Hs. induction a as [|x a IH]; intros b s Hs; [by left|].
  destruct b as [|y b]; [by right|]. cbn in Hs. injection Hs as <- Hs. unfold under. cbn [strip].
  rewrite !(proj2 (bytes_eqb_eq x x)) by done. by apply (IH b s).
Qed.

Lemma swap_involutive a b q : under a b = false -> under b a = false -> swap a b (swap a b q) = q.
Proof.
  intros Hab Hba. unfold swap at 2. destruct (strip a q) as [r|] eqn:Ea.
  - apply strip_Some in Ea as ->. unfold swap. destruct (strip a (b ++ r)) as [s|] eqn:Es.
    + apply strip_Some in Es. destruct (under_both a b (b ++ r)) as [Hx|Hx]; [rewrite Es; apply under_app|apply under_app|congruence|congruence].
    + by rewrite strip_app.
  - destruct (strip b q) as [r|] eqn:Eb.
    + apply strip_Some in Eb as ->. unfold swap. by rewrite strip_app.
    + unfold swap. by rewrite Ea, Eb.
Qed.

Lemma lookup_move a b m q :
  under a b = false -> under b a = false ->
  move a b m !! q = match strip b q with
                    | Some r => m !! (a ++ r)
                    | None => if under a q then None else m !! q
                    end.
Proof.
  intros Hab Hba. assert (Inj (=) (=) (swap a b)) as Hinj.
  { intros x y Hxy. by rewrite <- (swap_involutive a b x), <- (swap_involutive a b y), Hxy. }
  rewrite <- (swap_involutive a b q) at 1 by done. unfold move. rewrite lookup_kmap by exact Hinj.
  destruct (strip b q) as [r|] eqn:Eb.
  - apply strip_Some in Eb as ->. assert (strip a (b ++ r) = None) as Ea.
    { destruct (strip a (b ++ r)) as [s|] eqn:Es; [|done]. apply strip_Some in Es.
      destruct (under_both a b (b ++ r)) as [Hx|Hx]; [rewrite Es; apply under_app|apply under_app|congruence|congruence]. }
    unfold swap. rewrite Ea, strip_app. apply option_eq. intros n. rewrite map_lookup_filter_Some. cbn [fst].
    split; [by intros [? _]|]. intros Hn. split; [done|]. destruct (under b (a ++ r)) eqn:Hu; [|done].
    destruct (under_both a b (a ++ r)) as [Hx|Hx]; [apply under_app|done|congruence|congruence].
  - destruct (under a q) eqn:Hq.
    + apply under_true in Hq as [r ->]. unfold swap. rewrite strip_app. apply map_lookup_filter_None. right. intros n _. cbn [fst]. by rewrite under_app.
    + unfold swap. rewrite (under_false_strip _ _ Hq), Eb. apply option_eq. intros n. rewrite map_lookup_filter_Some. cbn [fst].
      split; [by intros [? _]|]. intros Hn. split; [done|]. unfold under. by rewrite Eb.
Qed.

Lemma removelast_snoc {A : Type} (l : list A) x : removelast (l ++ [x]) = l.
Proof. rewrite removelast_app by done. cbn. by rewrite app_nil_r. Qed.

Lemma parent_snoc d c : parent (d ++ [c]) = Some d.
Proof. unfold parent. rewrite removelast_snoc. by destruct d. Qed.

Lemma in_dir_snoc m d c : in_dir m (d ++ [c]) = is_dir m d.
Proof. unfold in_dir. by rewrite parent_snoc. Qed.

Lemma parent_Some p d : parent p = Some d -> exists c, p = d ++ [c].
Proof. destruct p as [|x p] using rev_ind; [done|]. rewrite parent_snoc. intros [= <-]. eauto. Qed.

(** * Runs *)

(** [runs I m w Q]: from [w], every file system on the way satisfies [I], and the end
    satisfies [Q]. *)
Definition along (I : files -> Prop) (w w' : world) : Prop := exists l, past w' = past w ++ l /\ Forall I l.

Definition runs {A : Type} (I : files -> Prop) (m : fm A) (w : world) (Q : world -> result failure A -> Prop) : Prop :=
  along I w (m w).1 /\ Q (m w).1 (m w).2.

Lemma along_refl (I : files -> Prop) w : along I w w.
Proof. exists []. by rewrite app_nil_r. Qed.

Lemma along_trans (I : files -> Prop) w1 w2 w3 : along I w1 w2 -> along I w2 w3 -> along I w1 w3.
Proof. intros (l1 & H1 & F1) (l2 & H2 & F2). exists (l1 ++ l2). rewrite H2, H1, app_assoc. split; [done|]. by apply Forall_app. Qed.

Lemma along_weaken (I J : files -> Prop) w w' : (forall m, I m -> J m) -> along I w w' -> along J w w'.
Proof. intros HIJ (l & Hl & HF). exists l. split; [done|]. by eapply Forall_impl. Qed.

Lemma along_advance (I : files -> Prop) w m : I m -> along I w (advance w m).
Proof. intros Hm. exists [m]. split; [done|]. by constructor. Qed.

Lemma runs_weaken {A : Type} (I J : files -> Prop) (m : fm A) w (Q R : world -> result failure A -> Prop) :
  (forall m, I m -> J m) -> (forall w' r, Q w' r -> R w' r) -> runs I m w Q -> runs J m w R.
Proof. intros HIJ HQR [Ha Hq]. split; [by eapply along_weaken|by apply HQR]. Qed.

Lemma runs_ext {A : Type} (I : files -> Prop) (m m' : fm A) w (Q : world -> result failure A -> Prop) :
  m w = m' w -> runs I m' w Q -> runs I m w Q.
Proof. unfold runs. by intros ->. Qed.

Lemma runs_ret {A : Type} (I : files -> Prop) (a : A) w (Q : world -> result failure A -> Prop) : Q w (Ok a) -> runs I (mret a) w Q.
Proof. intros Hq. split; [apply along_refl|done]. Qed.

Lemma runs_throw {A : Type} (I : files -> Prop) e w (Q : world -> result failure A -> Prop) : Q w (Err e) -> runs I (throw e) w Q.
Proof. intros Hq. split; [apply along_refl|done]. Qed.

Lemma runs_bind {A B : Type} (I : files -> Prop) (m : fm A) (f : A -> fm B) w Q :
  runs I m w (fun w1 r => match r with Ok a => runs I (f a) w1 Q | Err e => Q w1 (Err e) end) -> runs I (mbind f m) w Q.
Proof.
  unfold runs at 1. intros [Ha Hq]. unfold runs, mbind, fm_bind. destruct (m w) as [w1 [a|e]]; cbn [fst snd] in *.
  - destruct Hq as [Hb Hq]. split; [by eapply along_trans|done].
  - done.
Qed.

Lemma runs_attempt {A : Type} (I : files -> Prop) (m : fm A) w (Q : world -> result failure (result failure A) -> Prop) :
  runs I m w (fun w1 r => Q w1 (Ok r)) -> runs I (attempt m) w Q.
Proof. unfold runs, attempt. by destruct (m w). Qed.

Lemma runs_ignore {A : Type} (I : files -> Prop) (m : fm A) w (Q : world -> result failure unit -> Prop) :
  runs I m w (fun w1 _ => Q w1 (Ok tt)) -> runs I (ignore m) w Q.
Proof. intros Hm. apply runs_bind, runs_attempt. by eapply runs_weaken; [| |exact Hm]; [done|intros; by apply runs_ret]. Qed.

Lemma runs_look {A : Type} (I : files -> Prop) (f : files -> A) w (Q : world -> result failure A -> Prop) : Q w (Ok (f (fs w))) -> runs I (look f) w Q.
Proof. intros Hq. split; [apply along_refl|done]. Qed.

Section runs.
Context `{Machine}.

Lemma runs_call (I : files -> Prop) step part w (Q : world -> result failure unit -> Prop) :
  (forall n, fault (tick w) = Some n -> I (part n (fs w)) /\ Q (advance w (part n (fs w))) (Err (FIo Broken))) ->
  (fault (tick w) = None -> match step (fs w) with
                            | Ok m => I m /\ Q (advance w m) (Ok tt)
                            | Err e => I (fs w) /\ Q (advance w (fs w)) (Err (FIo e))
                            end) ->
  runs I (call step part) w Q.
Proof.
  intros Hn Hs. unfold runs, call. destruct (fault (tick w)) as [n|] eqn:E.
  - destruct (Hn n eq_refl). split; [by apply along_advance|done].
  - specialize (Hs eq_refl). destruct (step (fs w)) as [m|e]; destruct Hs; (split; [by apply along_advance|done]).
Qed.

Lemma runs_atomic_call (I : files -> Prop) step w (Q : world -> result failure unit -> Prop) :
  I (fs w) -> (forall e, Q (advance w (fs w)) (Err (FIo e))) ->
  (forall m, step (fs w) = Ok m -> I m /\ Q (advance w m) (Ok tt)) -> runs I (atomic_call step) w Q.
Proof.
  intros Hi He Hs. apply runs_call; [intros n _; by split|]. intros _. destruct (step (fs w)) as [m|e]; [by apply Hs|by split].
Qed.

(** * Temporary names *)

Definition scratch (dir : path) (prefix : bytes) (q : path) : Prop := exists r, q = dir ++ [temporary_name prefix r].

Lemma unique_path_runs (I : files -> Prop) dir prefix w (Q : world -> result failure path -> Prop) :
  (forall w' s, fs w' = fs w -> Q w' (Err (FMessage s))) ->
  (forall w' t, fs w' = fs w -> scratch dir prefix t -> fs w !! t = None -> Q w' (Ok t)) ->
  runs I (unique_path dir prefix) w Q.
Proof.
  unfold unique_path. generalize 32%nat. intros n. revert w. induction n as [|n IH]; intros w He Ho; [by apply runs_throw, He|].
  cbn [unique_path_loop]. apply runs_bind. split; [exists []; by rewrite app_nil_r|]. cbn [random_hex fst snd].
  apply runs_bind, runs_look. cbn [fs]. set (t := dir ++ _). destruct (is_present (fs w) t) eqn:E; [by apply IH|].
  apply runs_ret, Ho; [done|by eexists|]. unfold is_present in E. by destruct (fs w !! t).
Qed.

(** * Replacing a file *)

(** Only the temporary file differs. *)
Definition near (t : path) (m0 m : files) : Prop := delete t m = m0.

(** Before or after the replacement of [dst]. *)
Definition replacing (t dst : path) (n : node) (m0 m : files) : Prop := near t m0 m \/ m = <[dst := n]> m0.

(** The file is replaced when the result is [Ok]; an error may come before or after. *)
Definition replaced (t dst : path) (n : node) (m0 : files) (w : world) (r : result failure unit) : Prop :=
  match r with Ok _ => fs w = <[dst := n]> m0 | Err _ => replacing t dst n m0 (fs w) end.

Lemma near_insert t m0 m n : near t m0 m -> near t m0 (<[t := n]> m).
Proof. unfold near. intros <-. by rewrite delete_insert_eq. Qed.

Lemma near_refl t m0 : m0 !! t = None -> near t m0 m0.
Proof. intros Ht. unfold near. by rewrite delete_id. Qed.

Section replace.
Context (t dst : path) (n : node) (m0 : files).
Context (Hfresh : m0 !! t = None) (Hne : t <> dst).

Lemma replace_cleanup body w :
  runs (replacing t dst n m0) body w (replaced t dst n m0) -> runs (replacing t dst n m0) (cleanup_on_error t body) w (replaced t dst n m0).
Proof.
  intros Hb. apply runs_bind, runs_attempt. eapply runs_weaken; [done| |exact Hb]. intros w1 [u|e] Hr; [by apply runs_ret|].
  apply runs_bind, runs_ignore. assert (forall m, remove_file_step t (fs w1) = Ok m -> replacing t dst n m0 m) as Hrem.
  { intros m. unfold remove_file_step. destruct Hr as [Hr| ->].
    - destruct (fs w1 !! t) as [[]|]; intros Hm; try done; apply Ok_inj in Hm; subst m; left; unfold near; by rewrite delete_delete_eq.
    - by rewrite lookup_insert_ne, Hfresh. }
  apply runs_atomic_call; [exact Hr|intros _; by apply runs_throw|]. intros m Hm. split; [by apply Hrem|]. apply runs_throw. by apply Hrem.
Qed.

(** [rename] and [sync_directory]. *)
Lemma replace_finish dir b mode w :
  n = File b mode -> fs w = <[t := n]> m0 ->
  runs (replacing t dst n m0) (_ ← fs_rename t dst; sync_directory dir) w (replaced t dst n m0).
Proof.
  intros Hn Hw. assert (near t m0 (fs w)) as Hnear by (rewrite Hw; by apply near_insert, near_refl).
  apply runs_bind, runs_atomic_call; [by left|intros e; by left|]. intros m Hm.
  assert (m = <[dst := n]> m0) as ->.
  { revert Hm. unfold rename_step. destruct (under t dst || under dst t).
    - rewrite bool_decide_eq_false_2 by done. done.
    - destruct (negb _); [done|]. rewrite Hw, lookup_insert_eq, lookup_insert_ne by done. rewrite Hn.
      destruct (m0 !! dst) as [[]|]; intros Hm; try done; apply Ok_inj in Hm; by rewrite <- Hm, delete_insert_id. }
  split; [by right|]. apply runs_atomic_call; [by right|intros e; by right|]. intros m'. unfold open_step.
  destruct (_ !! dir) as [[]|]; intros Hm'; try done; apply Ok_inj in Hm'; subst m'; (split; [by right|done]).
Qed.
End replace.

Lemma runs_set_permissions_file (I : files -> Prop) t b md mode w (Q : world -> result failure unit -> Prop) :
  fs w !! t = Some (File b md) -> I (fs w) -> I (<[t := File b mode]> (fs w)) ->
  (forall e, Q (advance w (fs w)) (Err (FIo e))) -> Q (advance w (<[t := File b mode]> (fs w))) (Ok tt) ->
  runs I (fs_set_permissions t mode) w Q.
Proof.
  intros Ht Hi Hi' He Ho. apply runs_atomic_call; [done|done|]. unfold chmod_step. rewrite Ht. intros m Hm.
  apply Ok_inj in Hm as <-. done.
Qed.

Lemma runs_sync (I : files -> Prop) p w (Q : world -> result failure unit -> Prop) :
  I (fs w) -> (forall r, Q (advance w (fs w)) r) -> runs I (fs_sync p) w Q.
Proof.
  intros Hi Hq. apply runs_atomic_call; [done|done|]. intros m. unfold open_step.
  destruct (fs w !! p) as [[]|]; intros Hm; try done; apply Ok_inj in Hm as <-; done.
Qed.

(** The states of a replacement of [dst] by a file with one of the contents [body]
    through a temporary file, from the file system [m0]. *)
Definition replacing_by (prefix : bytes) (body : bytes -> Prop) (mode : Z) (dir dst : path) (m0 m : files) : Prop :=
  (exists t, scratch dir prefix t /\ m0 !! t = None /\ near t m0 m) \/ (exists b, body b /\ m = <[dst := File b mode]> m0).

Definition replaced_by (prefix : bytes) (body : bytes -> Prop) (mode : Z) (dir dst : path) (m0 : files)
    (w : world) (r : result failure unit) : Prop :=
  match r with
  | Ok _ => exists b, body b /\ fs w = <[dst := File b mode]> m0
  | Err _ => fs w = m0 \/ replacing_by prefix body mode dir dst m0 (fs w)
  end.

Lemma replaced_replacing prefix (body : bytes -> Prop) mode dir dst t b m0 w r :
  scratch dir prefix t -> m0 !! t = None -> body b ->
  replaced t dst (File b mode) m0 w r -> replaced_by prefix body mode dir dst m0 w r.
Proof.
  intros Ht Hf Hb. destruct r as [u|e]; cbn [replaced replaced_by]; [by eauto|].
  intros [Hn|Hn]; right; [left; by exists t|right; by exists b].
Qed.

Lemma replacing_replacing prefix (body : bytes -> Prop) mode dir dst t b m0 m :
  scratch dir prefix t -> m0 !! t = None -> body b ->
  replacing t dst (File b mode) m0 m -> replacing_by prefix body mode dir dst m0 m.
Proof. intros Ht Hf Hb [Hn|Hn]; [left; by exists t|right; by exists b]. Qed.

Definition write_prefix : bytes := bytes_of_string ".rust-xhttpctl-write".
Definition copy_prefix : bytes := bytes_of_string ".rust-xhttpctl-copy".

Lemma atomic_write_runs dir c content mode w :
  ~ scratch dir write_prefix (dir ++ [c]) ->
  runs (replacing_by write_prefix (eq content) mode dir (dir ++ [c]) (fs w)) (atomic_write (dir ++ [c]) content mode) w
    (replaced_by write_prefix (eq content) mode dir (dir ++ [c]) (fs w)).
Proof.
  intros Hns. unfold atomic_write, parent_of. rewrite parent_snoc. apply runs_bind, runs_ret, runs_bind.
  apply unique_path_runs; [intros w1 s Hw; left; done|]. intros w1 t Hw Ht Hfresh. set (dst := dir ++ [c]) in *. set (m0 := fs w) in *.
  assert (t <> dst) as Hne by (by intros ->). set (n := File content mode).
  eapply runs_weaken; [intros m Hm; by apply (replacing_replacing _ _ _ _ _ t content)
    |intros w' r Hr; by apply (replaced_replacing _ _ _ _ _ t content)|].
  apply replace_cleanup; [done|done|]. fold n.
  assert (replacing t dst n m0 (fs w1)) as H1 by (left; rewrite Hw; by apply near_refl).
  apply runs_bind, runs_atomic_call; [done|by intros|]. unfold create_new_step. intros m Hm.
  assert (m = <[t := File [] new_file_mode]> m0) as ->.
  { destruct (is_present _ _); [done|]. destruct (in_dir _ _); [|done]. apply Ok_inj in Hm. by rewrite <- Hm, Hw. }
  assert (forall b md, replacing t dst n m0 (<[t := File b md]> m0)) as Ht1 by (intros; left; by apply near_insert, near_refl).
  split; [done|]. set (w2 := advance w1 _).
  apply runs_bind, runs_call.
  { intros k _. unfold partly, append_step. cbn [w2 advance fs]. rewrite lookup_insert_eq, insert_insert_eq. split; apply Ht1. }
  intros _. unfold append_step. cbn [w2 advance fs]. rewrite lookup_insert_eq, insert_insert_eq. cbn [app]. split; [done|].
  apply runs_bind, runs_sync; [apply Ht1|]. intros [u|e]; [|apply Ht1].
  eapply runs_bind, runs_set_permissions_file; cbn [advance fs]; [by rewrite lookup_insert_eq|apply Ht1| |intros; apply Ht1|].
  { rewrite insert_insert_eq. apply Ht1. }
  rewrite insert_insert_eq. by apply (replace_finish t dst n m0 Hfresh Hne dir content mode).
Qed.

(** The file a copy starts from. *)
Definition body_at (m : files) (p : path) (b : bytes) : Prop := exists mode, m !! p = Some (File b mode).

#[global] Instance is_file_dec (o : option node) : Decision (exists b md, o = Some (File b md)).
Proof. destruct o as [[b md| | |]|]; first [left; by eauto|right; by intros (? & ? & ?)]. Defined.

(** A source that is not a file is not copied. *)
Lemma copy_no_file source t dir prefix (body : bytes -> Prop) mode dst dir' m0 w :
  m0 !! t = None -> near t m0 m0 -> scratch dir prefix t -> fs w = m0 -> ~ (exists b md, m0 !! source = Some (File b md)) ->
  runs (replacing_by prefix body mode dir dst m0)
    (cleanup_on_error t (_ ← fs_copy source t; _ ← fs_set_permissions t mode; _ ← fs_sync t; _ ← fs_rename t dst; sync_directory dir')) w
    (replaced_by prefix body mode dir dst m0).
Proof.
  intros Hfresh Hself Ht Hw Hno. assert (replacing_by prefix body mode dir dst m0 m0) as Hrep by (left; by exists t).
  assert (forall k, exists e, copy_step k source t m0 = Err e) as Hstep.
  { intros k. unfold copy_step. destruct (m0 !! source) as [[]|]; eauto. exfalso. eauto. }
  apply runs_bind, runs_attempt, runs_bind. unfold fs_copy. apply runs_call.
  all: assert (forall e, runs (replacing_by prefix body mode dir dst m0) (_ ← ignore (fs_remove_file t); throw e) (advance w m0)
    (replaced_by prefix body mode dir dst m0)) as Hrest by
    (intros e; apply runs_bind, runs_ignore, runs_atomic_call; [done|intros; apply runs_throw; by left|]; cbn [advance fs];
     intros m; unfold remove_file_step; by rewrite Hfresh).
  - intros k _. rewrite Hw. assert ((if bool_decide (k = 0%nat) then id else partly (copy_step (k - 1) source t)) m0 = m0) as ->.
    { case_bool_decide; [done|]. unfold partly. by destruct (Hstep (k - 1)%nat) as [e ->]. }
    by split.
  - intros _. rewrite Hw. destruct (Hstep (match m0 !! source with Some (File b _) => length b | _ => 0%nat end)) as [e ->]. by split.
Qed.

Lemma copy_atomic_runs source dir c mode w :
  is_dir (fs w) dir = true -> ~ scratch dir copy_prefix (dir ++ [c]) ->
  runs (replacing_by copy_prefix (body_at (fs w) source) mode dir (dir ++ [c]) (fs w)) (copy_atomic source (dir ++ [c]) mode) w
    (replaced_by copy_prefix (body_at (fs w) source) mode dir (dir ++ [c]) (fs w)).
Proof.
  intros Hdir Hns. unfold copy_atomic, parent_of. rewrite parent_snoc. apply runs_bind, runs_ret, runs_bind, runs_look.
  rewrite Hdir. apply runs_bind, runs_ret, runs_bind.
  apply unique_path_runs; [intros w1 s Hw; by left|]. intros w1 t Hw Ht Hfresh. set (dst := dir ++ [c]) in *. set (m0 := fs w) in *.
  assert (t <> dst) as Hne by (by intros ->).
  assert (near t m0 m0) as Hself by (by apply near_refl).
  destruct (decide (exists b md, m0 !! source = Some (File b md))) as [(b & md & Hsrc)|Hno]; [|by apply copy_no_file].
  set (n := File b mode). assert (body_at m0 source b) as Hbody by (by exists md).
  eapply runs_weaken; [intros m Hm; by apply (replacing_replacing _ _ _ _ _ t b)
    |intros w' r Hr; by apply (replaced_replacing _ _ _ _ _ t b)|].
  apply replace_cleanup; [done|done|]. fold n.
  assert (forall b md, replacing t dst n m0 (<[t := File b md]> m0)) as Ht1 by (intros; left; by apply near_insert).
  assert (replacing t dst n m0 m0) as H1 by (by left).
  assert (forall k, copy_step k source t m0 = if in_dir m0 t then Ok (<[t := File (take k b) md]> m0) else Err NotFound) as Hstep.
  { intros k. unfold copy_step. by rewrite Hsrc, Hfresh. }
  apply runs_bind. unfold fs_copy. apply runs_call.
  { intros k _. rewrite Hw. case_bool_decide; [by split|]. unfold partly. rewrite Hstep. destruct (in_dir m0 t); [split; apply Ht1|by split]. }
  intros _. rewrite Hw, Hsrc, Hstep. destruct (in_dir m0 t); [|by split]. rewrite firstn_all. split; [apply Ht1|].
  eapply runs_bind, runs_set_permissions_file; cbn [advance fs]; [by rewrite lookup_insert_eq|apply Ht1| |intros; apply Ht1|].
  { rewrite insert_insert_eq. apply Ht1. }
  rewrite insert_insert_eq. apply runs_bind, runs_sync; [apply Ht1|]. intros [u|e]; [|apply Ht1].
  by apply (replace_finish t dst n m0 Hfresh Hne dir b mode).
Qed.

(** * Without faults *)

Lemma fm_bind_ok {A B : Type} (m : fm A) (f : A -> fm B) w w1 a : m w = (w1, Ok a) -> mbind f m w = f a w1.
Proof. intros Hm. unfold mbind, fm_bind. by rewrite Hm. Qed.

Lemma call_ok step part w m : fault (tick w) = None -> step (fs w) = Ok m -> call step part w = (advance w m, Ok tt).
Proof. intros Hf Hs. unfold call. by rewrite Hf, Hs. Qed.

Lemma unique_path_ok dir prefix w :
  (forall t, scratch dir prefix t -> fs w !! t = None) ->
  exists t, scratch dir prefix t /\ unique_path dir prefix w = (mk_world (fs w) (past w) (S (tick w)), Ok t).
Proof.
  intros Hfree. eexists. split; [by eexists|]. unfold unique_path. cbn [unique_path_loop].
  unfold mbind, fm_bind, random_hex, look, is_present, mret, fm_ret. cbn [fs]. rewrite Hfree by (by eexists). reflexivity.
Qed.

Lemma under_snoc (d : path) x y : under (d ++ [x]) (d ++ [y]) = bytes_eqb x y.
Proof.
  induction d as [|z d IH]; unfold under in *; cbn [strip app]; [by destruct (bytes_eqb x y)|].
  by rewrite (proj2 (bytes_eqb_eq z z)).
Qed.

(** Whether a path is below one of the entries of a directory. *)
Lemma under_name (d : path) x y (r : path) : under (d ++ [x]) (d ++ y :: r) = bytes_eqb x y.
Proof.
  induction d as [|z d IH]; unfold under in *; cbn [strip app]; [by destruct (bytes_eqb x y)|].
  by rewrite (proj2 (bytes_eqb_eq z z)).
Qed.

Lemma rename_file_ok dir x c b mode m :
  is_dir m dir = true -> x <> c -> m !! (dir ++ [x]) = Some (File b mode) -> is_dir m (dir ++ [c]) = false ->
  rename_step (dir ++ [x]) (dir ++ [c]) m = Ok (<[dir ++ [c] := File b mode]> (delete (dir ++ [x]) m)).
Proof.
  intros Hd Hne Hx Hc. unfold rename_step. rewrite !under_snoc. destruct (bytes_eqb x c) eqn:E; [by apply bytes_eqb_eq in E|].
  destruct (bytes_eqb c x) eqn:E2; [by apply bytes_eqb_eq in E2|]. cbn [orb]. unfold in_dir. rewrite parent_snoc, Hd, Hx. cbn [negb].
  unfold is_dir in Hc. by destruct (m !! (dir ++ [c])) as [[]|].
Qed.

Lemma is_dir_insert m d t n : is_dir m d = true -> t <> d -> is_dir (<[t := n]> m) d = true.
Proof. intros Hd Hne. unfold is_dir. by rewrite lookup_insert_ne. Qed.

Lemma snoc_ne {A : Type} (d : list A) x : d ++ [x] <> d.
Proof. intros Heq. apply (f_equal length) in Heq. rewrite length_app in Heq. cbn in Heq. lia. Qed.

Lemma copy_atomic_succeeds source dir c mode b md w :
  (forall k, fault k = None) -> fs w !! source = Some (File b md) -> is_dir (fs w) dir = true -> is_dir (fs w) (dir ++ [c]) = false ->
  (forall t, scratch dir copy_prefix t -> fs w !! t = None) -> ~ scratch dir copy_prefix (dir ++ [c]) ->
  exists w', copy_atomic source (dir ++ [c]) mode w = (w', Ok tt).
Proof.
  intros Hnf Hsrc Hdir Hdst Hfree Hns. unfold copy_atomic, parent_of. rewrite parent_snoc.
  rewrite (fm_bind_ok _ _ w w dir) by done. rewrite (fm_bind_ok _ _ w w true) by (unfold look; by rewrite Hdir).
  rewrite (fm_bind_ok _ _ w w tt) by done. destruct (unique_path_ok dir copy_prefix w Hfree) as (t & Ht & Hu).
  rewrite (fm_bind_ok _ _ w _ _ Hu). pose proof (Hfree t Ht) as Hfresh. destruct Ht as [r ->]. set (x := temporary_name _ _) in *.
  assert (x <> c) as Hne by (intros <-; apply Hns; by eexists).
  set (w1 := mk_world _ _ _). set (t := dir ++ [x]) in *.
  assert (t <> dir) as Htd by apply snoc_ne.
  set (m1 := <[t := File b md]> (fs w)). set (m2 := <[t := File b mode]> (fs w)).
  unfold cleanup_on_error. rewrite (fm_bind_ok _ _ w1 (advance (advance (advance (advance (advance w1 m1) m2) m2) (<[dir ++ [c] := File b mode]> (fs w))) (<[dir ++ [c] := File b mode]> (fs w))) (Ok tt)).
  { eexists. reflexivity. }
  unfold attempt. rewrite (fm_bind_ok _ _ w1 (advance w1 m1) tt).
  2:{ unfold fs_copy. apply call_ok; [apply Hnf|]. unfold copy_step. cbn [w1 fs]. rewrite Hsrc, Hfresh. unfold in_dir, t.
      rewrite parent_snoc, Hdir. by rewrite firstn_all. }
  rewrite (fm_bind_ok _ _ _ (advance (advance w1 m1) m2) tt).
  2:{ apply call_ok; [apply Hnf|]. unfold chmod_step. cbn [advance fs]. unfold m1. rewrite lookup_insert_eq. by rewrite insert_insert_eq. }
  rewrite (fm_bind_ok _ _ _ (advance (advance (advance w1 m1) m2) m2) tt).
  2:{ apply call_ok; [apply Hnf|]. unfold open_step. cbn [advance fs]. unfold m2. by rewrite lookup_insert_eq. }
  rewrite (fm_bind_ok _ _ _ (advance (advance (advance (advance w1 m1) m2) m2) (<[dir ++ [c] := File b mode]> (fs w))) tt).
  2:{ apply call_ok; [apply Hnf|]. cbn [advance fs]. unfold m2. rewrite (rename_file_ok dir x c b mode); [|by apply is_dir_insert|done|by rewrite lookup_insert_eq|].
      - by rewrite delete_insert_id.
      - unfold is_dir. rewrite lookup_insert_ne; [done|]. intros Heq%app_inv_head. congruence. }
  unfold sync_directory, fs_sync, atomic_call. rewrite (call_ok _ _ _ (<[dir ++ [c] := File b mode]> (fs w))); [done|apply Hnf|].
  unfold open_step. cbn [advance fs]. rewrite lookup_insert_ne by apply snoc_ne. unfold is_dir in Hdir.
  by destruct (fs w !! dir) as [[]|].
Qed.

(** What [replacing_by] says of each path. *)
Lemma replacing_by_lookup prefix body mode dir dst m0 m :
  ~ scratch dir prefix dst -> replacing_by prefix body mode dir dst m0 m ->
  (m !! dst = m0 !! dst \/ exists b, body b /\ m !! dst = Some (File b mode)) /\
  forall q, q <> dst -> ~ scratch dir prefix q -> m !! q = m0 !! q.
Proof.
  intros Hns [(t & Ht & _ & <-)|(b & Hb & ->)].
  - assert (forall q, ~ scratch dir prefix q -> m !! q = delete t m !! q) as Hq
      by (intros q Hq; rewrite lookup_delete_ne; [done|by intros <-]).
    split; [left; by apply Hq|by auto].
  - split; [right; exists b; by rewrite lookup_insert_eq|]. intros q Hne _. by rewrite lookup_insert_ne.
Qed.

(** C24: A file is replaced atomically: whatever call breaks and however far it got, every
    state of the file system on the way, and so what a crash leaves behind, has the old
    entry at the destination or the complete new file with its mode; nothing else changes
    but files with a temporary name beside it.  When the copy reports success the
    destination is replaced and no temporary file is left, and without faults it
    succeeds. *)
Theorem replacement_is_atomic source dir c mode w :
  is_dir (fs w) dir = true -> ~ scratch dir copy_prefix (dir ++ [c]) ->
  let '(w', r) := copy_atomic source (dir ++ [c]) mode w in
  (exists l, past w' = past w ++ l /\
     Forall (fun m => (m !! (dir ++ [c]) = fs w !! (dir ++ [c]) \/
                       exists b, body_at (fs w) source b /\ m !! (dir ++ [c]) = Some (File b mode)) /\
                      forall q, q <> dir ++ [c] -> ~ scratch dir copy_prefix q -> m !! q = fs w !! q) l) /\
  (r = Ok tt -> exists b, body_at (fs w) source b /\ fs w' = <[dir ++ [c] := File b mode]> (fs w)) /\
  ((forall k, fault k = None) -> (exists b, body_at (fs w) source b) -> is_dir (fs w) (dir ++ [c]) = false ->
   (forall t, scratch dir copy_prefix t -> fs w !! t = None) -> r = Ok tt).
Proof.
  intros Hdir Hns. destruct (copy_atomic_runs source dir c mode w Hdir Hns) as [(l & Hl & HF) Hq].
  pose proof (copy_atomic_succeeds source dir c mode) as Hs. destruct (copy_atomic source (dir ++ [c]) mode w) as [w' r] eqn:E.
  cbn [fst snd] in *. split; [|split].
  - exists l. split; [done|]. eapply Forall_impl; [|exact HF]. intros m Hm. by eapply replacing_by_lookup.
  - intros ->. done.
  - intros Hnf (b & md & Hb) Hdst Hfree. destruct (Hs b md w Hnf Hb Hdir Hdst Hfree Hns) as [w1 Hw1]. congruence.
Qed.
End runs.

(** * Frames *)

(** [m] differs from [m0] only at paths in [T]. *)
Definition agree (T : path -> Prop) (m0 m : files) : Prop := forall q, ~ T q -> m !! q = m0 !! q.

(** Whatever breaks, only paths in [T] change. *)
Definition framed (T : path -> Prop) {A : Type} (m : fm A) : Prop :=
  forall m0 w, agree T m0 (fs w) -> runs (agree T m0) m w (fun w' _ => agree T m0 (fs w')).

Lemma agree_refl (T : path -> Prop) m : agree T m m.
Proof. by intros q _. Qed.

Lemma agree_trans (T : path -> Prop) m1 m2 m3 : agree T m1 m2 -> agree T m2 m3 -> agree T m1 m3.
Proof. intros H1 H2 q Hq. by rewrite H2, H1. Qed.

Lemma agree_weaken (T U : path -> Prop) m0 m : (forall q, T q -> U q) -> agree T m0 m -> agree U m0 m.
Proof. intros HTU Ha q Hq. apply Ha. by intros Ht%HTU. Qed.

Lemma agree_insert (T : path -> Prop) m p n : T p -> agree T m (<[p := n]> m).
Proof. intros Hp q Hq. rewrite lookup_insert_ne; [done|]. by intros <-. Qed.

Lemma agree_delete (T : path -> Prop) m p : T p -> agree T m (delete p m).
Proof. intros Hp q Hq. rewrite lookup_delete_ne; [done|]. by intros <-. Qed.

(** The equation of a run is known in its postcondition. *)
Lemma runs_eq {A : Type} (I : files -> Prop) (m : fm A) w (Q : world -> result failure A -> Prop) :
  runs I m w (fun w' r => m w = (w', r) -> Q w' r) -> runs I m w Q.
Proof. intros [Ha Hq]. split; [done|]. apply Hq. by destruct (m w). Qed.

Lemma framed_weaken (T U : path -> Prop) {A : Type} (m : fm A) : (forall q, T q -> U q) -> framed T m -> framed U m.
Proof.
  intros HTU Hm m0 w Hw. destruct (Hm (fs w) w (agree_refl _ _)) as [Ha Hq]. split.
  - eapply along_weaken; [|exact Ha]. intros m1 H1. eapply agree_trans; [exact Hw|by eapply agree_weaken].
  - eapply agree_trans; [exact Hw|by eapply agree_weaken].
Qed.

Lemma framed_ret (T : path -> Prop) {A : Type} (a : A) : framed T (mret a).
Proof. intros m0 w Hw. by apply runs_ret. Qed.

Lemma framed_throw (T : path -> Prop) {A : Type} e : framed T (throw (A := A) e).
Proof. intros m0 w Hw. by apply runs_throw. Qed.

Lemma framed_bind (T : path -> Prop) {A B : Type} (m : fm A) (f : A -> fm B) : framed T m -> (forall a, framed T (f a)) -> framed T (mbind f m).
Proof.
  intros Hm Hf m0 w Hw. apply runs_bind. eapply runs_weaken; [done| |by apply Hm]. intros w1 [a|e] H1; [by apply Hf|done].
Qed.

Lemma framed_attempt (T : path -> Prop) {A : Type} (m : fm A) : framed T m -> framed T (attempt m).
Proof. intros Hm m0 w Hw. apply runs_attempt. by apply Hm. Qed.

Lemma framed_ignore (T : path -> Prop) {A : Type} (m : fm A) : framed T m -> framed T (ignore m).
Proof. intros Hm. apply framed_bind; [by apply framed_attempt|intros; apply framed_ret]. Qed.

Lemma framed_look (T : path -> Prop) {A : Type} (f : files -> A) : framed T (look f).
Proof. intros m0 w Hw. by apply runs_look. Qed.

(** What a step of a call may change. *)
Definition step_in (T : path -> Prop) (step : files -> result fs_error files) : Prop := forall m m', step m = Ok m' -> agree T m m'.

Section framed_calls.
Context `{Machine}.

Lemma framed_call (T : path -> Prop) step part : step_in T step -> (forall n m, agree T m (part n m)) -> framed T (call step part).
Proof.
  intros Hs Hp m0 w Hw. apply runs_call.
  - intros n _. assert (agree T m0 (part n (fs w))) as Ha by (eapply agree_trans; [exact Hw|apply Hp]). by split.
  - intros _. destruct (step (fs w)) as [m|e] eqn:E; [|by split].
    assert (agree T m0 m) as Ha by (eapply agree_trans; [exact Hw|by apply Hs]). by split.
Qed.

Lemma framed_atomic_call (T : path -> Prop) step : step_in T step -> framed T (atomic_call step).
Proof. intros Hs. apply framed_call; [done|]. intros; apply agree_refl. Qed.

Lemma partly_agree (T : path -> Prop) step m : step_in T step -> agree T m (partly step m).
Proof. intros Hs. unfold partly. destruct (step m) eqn:E; [by apply Hs|apply agree_refl]. Qed.

Ltac step_frame :=
  let m := fresh "m" in let m' := fresh "m'" in let Hm := fresh "Hm" in
  intros m m' Hm;
  repeat match type of Hm with
         | (if ?c then _ else _) = _ => destruct c
         | match ?c with _ => _ end = _ => destruct c
         end; try done; apply Ok_inj in Hm; subst m';
  auto using agree_insert, agree_delete, agree_refl.

Lemma step_create_new (T : path -> Prop) mode p : T p -> step_in T (create_new_step mode p).
Proof. intros Hp. unfold create_new_step. step_frame. Qed.
Lemma step_append (T : path -> Prop) p b : T p -> step_in T (append_step p b).
Proof. intros Hp. unfold append_step. step_frame. Qed.
Lemma step_chmod (T : path -> Prop) p mode : T p -> step_in T (chmod_step p mode).
Proof. intros Hp. unfold chmod_step. step_frame. Qed.
Lemma step_copy (T : path -> Prop) n src dst : T dst -> step_in T (copy_step n src dst).
Proof. intros Hp. unfold copy_step. step_frame. Qed.
Lemma step_open (T : path -> Prop) p : step_in T (open_step p).
Proof. unfold open_step. step_frame. Qed.
Lemma step_symlink (T : path -> Prop) t p : T p -> step_in T (symlink_step t p).
Proof. intros Hp. unfold symlink_step. step_frame. Qed.
Lemma step_remove_file (T : path -> Prop) p : T p -> step_in T (remove_file_step p).
Proof. intros Hp. unfold remove_file_step. step_frame. Qed.
Lemma step_create_dir (T : path -> Prop) mode p : T p -> step_in T (create_dir_step mode p).
Proof. intros Hp. unfold create_dir_step. step_frame. Qed.

Lemma remove_tree_agree (T : path -> Prop) p keep m : (forall q, under p q = true -> T q) -> agree T m (remove_tree p keep m).
Proof.
  intros HT q Hq. apply option_eq. intros n. unfold remove_tree. rewrite map_lookup_filter_Some. cbn [fst].
  split; [by intros [? _]|]. intros Hn. split; [done|]. destruct (under p q) eqn:E; [by destruct Hq; apply HT|done].
Qed.

Lemma step_remove_dir (T : path -> Prop) p : (forall q, under p q = true -> T q) -> step_in T (remove_dir_step p).
Proof.
  intros HT. pose proof (HT p (under_refl p)) as Hp. unfold remove_dir_step. step_frame. by apply remove_tree_agree.
Qed.

Lemma step_rename (T : path -> Prop) a b :
  (forall q, under a q = true -> T q) -> (forall q, under b q = true -> T q) -> step_in T (rename_step a b).
Proof.
  intros Ha Hb m m'. unfold rename_step. destruct (under a b || under b a) eqn:Eu.
  { case_bool_decide; [|done]. intros Hm. apply Ok_inj in Hm as <-. apply agree_refl. }
  apply orb_false_elim in Eu as [Eab Eba]. destruct (negb _); [done|].
  assert (agree T m (move a b m)) as Hmove.
  { intros q Hq. rewrite lookup_move by done. destruct (strip b q) as [r|] eqn:Er.
    - destruct Hq. apply Hb. unfold under. by rewrite Er.
    - destruct (under a q) eqn:E; [|done]. by destruct Hq; apply Ha. }
  assert (forall n, agree T m (<[b := n]> (delete a m))) as Hfile.
  { intros n. eapply agree_trans; [apply agree_delete, Ha, under_refl|apply agree_insert, Hb, under_refl]. }
  destruct (m !! a) as [[]|], (m !! b) as [[]|]; try destruct (is_empty_dir m b); intros Hm; try done; apply Ok_inj in Hm; subst m'; done.
Qed.

Lemma framed_random_hex (T : path -> Prop) n : framed T (random_hex n).
Proof. intros m0 w Hw. split; [|done]. exists []. by rewrite app_nil_r. Qed.

Lemma framed_create_mode (T : path -> Prop) mode p : T p -> framed T (fs_create_mode mode p).
Proof. intros. by apply framed_atomic_call, step_create_new. Qed.
Lemma framed_write_all (T : path -> Prop) p b : T p -> framed T (fs_write_all p b).
Proof. intros. apply framed_call; [by apply step_append|]. intros. by apply partly_agree, step_append. Qed.
Lemma framed_set_permissions (T : path -> Prop) p mode : T p -> framed T (fs_set_permissions p mode).
Proof. intros. by apply framed_atomic_call, step_chmod. Qed.
Lemma framed_copy (T : path -> Prop) src dst : T dst -> framed T (fs_copy src dst).
Proof.
  intros Hd m0 w Hw. assert (forall k, framed T (call (copy_step k src dst)
    (fun n => if bool_decide (n = 0%nat) then id else partly (copy_step (n - 1) src dst)))) as Hf; [|exact (Hf _ m0 w Hw)].
  intros k. apply framed_call; [by apply step_copy|]. intros n m. case_bool_decide; [apply agree_refl|]. by apply partly_agree, step_copy.
Qed.
Lemma framed_sync (T : path -> Prop) p : framed T (fs_sync p).
Proof. apply framed_atomic_call, step_open. Qed.
Lemma framed_symlink (T : path -> Prop) t p : T p -> framed T (fs_symlink t p).
Proof. intros. by apply framed_atomic_call, step_symlink. Qed.
Lemma framed_rename (T : path -> Prop) a b :
  (forall q, under a q = true -> T q) -> (forall q, under b q = true -> T q) -> framed T (fs_rename a b).
Proof. intros. by apply framed_atomic_call, step_rename. Qed.
Lemma framed_remove_file (T : path -> Prop) p : T p -> framed T (fs_remove_file p).
Proof. intros. by apply framed_atomic_call, step_remove_file. Qed.
Lemma framed_remove_dir_all (T : path -> Prop) p : (forall q, under p q = true -> T q) -> framed T (fs_remove_dir_all p).
Proof.
  intros HT m0 w Hw. assert (forall keep, framed T (call (remove_dir_step p) (fun _ => remove_tree p keep))) as Hf; [|exact (Hf (kept (tick w)) m0 w Hw)].
  intros keep. apply framed_call; [by apply step_remove_dir|]. intros n m. by apply remove_tree_agree.
Qed.
Lemma framed_create_dir (T : path -> Prop) p : T p -> framed T (fs_create_dir p).
Proof. intros. by apply framed_atomic_call, step_create_dir. Qed.

Lemma framed_read (T : path -> Prop) p : framed T (fs_read p).
Proof.
  intros m0 w Hw. unfold runs, fs_read.
  destruct (fault (tick w)); [by split; [apply along_advance|]|]. destruct (fs w !! through (fs w) p) as [[]|]; (split; [by apply along_advance|done]).
Qed.

Lemma framed_cleanup (T : path -> Prop) t body : T t -> framed T body -> framed T (cleanup_on_error t body).
Proof.
  intros Ht Hb. apply framed_bind; [by apply framed_attempt|]. intros [u|e]; [apply framed_ret|].
  apply framed_bind; [by apply framed_ignore, framed_remove_file|]. intros; apply framed_throw.
Qed.
Lemma create_missing_framed (T : path -> Prop) done todo :
  (forall a b, todo = a ++ b -> a <> [] -> T (done ++ a)) -> framed T (create_missing done todo).
Proof.
  revert done. induction todo as [|c todo IH]; intros done HT; cbn [create_missing]; [apply framed_ret|].
  apply framed_bind; [apply framed_look|]. intros [|].
  - apply framed_bind; [apply framed_ret|]. intros _. apply IH. intros a b -> Ha. rewrite <- app_assoc. apply (HT ([c] ++ a) b); [done|done].
  - apply framed_bind; [apply framed_create_dir; by apply (HT [c] todo)|]. intros _. apply IH. intros a b -> Ha. rewrite <- app_assoc.
    apply (HT ([c] ++ a) b); [done|done].
Qed.

Lemma framed_make_dir (T : path -> Prop) p mode : (forall a b, p = a ++ b -> T a) -> framed T (create_dir p mode).
Proof.
  intros HT. apply framed_bind; [apply create_missing_framed; intros a b Hp _; by eapply HT|]. intros _. apply framed_set_permissions, (HT p []).
  by rewrite app_nil_r.
Qed.

Lemma framed_unique (T : path -> Prop) {A : Type} dir prefix (f : path -> fm A) :
  (forall t, scratch dir prefix t -> framed T (f t)) -> framed T (mbind f (unique_path dir prefix)).
Proof.
  intros Hf m0 w Hw. apply runs_bind, unique_path_runs; [intros w1 s ->; done|]. intros w1 t Hw1 Ht _. apply Hf; [done|]. by rewrite Hw1.
Qed.

Lemma framed_unique_path (T : path -> Prop) dir prefix : framed T (unique_path dir prefix).
Proof. intros m0 w Hw. apply unique_path_runs; [intros w1 s -> | intros w1 t -> _ _]; done. Qed.

Lemma framed_unique_directory (T : path -> Prop) dir prefix :
  (forall t, scratch dir prefix t -> T t) -> framed T (unique_directory dir prefix).
Proof.
  intros HT. apply framed_unique. intros t Ht. apply framed_bind; [by apply framed_create_dir, HT|]. intros _.
  apply framed_bind; [by apply framed_set_permissions, HT|]. intros; apply framed_ret.
Qed.

(** What a replacement of [d ++ [c]] may touch, the directories above it included. *)
Definition replaces (T : path -> Prop) (prefix : bytes) (d : path) (c : bytes) : Prop :=
  (forall a b, d = a ++ b -> T a) /\ (forall q, under (d ++ [c]) q = true -> T q) /\
  (forall t q, scratch d prefix t -> under t q = true -> T q).

Lemma framed_bind_ret (T : path -> Prop) {A B : Type} (a : A) (f : A -> fm B) : framed T (f a) -> framed T (mbind f (mret a)).
Proof. done. Qed.

Lemma framed_copy_atomic (T : path -> Prop) source d c mode :
  replaces T copy_prefix d c -> framed T (copy_atomic source (d ++ [c]) mode).
Proof.
  intros (Hup & Hdst & Htmp). unfold copy_atomic, parent_of. rewrite parent_snoc. apply framed_bind_ret.
  apply framed_bind; [apply framed_look|]. intros present. apply framed_bind.
  { destruct present; [apply framed_ret|by apply framed_make_dir]. }
  intros _. apply framed_unique. intros t Ht. assert (T t) as HT by (eapply Htmp; [exact Ht|apply under_refl]). apply framed_cleanup; [done|].
  apply framed_bind; [by apply framed_copy|intros _]. apply framed_bind; [by apply framed_set_permissions|intros _].
  apply framed_bind; [apply framed_sync|intros _]. apply framed_bind; [apply framed_rename; [by intros q; apply Htmp|done]|].
  intros _. apply framed_sync.
Qed.

Lemma framed_atomic_write (T : path -> Prop) d c content mode :
  replaces T write_prefix d c -> framed T (atomic_write (d ++ [c]) content mode).
Proof.
  intros (Hup & Hdst & Htmp). unfold atomic_write, parent_of. rewrite parent_snoc. apply framed_bind_ret.
  apply framed_unique. intros t Ht. assert (T t) as HT by (eapply Htmp; [exact Ht|apply under_refl]). apply framed_cleanup; [done|].
  apply framed_bind; [by apply framed_create_mode|intros _]. apply framed_bind; [by apply framed_write_all|intros _].
  apply framed_bind; [apply framed_sync|intros _]. apply framed_bind; [by apply framed_set_permissions|intros _].
  apply framed_bind; [apply framed_rename; [by intros q; apply Htmp|done]|]. intros _. apply framed_sync.
Qed.

Lemma framed_read_to_string (T : path -> Prop) p : framed T (fs_read_to_string p).
Proof. apply framed_bind; [apply framed_read|]. intros b. destruct (utf8_valid b); [apply framed_ret|apply framed_throw]. Qed.

Lemma framed_not_found_is_ok (T : path -> Prop) m : framed T m -> framed T (not_found_is_ok m).
Proof.
  intros Hm. apply framed_bind; [by apply framed_attempt|]. intros [u|[[]|]]; first [apply framed_ret|apply framed_throw].
Qed.
End framed_calls.

Create HintDb framed.
#[export] Hint Resolve framed_ret framed_throw framed_look framed_random_hex framed_sync framed_read framed_attempt framed_ignore
  framed_create_mode framed_write_all framed_set_permissions framed_copy framed_symlink framed_rename framed_remove_file
  framed_remove_dir_all framed_create_dir framed_cleanup framed_make_dir framed_unique_path framed_unique_directory
  framed_copy_atomic framed_atomic_write framed_read_to_string framed_not_found_is_ok : framed.

(** Steps through a sequence of calls. *)
Ltac frame :=
  repeat (first [solve [eauto with framed] | apply framed_bind; [|intros]
                | match goal with |- framed _ (match ?x with _ => _ end) => destruct x end]).

(** * Inversion *)

Lemma bind_ok_inv {A B : Type} (m : fm A) (f : A -> fm B) w w' b :
  mbind f m w = (w', Ok b) -> exists w1 a, m w = (w1, Ok a) /\ f a w1 = (w', Ok b).
Proof. unfold mbind, fm_bind. destruct (m w) as [w1 [a|e]]; [by eauto|done]. Qed.

Lemma fm_bind_assoc {A B C : Type} (m : fm A) (f : A -> fm B) (g : B -> fm C) w :
  mbind g (mbind f m) w = mbind (fun a => mbind g (f a)) m w.
Proof. unfold mbind, fm_bind. by destruct (m w) as [w1 [a|e]]. Qed.

Lemma call_ok_inv `{Machine} step part w w' u : call step part w = (w', Ok u) -> step (fs w) = Ok (fs w').
Proof.
  unfold call. destruct (fault (tick w)); [done|]. destruct (step (fs w)) as [m|e]; [|done]. intros [= <- _]. done.
Qed.

Lemma call_succeeds `{Machine} step part w m :
  (forall k, fault k = None) -> step (fs w) = Ok m -> exists w', call step part w = (w', Ok tt) /\ fs w' = m.
Proof. intros Hf Hs. exists (advance w m). split; [by apply call_ok|done]. Qed.

(** Splits [m w = (w', Ok a)] into the calls of [m]. *)
Ltac run_inv H :=
  lazymatch type of H with
  | mbind _ _ _ = (_, Ok _) =>
      let w := fresh "w" in let a := fresh "a" in let H1 := fresh "H" in
      apply bind_ok_inv in H as (w & a & H1 & H); run_inv H
  | _ => idtac
  end.

(** What a result says of the calls that follow. *)
Lemma framed_bind_ok (T : path -> Prop) {A B : Type} (m : fm A) (f : A -> fm B) :
  framed T m -> (forall a w w', m w = (w', Ok a) -> framed T (f a)) -> framed T (mbind f m).
Proof.
  intros Hm Hf m0 w Hw. apply runs_bind, runs_eq. eapply runs_weaken; [intros m1 H1; exact H1| |by apply Hm].
  intros w1 [a|e] H1 Heq; [|done]. by apply (Hf a w w1 Heq).
Qed.

Lemma unique_path_scratch `{Machine} dir prefix w w' t : unique_path dir prefix w = (w', Ok t) -> scratch dir prefix t.
Proof.
  intros Hu. assert (runs (fun _ => True) (unique_path dir prefix) w (fun _ r => match r with Ok t => scratch dir prefix t | _ => True end)) as [_ Hq]
    by (by apply unique_path_runs). by rewrite Hu in Hq.
Qed.

Lemma unique_directory_ok `{Machine} dir prefix w w' t :
  unique_directory dir prefix w = (w', Ok t) -> scratch dir prefix t /\ is_dir (fs w') t = true.
Proof.
  unfold unique_directory. intros Hu. run_inv Hu. injection Hu as <- <-. split; [by eapply unique_path_scratch|].
  match goal with Hp : fs_set_permissions _ _ _ = _ |- _ => apply call_ok_inv in Hp; revert Hp end.
  match goal with Hp : fs_create_dir _ _ = _ |- _ => apply call_ok_inv in Hp; revert Hp end.
  unfold create_dir_step, chmod_step. destruct (is_present _ _); [done|]. destruct (in_dir _ _); [|done].
  intros Hm. apply Ok_inj in Hm. rewrite <- Hm, lookup_insert_eq. intros Hm2. apply Ok_inj in Hm2. rewrite <- Hm2. unfold is_dir. by rewrite lookup_insert_eq.
Qed.

Lemma copy_atomic_ok `{Machine} source dir c mode w w' u :
  is_dir (fs w) dir = true -> ~ scratch dir copy_prefix (dir ++ [c]) -> copy_atomic source (dir ++ [c]) mode w = (w', Ok u) ->
  exists b, body_at (fs w) source b /\ fs w' = <[dir ++ [c] := File b mode]> (fs w).
Proof. intros Hd Hs Hc. destruct (copy_atomic_runs source dir c mode w Hd Hs) as [_ Hq]. by rewrite Hc in Hq. Qed.

Lemma atomic_write_ok `{Machine} dir c content mode w w' u :
  ~ scratch dir write_prefix (dir ++ [c]) -> atomic_write (dir ++ [c]) content mode w = (w', Ok u) ->
  fs w' = <[dir ++ [c] := File content mode]> (fs w).
Proof.
  intros Hs Hc. destruct (atomic_write_runs dir c content mode w Hs) as [_ Hq]. rewrite Hc in Hq. by destruct Hq as (b & <- & Hq).
Qed.

(** * Contents *)

Lemma body_at_functional m p b1 b2 : body_at m p b1 -> body_at m p b2 -> b1 = b2.
Proof. intros [? H1'] [? H2']. congruence. Qed.

Lemma body_at_insert m p q n b : p <> q -> body_at m p b -> body_at (<[q := n]> m) p b.
Proof. intros Hne [mode Hm]. exists mode. by rewrite lookup_insert_ne. Qed.

Lemma framed_agree (T : path -> Prop) {A : Type} (m : fm A) w w' r : framed T m -> m w = (w', r) -> agree T (fs w) (fs w').
Proof. intros Hf Hm. destruct (Hf (fs w) w (agree_refl _ _)) as [_ Ha]. by rewrite Hm in Ha. Qed.

Lemma unchanged {A : Type} (m : fm A) w w' r : framed (fun _ => False) m -> m w = (w', r) -> fs w' = fs w.
Proof. intros Hf Hm. apply map_eq. intros q. eapply framed_agree; [exact Hf|exact Hm|]. by intros []. Qed.

Lemma body_at_agree (T : path -> Prop) m m' p b : agree T m m' -> ~ T p -> body_at m p b -> body_at m' p b.
Proof. intros Ha Hp [mode Hm]. exists mode. by rewrite Ha. Qed.

(** A renamed directory. *)
Lemma rename_dir_ok a b m m' r :
  under a b = false -> under b a = false -> is_dir m a = true -> rename_step a b m = Ok m' -> m' !! (b ++ r) = m !! (a ++ r).
Proof.
  intros Hab Hba Ha. unfold rename_step. rewrite Hab, Hba. cbn [orb]. destruct (negb _); [done|]. unfold is_dir in Ha.
  assert (move a b m !! (b ++ r) = m !! (a ++ r)) as Hm by (rewrite lookup_move by done; by rewrite strip_app).
  destruct (m !! a) as [[]|], (m !! b) as [[]|]; try destruct (is_empty_dir m b); intros Hr; try done; apply Ok_inj in Hr; by subst m'.
Qed.

(** * Errors *)

(** [m] never ends in the error [e]. *)
Definition spares (e : failure) {A : Type} (m : fm A) : Prop := forall w, (m w).2 <> Err e.

Lemma spares_ret (e : failure) {A : Type} (a : A) : spares e (mret a).
Proof. by intros w. Qed.
Lemma spares_look (e : failure) {A : Type} (f : files -> A) : spares e (look f).
Proof. by intros w. Qed.
Lemma spares_throw (e e' : failure) {A : Type} : e' <> e -> spares e (throw (A := A) e').
Proof. intros Hne w [=]. done. Qed.
Lemma spares_attempt (e : failure) {A : Type} (m : fm A) : spares e (attempt m).
Proof. intros w. unfold attempt. by destruct (m w). Qed.
Lemma spares_bind (e : failure) {A B : Type} (m : fm A) (f : A -> fm B) : spares e m -> (forall a, spares e (f a)) -> spares e (mbind f m).
Proof.
  intros Hm Hf w. specialize (Hm w). unfold mbind, fm_bind. destruct (m w) as [w1 [a|e']]; [apply Hf|]. intros [= ->]. by apply Hm.
Qed.
Lemma spares_ignore (e : failure) {A : Type} (m : fm A) : spares e (ignore m).
Proof. apply spares_bind; [apply spares_attempt|]. intros; apply spares_ret. Qed.
Lemma ignore_ok {A : Type} (m : fm A) w : (ignore m w).2 = Ok tt.
Proof. unfold ignore, mbind, fm_bind, attempt. by destruct (m w). Qed.
Lemma spares_call `{Machine} s step part : spares (FMessage s) (call step part).
Proof. intros w. unfold call. destruct (fault (tick w)); [done|]. by destruct (step (fs w)). Qed.

Lemma spares_create_missing `{Machine} s done todo : spares (FMessage s) (create_missing done todo).
Proof.
  revert done. induction todo as [|c todo IH]; intros done; cbn [create_missing]; [apply spares_ret|].
  apply spares_bind; [apply spares_look|intros [|]]; (apply spares_bind; [|intros; apply IH]); [apply spares_ret|apply spares_call].
Qed.

Lemma spares_unique_path `{Machine} s dir prefix : s <> "failed to allocate a unique temporary path"%string -> spares (FMessage s) (unique_path dir prefix).
Proof.
  intros Hs. unfold unique_path. generalize 32%nat. intros n. induction n as [|n IH]; cbn [unique_path_loop]; [apply spares_throw; congruence|].
  apply spares_bind; [by intros w|intros r]. apply spares_bind; [apply spares_look|]. intros [|]; [done|apply spares_ret].
Qed.

Lemma spares_cleanup `{Machine} (e : failure) t body : spares e body -> spares e (cleanup_on_error t body).
Proof.
  intros Hb w. unfold cleanup_on_error. specialize (Hb w). destruct (body w) as [w1 r] eqn:E.
  rewrite (fm_bind_ok _ _ w w1 r) by (unfold attempt; by rewrite E). destruct r as [u|e']; [done|].
  apply spares_bind; [apply spares_ignore|]. intros _. apply spares_throw. intros ->. by apply Hb.
Qed.

Lemma spares_copy_atomic `{Machine} s source destination mode :
  s <> "failed to allocate a unique temporary path"%string -> s <> "has no parent"%string -> spares (FMessage s) (copy_atomic source destination mode).
Proof.
  intros Hs Hn. unfold copy_atomic, parent_of. apply spares_bind; [destruct (parent destination); [apply spares_ret|apply spares_throw; congruence]|].
  intros dir. apply spares_bind; [apply spares_look|intros present]. apply spares_bind.
  { destruct present; [apply spares_ret|]. apply spares_bind; [apply spares_create_missing|intros; apply spares_call]. }
  intros _. apply spares_bind; [by apply spares_unique_path|intros t]. apply spares_cleanup.
  apply spares_bind; [intros w; apply spares_call|intros _]. do 3 (apply spares_bind; [apply spares_call|intros _]). apply spares_call.
Qed.

(** * Witness *)

#[global] Instance toy_machine : Machine := {|
  fault := fun _ => None; kept := fun _ _ => true; draw := fun t n => replicate n (Z.of_nat t);
  process_id := 7; new_file_mode := octal 6 4 4; new_dir_mode := octal 7 5 5 |}.

Definition toy_files : files :=
  <[[[115]] := File [1; 2; 3] (octal 6 0 0)]> (<[[[100]] := Dir (octal 7 5 5)]> (<[[[100]; [102]] := File [9] (octal 6 4 4)]> (<[[] := Dir (octal 7 5 5)]> ∅))).

Lemma scratch_length `{Machine} dir prefix c : (length c < length prefix)%nat -> ~ scratch dir prefix (dir ++ [c]).
Proof.
  intros Hl [r Hr]. apply app_inv_head in Hr. injection Hr as ->. unfold temporary_name in Hl. rewrite !length_app in Hl. lia.
Qed.

Lemma replacement_is_atomic_witness :
  exists w', copy_atomic [[115]] [[100]; [102]] (octal 7 5 5) (mk_world toy_files [] 0) = (w', Ok tt) /\
    (exists b, body_at toy_files [[115]] b /\ fs w' = <[[[100]; [102]] := File b (octal 7 5 5)]> toy_files) /\
    exists l, past w' = [] ++ l /\
      Forall (fun m => m !! [[100]; [102]] = Some (File [9] (octal 6 4 4)) \/
                       exists b, body_at toy_files [[115]] b /\ m !! [[100]; [102]] = Some (File b (octal 7 5 5))) l.
Proof.
  assert (~ scratch [[100]] copy_prefix ([[100]] ++ [[102]])) as Hns by (apply scratch_length; cbn; lia).
  pose proof (replacement_is_atomic [[115]] [[100]] [102] (octal 7 5 5) (mk_world toy_files [] 0) eq_refl Hns) as Hr.
  change ([[100]] ++ [[102]]) with [[100]; [102]] in Hr.
  destruct (copy_atomic [[115]] [[100]; [102]] (octal 7 5 5) (mk_world toy_files [] 0)) as [w' r].
  destruct Hr as ((l & Hl & HF) & Ho & Hlive). exists w'.
  assert (r = Ok tt) as ->.
  { apply Hlive; [done| |done|].
    - exists [1; 2; 3], (octal 6 0 0). reflexivity.
    - intros t [x ->]. cbn [fs]. unfold toy_files. rewrite !lookup_insert_ne; [apply lookup_empty| | | |]; intros Heq; by inversion Heq. }
  split; [done|]. split; [by apply Ho|]. exists l. split; [done|]. eapply Forall_impl; [|exact HF]. intros m [Hm _]. exact Hm.
Defined.
