(* ===== verification/Release.v ===== *)
(** The checks of [src/management.rs] on what it downloads, and the identifiers it makes:
    release tags, checksum files, archive listings, version lines and random UUIDs.

    sha2's incremental digest is a class.  [Path::components] and [split_whitespace] are
    those of the standard library. *)

From S2P Require Import Prelude TlsCert Files.

(** * Text *)

(** [split_whitespace]; [word] is the word read so far. *)
Fixpoint words_from (fuel : nat) (word l : bytes) : list bytes :=
  match fuel with
  | O => []
  | S f =>
      match l with
      | [] => match word with [] => [] | _ => [word] end
      | b :: l' =>
          match strip_any whitespace l with
          | Some r => match word with [] => words_from f [] r | _ => word :: words_from f [] r end
          | None => words_from f (word ++ [b]) l'
          end
      end
  end.

Definition split_whitespace (l : bytes) : list bytes := words_from (S (length l)) [] l.

(** * Paths *)

Inductive component : Type := RootDir | CurDir | ParentDir | Normal (c : bytes).

Definition segment (s : bytes) : list component :=
  if bytes_eqb s [] || bytes_eqb s [46] then [] else if bytes_eqb s [46; 46] then [ParentDir] else [Normal s].

(** [Path::components]: repeated and final slashes and inner dots are dropped, a dot at
    the start is kept. *)
Definition components (p : bytes) : list component :=
  let s := split_on 47 p in
  (if starts_with [47] p then [RootDir]
   else if bool_decide (head s = Some [46]) then [CurDir] else [])
  ++ concat (segment <$> s).

(** How the system resolves a path from a directory (without links). *)
Definition resolve_component (at_ : path) (c : component) : path :=
  match c with
  | RootDir => []
  | CurDir => at_
  | ParentDir => removelast at_
  | Normal n => at_ ++ [n]
  end.

Definition resolve_in (dir : path) (p : bytes) : path := fold_left resolve_component (components p) dir.

(** * Tags *)

Definition tag_character (c : Z) : bool :=
  ((48 <=? c) && (c <=? 57)) || ((65 <=? c) && (c <=? 90)) || ((97 <=? c) && (c <=? 122))
  || (c =? 46) || (c =? 45) || (c =? 43).

(** The characters of the rest are bytes here: one above 127 belongs to a character that is
    not alphanumeric ASCII. *)
Definition validate_tag (tag : bytes) : option bytes :=
  if (len tag <? 2) || negb (starts_with [118] tag) || negb (forallb tag_character (tail tag)) then None else Some tag.

(** The tag at the end of the URL that [curl] was redirected to. *)
Definition tag_of_url (url : bytes) : option bytes :=
  last_segment ← list.last (split_on 47 (trim_end_matches 47 url)); validate_tag last_segment.

Definition RELEASE_TARGET : bytes := bytes_of_string "x86_64-unknown-linux-gnu".
Definition REPOSITORY : bytes := bytes_of_string "jacek4yang/rust-xhttp".

Definition release_prefix (tag : bytes) : bytes := bytes_of_string "rust-xhttp-" ++ tag ++ [45] ++ RELEASE_TARGET.
Definition archive_name (tag : bytes) : bytes := release_prefix tag ++ bytes_of_string ".tar.gz".

(** * Checksums *)

Class Sha256 := { sha_state : Type; sha_new : sha_state; sha_update : sha_state -> bytes -> sha_state; sha_finalize : sha_state -> bytes }.

Definition sha256 `{Sha256} (b : bytes) : bytes := sha_finalize (sha_update sha_new b).

(** Hashing is incremental, and the digest has 32 bytes. *)
Class Sha256Laws `{Sha256} : Prop := {
  sha_update_nil : forall s, sha_update s [] = s;
  sha_update_app : forall s a b, sha_update (sha_update s a) b = sha_update s (a ++ b);
  sha_length : forall s, length (sha_finalize s) = 32%nat;
  sha_bytes : forall s, bytes_ok (sha_finalize s) }.

Inductive checksum_error : Type := ChecksumEmpty | ChecksumUnnamed | ChecksumFormat | ChecksumMismatch.

(** The reads of the archive, of at most 64 KiB each. *)
Definition digest_reads `{Sha256} (reads : list bytes) : bytes := sha_finalize (fold_left sha_update reads sha_new).

Definition verify_checksum `{Sha256} (reads : list bytes) (source name : bytes) : result checksum_error unit :=
  let fields := split_whitespace source in
  expected ← ok_or (head fields) ChecksumEmpty;
  named ← ok_or (head (tail fields)) ChecksumUnnamed;
  if negb (bytes_eqb (trim_start_matches 42 named) name) || negb (len expected =? 64) then Err ChecksumFormat
  else if negb (eq_ignore_ascii_case (hex (digest_reads reads)) expected) then Err ChecksumMismatch
  else Ok tt.

(** * Archives *)

Definition normal_component (c : component) : bool := match c with Normal _ => true | _ => false end.

Definition safe_entry (expected_root entry : bytes) : bool :=
  match components entry with
  | Normal c :: rest => bytes_eqb c expected_root && forallb normal_component rest
  | _ => false
  end.

(** [validate_archive_paths] on the output of [tar --list]. *)
Definition safe_listing (expected_root listing : bytes) : bool :=
  utf8_valid listing && forallb (safe_entry expected_root) (lines listing).

(** [validate_regular_archive_member] on the output of [tar --list --verbose]. *)
Definition regular_member (listing : bytes) : bool :=
  utf8_valid listing && match lines listing with [l] => starts_with [45] l | _ => false end.

(** * Versions *)

Definition version_of (output : bytes) : option bytes := head (tail (split_whitespace output)).

(** The comparison of [require_matching_versions]. *)
Definition versions_match (server ctl : bytes) (expected : option bytes) : result string unit :=
  s ← ok_or (version_of server) "rust-xhttp did not report a version number"%string;
  c ← ok_or (version_of ctl) "rust-xhttpctl did not report a version number"%string;
  if negb (bytes_eqb s c) then Err "daemon version does not match manager version"%string
  else
    match expected with
    | Some e => if negb (bytes_eqb s e) then Err "release tag requires another version"%string else Ok tt
    | None => Ok tt
    end.

(** * UUIDs *)

(** [bytes[6] = (bytes[6] & 0x0f) | 0x40] and [bytes[8] = (bytes[8] & 0x3f) | 0x80]. *)
Definition uuid_bits (b : bytes) : bytes :=
  alter (fun x => Z.lor (Z.land x 63) 128) 8%nat (alter (fun x => Z.lor (Z.land x 15) 64) 6%nat b).

Definition format_uuid (b : bytes) : bytes :=
  hex (take 4 b) ++ [45] ++ hex (take 2 (drop 4 b)) ++ [45] ++ hex (take 2 (drop 6 b)) ++ [45]
  ++ hex (take 2 (drop 8 b)) ++ [45] ++ hex (drop 10 b).

Definition random_uuid (random : bytes) : bytes := format_uuid (uuid_bits random).

(** * Paths below a directory *)

(** A name that stays in its directory. *)
Definition plain_name (n : bytes) : Prop := n <> [] /\ n <> [46] /\ n <> [46; 46] /\ Forall (fun b => b <> 47) n.

Lemma segment_normal s n : Forall (fun b => b <> 47) s -> segment s = [Normal n] -> n = s /\ plain_name s.
Proof.
  unfold segment. intros Hs. destruct (bytes_eqb s []) eqn:E0; [done|]. destruct (bytes_eqb s [46]) eqn:E1; [done|].
  destruct (bytes_eqb s [46; 46]) eqn:E2; [done|]. cbn [orb]. intros [= <-]. split; [done|].
  split; [by intros ->|]. split; [by intros ->|]. split; [by intros ->|done].
Qed.

(** Components that are all normal are plain names. *)
Lemma normal_segments ss :
  Forall (Forall (fun b => b <> 47)) ss -> forallb normal_component (concat (segment <$> ss)) = true ->
  exists ns, concat (segment <$> ss) = Normal <$> ns /\ Forall plain_name ns.
Proof.
  induction 1 as [|s ss Hs _ IH]; [by exists []|]. cbn [fmap list_fmap concat]. rewrite forallb_app. intros [H1 H2]%andb_prop.
  destruct (IH H2) as (ns & Hns & Hp). destruct (segment s) as [|c [|? ?]] eqn:E.
  - by exists ns.
  - destruct c as [| | |n]; try done. destruct (segment_normal s n Hs E) as [-> Hn]. exists (s :: ns). cbn. rewrite Hns. split; [done|by constructor].
  - unfold segment in E. destruct (_ || _); [done|]. by destruct (bytes_eqb s _).
Qed.

Lemma resolve_normals dir ns : fold_left resolve_component (Normal <$> ns) dir = dir ++ ns.
Proof. revert dir. induction ns as [|n ns IH]; intros dir; cbn; [by rewrite app_nil_r|]. rewrite IH. by rewrite <- app_assoc. Qed.

Lemma safe_entry_resolves root e dir :
  safe_entry root e = true -> exists ns, resolve_in dir e = dir ++ root :: ns /\ Forall plain_name (root :: ns).
Proof.
  unfold safe_entry, resolve_in. intros Hs. assert (forallb normal_component (components e) = true) as Hall.
  { destruct (components e) as [|[| | |c] rest]; try done. by apply andb_prop in Hs as [_ Hr]. }
  assert (components e = concat (segment <$> split_on 47 e)) as Hc.
  { revert Hall. unfold components. destruct (starts_with [47] e); [done|]. by case_bool_decide. }
  rewrite Hc in Hall, Hs |- *. destruct (normal_segments _ (split_on_pieces 47 e) Hall) as (ns & Hns & Hp). rewrite Hns in Hs |- *.
  destruct ns as [|n ns]; [done|]. cbn in Hs. apply andb_prop in Hs as [Hr%bytes_eqb_eq _]. subst n.
  exists ns. split; [|done]. apply resolve_normals.
Qed.

Lemma bytes_eqb_ne a b : a <> b -> bytes_eqb a b = false.
Proof. intros Hne. apply not_true_iff_false. by rewrite bytes_eqb_eq. Qed.

Lemma plain_component n dir : plain_name n -> resolve_in dir n = dir ++ [n].
Proof.
  intros (H0 & H1 & H2 & Hn). unfold resolve_in, components. rewrite split_on_nodelim by done.
  assert (starts_with [47] n = false) as ->.
  { destruct n as [|b n]; [done|]. unfold starts_with. cbn [strip_prefix]. apply Forall_cons_iff in Hn as [Hb _]. destruct (Z.eqb_spec 47 b); [congruence|done]. }
  cbn [head]. rewrite bool_decide_eq_false_2 by (intros [= ->]; done). cbn [app fmap list_fmap concat]. unfold segment.
  by rewrite !bytes_eqb_ne.
Qed.

Lemma validate_tag_spec tag t :
  validate_tag tag = Some t <-> t = tag /\ exists r, tag = 118 :: r /\ r <> [] /\ forallb tag_character r = true.
Proof.
  unfold validate_tag, starts_with. split.
  - destruct tag as [|b tag]; [done|]. cbn [strip_prefix tail]. destruct (118 =? b) eqn:Eb; [split_bool; subst b|by rewrite !orb_true_r].
    destruct (len (118 :: tag) <? 2) eqn:El; [done|]. destruct (forallb tag_character tag) eqn:Ef; [|done]. cbn. intros [= <-].
    split; [done|]. exists tag. split; [done|]. split; [|done]. intros ->. by split_bool.
  - intros (-> & r & -> & Hr & Hf). cbn. rewrite Hf. destruct r as [|b r]; [done|].
    assert (len (118 :: b :: r) <? 2 = false) as -> by (apply Z.ltb_ge; unfold len; cbn [length]; lia). done.
Qed.

Lemma tag_no_slash r : forallb tag_character r = true -> Forall (fun b => b <> 47) r.
Proof. intros Hf. rewrite forallb_forall in Hf. apply Forall_forall. intros b Hb ->. by apply (Hf 47) in Hb. Qed.

Lemma release_name_plain tag t (suffix : bytes) :
  validate_tag tag = Some t -> Forall (fun b => b <> 47) suffix -> plain_name (release_prefix t ++ suffix).
Proof.
  intros (-> & r & -> & _ & Hr)%validate_tag_spec Hs. split; [done|]. split; [done|]. split; [done|].
  unfold release_prefix. rewrite !Forall_app. split; [|done]. split; [by repeat constructor|].
  split; [constructor; [done|by apply tag_no_slash]|]. by repeat constructor.
Qed.

(** * Theorems on downloads *)

(** What is downloaded stays in its directory.  For an accepted tag the names of the
    archive, of its checksum and of the directory inside it are single path components,
    whatever the tag or the redirect that named it contains; and every path of an accepted
    listing, resolved from the temporary directory, lies below the release directory in
    it: a root, a dot or a double dot anywhere is refused. *)
Theorem release_paths_confined tag t listing dir :
  validate_tag tag = Some t -> safe_listing (release_prefix t) listing = true ->
  resolve_in dir (archive_name t) = dir ++ [archive_name t] /\
  resolve_in dir (archive_name t ++ bytes_of_string ".sha256") = dir ++ [archive_name t ++ bytes_of_string ".sha256"] /\
  Forall (fun e => exists ns, resolve_in dir e = dir ++ release_prefix t :: ns /\ Forall plain_name ns) (lines listing).
Proof.
  intros Ht Hl. split; [|split].
  - apply plain_component. unfold archive_name. apply (release_name_plain tag t _ Ht). by repeat constructor.
  - apply plain_component. unfold archive_name. rewrite <- app_assoc. apply (release_name_plain tag t _ Ht). by repeat constructor.
  - unfold safe_listing in Hl. apply andb_prop in Hl as [_ Hl]. rewrite forallb_forall in Hl. apply Forall_forall. intros e He.
    destruct (safe_entry_resolves _ e dir (Hl e He)) as (ns & Hr & Hp). exists ns. split; [done|]. by apply Forall_cons_iff in Hp as [_ Hp].
Qed.

(** * Hexadecimal text *)

Definition unhex_digit (c : Z) : option Z :=
  if (48 <=? c) && (c <=? 57) then Some (c - 48) else if (97 <=? c) && (c <=? 102) then Some (c - 87)
  else if (65 <=? c) && (c <=? 70) then Some (c - 55) else None.

Fixpoint unhex (l : bytes) : option bytes :=
  match l with
  | [] => Some []
  | a :: b :: l' => x ← unhex_digit a; y ← unhex_digit b; r ← unhex l'; Some (16 * x + y :: r)
  | _ => None
  end.

Lemma unhex_hex_digit n : 0 <= n < 16 -> unhex_digit (hex_digit n) = Some n /\ visible (hex_digit n) /\ ascii_lower (hex_digit n) = hex_digit n.
Proof.
  intros Hn. assert (n ∈ seqZ 0 16) as Hin by (apply elem_of_seqZ; lia). revert Hin. clear Hn.
  assert (forall n, n ∈ seqZ 0 16 -> bool_decide (unhex_digit (hex_digit n) = Some n) && ((33 <=? hex_digit n) && (hex_digit n <=? 126))
    && (ascii_lower (hex_digit n) =? hex_digit n) = true) as Hall.
  { intros k Hk. apply list_elem_of_In in Hk. revert k Hk. apply forallb_forall. vm_compute. reflexivity. }
  intros Hin. specialize (Hall n Hin). apply andb_prop in Hall as [Hall H3]. apply andb_prop in Hall as [H1 H2].
  apply bool_decide_eq_true in H1. split_bool. done.
Qed.

Lemma hex_byte_digits b : byte_ok b -> 0 <= Z.shiftr b 4 < 16 /\ 0 <= Z.land b 15 < 16 /\ 16 * Z.shiftr b 4 + Z.land b 15 = b.
Proof.
  intros [Hb1 Hb2]. change 15 with (Z.ones 4). rewrite Z.shiftr_div_pow2, Z.land_ones by lia. change (2 ^ 4) with 16.
  pose proof (Z.mod_pos_bound b 16). pose proof (Z.div_mod b 16). split; [|lia]. split; [apply Z.div_pos; lia|apply Z.div_lt_upper_bound; lia].
Qed.

Lemma unhex_app_hex l r : bytes_ok l -> unhex (hex l ++ r) = x ← unhex r; Some (l ++ x).
Proof.
  induction 1 as [|b l Hb _ IH]; [cbn; by destruct (unhex r)|]. destruct (hex_byte_digits b Hb) as (H1 & H2 & H3).
  unfold hex. cbn [fmap list_fmap concat]. fold (hex l). unfold hex_byte at 1. cbn [app unhex].
  destruct (unhex_hex_digit _ H1) as [-> _]. destruct (unhex_hex_digit _ H2) as [-> _]. cbn [mbind option_bind]. rewrite IH, H3.
  by destruct (unhex r).
Qed.

Lemma unhex_hex l : bytes_ok l -> unhex (hex l) = Some l.
Proof. intros Hl. rewrite <- (app_nil_r (hex l)), unhex_app_hex by done. cbn. by rewrite app_nil_r. Qed.

Lemma hex_digits (P : Z -> Prop) l : (forall n, 0 <= n < 16 -> P (hex_digit n)) -> bytes_ok l -> Forall P (hex l).
Proof.
  intros HP. induction 1 as [|b l Hb _ IH]; [constructor|]. destruct (hex_byte_digits b Hb) as (H1 & H2 & _).
  unfold hex. cbn [fmap list_fmap concat]. apply Forall_app. split; [|done]. repeat constructor; by apply HP.
Qed.

Lemma hex_visible l : bytes_ok l -> Forall visible (hex l).
Proof. apply hex_digits. intros n Hn. by destruct (unhex_hex_digit n Hn) as (_ & ? & _). Qed.

Lemma hex_lower l : bytes_ok l -> to_ascii_lowercase (hex l) = hex l.
Proof.
  intros Hl. unfold to_ascii_lowercase. assert (Forall (fun c => ascii_lower c = c) (hex l)) as Hf
    by (apply hex_digits; [|done]; intros n Hn; by destruct (unhex_hex_digit n Hn) as (_ & _ & ?)).
  induction Hf as [|c r Hc _ IH]; [done|]. cbn. by rewrite Hc, IH.
Qed.

Lemma hex_length l : length (hex l) = (2 * length l)%nat.
Proof. induction l as [|b l IH]; [done|]. unfold hex. cbn [fmap list_fmap concat]. rewrite length_app. fold (hex l). rewrite IH. cbn. lia. Qed.

(** * Words *)

Lemma strip_visible b l : visible b -> strip_any whitespace (b :: l) = None.
Proof. by apply strip_any_visible. Qed.

Lemma words_visible f a w l : Forall visible a -> words_from (length a + f) w (a ++ l) = words_from f (w ++ a) l.
Proof.
  intros Ha. revert w. induction Ha as [|b a Hb _ IH]; intros w; [by rewrite app_nil_r|]. cbn [length Nat.add app words_from].
  rewrite strip_visible by done. by rewrite IH, <- app_assoc.
Qed.

(** The line that sha256sum prints. *)
Lemma checksum_words a n :
  a <> [] -> n <> [] -> Forall visible a -> Forall visible n -> split_whitespace (a ++ [32; 32] ++ n ++ [10]) = [a; n].
Proof.
  intros Ha0 Hn0 Ha Hn. unfold split_whitespace. rewrite !length_app. cbn [length].
  replace (S (length a + (2 + (length n + 1)))) with (length a + S (S (length n + 2)))%nat by lia. rewrite words_visible by done.
  cbn [app words_from]. assert (forall l, strip_any whitespace (32 :: l) = Some l) as Hsp by done. rewrite !Hsp.
  destruct a as [|x a]; [done|]. rewrite words_visible by done. cbn [app words_from]. by destruct n.
Qed.

Lemma digest_reads_concat `{Sha256Laws} reads : digest_reads reads = sha256 (concat reads).
Proof.
  unfold digest_reads, sha256. f_equal. generalize sha_new. induction reads as [|r reads IH]; intros s; cbn; [by rewrite sha_update_nil|].
  by rewrite IH, sha_update_app.
Qed.

(** The checksum binds the archive.  The check succeeds exactly when the checksum file
    names the archive and its first field is, up to case, the SHA-256 of the bytes that
    were read, however they were split into reads; in particular the line that
    [sha256sum] prints for the published archive is accepted exactly for archives with
    the same digest. *)
Theorem checksum_binds_archive `{Sha256Laws} reads source name published :
  (verify_checksum reads source name = Ok tt <->
   exists expected named rest, split_whitespace source = expected :: named :: rest /\ trim_start_matches 42 named = name /\
     to_ascii_lowercase expected = hex (sha256 (concat reads))) /\
  (Forall visible name -> name <> [] -> head name <> Some 42 ->
   verify_checksum reads (hex (sha256 published) ++ [32; 32] ++ name ++ [10]) name = Ok tt <->
   sha256 (concat reads) = sha256 published).
Proof.
  assert (forall b, bytes_ok (sha256 b)) as Hb by (intros; apply sha_bytes).
  assert (forall b, len (hex (sha256 b)) = 64) as Hlen by (intros b; unfold len; rewrite hex_length; unfold sha256; rewrite sha_length; done).
  assert (forall e, eq_ignore_ascii_case (hex (sha256 (concat reads))) e = true <-> to_ascii_lowercase e = hex (sha256 (concat reads))) as Hci.
  { intros e. unfold eq_ignore_ascii_case. rewrite hex_lower by done. rewrite bytes_eqb_eq. split; by intros ->. }
  assert (forall source, verify_checksum reads source name = Ok tt <->
   exists expected named rest, split_whitespace source = expected :: named :: rest /\ trim_start_matches 42 named = name /\
     to_ascii_lowercase expected = hex (sha256 (concat reads))) as Hspec.
  { clear source. intros source. unfold verify_checksum. rewrite digest_reads_concat.
    destruct (split_whitespace source) as [|expected [|named rest]]; cbn [head tail ok_or mbind result_bind].
    - split; [done|]. by intros (? & ? & ? & ? & _).
    - split; [done|]. by intros (? & ? & ? & ? & _).
    - split.
      + destruct (bytes_eqb _ name) eqn:En; [|done]. destruct (len expected =? 64) eqn:El; [|done]. cbn [negb orb].
        destruct (eq_ignore_ascii_case _ expected) eqn:Ee; [|done]. intros _. apply bytes_eqb_eq in En. apply Hci in Ee. by exists expected, named, rest.
      + intros (e & n & r & [= <- <- <-] & Hn & He). rewrite Hn, bytes_eqb_refl. pose proof (Hlen (concat reads)) as Hl. rewrite <- He in Hl.
        assert (len expected = 64) as -> by (rewrite <- Hl; unfold len, to_ascii_lowercase; by rewrite length_fmap).
        cbn [negb orb Z.eqb]. rewrite (proj2 (Hci expected) He). done. }
  split; [apply Hspec|]. intros Hv Hn Hs. rewrite Hspec, checksum_words; [|by intros Hz; pose proof (Hlen published) as Hl; rewrite Hz in Hl|done|by apply hex_visible|done].
  split.
  - intros (e & n & r & [= <- <- <-] & _ & He). rewrite hex_lower in He by done. apply (f_equal unhex) in He. rewrite !unhex_hex in He by done. congruence.
  - intros ->. eexists _, _, _. split; [reflexivity|]. split; [|by apply hex_lower]. destruct name as [|c name]; [done|]. cbn [trim_start_matches].
    destruct (Z.eqb_spec c 42); [|done]. subst c. done.
Qed.

(** * UUIDs *)

(** The hyphenated form of RFC 4122. *)
Definition parse_uuid (l : bytes) : option bytes :=
  if (len l =? 36) && forallb (fun i => bool_decide (l !! i = Some 45)) [8; 13; 18; 23]%nat
  then unhex (take 8 l ++ take 4 (drop 9 l) ++ take 4 (drop 14 l) ++ take 4 (drop 19 l) ++ drop 24 l)
  else None.

Lemma hex_app a b : hex (a ++ b) = hex a ++ hex b.
Proof. unfold hex. by rewrite fmap_app, concat_app. Qed.

Lemma uuid_parts (a b c d e : bytes) :
  length a = 8%nat -> length b = 4%nat -> length c = 4%nat -> length d = 4%nat -> length e = 12%nat ->
  parse_uuid (a ++ [45] ++ b ++ [45] ++ c ++ [45] ++ d ++ [45] ++ e) = unhex (a ++ b ++ c ++ d ++ e).
Proof.
  intros Ha Hb Hc Hd He. unfold parse_uuid.
  do 9 (destruct a as [|? a]; try done). do 5 (destruct b as [|? b]; try done). do 5 (destruct c as [|? c]; try done).
  do 5 (destruct d as [|? d]; try done). do 13 (destruct e as [|? e]; try done).
Qed.

Lemma masked_byte x keep set (Hx : byte_ok x) : 0 <= keep < 256 -> 0 <= set < 256 -> byte_ok (Z.lor (Z.land x keep) set).
Proof.
  intros Hk Hs. assert (forall n, 0 <= n < 256 <-> Z.land n 255 = n) as Hland.
  { intros n. change 255 with (Z.ones 8). rewrite Z.land_ones by lia. change (2 ^ 8) with 256. split; [intros; apply Z.mod_small; lia|].
    intros <-. apply Z.mod_pos_bound. lia. }
  apply Hland. apply Hland in Hk, Hs. rewrite Z.land_lor_distr_l, <- Z.land_assoc, Hk, Hs. done.
Qed.

Lemma alter_ok (f : Z -> Z) i l : (forall x, byte_ok x -> byte_ok (f x)) -> bytes_ok l -> bytes_ok (alter f i l).
Proof. intros Hf Hl. apply Forall_alter; [done|]. intros x Hx Hb. by apply Hf. Qed.

(** A generated UUID is a version 4 UUID of the RFC variant: its text is the hyphenated
    form, it reads back as the random bytes with six bits replaced, and those bits are
    the version and the variant. *)
Theorem random_uuid_v4 random :
  bytes_ok random -> length random = 16%nat ->
  parse_uuid (random_uuid random) = Some (uuid_bits random) /\
  (exists x, uuid_bits random !! 6%nat = Some x /\ Z.shiftr x 4 = 4) /\
  (exists x, uuid_bits random !! 8%nat = Some x /\ Z.shiftr x 6 = 2) /\
  (forall i, i <> 6%nat -> i <> 8%nat -> uuid_bits random !! i = random !! i).
Proof.
  intros Hok Hlen. assert (bytes_ok (uuid_bits random)) as Hb.
  { unfold uuid_bits. apply alter_ok; [intros; apply masked_byte; (done || lia)|]. apply alter_ok; [intros; apply masked_byte; (done || lia)|done]. }
  assert (length (uuid_bits random) = 16%nat) as Hl by (unfold uuid_bits; by rewrite !length_alter).
  split; [|split; [|split]].
  - unfold random_uuid, format_uuid. set (b := uuid_bits random) in *.
    rewrite uuid_parts by (rewrite hex_length, ?length_take, ?length_drop; lia). rewrite <- !hex_app.
    assert (take 4 b ++ take 2 (drop 4 b) ++ take 2 (drop 6 b) ++ take 2 (drop 8 b) ++ drop 10 b = b) as ->; [|by apply unhex_hex].
    rewrite <- (take_drop 4 b) at 6. f_equal. rewrite <- (take_drop 2 (drop 4 b)) at 2. rewrite drop_drop. f_equal. cbn.
    rewrite <- (take_drop 2 (drop 6 b)) at 2. rewrite drop_drop. f_equal. cbn. rewrite <- (take_drop 2 (drop 8 b)) at 2. by rewrite drop_drop.
  - destruct (lookup_lt_is_Some_2 random 6 ltac:(lia)) as [x Hx]. exists (Z.lor (Z.land x 15) 64).
    unfold uuid_bits. rewrite list_lookup_alter_ne, list_lookup_alter_eq, Hx by done. split; [done|].
    rewrite Z.shiftr_lor, Z.shiftr_land. change (Z.shiftr 15 4) with 0. by rewrite Z.land_0_r.
  - destruct (lookup_lt_is_Some_2 random 8 ltac:(lia)) as [x Hx]. exists (Z.lor (Z.land x 63) 128).
    unfold uuid_bits. rewrite list_lookup_alter_eq, list_lookup_alter_ne, Hx by done. split; [done|].
    rewrite Z.shiftr_lor, Z.shiftr_land. change (Z.shiftr 63 6) with 0. by rewrite Z.land_0_r.
  - intros i H6 H8. unfold uuid_bits. by rewrite !list_lookup_alter_ne.
Qed.

(** * Witnesses *)

Definition toy_tag : bytes := bytes_of_string "v1.2".
Definition toy_listing : bytes := release_prefix toy_tag ++ bytes_of_string "/rust-xhttp" ++ [10] ++ release_prefix toy_tag ++ bytes_of_string "/a/b/" ++ [10].

Lemma release_paths_confined_witness :
  resolve_in [] (archive_name toy_tag) = [archive_name toy_tag] /\
  Forall (fun e => exists ns, resolve_in [] e = release_prefix toy_tag :: ns /\ Forall plain_name ns) (lines toy_listing).
Proof.
  destruct (release_paths_confined toy_tag toy_tag toy_listing [] ltac:(vm_compute; reflexivity) ltac:(vm_compute; reflexivity)) as (H1 & _ & H2).
  split; [exact H1|exact H2].
Defined.

(** A digest that keeps the sum of the bytes. *)
#[local] Instance toy_sha : Sha256 := {|
  sha_state := Z; sha_new := 0; sha_update := fun s b => s + foldr Z.add 0 b; sha_finalize := fun s => replicate 31 0 ++ [s mod 256] |}.
#[local] Instance toy_sha_laws : Sha256Laws.
Proof.
  split.
  - intros s. cbn. lia.
  - intros s a b. cbn. induction a as [|x a IH]; cbn in *; lia.
  - done.
  - intros s. apply bytes_ok_app. split; [by apply bytes_ok_replicate|]. repeat constructor; apply Z.mod_pos_bound; lia.
Qed.

Lemma checksum_binds_archive_witness :
  verify_checksum [[1; 2]; [3]] (hex (sha256 [6]) ++ [32; 32] ++ [97] ++ [10]) [97] = Ok tt.
Proof.
  destruct (checksum_binds_archive [[1; 2]; [3]] [] [97] [6]) as [_ Hc].
  apply Hc; [repeat constructor; lia|done|done|reflexivity].
Defined.

Lemma random_uuid_v4_witness : parse_uuid (random_uuid (replicate 16 255)) = Some (uuid_bits (replicate 16 255)).
Proof. apply (random_uuid_v4 (replicate 16 255)); [by apply bytes_ok_replicate|reflexivity]. Defined.
