(* ===== verification/Runtime.v ===== *)
(** [src/main.rs] and [src/runtime.rs]: the command line of the server, the check of a
    configuration.  The assembly of the server is in [Startup].

    serde_json is a class; files are read from the model of the file system, as they are
    at that time. *)

From S2P Require Import SiteText.
From S2P Require Import Prelude Budget Session Header Site Config Json TlsCert EncKeys EncHandshake TlsKeys Files Xhttp.

(** tracing's [EnvFilter]: which filters parse. *)
Class LogFilter := { directive_ok : bytes -> bool }.

(** [serde_json::from_str] into the records of the configuration. *)
Class JsonReader := { json_config_of : bytes -> option Config.json_config }.

(** The text is a value, and the value a record. *)
Definition text_reader `{JsonText} `{UuidText} : JsonReader :=
  {| json_config_of := fun b => v ← json_of_text b; de_config v |}.

Inductive startup_error : Type :=
| ConfigRead | ConfigSyntax | ConfigInvalid (e : Config.config_error)
| SiteFailed (e : Site.site_error)
| TlsRead | TlsFailed (e : TlsCert.cert_error)
| DecryptionInvalid (e : EncKeys.ConfigError).

(** * Files *)

(** A path of the configuration, seen from the working directory. *)
Definition locate (cwd : path) (p : bytes) : path :=
  let parts := List.filter (fun c => negb (bytes_eqb c []) && negb (bytes_eqb c [46])) (split_on 47 p) in
  if starts_with [47] p then parts else cwd ++ parts.

Definition body_of (m : files) (p : path) : option bytes := match m !! through m p with Some (File b _) => Some b | _ => None end.

(** The tree [collect_files] walks; no path of [m] is longer than the fuel. *)
Fixpoint site_tree (fuel : nat) (m : files) (p : path) : Site.node :=
  match m !! p with
  | Some (File b _) => Site.NFile (Site.mk_file (len b) 0 (Some b))
  | Some (Dir _) =>
      match fuel with
      | O => Site.NUnreadable
      | S fuel' => Site.NDir (Some ((fun c => (c, site_tree fuel' m (p ++ [c]))) <$> children m p))
      end
  | Some (Link _) => Site.NSymlink
  | Some Special => Site.NOther
  | None => Site.NUnreadable
  end.

Definition longest (m : files) : nat := foldr (fun x n => Nat.max (length x.1) n) 0%nat (map_to_list m).

(** The directory after [canonicalize]: [None] when it does not resolve. *)
Definition dist_tree (m : files) (p : path) : option Site.node :=
  if is_present m p then Some (site_tree (longest m) m p) else None.

Section runtime.
Context `{JsonReader} `{LogFilter} `{SiteFormat} `{Blake3} `{Ring} `{Base64Url} (cwd : path).

(** * Checking a configuration *)

Definition from_json_str (source : bytes) : result startup_error Config.config :=
  raw ← ok_or (json_config_of source) ConfigSyntax;
  map_err ConfigInvalid (Config.try_from raw).

Definition load (m : files) (p : path) : result startup_error Config.config :=
  source ← ok_or (body_of m p) ConfigRead;
  if utf8_valid source then from_json_str source else Err ConfigRead.

(** [StaticSite::from_config]. *)
Definition site_from_config (m : files) (c : Config.fallback_config) : result startup_error static_site :=
  match Config.fb_mode c with
  | Config.Builtin => Ok (SiteText.generated (Config.fb_site c))
  | Config.Directory =>
      map_err SiteFailed (Site.from_directory
        (Site.mk_fallback_config (dist_tree m <$> (locate cwd <$> Config.fb_dist c)) (Config.fb_index c)
           (Config.fb_not_found c) (Config.fb_max_file_bytes c) (Config.fb_max_total_bytes c)))
  end.

(** [CertifiedIdentity::from_config] on two files. *)
Definition identity_at (m : files) (cert_path key_path : path) : comp startup_error TlsCert.CertifiedIdentity :=
  cert ← lift Datatypes.id (ok_or (body_of m cert_path) TlsRead);
  key ← lift Datatypes.id (ok_or (body_of m key_path) TlsRead);
  match TlsCert.from_config cert key with
  | Val i => Val i
  | Fail e => Fail (TlsFailed e)
  | Crash => Crash
  | Diverge => Diverge
  end.

(** [tls::Server::from_config]. *)
Definition tls_from_config (m : files) (t : Config.tls_config) : comp startup_error TlsCert.CertifiedIdentity :=
  identity_at m (locate cwd (Config.cert t)) (locate cwd (Config.key t)).

Definition plain_decryption (d : bytes) : bool := bytes_eqb d [] || bytes_eqb d (bytes_of_string "none").

Definition validate (m : files) (cfg : Config.config) : comp startup_error unit :=
  _ ← lift Datatypes.id (site_from_config m (Config.cfg_fallback cfg));
  _ ← match Config.tls cfg with
      | Some t => match Config.acme t with None => _ ← tls_from_config m t; mret tt | Some _ => mret tt end
      | None => mret tt
      end;
  if plain_decryption (Config.vless_decryption cfg) then mret tt
  else _ ← lift DecryptionInvalid (EncKeys.parse (Config.vless_decryption cfg)); mret tt.

(** * The command line *)

Inductive outcome : Type :=
| Printed
| Checked
| ExitCode (code : Z)
| Serving (cfg : Config.config)
| Panicked.

(** [logging::init]: [RUST_LOG], if it is set and parses, else the filter of the configuration. *)
Definition logging_init (rust_log : option bytes) (filter : bytes) : bool :=
  match rust_log with Some f => directive_ok f | None => false end || directive_ok filter.

(** [runtime_builds]: the thread pool can be made. *)
Definition run (rust_log : option bytes) (runtime_builds : bool) (m : files) (arguments : list bytes) : outcome :=
  let first := head arguments in
  let rest := tail arguments in
  if bool_decide (first = Some (bytes_of_string "--help")) then Printed
  else if bool_decide (first = Some (bytes_of_string "--version")) then Printed
  else
    let check_only := bool_decide (first = Some (bytes_of_string "check")) in
    let '(p, rest) := if check_only then (head rest, tail rest) else (first, rest) in
    let p := default (bytes_of_string "config.json") p in
    match rest with
    | _ :: _ => ExitCode 2
    | [] =>
        match load m (locate cwd p) with
        | Err _ => ExitCode 2
        | Ok cfg =>
            if check_only then
              match validate m cfg with
              | Val _ => Checked
              | Fail _ => ExitCode 2
              | _ => Panicked
              end
            else if negb (logging_init rust_log (Config.log cfg)) then ExitCode 2
            else if negb runtime_builds then ExitCode 2
            else Serving cfg
        end
    end.
End runtime.

(** * Theorems *)

(** Unsigned fields are read as such. *)
Class JsonReaderLaws `{JsonReader} : Prop := { json_unsigned : forall b raw, json_config_of b = Some raw -> Config.raw_ok raw }.

Lemma text_reader_laws `{JsonText} `{UuidText} : @JsonReaderLaws text_reader.
Proof. constructor. intros b raw. cbn. destruct (json_of_text b); [|done]. apply de_config_unsigned. Qed.

Section theorems.
Context `{JsonReader} `{!JsonReaderLaws} `{SiteFormat} `{Blake3} `{Ring} `{Base64Url} (cwd : path).

Lemma load_ok m p cfg : load m p = Ok cfg -> config_ok cfg.
Proof.
  unfold load, from_json_str. destruct (body_of m p) as [b|]; [|done]. cbn [ok_or mbind result_bind]. destruct (utf8_valid b); [|done].
  destruct (json_config_of b) as [raw|] eqn:Ej; [|done]. cbn [ok_or mbind result_bind].
  destruct (Config.try_from raw) as [c|e] eqn:Et; cbn [map_err]; [|done]. intros Hc. apply Ok_inj in Hc as <-.
  eapply try_from_ok; [|exact Et]. by eapply json_unsigned.
Qed.

End theorems.

(** * A small configuration *)

Definition sample_raw : Config.json_config :=
  Config.mk_json_config (bytes_of_string "info")
    [Config.mk_inbound_config (bytes_of_string "in") [127; 0; 0; 1] 8080 (bytes_of_string "vless")
       [Config.mk_user_config (replicate 16 7) [] []] (bytes_of_string "none")
       (Config.mk_stream_settings (bytes_of_string "xhttp") (bytes_of_string "none") None
          (Config.xhttp_settings_default (bytes_of_string "/p/")))]
    Config.server_default Config.fallback_default.

#[local] Instance toy_json : JsonReader := { json_config_of := fun b => if bytes_eqb b [123; 125] then Some sample_raw else None }.
#[local] Instance toy_json_laws : JsonReaderLaws.
Proof.
  constructor. intros b raw. cbn. destruct (bytes_eqb b [123; 125]); [|done]. intros [= <-].
  split; cbn; [lia|]. by repeat constructor.
Qed.
#[local] Instance toy_filter : LogFilter := { directive_ok := bytes_eqb (bytes_of_string "info") }.
#[local] Instance toy_site_format : SiteFormat := { body_digest_hex := fun _ => []; fmt_http_date := decimal }.
#[local] Instance toy_blake3 : Blake3 := { blake3_hash := fun _ => [] }.
#[local] Existing Instance TlsCert.toy_ring.
#[local] Instance toy_base64 : Base64Url := { url_safe_no_pad_decode := fun _ => None }.

Definition toy_root : files := <[[[99]] := File [123; 125] (octal 6 4 4)]> ∅.
