(* ===== verification/Startup.v ===== *)
(** [src/runtime.rs] with the constructors of [src/dispatcher.rs] and [src/origin.rs]: the
    assembly of the server from a checked configuration, with the certificate it obtains
    first when ACME is configured, up to the accept loop of [Server] and the renewals of
    [Acme].  Durations are seconds. *)

From S2P Require Import Prelude Budget Header Site Config TlsCert EncKeys EncHandshake TlsKeys Files Runtime Acme.
From S2P Require Session Origin Server Dispatch.

(** * The dispatcher and the origin *)

(** [Dispatcher]: the service of [Dispatch], the permits for targets and the times. *)
Record dispatcher := mk_dispatcher {
  di_service : Dispatch.Dispatcher; di_targets : Z; di_handshake_timeout : Z; di_connect_timeout : Z; di_udp_idle : Z;
  di_tcp_nodelay : bool; di_tcp_keepalive : option Z }.

Definition Dispatcher_new (v : validator) (max_targets connect_timeout udp_idle : Z) : dispatcher :=
  mk_dispatcher (Dispatch.mk_Dispatcher v None) (Z.max max_targets 1) 10 connect_timeout udp_idle true None.

Definition with_handshake_timeout (d : dispatcher) (timeout : Z) : dispatcher :=
  mk_dispatcher (di_service d) (di_targets d) timeout (di_connect_timeout d) (di_udp_idle d) (di_tcp_nodelay d) (di_tcp_keepalive d).
Definition with_tcp_tuning (d : dispatcher) (nodelay : bool) (keepalive : option Z) : dispatcher :=
  mk_dispatcher (di_service d) (di_targets d) (di_handshake_timeout d) (di_connect_timeout d) (di_udp_idle d) nodelay keepalive.
Definition with_encryption (d : dispatcher) (e : option Server) : dispatcher :=
  mk_dispatcher (Dispatch.mk_Dispatcher (Dispatch.dp_validator (di_service d)) e) (di_targets d) (di_handshake_timeout d)
    (di_connect_timeout d) (di_udp_idle d) (di_tcp_nodelay d) (di_tcp_keepalive d).

Section stack.
Context `{Ring}.

(** [Origin]: the handler of [Origin] with what its connections need. *)
Record origin_server := mk_origin_server {
  os_origin : Origin.origin; os_tls : option CertifiedIdentity; os_tcp_nodelay : bool; os_tcp_keepalive : option Z;
  os_handshake_timeout : Z; os_graceful_shutdown : Z }.

Definition origin_handshake_timeout (s : origin_server) (timeout : Z) : origin_server :=
  mk_origin_server (os_origin s) (os_tls s) (os_tcp_nodelay s) (os_tcp_keepalive s) timeout (os_graceful_shutdown s).
Definition with_graceful_shutdown (s : origin_server) (timeout : Z) : origin_server :=
  mk_origin_server (os_origin s) (os_tls s) (os_tcp_nodelay s) (os_tcp_keepalive s) (os_handshake_timeout s) timeout.

(** * The stack *)

Record stack := mk_stack {
  st_dispatcher : dispatcher;
  st_sessions : Session.table;
  st_grace : Z;
  st_origin : origin_server }.

(** What runs when [serve] waits in its accept loop. *)
Record running := mk_running { rn_stack : stack; rn_renewal : option supervisor; rn_server : Server.server }.
End stack.

Definition users_of (cfg : Config.config) : list user :=
  (fun u => mk_user (uc_id u) (uc_email u) (uc_flow u)) <$> users cfg.

Definition session_config (cfg : Config.config) : Session.config :=
  let l := cfg_limits cfg in
  Session.mk_config (Session.cfg_shards Session.config_default) (max_sessions l)
    (Z.min (max_pending_packets_per_session l) (max_buffered_posts (xhttp cfg)))
    (max_pending_bytes_per_session l) (Session.downlink_capacity Session.config_default).

(** The sessions of a configuration, and its dispatcher. *)
Definition sessions_of (cfg : Config.config) : Session.table :=
  Session.table_new (session_config cfg) (Some (budget_new (global_buffer_bytes (cfg_limits cfg)))).

Section assembly.
Context `{SiteFormat} `{Blake3} `{Ring} `{Base64Url} `{X25519} `{MlKem} (cwd : path).

Definition dispatcher_of (cfg : Config.config) (encryption : option Server) : dispatcher :=
  let l := cfg_limits cfg in
  with_encryption
    (with_tcp_tuning
      (with_handshake_timeout
        (Dispatcher_new (validator_new (users_of cfg)) (max_concurrent_target_conns l) (target_connect_seconds l) (udp_association_idle_seconds l))
        (handshake_timeout_seconds l))
      (lc_tcp_nodelay (listen cfg)) (tcp_keepalive (listen cfg)))
    encryption.

Definition encryption_of (d : bytes) : comp startup_error (option Server) :=
  if plain_decryption d then mret None
  else c ← lift DecryptionInvalid (EncKeys.parse d); mret (Some (Server_new c)).

(** [Origin::new]. *)
Definition Origin_new (m : files) (x : xhttp_config) (t : option tls_config) (fallback : Config.fallback_config) (nodelay : bool) (keepalive : option Z) :
    comp startup_error origin_server :=
  i ← match t with Some t => i ← tls_from_config cwd m t; mret (Some i) | None => mret None end;
  s ← lift Datatypes.id (site_from_config cwd m fallback);
  mret (mk_origin_server (Origin.mk_origin x s) i nodelay keepalive 10 30).

(** [serve] from the user table to the origin. *)
Definition assemble (m : files) (cfg : Config.config) : comp startup_error stack :=
  encryption ← encryption_of (vless_decryption cfg);
  o ← Origin_new m (xhttp cfg) (tls cfg) (cfg_fallback cfg) (lc_tcp_nodelay (listen cfg)) (tcp_keepalive (listen cfg));
  mret (mk_stack (dispatcher_of cfg encryption) (sessions_of cfg) (session_grace_secs (xhttp cfg))
    (with_graceful_shutdown (origin_handshake_timeout o (handshake_timeout_seconds (cfg_limits cfg))) (graceful_shutdown_secs (listen cfg)))).
End assembly.

(** * Sockets *)

(** What [src/net.rs] asks of the system. *)
Inductive socket_call : Type :=
| SocketNew (ipv6 : bool)
| SetReuseAddress
| SetReusePort
| SetNonblocking
| Bind (a : socket_addr)
| Listen (backlog : Z)
| FromStd.

(** Calls one after the other up to the first that fails; the list is the calls made. *)
Fixpoint socket_calls (sys : socket_call -> result Z unit) (l : list socket_call) : list socket_call * result Z unit :=
  match l with
  | [] => ([], Ok tt)
  | c :: l' =>
      match sys c with
      | Ok _ => let '(made, r) := socket_calls sys l' in (c :: made, r)
      | Err e => ([c], Err e)
      end
  end.

Definition bind_listener (sys : socket_call -> result Z unit) (a : socket_addr) (reuse_port : bool) (backlog : Z) : list socket_call * result Z unit :=
  socket_calls sys
    ([SocketNew (negb (len (sa_ip a) =? 4)); SetReuseAddress] ++ (if reuse_port then [SetReusePort] else []) ++
     [SetNonblocking; Bind a; Listen (Z.max backlog 1); FromStd]).

(** [tune_stream]: the options set on a connection, whose errors are ignored: idle time,
    interval and retries of the keepalive. *)
Inductive stream_option : Type := TcpNodelay | TcpKeepalive (idle interval retries : Z).

Definition KEEPALIVE_INTERVAL : Z := 30.
Definition KEEPALIVE_RETRIES : Z := 3.

Definition tune_stream (tcp_nodelay : bool) (keepalive_idle : option Z) : list stream_option :=
  (if tcp_nodelay then [TcpNodelay] else []) ++
  match keepalive_idle with Some idle => [TcpKeepalive idle KEEPALIVE_INTERVAL KEEPALIVE_RETRIES] | None => [] end.


(** * The server *)

Inductive serve_error : Type :=
| AcmeFailed (e : AcmeError)
| StackFailed (e : startup_error)
| ListenFailed (e : Z).

Section serve.
Context `{SiteFormat} `{Blake3} `{Ring} `{Base64Url} `{X25519} `{MlKem} `{Machine} `{X509} `{AccountCache} (cwd : path).

Definition manager_of (t : tls_config) (a : acme_config) : Manager :=
  mk_Manager (locate cwd (cache_dir a)) (locate cwd (cert t)) (locate cwd (key t)) (renew_before_days a) (renew_check_hours a).

(** [Manager::prepare], which looks at the configuration first. *)
Definition prepare_acme (t : option tls_config) (challenge_listener : result fs_error unit) (now : option Z) (a : ca) : am (option (Manager * bool)) :=
  match t with
  | Some t =>
      match acme t with
      | Some c => b ← prepare (manager_of t c) challenge_listener now a; mret (Some (manager_of t c, b))
      | None => mret None
      end
  | None => mret None
  end.

Definition serve (cfg : Config.config) (challenge_listener : result fs_error unit) (now : option Z) (a : ca) (sys : socket_call -> result Z unit) (w : aw) :
    aw * comp serve_error running :=
  match prepare_acme (tls cfg) challenge_listener now a w with
  | (w', Err e) => (w', Fail (AcmeFailed e))
  | (w', Ok manager) =>
      match assemble cwd (fs (disk w')) cfg with
      | Val s =>
          let renewal :=
            match manager, os_tls (st_origin s) with
            | Some (g, immediately), Some i => Some (supervisor_new g immediately i w')
            | _, _ => None
            end in
          match (bind_listener sys (addr (listen cfg)) (lc_reuse_port (listen cfg)) (lc_backlog (listen cfg))).2 with
          | Ok _ => (w', Val (mk_running s renewal Server.start))
          | Err e => (w', Fail (ListenFailed e))
          end
      | Fail e => (w', Fail (StackFailed e))
      | Crash => (w', Crash)
      | Diverge => (w', Diverge)
      end
  end.

(** [main]: what the process does with its arguments, on the files and the disk at that time. *)
Definition server_main `{JsonReader} `{LogFilter} (rust_log : option bytes) (runtime_builds : bool) (arguments : list bytes)
    (challenge_listener : result fs_error unit) (now : option Z) (a : ca) (sys : socket_call -> result Z unit) (w : aw) : aw * (outcome + running) :=
  match run cwd rust_log runtime_builds (fs (disk w)) arguments with
  | Serving cfg =>
      match serve cfg challenge_listener now a sys w with
      | (w', Val s) => (w', inr s)
      | (w', Fail _) => (w', inl (ExitCode 1))
      | (w', _) => (w', inl Panicked)
      end
  | o => (w, inl o)
  end.
End serve.

(** * Places of the certificate *)



(** * The assembly *)

Section assembled.
Context `{SiteFormat} `{Blake3} `{Ring} `{Base64Url} `{X25519} `{MlKem} (cwd : path).




End assembled.



(** * What a stack has of its configuration *)

Section configured.
Context `{SiteFormat} `{Blake3} `{Ring} `{Base64Url} `{X25519} `{MlKem} (cwd : path).


End configured.

Section checked.
Context `{JsonReader} `{!JsonReaderLaws} `{LogFilter} `{SiteFormat} `{Blake3} `{Ring} `{Base64Url} `{X25519} `{MlKem} (cwd : path).

End checked.

(** * The start with ACME *)

Section acme_start.
Context `{Machine} `{X509} `{Ring} `{AccountCache} (cache : path).












(** ** With a usable pair on disk *)





End acme_start.

Section server.
Context `{SiteFormat} `{Blake3} `{Ring} `{Base64Url} `{X25519} `{MlKem} `{Machine} `{X509} `{AccountCache} (cwd : path).




End server.

(** * Witnesses *)

#[local] Existing Instance Runtime.toy_json.
#[local] Existing Instance Runtime.toy_json_laws.
#[local] Existing Instance Runtime.toy_filter.
#[local] Existing Instance Runtime.toy_site_format.
#[local] Existing Instance Runtime.toy_blake3.
#[local] Existing Instance Runtime.toy_base64.
#[local] Existing Instance TlsCert.toy_ring.
#[local] Existing Instance EncHandshake.toy_dh.
#[local] Existing Instance EncHandshake.toy_mlkem.
#[local] Existing Instance Acme.toy_x509.
#[local] Existing Instance Acme.toy_accounts.


(** The check does not look at the log filter: with one that does not parse the
    configuration is valid, and the server refuses to start. *)
Theorem checked_log_filter_refused :
  let nothing := {| directive_ok := fun _ => false |} in
  @run _ nothing _ _ _ _ [] None true toy_root [bytes_of_string "check"; [99]] = Checked /\
  @run _ nothing _ _ _ _ [] None true toy_root [[99]] = ExitCode 2.
Proof. split; vm_compute; reflexivity. Qed.

#[local] Instance long_x509 : X509 := { x509_validity := fun _ => Some (0, 10000000) }.



