(* ===== verification/Manage.v ===== *)
(** [src/management.rs]: the commands of [rust-xhttpctl] that change the system.

    Programs the manager starts are a class: what they do to the files, whether they
    succeed and what they print.  So are the terminal, the clock and the account the
    process runs under.  Messages for the user are not kept; an error keeps the text it
    starts with. *)

From S2P Require Import Prelude Header Site Config TlsCert Files Release Runtime.

(** * The host *)

Inductive argument : Type := AText (b : bytes) | APath (p : path).
Inductive program : Type := Tool (name : string) | Exec (p : path).
Record command := mk_command { cmd_program : program; cmd_arguments : list argument }.

Class Host := {
  shell : nat -> command -> files -> files * option (bool * bytes);   (* [None]: it cannot be started *)
  typed : nat -> option bytes;   (* [None]: the line cannot be read as text *)
  is_root_user : bool;
  is_linux : bool;
  is_x86_64 : bool;
  unix_time : nat -> Z;
  editor : program;
  executable : path }.

Definition text (s : string) : bytes := bytes_of_string s.
Definition words (l : list string) : list argument := (fun s => AText (text s)) <$> l.

Definition SERVICE : string := "rust-xhttp".
Definition SERVICE_USER : string := "rust-xhttp".

(** * Layout *)

Record Layout := mk_Layout { root : path }.

Definition system : Layout := mk_Layout [].
Definition is_system (L : Layout) : bool := bool_decide (root L = []).

(** [Layout::path] of an absolute path given by its components. *)
Definition at_path (L : Layout) (components : list string) : path := root L ++ (text <$> components).

Definition bin_dir (L : Layout) : path := at_path L ["usr"; "local"; "bin"]%string.
Definition server_binary (L : Layout) : path := at_path L ["usr"; "local"; "bin"; "rust-xhttp"]%string.
Definition ctl_binary (L : Layout) : path := at_path L ["usr"; "local"; "bin"; "rust-xhttpctl"]%string.
Definition config_dir (L : Layout) : path := at_path L ["etc"; "rust-xhttp"]%string.
Definition config (L : Layout) : path := at_path L ["etc"; "rust-xhttp"; "config.json"]%string.
Definition unit_file (L : Layout) : path := at_path L ["etc"; "systemd"; "system"; "rust-xhttp.service"]%string.
Definition state_dir (L : Layout) : path := at_path L ["var"; "lib"; "rust-xhttp"]%string.
Definition manager_dir (L : Layout) : path := at_path L ["var"; "lib"; "rust-xhttp-manager"]%string.
Definition rollback_dir (L : Layout) : path := manager_dir L ++ [text "rollback"].

Section commands.
Context `{Machine} `{Host} `{JsonReader} `{SiteFormat} `{Blake3} `{Ring} `{Base64Url} `{Sha256}.
Context (cwd : path).
(** The text of [ops/systemd/rust-xhttp.service]. *)
Context (systemd_unit : bytes).

(** * Processes *)

Definition start (c : command) : fm (option (bool * bytes)) := fun w =>
  let '(m, o) := shell (tick w) c (fs w) in (advance w m, Ok o).

Definition run_output (c : command) : fm bytes :=
  o ← start c;
  match o with
  | Some (true, out) => mret out
  | Some (false, _) => message "command failed"
  | None => throw (FIo NotFound)
  end.

Definition run_checked (c : command) : fm unit := _ ← run_output c; mret tt.

(** [.status().is_ok_and(success)]. *)
Definition succeeds (c : command) : fm bool :=
  o ← start c; mret match o with Some (true, _) => true | _ => false end.

Definition tool (name : string) (arguments : list string) : command := mk_command (Tool name) (words arguments).
Definition systemctl (arguments : list string) : command := tool "systemctl" arguments.

Definition ensure_supported_platform : fm unit :=
  if negb is_linux then message "the managed installer currently supports Linux only"
  else if negb is_x86_64 then message "official managed releases currently support x86_64 only"
  else mret tt.

Definition require_root : fm unit :=
  if is_root_user then mret tt else message "this operation requires root; run it with sudo".

(** * The terminal *)

Definition prompt (fallback : option bytes) : fm bytes := fun w =>
  let w' := mk_world (fs w) (past w) (S (tick w)) in
  match typed (tick w) with
  | Some line => (w', Ok (let answer := trim line in match answer with [] => default [] fallback | _ => answer end))
  | None => (w', Err (FIo NotUtf8))
  end.

Definition required_prompt (fallback : option bytes) : fm bytes :=
  answer ← prompt fallback;
  match answer with [] => message "must not be empty" | _ => mret answer end.

Definition confirm (fallback : bool) : fm bool :=
  answer ← prompt (Some []);
  match answer with
  | [] => mret fallback
  | _ =>
      let a := to_ascii_lowercase answer in
      if bytes_eqb a (text "y") || bytes_eqb a (text "yes") then mret true
      else if bytes_eqb a (text "n") || bytes_eqb a (text "no") then mret false
      else message "answer must be yes or no"
  end.

(** * Binaries and configurations *)

Definition version_command (p : path) : command := mk_command (Exec p) (words ["--version"]%string).

Definition utf8_output (c : command) : fm bytes :=
  out ← run_output c; if utf8_valid out then mret out else throw (FIo NotUtf8).

Definition verify_binary (p : path) (expected_name : string) : fm unit :=
  file ← look (fun m => is_file m p);
  if negb file then message "cannot access binary"
  else
    version ← utf8_output (version_command p);
    if bool_decide (head (split_whitespace version) = Some (text expected_name)) then mret tt
    else message "identified as another program".

Definition binary_version (p : path) : fm bytes := out ← utf8_output (version_command p); mret (trim out).

Definition require_matching_versions (server ctl : path) (expected : option bytes) : fm unit :=
  s ← binary_version server; c ← binary_version ctl;
  match versions_match s c expected with Ok _ => mret tt | Err e => message e end.

Definition validate_config_source (source : bytes) : fm Config.config :=
  match from_json_str source with Ok c => mret c | Err _ => message "invalid config" end.

Definition validate_config_file (p : path) : fm unit :=
  source ← fs_read_to_string p;
  cfg ← validate_config_source source;
  r ← look (fun m => validate cwd m cfg);
  match r with Val _ => mret tt | _ => message "config resource validation failed" end.

(** * Preparation *)

Definition prepare_directories (L : Layout) : fm unit :=
  _ ← create_dir (config_dir L) (octal 7 5 0);
  _ ← create_dir (config_dir L ++ [text "backups"]) (octal 7 0 0);
  _ ← create_dir (config_dir L ++ [text "tls"]) (octal 7 5 0);
  _ ← create_dir (state_dir L) (octal 7 5 0);
  _ ← create_dir (state_dir L ++ [text "acme"]) (octal 7 0 0);
  _ ← create_dir (state_dir L ++ [text "site"]) (octal 7 5 0);
  _ ← create_dir (manager_dir L) (octal 7 0 0);
  _ ← match parent (unit_file L) with Some d => create_dir d (octal 7 5 5) | None => mret tt end;
  match parent (server_binary L) with Some d => create_dir d (octal 7 5 5) | None => mret tt end.

Definition ends_with_any (l : list string) (b : bytes) : bool := existsb (fun s => ends_with (text s) b) l.

Definition nologin_shells : list (string * path) :=
  [("/usr/sbin/nologin", text <$> ["usr"; "sbin"; "nologin"]); ("/sbin/nologin", text <$> ["sbin"; "nologin"]);
   ("/bin/false", text <$> ["bin"; "false"])]%string.

(** A [rust-xhttp] account is used only when it looks like one of ours. *)
Definition managed_account (record : bytes) : bool :=
  let fields := split_on 58 (trim record) in
  bool_decide (fields !! 5%nat = Some (text "/var/lib/rust-xhttp"))
  && match fields !! 6%nat with Some s => ends_with_any ["/nologin"; "/false"]%string s | None => false end.

Definition ensure_system_user : fm unit :=
  user_exists ← succeeds (tool "id" ["-u"; SERVICE_USER]);
  group_exists ← succeeds (tool "getent" ["group"; SERVICE_USER]);
  if user_exists : bool then
    if negb group_exists then message "existing rust-xhttp user has no matching group"
    else
      record ← utf8_output (tool "getent" ["passwd"; SERVICE_USER]);
      if managed_account record then mret tt else message "an unmanaged rust-xhttp account already exists"
  else if group_exists : bool then message "an unmanaged rust-xhttp group already exists"
  else
    shell_path ← look (fun m => default "/bin/false"%string (fst <$> find (fun s => is_present m s.2) nologin_shells));
    run_checked (tool "useradd" ["--system"; "--user-group"; "--home-dir"; "/var/lib/rust-xhttp"; "--no-create-home"; "--shell";
      shell_path; SERVICE_USER]).

Definition chown (owner : string) (p : path) : command := mk_command (Tool "chown") (words ["-R"%string; owner] ++ [APath p]).

Definition apply_ownership (L : Layout) : fm unit :=
  _ ← run_checked (chown ("root:" ++ SERVICE_USER)%string (config_dir L));
  _ ← run_checked (chown (SERVICE_USER ++ ":" ++ SERVICE_USER)%string (state_dir L));
  run_checked (chown "root:root" (manager_dir L)).

(** * Resources that can be put back *)

Record FileRollback := mk_FileRollback { fr_target : path; fr_backup : option path; fr_mode : Z }.
Record SiteRollback := mk_SiteRollback { sr_target : path; sr_backup : option path }.

(** The loop over the files of [restore_resources]. *)
Fixpoint restore_files (l : list FileRollback) : fm unit :=
  match l with
  | [] => mret tt
  | f :: l' =>
      _ ← match fr_backup f with
          | Some b => copy_atomic b (fr_target f) (fr_mode f)
          | None => remove_file_if_present (fr_target f)
          end;
      restore_files l'
  end.

Definition restore_resources (l : list FileRollback) (site : option SiteRollback) : fm unit :=
  _ ← match site with
      | Some s =>
          present ← look (fun m => is_present m (sr_target s));
          _ ← (if present : bool then fs_remove_dir_all (sr_target s) else mret tt);
          match sr_backup s with Some b => fs_rename b (sr_target s) | None => mret tt end
      | None => mret tt
      end;
  restore_files (rev l).

Definition snapshot_file (L : Layout) (target : path) (label : string) (mode : Z) : fm FileRollback :=
  file ← look (fun m => is_file m target);
  backup ← (if file : bool then
              b ← unique_path (config_dir L ++ [text "backups"]) (text label ++ text ".pem");
              _ ← copy_atomic target b (octal 6 0 0);
              mret (Some b)
            else mret None);
  mret (mk_FileRollback target backup mode).

(** [if let Err(error) = m { restore_resources(..)?; return Err(error) }]. *)
Definition or_restore {A : Type} (m : fm A) (l : list FileRollback) (site : option SiteRollback) : fm A :=
  r ← attempt m;
  match r with
  | Ok a => mret a
  | Err e => _ ← restore_resources l site; throw e
  end.

Definition install_manual_tls (L : Layout) (certificate private_key : path) : fm (list FileRollback) :=
  let target := config_dir L ++ [text "tls"] in
  let fullchain := target ++ [text "fullchain.pem"] in
  let private_key_target := target ++ [text "privkey.pem"] in
  _ ← create_dir target (octal 7 5 0);
  f1 ← snapshot_file L fullchain "fullchain" (octal 6 4 4);
  _ ← or_restore (copy_atomic certificate fullchain (octal 6 4 4)) [f1] None;
  f2 ← or_restore (snapshot_file L private_key_target "privkey" (octal 6 4 0)) [f1] None;
  _ ← or_restore (copy_atomic private_key private_key_target (octal 6 4 0)) [f1; f2] None;
  mret [f1; f2].

(** [fs::read_dir]. *)
Definition fs_read_dir (p : path) : fm (list bytes) := fun w =>
  match fault (tick w), fs w !! p with
  | Some _, _ => (advance w (fs w), Err (FIo Broken))
  | None, Some (Dir _) => (advance w (fs w), Ok (children (fs w) p))
  | None, _ => (advance w (fs w), Err (FIo NotADirectory))
  end.

(** The loop over the entries; [recur] copies a directory one level deeper. *)
Fixpoint copy_entries (recur : path -> path -> fm unit) (source destination : path) (entries : list bytes) : fm unit :=
  match entries with
  | [] => mret tt
  | e :: entries' =>
      n ← look (fun m => m !! (source ++ [e]));
      let target := destination ++ [e] in
      _ ← match n with
          | Some (Link _) => message "dist directory contains unsupported symlink"
          | Some (Dir _) =>
              _ ← fs_create_dir target; _ ← fs_set_permissions target (octal 7 5 0);
              recur (source ++ [e]) target
          | Some (File _ _) => _ ← fs_copy (source ++ [e]) target; fs_set_permissions target (octal 6 4 0)
          | Some Special => message "dist directory contains unsupported file type"
          | None => throw (FIo NotFound)
          end;
      copy_entries recur source destination entries'
  end.

(** [copy_site_tree]: [levels] more levels may be entered, 33 of them from depth 0. *)
Fixpoint copy_site_tree (levels : nat) (source destination : path) : fm unit :=
  match levels with
  | O => message "dist directory nesting exceeds 32 levels"
  | S levels' =>
      entries ← fs_read_dir source;
      copy_entries (copy_site_tree levels') source destination entries
  end.

Definition install_site (L : Layout) (source : path) : fm SiteRollback :=
  staging ← unique_directory (manager_dir L) (text "site-new");
  r ← attempt (copy_site_tree 33 source staging);
  match r with
  | Err e => _ ← ignore (fs_remove_dir_all staging); throw e
  | Ok _ =>
      let destination := state_dir L ++ [text "site"] in
      stamp ← (fun w => (w, Ok (unix_time (tick w))));
      let backup := manager_dir L ++ [text "site-backup-" ++ decimal stamp] in
      present ← look (fun m => is_present m destination);
      _ ← (if present : bool then fs_rename destination backup else mret tt);
      r ← attempt (fs_rename staging destination);
      match r with
      | Err e => _ ← (if present : bool then ignore (fs_rename backup destination) else mret tt); throw e
      | Ok _ => mret (mk_SiteRollback destination (if present : bool then Some backup else None))
      end
  end.

Definition backup_config (L : Layout) (source : path) : fm path :=
  let directory := config_dir L ++ [text "backups"] in
  _ ← create_dir directory (octal 7 0 0);
  stamp ← (fun w => (w, Ok (decimal (unix_time (tick w)))));
  let destination := directory ++ [text "config-" ++ stamp ++ text ".json"] in
  present ← look (fun m => is_present m destination);
  destination ← (if present : bool then
                   r ← random_hex 3; mret (directory ++ [text "config-" ++ stamp ++ text "-" ++ r ++ text ".json"])
                 else mret destination);
  _ ← copy_atomic source destination (octal 6 0 0);
  mret destination.
End commands.

(** * Frames *)

(** No program changes a path outside [T]. *)
Definition quiet `{Host} (T : path -> Prop) : Prop := forall t c m, agree T m (shell t c m).1.

Section frames.
Context `{Machine} `{Host}.

Lemma framed_start_command (T : path -> Prop) c : (forall t m, agree T m (shell t c m).1) -> framed T (start c).
Proof.
  intros Hq m0 w Hw. unfold runs, start. specialize (Hq (tick w) (fs w)). destruct (shell _ _ _) as [m o]. cbn [fst snd] in *.
  assert (agree T m0 m) by (by eapply agree_trans). split; [by apply along_advance|done].
Qed.

Lemma framed_output_command (T : path -> Prop) c : (forall t m, agree T m (shell t c m).1) -> framed T (run_output c).
Proof. intros. apply framed_bind; [by apply framed_start_command|]. intros [[[] ?]|]; auto with framed. all: apply framed_throw. Qed.

Lemma framed_utf8_command (T : path -> Prop) c : (forall t m, agree T m (shell t c m).1) -> framed T (utf8_output c).
Proof. intros. apply framed_bind; [by apply framed_output_command|]. intros b. destruct (utf8_valid b); auto with framed. Qed.

Lemma framed_version_command (T : path -> Prop) p : (forall t m, agree T m (shell t (version_command p) m).1) -> framed T (binary_version p).
Proof. intros. apply framed_bind; [by apply framed_utf8_command|]. auto with framed. Qed.

Lemma framed_start (T : path -> Prop) c : quiet T -> framed T (start c).
Proof. intros Hq. apply framed_start_command. intros. apply Hq. Qed.
Lemma framed_run_output (T : path -> Prop) c : quiet T -> framed T (run_output c).
Proof. intros Hq. apply framed_output_command. intros. apply Hq. Qed.
Lemma framed_run_checked (T : path -> Prop) c : quiet T -> framed T (run_checked c).
Proof. intros. apply framed_bind; [by apply framed_run_output|]. auto with framed. Qed.
Lemma framed_succeeds (T : path -> Prop) c : quiet T -> framed T (succeeds c).
Proof. intros. apply framed_bind; [by apply framed_start|]. auto with framed. Qed.
Lemma framed_utf8_output (T : path -> Prop) c : quiet T -> framed T (utf8_output c).
Proof. intros Hq. apply framed_utf8_command. intros. apply Hq. Qed.
Lemma framed_binary_version (T : path -> Prop) p : quiet T -> framed T (binary_version p).
Proof. intros Hq. apply framed_version_command. intros. apply Hq. Qed.
Lemma framed_prompt (T : path -> Prop) fallback : framed T (prompt fallback).
Proof. intros m0 w Hw. unfold runs, prompt. destruct (typed (tick w)); (split; [exists []; by rewrite app_nil_r|done]). Qed.
Lemma framed_required_prompt (T : path -> Prop) fallback : framed T (required_prompt fallback).
Proof. apply framed_bind; [apply framed_prompt|]. intros [|? ?]; [apply framed_throw|apply framed_ret]. Qed.
Lemma framed_confirm (T : path -> Prop) fallback : framed T (confirm fallback).
Proof.
  apply framed_bind; [apply framed_prompt|]. intros [|? ?]; [apply framed_ret|].
  cbv zeta. repeat (case_match; first [apply framed_ret|apply framed_throw|idtac]).
Qed.
Lemma framed_message (T : path -> Prop) {A : Type} s : framed T (message (A := A) s).
Proof. apply framed_throw. Qed.
End frames.

#[export] Hint Resolve framed_start framed_run_output framed_run_checked framed_succeeds framed_utf8_output framed_binary_version framed_message framed_prompt
  framed_required_prompt framed_confirm : framed.
