(* ===== verification/Update.v ===== *)
(** [src/management.rs]: downloading a release, replacing the two binaries, and going back
    to the previous ones. *)

From S2P Require Import Prelude Header Site Config TlsCert Files Release Runtime Manage.

Section update.
Context `{Machine} `{Host} `{JsonReader} `{SiteFormat} `{Blake3} `{Ring} `{Base64Url} `{Sha256}.

(** * Downloading *)

Definition curl_flags : list argument :=
  words ["--proto"; "=https"; "--proto-redir"; "=https"; "--tlsv1.2"; "--fail"; "--silent"; "--show-error"; "--location"; "--output"]%string.

Definition curl (destination : argument) (rest : list argument) : command := mk_command (Tool "curl") (curl_flags ++ destination :: rest).

Definition latest_release_tag : fm bytes :=
  url ← utf8_output (curl (AText (text "/dev/null")) (words ["--write-out"; "%{url_effective}"]%string
          ++ [AText (text "https://github.com/" ++ REPOSITORY ++ text "/releases/latest")]));
  match tag_of_url url with Some t => mret t | None => message "invalid release tag" end.

Definition curl_download (url : bytes) (destination : path) : fm unit := run_checked (curl (APath destination) [AText url]).

(** The archive is hashed in the reads of a [BufReader], 64 KiB at a time. *)
Definition verify_checksum_files (archive checksum : path) (name : bytes) : fm unit :=
  source ← fs_read_to_string checksum;
  b ← fs_read archive;
  match verify_checksum (chunks (Z.to_nat 65536) b) source name with Ok _ => mret tt | Err _ => message "release checksum" end.

Definition tar (flags : list string) (archive : path) (rest : list argument) : command :=
  mk_command (Tool "tar") (words flags ++ APath archive :: rest).

Definition validate_archive_paths (archive : path) (expected_root : bytes) : fm unit :=
  listing ← run_output (tar ["--list"; "--gzip"; "--file"]%string archive []);
  if safe_listing expected_root listing then mret tt else message "unsafe release archive path".

Definition validate_regular_archive_member (archive : path) (member : bytes) : fm unit :=
  listing ← run_output (tar ["--list"; "--verbose"; "--gzip"; "--file"]%string archive [AText member]);
  if regular_member listing then mret tt else message "release member must occur once as a regular file".

(** Without links a path is canonical. *)
Definition checked_release_file (temporary p : path) : fm path :=
  file ← look (fun m => is_file m p);
  if negb file then message "release member is not a regular file"
  else if under temporary p then mret p else message "release member escaped its temporary directory".

Record DownloadedRelease := mk_DownloadedRelease { d_temporary : path; d_server : path; d_ctl : path }.

Definition download_release (L : Layout) (tag : bytes) : fm DownloadedRelease :=
  _ ← create_dir (manager_dir L) (octal 7 0 0);
  temporary ← unique_directory (manager_dir L) (text "update");
  let archive := temporary ++ [archive_name tag] in
  let checksum := temporary ++ [archive_name tag ++ text ".sha256"] in
  let base := text "https://github.com/" ++ REPOSITORY ++ text "/releases/download/" ++ tag in
  _ ← curl_download (base ++ [47] ++ archive_name tag) archive;
  _ ← curl_download (base ++ [47] ++ archive_name tag ++ text ".sha256") checksum;
  _ ← verify_checksum_files archive checksum (archive_name tag);
  let prefix := release_prefix tag in
  _ ← validate_archive_paths archive prefix;
  _ ← validate_regular_archive_member archive (prefix ++ text "/rust-xhttp");
  _ ← validate_regular_archive_member archive (prefix ++ text "/rust-xhttpctl");
  let extracted := temporary ++ [prefix] in
  _ ← fs_create_dir extracted;
  _ ← run_checked (tar ["--extract"; "--gzip"; "--file"]%string archive
        ([AText (text "--directory"); APath temporary] ++ words ["--no-same-owner"; "--no-same-permissions"]%string
         ++ [AText (prefix ++ text "/rust-xhttp"); AText (prefix ++ text "/rust-xhttpctl")]));
  server ← checked_release_file temporary (extracted ++ [text "rust-xhttp"]);
  ctl ← checked_release_file temporary (extracted ++ [text "rust-xhttpctl"]);
  mret (mk_DownloadedRelease temporary server ctl).

Definition validate_downloaded_release (L : Layout) (server ctl : path) (expected : option bytes) : fm unit :=
  _ ← verify_binary server "rust-xhttp";
  _ ← verify_binary ctl "rust-xhttpctl";
  _ ← require_matching_versions server ctl expected;
  run_checked (mk_command (Exec server) [AText (text "check"); APath (config L)]).

(** * The previous binaries *)

(** Both binaries and their version, in a directory of their own. *)
Definition save_binaries (L : Layout) (dir : path) : fm unit :=
  _ ← copy_atomic (server_binary L) (dir ++ [text "rust-xhttp"]) (octal 7 0 0);
  _ ← copy_atomic (ctl_binary L) (dir ++ [text "rust-xhttpctl"]) (octal 7 0 0);
  version ← binary_version (server_binary L);
  atomic_write (dir ++ [text "version.txt"]) (version ++ [10]) (octal 6 0 0).

Definition install_binaries (L : Layout) (server ctl : path) : fm unit :=
  _ ← copy_atomic server (server_binary L) (octal 7 5 5);
  copy_atomic ctl (ctl_binary L) (octal 7 5 5).

Definition create_rollback (L : Layout) : fm unit :=
  staging ← unique_directory (manager_dir L) (text "rollback-new");
  _ ← save_binaries L staging;
  present ← look (fun m => is_present m (rollback_dir L));
  _ ← (if present : bool then fs_remove_dir_all (rollback_dir L) else mret tt);
  fs_rename staging (rollback_dir L).

Definition restore_rollback (L : Layout) : fm unit :=
  install_binaries L (rollback_dir L ++ [text "rust-xhttp"]) (rollback_dir L ++ [text "rust-xhttpctl"]).

Definition repair_no_restart (L : Layout) : command := mk_command (Exec (ctl_binary L)) (words ["repair"; "--no-restart"]%string).
Definition restart_service : command := systemctl ["restart"; SERVICE].
Definition service_is_active : command := systemctl ["is-active"; "--quiet"; SERVICE].

(** What follows the installation of a pair of binaries. *)
Definition activate (L : Layout) : fm unit :=
  _ ← run_checked (repair_no_restart L);
  _ ← run_checked restart_service;
  run_checked service_is_active.

(** * [update] *)

Definition update_failed : string := "update failed and previous binaries were restored".

(** Up to the validation of the downloaded release; [None] when it is installed already. *)
Definition prepare_update (L : Layout) (requested_tag : option bytes) (force : bool) : fm (option DownloadedRelease) :=
  _ ← ensure_supported_platform;
  tag ← match requested_tag with
        | Some t => match validate_tag t with Some t => mret t | None => message "invalid release tag" end
        | None => latest_release_tag
        end;
  installed_version ← binary_version (server_binary L);
  let version := trim_start_matches 118 tag in
  if negb force && bool_decide (version_of installed_version = Some version) then mret None
  else
    downloaded ← download_release L tag;
    _ ← validate_downloaded_release L (d_server downloaded) (d_ctl downloaded) (Some version);
    mret (Some downloaded).

(** From there on. *)
Definition install_release (L : Layout) (downloaded : DownloadedRelease) : fm unit :=
  _ ← create_rollback L;
  r ← attempt (_ ← install_binaries L (d_server downloaded) (d_ctl downloaded); activate L);
  match r with
  | Err _ =>
      _ ← restore_rollback L;
      _ ← ignore (run_checked (repair_no_restart L));
      _ ← ignore (run_checked restart_service);
      _ ← ignore (fs_remove_dir_all (d_temporary downloaded));
      message update_failed
  | Ok _ => ignore (fs_remove_dir_all (d_temporary downloaded))
  end.

Definition update (L : Layout) (requested_tag : option bytes) (force : bool) : fm unit :=
  downloaded ← prepare_update L requested_tag force;
  match downloaded with Some d => install_release L d | None => mret tt end.

(** * [rollback] *)

Definition rollback_failed : string := "rollback failed; current binaries were restored".

Definition rollback (L : Layout) : fm unit :=
  let rollback_server := rollback_dir L ++ [text "rust-xhttp"] in
  let rollback_ctl := rollback_dir L ++ [text "rust-xhttpctl"] in
  available ← look (fun m => is_file m rollback_server && is_file m rollback_ctl);
  if negb available then message "no previous binary set is available"
  else
    _ ← validate_downloaded_release L rollback_server rollback_ctl None;
    current ← unique_directory (manager_dir L) (text "rollback-current");
    _ ← save_binaries L current;
    r ← attempt (_ ← restore_rollback L; activate L);
    match r with
    | Err _ =>
        _ ← install_binaries L (current ++ [text "rust-xhttp"]) (current ++ [text "rust-xhttpctl"]);
        _ ← ignore (run_checked (repair_no_restart L));
        _ ← ignore (run_checked restart_service);
        _ ← ignore (fs_remove_dir_all current);
        message rollback_failed
    | Ok _ =>
        _ ← fs_remove_dir_all (rollback_dir L);
        fs_rename current (rollback_dir L)
    end.
End update.

(** * The two binaries *)

Definition binary_name (c : bytes) : Prop := c = text "rust-xhttp" \/ c = text "rust-xhttpctl".

(** The two binaries of a directory, their contents by name. *)
Definition pair_at (m : files) (dir : path) (body : bytes -> bytes) : Prop :=
  forall c, binary_name c -> body_at m (dir ++ [c]) (body c).

Section transaction.
Context `{Machine} `{Host} `{JsonReader} `{SiteFormat} `{Blake3} `{Ring} `{Base64Url} `{Sha256}.
Context (L : Layout).

Definition bin_path (q : path) : Prop := q = bin_dir L \/ exists c, binary_name c /\ q = bin_dir L ++ [c].

(** The directories whose name starts with [rollback], and what is in them. *)
Definition rollback_path (q : path) : Prop := exists x r, q = manager_dir L ++ (text "rollback" ++ x) :: r.

(** What the manager relies on: the programs it starts leave the installed binaries and
    the saved ones alone, and asking a binary for its version changes nothing. *)
Class TameHost : Prop := {
  tame_programs : quiet (fun q => ~ (bin_path q \/ rollback_path q));
  tame_version : forall t p m, (shell t (version_command p) m).1 = m }.

Lemma server_binary_snoc : server_binary L = bin_dir L ++ [text "rust-xhttp"].
Proof. unfold server_binary, bin_dir, at_path. by rewrite <- app_assoc. Qed.

Lemma ctl_binary_snoc : ctl_binary L = bin_dir L ++ [text "rust-xhttpctl"].
Proof. unfold ctl_binary, bin_dir, at_path. by rewrite <- app_assoc. Qed.

Lemma var_not_usr : text "var" <> text "usr".
Proof. by vm_compute. Qed.

(** Neither [manager_dir], nor what is below it or above it, is a path of the binaries. *)
Lemma manager_bin_apart (r a b s : path) : manager_dir L ++ r = a ++ b -> a = bin_dir L ++ s -> False.
Proof.
  intros Hm ->. unfold manager_dir, bin_dir, at_path in Hm. rewrite <- !app_assoc in Hm. apply app_inv_head in Hm.
  cbn [fmap list_fmap app] in Hm. injection Hm as Hm _. by apply var_not_usr.
Qed.

Lemma bin_path_below q : bin_path q -> exists s, q = bin_dir L ++ s.
Proof. intros [-> |(c & _ & ->)]; [exists []; by rewrite app_nil_r|by eexists]. Qed.

Lemma above_not_bin (r a b : path) : manager_dir L ++ r = a ++ b -> ~ bin_path a.
Proof. intros Hm [s Hs]%bin_path_below. by eapply manager_bin_apart. Qed.

Lemma manager_not_bin r : ~ bin_path (manager_dir L ++ r).
Proof. eapply (above_not_bin r _ []). by rewrite app_nil_r. Qed.

Lemma rollback_not_bin q : rollback_path q -> ~ bin_path q.
Proof. intros (x & r & ->). apply manager_not_bin. Qed.

Lemma under_manager_not_bin r q : under (manager_dir L ++ r) q = true -> ~ bin_path q.
Proof. intros [s ->]%under_true. rewrite <- app_assoc. apply manager_not_bin. Qed.

Lemma bin_scratch_not_rollback q : scratch (bin_dir L) copy_prefix q -> ~ rollback_path q.
Proof. intros [r ->] (x & s & Hq). eapply (manager_bin_apart _ _ [] _); [|exact eq_refl]. rewrite (app_nil_r (bin_dir L ++ _)). by symmetry. Qed.

Lemma binary_name_short c : binary_name c -> (length c < 15)%nat.
Proof. intros [-> | ->]; vm_compute; lia. Qed.

Lemma binary_not_scratch d c : binary_name c -> ~ scratch d copy_prefix (d ++ [c]).
Proof. intros Hc%binary_name_short. apply scratch_length. change (length copy_prefix) with 19%nat. lia. Qed.

(** ** Up to the validation *)

Context {HT : TameHost}.

Lemma quiet_bin : quiet (fun q => ~ bin_path q).
Proof. intros t c m. eapply agree_weaken; [|apply tame_programs]. intros q Hq Hb. apply Hq. by left. Qed.

Lemma verify_binary_framed (T : path -> Prop) p name : quiet T -> framed T (verify_binary p name).
Proof. intros. unfold verify_binary. frame. Qed.

Lemma download_release_framed tag : framed (fun q => ~ bin_path q) (download_release L tag).
Proof.
  pose proof quiet_bin. unfold download_release. apply framed_bind.
  { apply framed_make_dir. intros a b Hm. eapply (above_not_bin []). by rewrite app_nil_r. }
  intros _. apply framed_bind_ok; [apply framed_unique_directory; intros t [r ->]; apply manager_not_bin|].
  intros t w w' [[r ->] _]%unique_directory_ok. unfold curl_download, verify_checksum_files, validate_archive_paths,
    validate_regular_archive_member, checked_release_file. cbv zeta. frame. apply framed_create_dir. rewrite <- app_assoc. apply manager_not_bin.
Qed.

Lemma prepare_update_framed tag force : framed (fun q => ~ bin_path q) (prepare_update L tag force).
Proof.
  pose proof quiet_bin. pose proof verify_binary_framed. pose proof download_release_framed.
  unfold prepare_update, ensure_supported_platform, latest_release_tag, validate_downloaded_release, require_matching_versions. frame.
Qed.

(** Where a downloaded release is. *)
Definition release_at (d : DownloadedRelease) (source : bytes -> path) : Prop :=
  exists x y, d_temporary d = manager_dir L ++ [text "update" ++ x] /\
    d_server d = source (text "rust-xhttp") /\ d_ctl d = source (text "rust-xhttpctl") /\
    forall c, source c = manager_dir L ++ [text "update" ++ x; y; c].

Lemma checked_release_file_same t p w w' q : checked_release_file t p w = (w', Ok q) -> q = p.
Proof. unfold checked_release_file. intros Hc. run_inv Hc. destruct (negb _); [done|]. destruct (under t p); [by injection Hc|done]. Qed.

Lemma download_release_at tag w w' d :
  download_release L tag w = (w', Ok d) -> exists source, release_at d source.
Proof.
  unfold download_release. cbv zeta. intros Hd. run_inv Hd. apply (f_equal snd) in Hd. cbn in Hd. apply Ok_inj in Hd as <-.
  repeat match goal with Hc : checked_release_file _ _ _ = _ |- _ => apply checked_release_file_same in Hc as -> end.
  match goal with Hu : unique_directory _ _ _ = _ |- _ => apply unique_directory_ok in Hu as [[r ->] _] end.
  eexists (fun c => _ ++ [c]), _, _. split; [done|]. split; [done|]. split; [done|]. intros c. by rewrite <- !app_assoc.
Qed.

Lemma prepare_update_at tag force w w' d :
  prepare_update L tag force w = (w', Ok (Some d)) -> exists source, release_at d source.
Proof.
  unfold prepare_update. cbv zeta. intros Hp. run_inv Hp. destruct (_ && _); [by injection Hp|]. run_inv Hp.
  apply (f_equal snd) in Hp. cbn in Hp. apply Ok_inj in Hp. injection Hp as <-. by eapply download_release_at.
Qed.

(** ** Saving the binaries *)

(** What [create_rollback] may touch. *)
Definition saving (q : path) : Prop := rollback_path q \/ exists b, manager_dir L = q ++ b.

Lemma saving_not_bin q : saving q -> ~ bin_path q.
Proof. intros [Hq|[b Hb]]; [by apply rollback_not_bin|]. eapply (above_not_bin []). by rewrite app_nil_r. Qed.

Lemma saving_below x (r q : path) : under (manager_dir L ++ (text "rollback" ++ x) :: r) q = true -> saving q.
Proof. intros [s ->]%under_true. left. rewrite <- app_assoc. cbn [app]. by eexists _, _. Qed.

(** What saving into one directory may touch. *)
Definition saving_in (dir q : path) : Prop := under dir q = true \/ exists b, manager_dir L = q ++ b.

Lemma saving_in_saving x q : saving_in (manager_dir L ++ [text "rollback" ++ x]) q -> saving q.
Proof. intros [Hq|Hq]; [by eapply saving_below|by right]. Qed.

Lemma saving_in_replaces prefix x c : replaces (saving_in (manager_dir L ++ [x])) prefix (manager_dir L ++ [x]) c.
Proof.
  split; [|split].
  - intros a b Hm. destruct b as [|z b _] using rev_ind.
    + rewrite app_nil_r in Hm. rewrite <- Hm. left. apply under_refl.
    + rewrite app_assoc in Hm. apply app_inj_tail in Hm as [Hm _]. right. by exists b.
  - intros q [s ->]%under_true. left. rewrite <- (app_assoc (_ ++ [x])). apply under_app.
  - intros t q [r ->] [s ->]%under_true. left. rewrite <- (app_assoc (_ ++ [x])). apply under_app.
Qed.

Lemma version_unchanged p w w' b : binary_version p w = (w', Ok b) -> fs w' = fs w.
Proof.
  intros Hv. assert (framed (fun _ => False) (binary_version p)) as Hf by (apply framed_version_command; intros; rewrite tame_version; apply agree_refl).
  destruct (Hf (fs w) w (agree_refl _ _)) as [_ Ha]. rewrite Hv in Ha. cbn [fst] in Ha. apply map_eq. intros q. apply Ha. by intros [].
Qed.

Lemma save_binaries_framed x : framed (saving_in (manager_dir L ++ [x])) (save_binaries L (manager_dir L ++ [x])).
Proof.
  unfold save_binaries. apply framed_bind; [apply framed_copy_atomic, saving_in_replaces|intros _].
  apply framed_bind; [apply framed_copy_atomic, saving_in_replaces|intros _].
  apply framed_bind; [apply framed_version_command; intros; rewrite tame_version; apply agree_refl|intros v].
  apply framed_atomic_write, saving_in_replaces.
Qed.

Lemma names_differ : text "rust-xhttp" <> text "rust-xhttpctl".
Proof. by vm_compute. Qed.

Lemma snoc_names_ne (d : path) x y : x <> y -> d ++ [x] <> d ++ [y].
Proof. intros Hxy Heq. apply app_inv_head in Heq. congruence. Qed.

(** A copy of both, from contents [body] at [source]. *)
Lemma copy_pair_ok source dir mode body w w' u :
  is_dir (fs w) dir = true -> source (text "rust-xhttpctl") <> dir ++ [text "rust-xhttp"] ->
  (forall c, binary_name c -> forall b, body_at (fs w) (source c) b -> b = body c) ->
  (_ ← copy_atomic (source (text "rust-xhttp")) (dir ++ [text "rust-xhttp"]) mode;
   copy_atomic (source (text "rust-xhttpctl")) (dir ++ [text "rust-xhttpctl"]) mode) w = (w', Ok u) ->
  fs w' = <[dir ++ [text "rust-xhttpctl"] := File (body (text "rust-xhttpctl")) mode]>
            (<[dir ++ [text "rust-xhttp"] := File (body (text "rust-xhttp")) mode]> (fs w)) /\
  (forall c, binary_name c -> body_at (fs w) (source c) (body c)).
Proof.
  intros Hd Hne Hp Hr. run_inv Hr. assert (binary_name (text "rust-xhttp")) as B1 by (by left).
  assert (binary_name (text "rust-xhttpctl")) as B2 by (by right).
  match goal with Hc : copy_atomic _ _ _ w = (?w1, _) |- _ =>
    rename w1 into wa; apply copy_atomic_ok in Hc as (b1 & Hb1 & E1); [|done|by apply binary_not_scratch] end.
  apply copy_atomic_ok in Hr as (b2 & Hb2 & E2); [|by rewrite E1; apply is_dir_insert; [|apply snoc_ne]|by apply binary_not_scratch].
  rewrite E1 in Hb2. destruct Hb2 as [md Hb2]. rewrite lookup_insert_ne in Hb2 by done.
  pose proof (Hp _ B1 b1 Hb1) as X1. assert (b2 = body (text "rust-xhttpctl")) as X2 by (apply Hp; [done|by exists md]).
  split; [by rewrite E2, E1, X1, X2|]. intros c [-> | ->]; [by rewrite <- X1|]. exists md. by rewrite <- X2.
Qed.

Lemma pair_inserted (m : files) dir mode body :
  pair_at (<[dir ++ [text "rust-xhttpctl"] := File (body (text "rust-xhttpctl")) mode]>
            (<[dir ++ [text "rust-xhttp"] := File (body (text "rust-xhttp")) mode]> m)) dir body.
Proof.
  intros c [-> | ->]; exists mode; [|by rewrite lookup_insert_eq].
  rewrite lookup_insert_ne; [by rewrite lookup_insert_eq|]. apply snoc_names_ne. apply not_eq_sym, names_differ.
Qed.

Lemma save_binaries_ok r body w w' u :
  let dir := manager_dir L ++ r in
  is_dir (fs w) dir = true -> pair_at (fs w) (bin_dir L) body ->
  save_binaries L dir w = (w', Ok u) -> pair_at (fs w') dir body /\ is_dir (fs w') dir = true.
Proof.
  intros dir Hd Hp. unfold save_binaries. rewrite server_binary_snoc, ctl_binary_snoc. intros Hb.
  rewrite <- fm_bind_assoc in Hb. apply bind_ok_inv in Hb as (w1 & u1 & H1' & Hb). run_inv Hb.
  apply (copy_pair_ok (fun c => bin_dir L ++ [c]) dir _ body) in H1' as [E1 _]; [|done| |].
  2:{ intros Heq. eapply (manager_not_bin (r ++ [text "rust-xhttp"])). right. exists (text "rust-xhttpctl"). split; [by right|].
      by rewrite Heq, app_assoc. }
  2:{ intros c Hc b Hbb. eapply body_at_functional; [done|by apply Hp]. }
  match goal with Hv : binary_version _ _ = _ |- _ => apply version_unchanged in Hv as E2 end.
  apply atomic_write_ok in Hb as E3; [|apply scratch_length; vm_compute; lia]. rewrite E3, E2, E1. split.
  - intros c Hc. apply body_at_insert; [|by apply pair_inserted].
    apply snoc_names_ne. intros Heq. subst c. destruct Hc as [Hc|Hc]; by vm_compute in Hc.
  - do 3 (apply is_dir_insert; [|apply snoc_ne]). done.
Qed.

Lemma create_rollback_framed : framed saving (create_rollback L).
Proof.
  unfold create_rollback. assert (forall q, under (rollback_dir L) q = true -> saving q) as Hr.
  { intros q Hq. apply (saving_below [] []). rewrite app_nil_r. exact Hq. }
  apply framed_bind_ok; [apply framed_unique_directory|].
  - intros t [r ->]. left. by eexists _, [].
  - intros t w w' [[r ->] _]%unique_directory_ok.
    apply framed_bind; [eapply framed_weaken, save_binaries_framed; apply (saving_in_saving (drop 8 (temporary_name (text "rollback-new") r)))|intros _].
    apply framed_bind; [apply framed_look|intros present].
    apply framed_bind; [destruct present; [by apply framed_remove_dir_all|apply framed_ret]|intros _].
    apply framed_rename; [|done]. intros q. apply saving_below.
Qed.

Lemma pair_at_saving m m' body : agree saving m m' -> pair_at m (bin_dir L) body -> pair_at m' (bin_dir L) body.
Proof.
  intros Ha Hp c Hc. eapply body_at_agree; [exact Ha| |by apply Hp]. intros Hs. apply (saving_not_bin _ Hs). right. by exists c.
Qed.

Lemma rollback_new_apart prefix r : (8 < length prefix)%nat ->
  under (manager_dir L ++ [temporary_name prefix r]) (rollback_dir L) = false /\
  under (rollback_dir L) (manager_dir L ++ [temporary_name prefix r]) = false.
Proof.
  intros Hl. unfold rollback_dir. rewrite !under_snoc.
  assert (temporary_name prefix r <> text "rollback") as Hne.
  { intros Heq. apply (f_equal length) in Heq. change (length (text "rollback")) with 8%nat in Heq. unfold temporary_name in Heq.
    rewrite length_app in Heq. lia. }
  split; apply not_true_is_false; intros E%bytes_eqb_eq; congruence.
Qed.

Lemma renamed_pair a b m m' body :
  under a b = false -> under b a = false -> pair_at m a body -> is_dir m a = true -> rename_step a b m = Ok m' ->
  pair_at m' b body /\ is_dir m' b = true.
Proof.
  intros Hab Hba Hp Hd Hr. split.
  - intros c Hc. destruct (Hp c Hc) as [mode Hm]. exists mode. by rewrite (rename_dir_ok a b m m' [c]).
  - pose proof (rename_dir_ok a b m m' [] Hab Hba Hd Hr) as He. rewrite !app_nil_r in He. unfold is_dir in *. by rewrite He.
Qed.

Lemma create_rollback_ok body w w' u :
  pair_at (fs w) (bin_dir L) body -> create_rollback L w = (w', Ok u) -> pair_at (fs w') (rollback_dir L) body /\ is_dir (fs w') (rollback_dir L) = true.
Proof.
  intros Hp. unfold create_rollback. intros Hr. apply bind_ok_inv in Hr as (w1 & t & Hu & Hr).
  apply unique_directory_ok in Hu as Hu'. destruct Hu' as [[x ->] Hd].
  eapply framed_agree in Hu; [|apply (framed_unique_directory saving); intros q [y ->]; left; by eexists _, []].
  apply (pair_at_saving _ _ body) in Hu; [|done]. run_inv Hr. set (t := manager_dir L ++ [_]) in *.
  match goal with Hs : save_binaries _ _ _ = _ |- _ => apply save_binaries_ok with (body := body) in Hs as [Hs1 Hs2]; [|done|done] end.
  destruct (rollback_new_apart (text "rollback-new") x ltac:(vm_compute; lia)) as [A1 A2]. fold t in A1, A2.
  match goal with Hl : look _ _ = _ |- _ => injection Hl as <- <- end.
  match goal with Hm : (if is_present (fs ?wa) _ then _ else _) _ = (?wb, _) |- _ =>
    assert (forall r, fs wb !! (t ++ r) = fs wa !! (t ++ r)) as Hkeep; [|clear Hm] end.
  { intros r. match goal with Hm : (if ?c then _ else _) _ = _ |- _ =>
      eapply (framed_agree (fun q => under (rollback_dir L) q = true)) in Hm; [apply Hm|] end.
    - intros Hur. destruct (under_both t (rollback_dir L) (t ++ r)); [apply under_app|done|congruence|congruence].
    - destruct (is_present _ _); [by apply framed_remove_dir_all|apply framed_ret]. }
  apply call_ok_inv in Hr. apply (renamed_pair t (rollback_dir L) _ _ body A1 A2) in Hr; [done| |].
  - intros c Hc. destruct (Hs1 c Hc) as [mode Hm]. exists mode. by rewrite Hkeep.
  - unfold is_dir in *. specialize (Hkeep []). rewrite app_nil_r in Hkeep. by rewrite Hkeep.
Qed.

(** ** Installing *)

(** [saved] is a directory the old pair was saved in. *)
Context (saved : path) (old new : bytes -> bytes).

(** Each binary is complete, and the old pair is saved. *)
Definition recoverable (m : files) : Prop :=
  pair_at m saved old /\ is_dir m (bin_dir L) = true /\
  (forall c, binary_name c -> exists b, body_at m (bin_dir L ++ [c]) b /\ (b = old c \/ b = new c)) /\ is_dir m saved = true.

(** No state on the way is worse than that. *)
Definition safe (m : files) : Prop := pair_at m (bin_dir L) old \/ recoverable m.

Definition installed (m : files) : Prop :=
  forall c, binary_name c -> m !! (bin_dir L ++ [c]) = Some (File (new c) (octal 7 5 5)).

Lemma bin_dir_path : bin_path (bin_dir L).
Proof. by left. Qed.
Lemma binary_path c : binary_name c -> bin_path (bin_dir L ++ [c]).
Proof. intros Hc. right. by exists c. Qed.

Context (Hsaved : exists x, saved = manager_dir L ++ [text "rollback" ++ x]).

Lemma saved_path c : rollback_path (saved ++ [c]).
Proof. destruct Hsaved as [x ->]. exists x, [c]. by rewrite <- app_assoc. Qed.

Lemma saved_below q : under saved q = true -> rollback_path q.
Proof. destruct Hsaved as [x ->]. intros [s ->]%under_true. exists x, s. by rewrite <- app_assoc. Qed.

Lemma recoverable_agree (T : path -> Prop) m m' :
  (forall q, T q -> ~ (bin_path q \/ under saved q = true)) -> agree T m m' -> recoverable m -> recoverable m'.
Proof.
  intros HTq Ha (Hs & Hd & Hb & Hsd). split; [|split; [|split]].
  - intros c Hc. eapply body_at_agree; [exact Ha| |by apply Hs]. intros Hq%HTq. apply Hq. right. apply under_app.
  - unfold is_dir in *. rewrite Ha; [done|]. intros Hq%HTq. apply Hq. left. apply bin_dir_path.
  - intros c Hc. destruct (Hb c Hc) as (b & Hm & Hor). exists b. split; [|done]. eapply body_at_agree; [exact Ha| |done].
    intros Hq%HTq. apply Hq. left. by apply binary_path.
  - unfold is_dir in *. rewrite Ha; [done|]. intros Hq%HTq. apply Hq. right. apply under_refl.
Qed.

Lemma saved_not_copied c q : binary_name c -> under saved q = true -> q <> bin_dir L ++ [c] /\ ~ scratch (bin_dir L) copy_prefix q.
Proof.
  intros Hc Hq%saved_below. split.
  - intros ->. by eapply rollback_not_bin, binary_path.
  - intros Hs. by eapply bin_scratch_not_rollback.
Qed.

Lemma recoverable_replacing c m0 m (body : bytes -> Prop) :
  binary_name c -> recoverable m0 -> (forall b, body b -> b = old c \/ b = new c) ->
  replacing_by copy_prefix body (octal 7 5 5) (bin_dir L) (bin_dir L ++ [c]) m0 m -> recoverable m.
Proof.
  intros Hc (Hs & Hd & Hb & Hsd) Hbody Hr. apply replacing_by_lookup in Hr as [Hat Hother]; [|by apply binary_not_scratch].
  split; [|split; [|split]].
  - intros c' Hc'. destruct (Hs c' Hc') as [md Hm]. exists md. destruct (saved_not_copied c (saved ++ [c']) Hc (under_app _ _)). by rewrite Hother.
  - unfold is_dir in *. rewrite Hother; [done|apply not_eq_sym, snoc_ne|]. intros [r Hr]. by apply (snoc_ne (bin_dir L) (temporary_name copy_prefix r)).
  - intros c' Hc'. destruct (decide (c' = c)) as [-> |Hne].
    + destruct Hat as [Hat|(b & Hbb & Hat)]; [|exists b; split; [by eexists|by apply Hbody]].
      destruct (Hb c Hc) as (b & [md Hm] & Hor). exists b. split; [exists md; by rewrite Hat|done].
    + destruct (Hb c' Hc') as (b & [md Hm] & Hor). exists b. split; [|done]. exists md. rewrite Hother; [done|by apply snoc_names_ne|by apply binary_not_scratch].
  - destruct (saved_not_copied c saved Hc (under_refl _)). unfold is_dir in *. by rewrite Hother.
Qed.

Lemma copy_binary_runs src c w :
  binary_name c -> recoverable (fs w) -> (forall b, body_at (fs w) src b -> b = old c \/ b = new c) ->
  runs recoverable (copy_atomic src (bin_dir L ++ [c]) (octal 7 5 5)) w (fun w' _ => recoverable (fs w') /\
    forall q, q <> bin_dir L ++ [c] -> ~ scratch (bin_dir L) copy_prefix q -> fs w' !! q = fs w !! q).
Proof.
  intros Hc Hw Hsrc. pose proof Hw as (_ & Hd & _). eapply runs_weaken; [| |apply copy_atomic_runs; [done|by apply binary_not_scratch]].
  { intros m. by apply recoverable_replacing. }
  intros w' [u|e]; cbn [replaced_by].
  - intros Hr. assert (replacing_by copy_prefix (body_at (fs w) src) (octal 7 5 5) (bin_dir L) (bin_dir L ++ [c]) (fs w) (fs w')) as Hr' by (by right).
    split; [by eapply recoverable_replacing|]. by apply replacing_by_lookup in Hr' as [_ Ho]; [|apply binary_not_scratch].
  - intros [-> |Hr]; [done|]. split; [by eapply recoverable_replacing|]. by apply replacing_by_lookup in Hr as [_ Ho]; [|apply binary_not_scratch].
Qed.

Lemma install_binaries_runs source w :
  recoverable (fs w) -> (forall c s, source c <> bin_dir L ++ s) ->
  (forall c b, binary_name c -> body_at (fs w) (source c) b -> b = old c \/ b = new c) ->
  runs recoverable (install_binaries L (source (text "rust-xhttp")) (source (text "rust-xhttpctl"))) w (fun w' _ => recoverable (fs w')).
Proof.
  intros Hw Hout Hb. unfold install_binaries. rewrite server_binary_snoc, ctl_binary_snoc.
  assert (binary_name (text "rust-xhttp")) as B1 by (by left). assert (binary_name (text "rust-xhttpctl")) as B2 by (by right).
  apply runs_bind. eapply runs_weaken; [intros m Hm; exact Hm| |apply copy_binary_runs; eauto].
  intros w1 [u|e] [H1' Ho]; [|done]. eapply runs_weaken; [intros m Hm; exact Hm| |apply copy_binary_runs; [done|done|]].
  - by intros w2 r [H2' _].
  - intros b [md Hm]. apply Hb; [done|]. exists md. rewrite <- Ho; [done|apply Hout|]. intros [r Hr]. by apply Hout in Hr.
Qed.

Lemma install_binaries_ok source body w w' u :
  is_dir (fs w) (bin_dir L) = true -> (forall c s, source c <> bin_dir L ++ s) ->
  (forall c, binary_name c -> forall b, body_at (fs w) (source c) b -> b = body c) ->
  install_binaries L (source (text "rust-xhttp")) (source (text "rust-xhttpctl")) w = (w', Ok u) ->
  forall c, binary_name c -> fs w' !! (bin_dir L ++ [c]) = Some (File (body c) (octal 7 5 5)) /\ body_at (fs w) (source c) (body c).
Proof.
  unfold install_binaries. rewrite server_binary_snoc, ctl_binary_snoc. intros Hd Hout Hb Hi.
  apply (copy_pair_ok source (bin_dir L) _ body) in Hi as [-> Hat]; [|done|apply Hout|done].
  intros c Hc. split; [|by apply Hat]. destruct Hc as [-> | ->]; [|by rewrite lookup_insert_eq].
  rewrite lookup_insert_ne; [by rewrite lookup_insert_eq|]. apply snoc_names_ne. apply not_eq_sym, names_differ.
Qed.

(** ** Around the installation *)

Definition apart (q : path) : Prop := ~ (bin_path q \/ rollback_path q).

Lemma keeps_recoverable {A : Type} (m : fm A) w :
  framed apart m -> recoverable (fs w) -> runs recoverable m w (fun w' _ => recoverable (fs w') /\ agree apart (fs w) (fs w')).
Proof.
  intros Hf Hw. assert (forall m, agree apart (fs w) m -> recoverable m) as Hm by (intros m' Ha; apply (recoverable_agree apart (fs w)); [|done|done]; intros q Hq [Hb|Hb]; apply Hq; [by left|right; by apply saved_below]).
  eapply runs_weaken; [exact Hm| |apply Hf, agree_refl]. intros w' r Ha. by split; [apply Hm|].
Qed.

Lemma quiet_apart : quiet apart.
Proof. apply tame_programs. Qed.

Lemma update_not_rollback x y : text "update" ++ x <> text "rollback" ++ y.
Proof. intros Heq. apply (f_equal head) in Heq. by vm_compute in Heq. Qed.

Lemma update_apart x (r q : path) : under (manager_dir L ++ (text "update" ++ x) :: r) q = true -> apart q.
Proof.
  intros [s ->]%under_true. rewrite <- app_assoc. intros [Hq|(y & t & Hq)]; [by eapply manager_not_bin|].
  apply app_inv_head in Hq. cbn [app] in Hq. injection Hq as Hq _. by apply (update_not_rollback x y).
Qed.

Lemma activate_framed : framed apart (activate L).
Proof. pose proof quiet_apart. unfold activate. frame. Qed.

Lemma saved_elsewhere c s : saved ++ [c] <> bin_dir L ++ s.
Proof.
  intros Heq. destruct Hsaved as [x Hx]. apply (manager_bin_apart [text "rollback" ++ x; c] (bin_dir L ++ s) [] s); [|done].
  rewrite app_nil_r, <- Heq, Hx. by rewrite <- app_assoc.
Qed.

(** Putting the saved pair back. *)
Lemma restore_saved_runs w : recoverable (fs w) ->
  runs recoverable (install_binaries L (saved ++ [text "rust-xhttp"]) (saved ++ [text "rust-xhttpctl"])) w (fun w' r => recoverable (fs w') /\
    (r = Ok tt -> forall c, binary_name c -> fs w' !! (bin_dir L ++ [c]) = Some (File (old c) (octal 7 5 5)))).
Proof.
  intros Hw. pose proof Hw as (Hs & Hd & _).
  assert (forall c, binary_name c -> forall b, body_at (fs w) (saved ++ [c]) b -> b = old c) as Hb
    by (intros c Hc b Hb; eapply body_at_functional; [done|by apply Hs]).
  apply runs_eq. eapply runs_weaken; [intros m Hm; exact Hm|
    |apply (install_binaries_runs (fun c => saved ++ [c])); [done|apply saved_elsewhere|intros c b Hc Hm; left; by apply Hb]].
  intros w' r Hr Heq. split; [done|]. intros ->.
  intros c Hc. by apply (install_binaries_ok (fun c => saved ++ [c]) old w w' tt Hd saved_elsewhere Hb Heq).
Qed.

Lemma spares_install failed source1 source2 :
  failed <> "failed to allocate a unique temporary path"%string -> failed <> "has no parent"%string ->
  spares (FMessage failed) (install_binaries L source1 source2).
Proof. intros. unfold install_binaries. apply spares_bind; [|intros _]; by apply spares_copy_atomic. Qed.

Lemma pair_of_modes mode m (body : bytes -> bytes) :
  (forall c, binary_name c -> m !! (bin_dir L ++ [c]) = Some (File (body c) mode)) -> pair_at m (bin_dir L) body.
Proof. intros Hm c Hc. exists mode. by apply Hm. Qed.

Lemma agree_apart_bin m m' c : agree apart m m' -> binary_name c -> m' !! (bin_dir L ++ [c]) = m !! (bin_dir L ++ [c]).
Proof. intros Ha Hc. apply Ha. intros Hq. apply Hq. left. by apply binary_path. Qed.

Lemma pair_at_away m m' body : agree (fun q => ~ bin_path q) m m' -> pair_at m (bin_dir L) body -> pair_at m' (bin_dir L) body.
Proof. intros Ha Hp c Hc. eapply body_at_agree; [exact Ha| |by apply Hp]. intros Hb. by apply Hb, binary_path. Qed.

(** The old pair is back, or it can be put back. *)
Definition undone (failed : string) (m : files) (e : failure) : Prop :=
  pair_at m (bin_dir L) old \/ e <> FMessage failed /\ recoverable m.

(** ** Exchanging the pair *)

(** Both commands install a pair, activate it, and undo that when a step fails. *)
Section exchange.
Context (failed : string) (tmp : path).
Context (Hf1 : failed <> "failed to allocate a unique temporary path"%string) (Hf2 : failed <> "has no parent"%string).
Context (Htmp : forall q, under tmp q = true -> ~ bin_path q).

Definition undo : fm unit :=
  _ ← install_binaries L (saved ++ [text "rust-xhttp"]) (saved ++ [text "rust-xhttpctl"]);
  _ ← ignore (run_checked (repair_no_restart L)); _ ← ignore (run_checked restart_service);
  _ ← ignore (fs_remove_dir_all tmp); message failed.

Lemma undo_runs w : recoverable (fs w) ->
  runs safe undo w (fun w' r => exists e, r = Err e /\ undone failed (fs w') e).
Proof.
  intros Hw. pose proof quiet_bin as Hquiet. apply runs_bind, runs_eq. eapply runs_weaken; [intros m Hm; by right| |by apply restore_saved_runs].
  intros w1 [[]|e] [H1' Hr] Heq.
  - specialize (Hr eq_refl). apply pair_of_modes in Hr.
    assert (framed (fun q => ~ bin_path q) (_ ← ignore (run_checked (repair_no_restart L)); _ ← ignore (run_checked restart_service);
      _ ← ignore (fs_remove_dir_all tmp); message (A := unit) failed)) as Hf.
    { do 2 (apply framed_bind; [by auto with framed|intros _]). apply framed_bind; [|intros; apply framed_message].
      by apply framed_ignore, framed_remove_dir_all. }
    apply runs_eq. eapply runs_weaken; [| |apply Hf, agree_refl]; cbv beta; [intros m Ha; left; by eapply pair_at_away|].
    intros w2 r2 Ha Heq2. destruct r2 as [u|e]; [run_inv Heq2; done|]. exists e. split; [done|]. left. by eapply pair_at_away.
  - exists e. split; [done|]. right. split; [|done]. intros ->. eapply (spares_install failed _ _ Hf1 Hf2 w). by rewrite Heq.
Qed.

Lemma exchange_runs (I : files -> Prop) source (k : fm unit) w (Q : world -> result failure unit -> Prop) :
  (forall m, safe m -> I m) ->
  recoverable (fs w) -> (forall c s, source c <> bin_dir L ++ s) ->
  (forall c, binary_name c -> forall b, body_at (fs w) (source c) b -> b = new c) ->
  (forall w' e, undone failed (fs w') e -> Q w' (Err e)) ->
  (forall w', recoverable (fs w') -> installed (fs w') -> (forall c, binary_name c -> body_at (fs w) (source c) (new c)) -> runs I k w' Q) ->
  runs I (r ← attempt (_ ← install_binaries L (source (text "rust-xhttp")) (source (text "rust-xhttpctl")); activate L);
             match r with Err _ => undo | Ok _ => k end) w Q.
Proof.
  intros HI Hw Hout Hn Herr Hk. assert (forall wa, recoverable (fs wa) -> runs I undo wa Q) as Hundo.
  { intros wa Hwa. eapply runs_weaken; [exact HI| |by apply undo_runs]. intros w' r (e & -> & He). by apply Herr. }
  apply runs_bind, runs_attempt, runs_bind, runs_eq. eapply runs_weaken; [intros m Hm; by apply HI; right|
    |apply (install_binaries_runs source); [done|done|intros c b Hc Hb; right; by apply Hn]].
  intros w2 [[]|e] H2' Heq2; [|by apply Hundo]. pose proof Hw as (_ & Hd & _).
  pose proof (install_binaries_ok source new w w2 tt Hd Hout Hn Heq2) as Hin.
  eapply runs_weaken; [intros m Hm; by apply HI; right| |apply keeps_recoverable; [apply activate_framed|done]].
  intros w3 [u3|e] [H3' Ha3]; [|by apply Hundo]. apply Hk; [done| |intros c Hc; by apply Hin].
  intros c Hc. rewrite (agree_apart_bin _ _ c Ha3 Hc). by apply Hin.
Qed.
End exchange.

Lemma pair_recoverable m : pair_at m (bin_dir L) old -> pair_at m saved old /\ is_dir m saved = true -> is_dir m (bin_dir L) = true -> recoverable m.
Proof. intros Hp [Hs Hsd] Hd. split; [done|]. split; [done|]. split; [|done]. intros c Hc. exists (old c). split; [by apply Hp|by left]. Qed.

(** Until then the installed pair is not touched. *)
Lemma before_exchange {A : Type} (T : path -> Prop) (m : fm A) w :
  framed T m -> (forall q, T q -> ~ bin_path q) -> pair_at (fs w) (bin_dir L) old -> is_dir (fs w) (bin_dir L) = true ->
  runs safe m w (fun w' _ => agree T (fs w) (fs w') /\ pair_at (fs w') (bin_dir L) old /\ is_dir (fs w') (bin_dir L) = true).
Proof.
  intros Hf HTb Hp Hd. assert (forall m', agree T (fs w) m' -> pair_at m' (bin_dir L) old) as Hk.
  { intros m' Ha. eapply pair_at_away; [|done]. by eapply agree_weaken. }
  eapply runs_weaken; [| |apply Hf, agree_refl]; cbv beta; [intros m' Ha; left; by apply Hk|].
  intros w' r Ha. split; [done|]. split; [by apply Hk|]. unfold is_dir. rewrite Ha; [exact Hd|]. intros Hq. exact (HTb _ Hq bin_dir_path).
Qed.
End transaction.

Section update_rollback.
Context `{Machine} `{Host} `{Sha256} (L : Layout) {HT : TameHost L} (old : bytes -> bytes).

Lemma rollback_dir_saved : exists x, rollback_dir L = manager_dir L ++ [text "rollback" ++ x].
Proof. exists []. by rewrite app_nil_r. Qed.

Lemma install_release_runs new d source w :
  release_at L d source -> is_dir (fs w) (bin_dir L) = true -> pair_at (fs w) (bin_dir L) old ->
  (forall c, binary_name c -> forall b, body_at (fs w) (source c) b -> b = new c) ->
  runs (safe L (rollback_dir L) old new) (install_release L d) w (fun w' r =>
    match r with
    | Ok _ => installed L new (fs w') /\ pair_at (fs w') (rollback_dir L) old /\ forall c, binary_name c -> body_at (fs w) (source c) (new c)
    | Err e => undone L (rollback_dir L) old new update_failed (fs w') e
    end).
Proof.
  intros (x & y & Htmp & Hsrv & Hctl & Hsrc) Hd Hp Hn. unfold install_release. rewrite Hsrv, Hctl, Htmp.
  apply runs_bind, runs_eq. eapply runs_weaken; [intros m Hm; exact Hm|
    |by apply (before_exchange L (rollback_dir L) old new (saving L)); [apply create_rollback_framed|apply saving_not_bin| |]].
  intros w1 [u|e] (Ha & Hp1 & Hd1) Heq; [|by left].
  assert (recoverable L (rollback_dir L) old new (fs w1)) as Hrec by (apply pair_recoverable; [done|exact (create_rollback_ok L old w w1 u Hp Heq)|done]).
  assert (forall c, fs w1 !! source c = fs w !! source c) as Hsame.
  { intros c. apply Ha. rewrite Hsrc. intros [(z & r & Hq)|[b Hb]].
    - apply app_inv_head in Hq. injection Hq as Hq _. by apply (update_not_rollback x z).
    - apply (f_equal length) in Hb. rewrite !length_app in Hb. cbn [length] in Hb. lia. }
  apply (exchange_runs L (rollback_dir L) old new rollback_dir_saved update_failed (manager_dir L ++ [text "update" ++ x])); [done|done| |by intros m Hm|done| | |done|].
  - intros q. apply under_manager_not_bin.
  - intros c s Hq. apply (manager_bin_apart L [text "update" ++ x; y; c] (source c) [] s); [by rewrite app_nil_r, Hsrc|done].
  - intros c Hc b [md Hm]. apply Hn; [done|]. exists md. by rewrite <- Hsame.
  - intros w2 Hrec2 Hin Hbody. apply runs_eq. eapply runs_weaken; [intros m Hm; by right|
      |apply keeps_recoverable; [exact rollback_dir_saved|apply framed_ignore, framed_remove_dir_all; intros q; apply update_apart|exact Hrec2]].
    intros w4 r [(Hs4 & _) Ha4] Heq4. apply (f_equal snd) in Heq4. rewrite ignore_ok in Heq4. cbn [snd] in Heq4. rewrite <- Heq4.
    split; [|split; [done|]].
    + intros c Hc. rewrite (agree_apart_bin L _ _ c Ha4 Hc). by apply Hin.
    + intros c Hc. destruct (Hbody c Hc) as [md Hm]. exists md. by rewrite <- Hsame.
Qed.

(** ** [rollback] *)

Definition saved_name (s : path) : Prop := exists x, s = manager_dir L ++ [text "rollback" ++ x].

(** The old pair is installed, or saved in one of the manager's directories. *)
Definition kept_somewhere (new : bytes -> bytes) (m : files) : Prop :=
  pair_at m (bin_dir L) old \/ exists s, saved_name s /\ recoverable L s old new m.

Lemma safe_kept s new m : saved_name s -> safe L s old new m -> kept_somewhere new m.
Proof. intros Hs [Hm|Hm]; [by left|right; by exists s]. Qed.

Definition rollback_outcome (new : bytes -> bytes) (w : world) (r : result failure unit) : Prop :=
  match r with
  | Ok _ => installed L new (fs w) /\ pair_at (fs w) (rollback_dir L) old
  | Err e => pair_at (fs w) (bin_dir L) old \/ e <> FMessage rollback_failed /\ exists s, saved_name s /\ recoverable L s old new (fs w)
  end.

Lemma validate_release_framed server ctl expected : framed (apart L) (validate_downloaded_release L server ctl expected).
Proof.
  pose proof (quiet_apart L). pose proof verify_binary_framed. unfold validate_downloaded_release, require_matching_versions. frame.
Qed.

Lemma installed_away new (T : path -> Prop) m m' :
  (forall q, T q -> ~ bin_path L q) -> agree T m m' -> installed L new m -> is_dir m (bin_dir L) = true ->
  installed L new m' /\ is_dir m' (bin_dir L) = true.
Proof.
  intros HTb Ha Hi Hd. split.
  - intros c Hc. rewrite Ha; [by apply Hi|]. intros Hq. exact (HTb _ Hq (binary_path L c Hc)).
  - unfold is_dir in *. rewrite Ha; [done|]. intros Hq. exact (HTb _ Hq (bin_dir_path L)).
Qed.

(** The directory of the exchanged pair takes the place of [rollback]. *)
Lemma finish_rollback_runs new r w :
  let current := manager_dir L ++ [temporary_name (text "rollback-current") r] in
  recoverable L current old new (fs w) -> installed L new (fs w) ->
  runs (kept_somewhere new) (_ ← fs_remove_dir_all (rollback_dir L); fs_rename current (rollback_dir L)) w (rollback_outcome new).
Proof.
  intros current Hrec Hin. destruct (rollback_new_apart L (text "rollback-current") r ltac:(vm_compute; lia)) as [A1 A2]. fold current in A1, A2.
  assert (saved_name current) as Hcur by (by exists (drop 8 (temporary_name (text "rollback-current") r))).
  assert (forall q, under (rollback_dir L) q = true -> ~ bin_path L q) as Hr1 by (intros q; apply under_manager_not_bin).
  assert (forall q, under current q = true -> ~ bin_path L q) as Hr2 by (intros q; apply under_manager_not_bin).
  assert (forall m, agree (fun q => under (rollback_dir L) q = true) (fs w) m -> recoverable L current old new m) as Hk.
  { intros m Ha. eapply recoverable_agree; [|exact Ha|done]. intros q Hq [Hb|Hb]; [by apply (Hr1 q)|].
    destruct (under_both current (rollback_dir L) q); [done|done|congruence|congruence]. }
  apply runs_bind, runs_eq. eapply runs_weaken; [| |apply (framed_remove_dir_all (fun q => under (rollback_dir L) q = true)); [done|apply agree_refl]]; cbv beta.
  { intros m Ha. right. exists current. split; [done|by apply Hk]. }
  intros w1 [[]|e] Ha Heq.
  2:{ right. split; [|exists current; split; [done|by apply Hk]]. intros ->. apply (spares_call rollback_failed (remove_dir_step (rollback_dir L)) (fun _ => remove_tree (rollback_dir L) (kept (tick w))) w).
      change ((fs_remove_dir_all (rollback_dir L) w).2 = Err (FMessage rollback_failed)). by rewrite Heq. }
  pose proof (Hk _ Ha) as Hrec1. pose proof Hrec1 as (Hp1 & Hd1 & Hb1 & Hs1).
  destruct (installed_away new _ _ _ Hr1 Ha Hin) as [Hin1 _]; [by destruct Hrec as (_ & ? & _)|].
  apply runs_atomic_call; [right; by exists current|intros e; right; split; [done|by exists current]|].
  intros m Hm. destruct (renamed_pair current (rollback_dir L) _ _ old A1 A2 Hp1 Hs1 Hm) as [Hp2 Hs2].
  assert (agree (fun q => ~ bin_path L q) (fs w1) m) as Ha2 by (eapply step_rename; [| |exact Hm]; done).
  destruct (installed_away new _ _ _ (fun _ H => H) Ha2 Hin1 Hd1) as [Hin2 Hd2]. split; [|by split].
  right. exists (rollback_dir L). split; [apply rollback_dir_saved|]. split; [done|]. split; [done|]. split; [|done].
  intros c Hc. exists (new c). split; [by exists (octal 7 5 5); apply Hin2|by right].
Qed.

Lemma rollback_runs new w :
  is_dir (fs w) (bin_dir L) = true -> pair_at (fs w) (bin_dir L) old -> pair_at (fs w) (rollback_dir L) new ->
  runs (kept_somewhere new) (rollback L) w (rollback_outcome new).
Proof.
  intros Hd Hp Hr. unfold rollback. cbv zeta. apply runs_bind, runs_look. destruct (negb _); [apply runs_throw; by left|].
  assert (forall m, safe L (rollback_dir L) old new m -> kept_somewhere new m) as Hsafe by (intros m; apply safe_kept, rollback_dir_saved).
  apply runs_bind. eapply runs_weaken; [exact Hsafe| |by apply (before_exchange L _ old new (apart L));
    [apply validate_release_framed|intros q Hq Hb; apply Hq; left| |]].
  intros w1 [u|e] (Ha1 & Hp1 & Hd1); [|by left].
  apply runs_bind, runs_eq. eapply runs_weaken; [exact Hsafe| |by apply (before_exchange L _ old new (scratch (manager_dir L) (text "rollback-current")));
    [apply framed_unique_directory|intros q [r ->]; apply manager_not_bin| |]].
  intros w2 [t|e] (Ha2 & Hp2 & Hd2) Heq; [|by left]. apply unique_directory_ok in Heq as [[r ->] Ht].
  set (current := manager_dir L ++ [temporary_name (text "rollback-current") r]) in *.
  apply runs_bind, runs_eq. eapply runs_weaken; [exact Hsafe| |by apply (before_exchange L _ old new (saving_in L current));
    [apply save_binaries_framed|intros q Hq; eapply saving_not_bin, (saving_in_saving L (drop 8 (temporary_name (text "rollback-current") r))), Hq| |]].
  intros w3 [[]|e] (Ha3 & Hp3 & Hd3) Heq; [|by left].
  destruct (save_binaries_ok L [temporary_name (text "rollback-current") r] old w2 w3 tt Ht Hp2 Heq) as [Hp4 Ht4]. fold current in Hp4, Ht4.
  assert (saved_name current) as Hcur by (by exists (drop 8 (temporary_name (text "rollback-current") r))).
  destruct (rollback_new_apart L (text "rollback-current") r ltac:(vm_compute; lia)) as [A1 A2]. fold current in A1, A2.
  assert (forall c, binary_name c -> body_at (fs w3) (rollback_dir L ++ [c]) (new c)) as Hnew.
  { intros c Hc. eapply body_at_agree; [exact Ha3| |]; [|eapply body_at_agree; [exact Ha2| |]; [|eapply body_at_agree; [exact Ha1| |by apply Hr]]].
    - intros [Hq|[b Hb]]; [destruct (under_both current (rollback_dir L) (rollback_dir L ++ [c])); [done|apply under_app|congruence|congruence]|].
      apply (f_equal length) in Hb. unfold rollback_dir in Hb. rewrite !length_app in Hb. cbn [length] in Hb. lia.
    - intros [x Hx]. apply (f_equal length) in Hx. unfold rollback_dir in Hx. rewrite !length_app in Hx. cbn [length] in Hx. lia.
    - intros Hq. apply Hq. right. exists [], [c]. unfold rollback_dir. by rewrite <- app_assoc. }
  apply (exchange_runs L current old new Hcur rollback_failed current ltac:(discriminate) ltac:(discriminate)
           (under_manager_not_bin L _) (kept_somewhere new) (fun c => rollback_dir L ++ [c])).
  - intros m. by apply safe_kept.
  - by apply pair_recoverable.
  - apply (saved_elsewhere L (rollback_dir L) rollback_dir_saved).
  - intros c Hc b Hb. eapply body_at_functional; [done|by apply Hnew].
  - intros w' e [He|[He Hrec]]; [by left|right; split; [done|by exists current]].
  - intros w' Hrec Hin _. by apply finish_rollback_runs.
Qed.
End update_rollback.

(** C15: An update is a transaction.  Whatever call or program fails, every state on the
    way has both binaries complete: the old pair, or with the old pair saved under
    [rollback] each of them the old one or the one of the downloaded release.  After
    success nothing changed, or both are the files the validation ran, mode 755, and the
    old pair is saved; after the error that says so the old pair is back, and after
    any other error it is there or can be restored. *)
Theorem update_transactional `{Machine} `{Host} `{Sha256} L requested_tag force old w :
  TameHost L -> is_dir (fs w) (bin_dir L) = true -> pair_at (fs w) (bin_dir L) old ->
  let '(w', r) := update L requested_tag force w in
  exists new, along (safe L (rollback_dir L) old new) w w' /\
    match r with
    | Ok _ => pair_at (fs w') (bin_dir L) old \/
              installed L new (fs w') /\ pair_at (fs w') (rollback_dir L) old /\
              exists w1 d, prepare_update L requested_tag force w = (w1, Ok (Some d)) /\
                body_at (fs w1) (d_server d) (new (text "rust-xhttp")) /\ body_at (fs w1) (d_ctl d) (new (text "rust-xhttpctl"))
    | Err e => pair_at (fs w') (bin_dir L) old \/ e <> FMessage update_failed /\ recoverable L (rollback_dir L) old new (fs w')
    end.
Proof.
  intros HT Hd Hp. unfold update, mbind, fm_bind. destruct (prepare_update L requested_tag force w) as [w1 o] eqn:Eprep.
  assert (forall new, runs (safe L (rollback_dir L) old new) (prepare_update L requested_tag force) w (fun w' _ =>
    agree (fun q => ~ bin_path L q) (fs w) (fs w') /\ pair_at (fs w') (bin_dir L) old /\ is_dir (fs w') (bin_dir L) = true)) as Hprep
    
    by (intros new; apply (before_exchange L _ old new (fun q => ~ bin_path L q)); [apply prepare_update_framed; exact HT|by intros q Hq|done|done]).
  destruct o as [[d|]|e]; [|destruct (Hprep old) as [Ha (_ & Hp1 & _)]; rewrite Eprep in Ha, Hp1; exists old; split; [done|by left]..].
  destruct (prepare_update_at L requested_tag force w w1 d Eprep) as [source Hsrc].
  set (new := fun c => match fs w1 !! source c with Some (File b _) => b | _ => [] end).
  destruct (Hprep new) as [Ha (_ & Hp1 & Hd1)]. rewrite Eprep in Ha, Hp1, Hd1. cbn [fst] in *.
  destruct (install_release_runs L old new d source w1 Hsrc Hd1 Hp1) as [Hal2 Hq].
  - intros c _ b [md Hb]. unfold new. by rewrite Hb.
  - destruct (install_release L d w1) as [w2 r] eqn:Ei. cbn [fst snd] in *. exists new. split; [by eapply along_trans|].
    destruct r as [[]|e]; [|done]. right. destruct Hq as (Hin & Hsaved & Hbody). split; [done|]. split; [done|]. exists w1, d. split; [done|].
    destruct Hsrc as (x & y & _ & -> & -> & _). split; apply Hbody; [by left|by right].
Qed.

(** A rollback exchanges the two pairs.  Whatever fails, in every state on the way the
    current pair is installed, or it is saved and each installed binary is complete, of one
    of the two pairs; after success the previous pair is installed and the current one is
    what the next rollback returns to, and after the error that says so the current pair
    is back. *)
Theorem rollback_exchanges `{Machine} `{Host} `{Sha256} L old previous w :
  TameHost L -> is_dir (fs w) (bin_dir L) = true -> pair_at (fs w) (bin_dir L) old -> pair_at (fs w) (rollback_dir L) previous ->
  let '(w', r) := rollback L w in
  along (kept_somewhere L old previous) w w' /\
  match r with
  | Ok _ => installed L previous (fs w') /\ pair_at (fs w') (rollback_dir L) old
  | Err e => pair_at (fs w') (bin_dir L) old \/
             e <> FMessage rollback_failed /\ exists s, saved_name L s /\ recoverable L s old previous (fs w')
  end.
Proof.
  intros HT Hd Hp Hr. destruct (rollback_runs L old previous w Hd Hp Hr) as [Ha Hq]. destruct (rollback L w) as [w' r]. by split.
Qed.

(** * Witness *)

(** A host whose [curl] and [tar] deliver a release; what they write stays in the download
    directory. *)
Definition deliverable (p : path) : bool :=
  match p with [_; _; _; u; _] | [_; _; _; u; _; _] => starts_with (text "update") u | _ => false end.

Fixpoint deliver (l : list (path * bytes)) (m : files) : files :=
  match l with
  | [] => m
  | (p, b) :: l' => deliver l' (if deliverable p then <[p := File b (octal 6 4 4)]> m else m)
  end.

Definition toy_download (p : path) : bytes :=
  match list.last p with
  | Some n => if ends_with (text ".sha256") n then hex (replicate 31 0 ++ [6]) ++ [32] ++ archive_name toy_tag else [1; 2; 3]
  | None => []
  end.

Definition toy_programs (c : command) (m : files) : files * option (bool * bytes) :=
  match c with
  | mk_command (Exec p) [AText _] => (m, Some (true, (if ends_with (text "ctl") (default [] (list.last p)) then text "rust-xhttpctl 1.2" else text "rust-xhttp 1.2")))
  | mk_command (Tool t) l =>
      if bool_decide (t = "curl"%string) then
        match rev l with AText _ :: APath p :: _ => (deliver [(p, toy_download p)] m, Some (true, [])) | _ => (m, Some (true, [])) end
      else
        match l with
        | [_; _; _; APath _] => (m, Some (true, toy_listing))
        | [_; _; _; _; APath _; AText _] => (m, Some (true, [45]))
        | _ :: _ :: _ :: _ :: _ :: APath d :: _ =>
            (deliver [(d ++ [release_prefix toy_tag; text "rust-xhttp"], [21]); (d ++ [release_prefix toy_tag; text "rust-xhttpctl"], [22])] m, Some (true, []))
        | _ => (m, Some (true, []))
        end
  | _ => (m, Some (true, []))
  end.

#[local] Instance toy_host : Host := {|
  shell := fun _ => toy_programs; typed := fun _ => Some []; is_root_user := true; is_linux := true; is_x86_64 := true;
  unix_time := fun _ => 0; editor := Tool "vi"; executable := [] |}.

#[local] Instance update_sha : Sha256 := {|
  sha_state := Z; sha_new := 0; sha_update := fun s b => s + foldr Z.add 0 b; sha_finalize := fun s => replicate 31 0 ++ [s mod 256] |}.

Definition toy_system : files :=
  <[server_binary system := File [11] (octal 7 5 5)]> (<[ctl_binary system := File [12] (octal 7 5 5)]> (<[bin_dir system := Dir (octal 7 5 5)]>
  (<[[] := Dir (octal 7 5 5)]> ∅))).

Definition toy_pair (c : bytes) : bytes := if bytes_eqb c (text "rust-xhttp") then [11] else [12].

Lemma deliver_agree l m : agree (fun q => deliverable q = true) m (deliver l m).
Proof.
  revert m. induction l as [|[p b] l IH]; intros m; cbn [deliver]; [apply agree_refl|].
  destruct (deliverable p) eqn:E; [|apply IH]. eapply agree_trans; [by apply agree_insert|apply IH].
Qed.

Lemma deliverable_apart q : deliverable q = true -> apart system q.
Proof.
  intros Hq [[-> |(c & _ & ->)]|(x & r & ->)]; [done|done|]. change (manager_dir system) with (text <$> ["var"; "lib"; "rust-xhttp-manager"]%string) in Hq.
  cbn in Hq. by destruct r as [|? [|? [|? ?]]].
Qed.

#[local] Instance toy_tame : TameHost system.
Proof.
  split.
  - intros t c m. change (agree (apart system) m (toy_programs c m).1).
    assert (forall l, agree (apart system) m (deliver l m)) as Hd by (intros l; eapply agree_weaken; [apply deliverable_apart|apply deliver_agree]).
    destruct c as [[name|p] l]; cbn [toy_programs].
    + case_bool_decide; repeat (case_match; try apply agree_refl); apply Hd.
    + repeat (case_match; try apply agree_refl).
  - intros t p m. done.
Qed.

Lemma update_transactional_witness :
  exists w', update system (Some toy_tag) true (mk_world toy_system [] 0) = (w', Ok tt) /\
    fs w' !! server_binary system = Some (File [21] (octal 7 5 5)) /\ pair_at (fs w') (rollback_dir system) toy_pair.
Proof.
  pose proof (update_transactional system (Some toy_tag) true toy_pair (mk_world toy_system [] 0) toy_tame) as Ht.
  assert (is_dir toy_system (bin_dir system) = true) as Hd by (vm_compute; reflexivity).
  assert (pair_at toy_system (bin_dir system) toy_pair) as Hp by (intros c [-> | ->]; exists (octal 7 5 5); vm_compute; reflexivity).
  specialize (Ht Hd Hp).
  assert ((let '(w, r) := update system (Some toy_tag) true (mk_world toy_system [] 0) in (r, fs w !! server_binary system))
          = (Ok tt, Some (File [21] (octal 7 5 5)))) as Hrun by (vm_compute; reflexivity).
  destruct (update _ _ _ _) as [w' r]. injection Hrun as -> Hs. exists w'. split; [done|]. split; [done|].
  destruct Ht as (new & _ & [Ho|(_ & Ho & _)]); [|done].
  destruct (Ho (text "rust-xhttp") ltac:(by left)) as [md Hm]. rewrite <- server_binary_snoc, Hs in Hm. discriminate Hm.
Defined.

Definition toy_saved : files :=
  <[rollback_dir system ++ [text "rust-xhttp"] := File [1] (octal 7 0 0)]> (<[rollback_dir system ++ [text "rust-xhttpctl"] := File [2] (octal 7 0 0)]>
  (<[rollback_dir system := Dir (octal 7 0 0)]> (<[manager_dir system := Dir (octal 7 0 0)]> toy_system))).
Definition toy_previous (c : bytes) : bytes := if bytes_eqb c (text "rust-xhttp") then [1] else [2].

Lemma rollback_exchanges_witness :
  exists w', rollback system (mk_world toy_saved [] 0) = (w', Ok tt) /\
    installed system toy_previous (fs w') /\ pair_at (fs w') (rollback_dir system) toy_pair.
Proof.
  pose proof (rollback_exchanges system toy_pair toy_previous (mk_world toy_saved [] 0) toy_tame) as Ht.
  assert (is_dir toy_saved (bin_dir system) = true) as Hd by (vm_compute; reflexivity).
  assert (pair_at toy_saved (bin_dir system) toy_pair) as Hp by (intros c [-> | ->]; exists (octal 7 5 5); vm_compute; reflexivity).
  assert (pair_at toy_saved (rollback_dir system) toy_previous) as Hr by (intros c [-> | ->]; exists (octal 7 0 0); vm_compute; reflexivity).
  specialize (Ht Hd Hp Hr).
  assert ((rollback system (mk_world toy_saved [] 0)).2 = Ok tt) as Hrun by (vm_compute; reflexivity).
  destruct (rollback _ _) as [w' r]. cbn [snd] in Hrun. subst r. exists w'. split; [done|]. by destruct Ht as [_ Ho].
Defined.
