(* ===== verification/Install.v ===== *)
(** [src/management.rs]: the installation with its wizard (whose guarantees are in
    [Wizard]), editing the configuration,
    repair, uninstallation, diagnosis and the command line of [rust-xhttpctl].

    The answers of the wizard become a JSON value; its text is printed and read by
    serde_json, classes of the file [Json]. *)

From S2P Require Import Prelude Header Site Config Json TlsCert Files Release Runtime Manage Update.

Section install.
Context `{Machine} `{Host} `{JsonText} `{UuidText} `{SiteFormat} `{Blake3} `{Ring} `{Base64Url} `{Sha256}.
Context (cwd : path).
(** The text of [ops/systemd/rust-xhttp.service]. *)
Context (systemd_unit : bytes).

#[local] Existing Instance text_reader.

Local Abbreviation validate_config_file := (validate_config_file cwd).

(** * The wizard *)

Record GeneratedConfig := mk_GeneratedConfig {
  g_source : bytes; g_host : bytes; g_port : Z; g_uuid : bytes; g_path : bytes; g_security : bytes;
  g_manual_tls : option (path * path); g_dist_source : option path }.

Definition random_uuid_text : fm bytes := fun w => (mk_world (fs w) (past w) (S (tick w)), Ok (random_uuid (draw (tick w) 16))).

Definition xhttp_json (p host : bytes) : json :=
  jobject [("path", JString p); ("host", JString host); ("scMaxEachPostBytes", JNumber 1000000); ("scMaxBufferedPosts", JNumber 30);
           ("sessionGraceSeconds", JNumber 30); ("noSSEHeader", JBool false); ("serverMaxHeaderBytes", JNumber 8192);
           ("xPaddingBytes", jtext "100-1000"); ("uplinkDataPlacement", jtext "body"); ("uplinkDataKey", jtext "")]%string.

Definition stream_json (plain : bool) (p host : bytes) : json :=
  jobject [("network", jtext "xhttp"); ("security", jtext (if plain then "none" else "tls")%string); ("xhttpSettings", xhttp_json p host)]%string.

Definition alpn_json : json := JArray [jtext "h2"; jtext "http/1.1"].

Definition acme_json (host contact : bytes) : json :=
  jobject [("alpn", alpn_json);
           ("acme", jobject [("domains", JArray [JString host]); ("email", JString contact);
                             ("directoryUrl", jtext "https://acme-v02.api.letsencrypt.org/directory"); ("challengeListen", jtext "0.0.0.0:80");
                             ("cacheDir", jtext "/var/lib/rust-xhttp/acme"); ("renewBeforeDays", JNumber 30); ("renewCheckHours", JNumber 12);
                             ("acceptTerms", JBool true)])]%string.

Definition manual_json : json :=
  jobject [("alpn", alpn_json);
           ("certificates", JArray [jobject [("certificateFile", jtext "/etc/rust-xhttp/tls/fullchain.pem");
                                             ("keyFile", jtext "/etc/rust-xhttp/tls/privkey.pem")]])]%string.

Definition directory_json : json :=
  jobject [("mode", jtext "directory"); ("dist", jtext "/var/lib/rust-xhttp/site"); ("index", jtext "index.html");
           ("maxFileBytes", JNumber 8388608); ("maxTotalBytes", JNumber 134217728)]%string.

Definition builtin_json (host title author description language : bytes) : json :=
  jobject [("mode", jtext "builtin"); ("index", jtext "index.html"); ("maxFileBytes", JNumber 8388608); ("maxTotalBytes", JNumber 134217728);
           ("site", jobject [("seed", JString host); ("title", JString title); ("author", JString author);
                             ("description", JString description); ("language", JString language)])]%string.

Definition server_json : json :=
  jobject [("workers", JNumber 0); ("tcpNodelay", JBool true); ("reusePort", JBool true); ("backlog", JNumber 4096);
           ("tcpKeepaliveSeconds", JNumber 300); ("gracefulShutdownSeconds", JNumber 30);
           ("limits", jobject [("maxSessions", JNumber 65536); ("maxPendingPacketsPerSession", JNumber 30);
                               ("maxPendingBytesPerSession", JNumber 16777216); ("globalBufferBytes", JNumber 1073741824);
                               ("maxConcurrentTargetConns", JNumber 100000); ("handshakeTimeoutSeconds", JNumber 10);
                               ("targetConnectSeconds", JNumber 10); ("udpAssociationIdleSeconds", JNumber 60)])]%string.

Definition client_json (uuid email : bytes) (vision : bool) : json :=
  jobject [("id", JString uuid); ("email", JString email); ("flow", jtext (if vision then "xtls-rprx-vision" else ""))]%string.

Definition settings_json (client : json) : json := jobject [("clients", JArray [client]); ("decryption", jtext "none")]%string.

Definition inbound_json (listen : bytes) (port : Z) (settings stream : json) : json :=
  jobject [("tag", jtext "vless-xhttp-in"); ("listen", JString listen); ("port", JNumber port); ("protocol", jtext "vless");
           ("settings", settings); ("streamSettings", stream)]%string.

Definition config_json (inbound fallback : json) : json :=
  jobject [("log", jobject [("loglevel", jtext "info")]); ("inbounds", JArray [inbound]); ("server", server_json); ("fallback", fallback)]%string.

(** The slashes the wizard adds. *)
Definition slashed (p : bytes) : bytes :=
  let p := if negb (starts_with [47] p) then 47 :: p else p in if negb (ends_with [47] p) then p ++ [47] else p.

(** The TLS part of the stream, and the files to install. *)
Definition wizard_tls (mode host : bytes) (stream : json) : fm (json * option (path * path)) :=
  if bytes_eqb mode (text "1") then
    contact ← required_prompt None;
    mret (jinsert "tlsSettings" (acme_json host contact) stream, None)
  else if bytes_eqb mode (text "2") then
    cert ← required_prompt None; key ← required_prompt None;
    let '(cert, key) := (locate cwd cert, locate cwd key) in
    present ← look (fun m => is_file m cert && is_file m key);
    if negb present then message "certificate and private key must be existing files"
    else mret (jinsert "tlsSettings" manual_json stream, Some (cert, key))
  else mret (stream, None).

Definition wizard_fallback (host : bytes) : fm (json * option path) :=
  use_dist ← confirm false;
  if use_dist : bool then
    source ← required_prompt None;
    let source := locate cwd source in
    present ← look (fun m => is_dir m source);
    if negb present then message "is not a directory" else mret (directory_json, Some source)
  else
    language ← prompt (Some (text "en"));
    title ← prompt (Some []); author ← prompt (Some []); description ← prompt (Some []);
    mret (builtin_json host title author description language, None).

Definition interactive_config : fm GeneratedConfig :=
  mode ← prompt (Some (text "1"));
  if negb (existsb (bytes_eqb mode) [text "1"; text "2"; text "3"]) then message "TLS mode must be 1, 2, or 3"
  else
    let plain := bytes_eqb mode (text "3") in
    host ← required_prompt None;
    port ← prompt (Some (text (if plain then "8080" else "443")%string));
    match parse_uint 65535 port with
    | None => message "listen port must be an integer from 1 to 65535"
    | Some port =>
        if port =? 0 then message "listen port must not be zero"
        else
          listen ← prompt (Some (text (if plain then "127.0.0.1" else "0.0.0.0")%string));
          random ← random_uuid_text;
          uuid ← prompt (Some random);
          r ← random_hex 8;
          p ← prompt (Some ([47] ++ r ++ [47]));
          let p := slashed p in
          email ← prompt (Some (text "primary"));
          vision ← confirm false;
          tls ← wizard_tls mode host (stream_json plain p host);
          fallback ← wizard_fallback host;
          let source := to_string_pretty (config_json (inbound_json listen port (settings_json (client_json uuid email vision)) tls.1) fallback.1) ++ [10] in
          _ ← validate_config_source source;
          mret (mk_GeneratedConfig source host port uuid p (text (if plain then "none (TLS proxy)" else "tls")%string) tls.2 fallback.2)
    end.

(** * [install] *)

Record InstallOptions := mk_InstallOptions {
  o_server_binary : path; o_ctl_binary : path; o_config_source : option path; o_layout : Layout; assume_yes : bool; no_start : bool }.

Definition select_config (o : InstallOptions) : fm (bytes * option GeneratedConfig) :=
  match o_config_source o with
  | Some source =>
      source ← fs_read_to_string source; _ ← validate_config_source source; mret (source, None)
  | None =>
      installed ← look (fun m => is_file m (config (o_layout o)));
      reuse ← (if installed : bool then if assume_yes o then mret true else confirm true else mret false);
      if reuse : bool then source ← fs_read_to_string (config (o_layout o)); mret (source, None)
      else g ← interactive_config; mret (g_source g, Some g)
  end.

(** The certificate files and the site of the wizard. *)
Definition install_resources (L : Layout) (g : option GeneratedConfig) : fm (list FileRollback * option SiteRollback) :=
  match g with
  | None => mret ([], None)
  | Some g =>
      files ← match g_manual_tls g with Some (c, k) => install_manual_tls L c k | None => mret [] end;
      match g_dist_source g with
      | Some source =>
          r ← attempt (install_site L source);
          match r with
          | Ok s => mret (files, Some s)
          | Err e => _ ← restore_resources files None; throw e
          end
      | None => mret (files, None)
      end
  end.

(** The new configuration is written beside the old one, checked, and moved over it. *)
Definition install_config (L : Layout) (source : bytes) (files : list FileRollback) (site : option SiteRollback) : fm unit :=
  candidate ← unique_path (config_dir L) (text ".config.candidate");
  _ ← or_restore (atomic_write candidate source (octal 6 4 0)) files site;
  r ← attempt (validate_config_file candidate);
  match r with
  | Err e => _ ← ignore (fs_remove_file candidate); _ ← restore_resources files site; throw e
  | Ok _ =>
      present ← look (fun m => is_present m (config L));
      _ ← (if present : bool then _ ← backup_config L (config L); mret tt else mret tt);
      _ ← fs_rename candidate (config L);
      sync_directory (config_dir L)
  end.

Definition daemon_reload : command := systemctl ["daemon-reload"]%string.

Definition activate_install (o : InstallOptions) : fm unit :=
  let L := o_layout o in
  if is_system L then
    _ ← apply_ownership L;
    _ ← validate_config_file (config L);
    _ ← run_checked daemon_reload;
    if negb (no_start o) then
      _ ← run_checked (systemctl ["enable"; SERVICE]%string); _ ← run_checked restart_service; run_checked service_is_active
    else mret tt
  else validate_config_file (config L).

Definition install (o : InstallOptions) : fm unit :=
  let L := o_layout o in
  _ ← ensure_supported_platform;
  _ ← (if is_system L then require_root else mret tt);
  _ ← verify_binary (o_server_binary o) "rust-xhttp";
  _ ← verify_binary (o_ctl_binary o) "rust-xhttpctl";
  _ ← require_matching_versions (o_server_binary o) (o_ctl_binary o) None;
  _ ← (if is_system L then ensure_system_user else mret tt);
  _ ← prepare_directories L;
  selected ← select_config o;
  _ ← validate_config_source selected.1;
  resources ← install_resources L selected.2;
  _ ← install_config L selected.1 resources.1 resources.2;
  _ ← install_binaries L (o_server_binary o) (o_ctl_binary o);
  _ ← atomic_write (unit_file L) systemd_unit (octal 6 4 4);
  activate_install o.

(** * [edit] *)

Definition restart_failed : string := "restart failed; restored".

Definition edit_config (L : Layout) : fm unit :=
  _ ← validate_config_file (config L);
  temporary ← unique_path (config_dir L) (text ".config.edit");
  _ ← fs_copy (config L) temporary;
  _ ← fs_set_permissions temporary (octal 6 0 0);
  status ← start (mk_command editor [APath temporary]);
  match status with
  | None => throw (FIo NotFound)
  | Some (false, _) => _ ← ignore (fs_remove_file temporary); message "editor exited with a failure"
  | Some (true, _) =>
      r ← attempt (validate_config_file temporary);
      match r with
      | Err _ => _ ← ignore (fs_remove_file temporary); message "edited config is invalid; installed config was not changed"
      | Ok _ =>
          backup ← backup_config L (config L);
          _ ← fs_rename temporary (config L);
          _ ← fs_set_permissions (config L) (octal 6 4 0);
          _ ← sync_directory (config_dir L);
          _ ← apply_ownership L;
          r ← attempt (run_checked restart_service);
          match r with
          | Ok _ => mret tt
          | Err _ =>
              _ ← copy_atomic backup (config L) (octal 6 4 0);
              _ ← apply_ownership L;
              _ ← ignore (run_checked restart_service);
              message restart_failed
          end
      end
  end.

(** * [repair] and [uninstall] *)

Definition repair (L : Layout) (restart : bool) : fm unit :=
  _ ← ensure_system_user;
  _ ← prepare_directories L;
  _ ← validate_config_file (config L);
  _ ← verify_binary (server_binary L) "rust-xhttp";
  _ ← verify_binary (ctl_binary L) "rust-xhttpctl";
  _ ← atomic_write (unit_file L) systemd_unit (octal 6 4 4);
  _ ← apply_ownership L;
  _ ← run_checked daemon_reload;
  _ ← run_checked (systemctl ["enable"; SERVICE]%string);
  if restart then run_checked restart_service else mret tt.

Definition uninstall (L : Layout) (purge yes : bool) : fm unit :=
  agreed ← (if yes then mret true else confirm false);
  if negb agreed then mret tt
  else
    _ ← start (systemctl ["disable"; "--now"; SERVICE]%string);
    _ ← remove_file_if_present (unit_file L);
    _ ← start daemon_reload;
    _ ← start (systemctl ["reset-failed"; SERVICE]%string);
    _ ← remove_file_if_present (server_binary L);
    _ ← remove_file_if_present (ctl_binary L);
    if purge then
      _ ← remove_directory_if_present (config_dir L);
      _ ← remove_directory_if_present (state_dir L);
      _ ← remove_directory_if_present (manager_dir L);
      _ ← start (tool "userdel" [SERVICE_USER]);
      _ ← start (tool "groupdel" [SERVICE_USER]);
      mret tt
    else mret tt.

(** * [doctor] *)

Definition path_valid (m : files) (p : path) (executable : bool) : bool :=
  match m !! p with Some (File _ mode) => negb executable || negb (Z.land mode (octal 1 1 1) =? 0) | _ => false end.

(** A check counts one failure or none. *)
Definition check_path (p : path) (executable : bool) : fm Z := look (fun m => if path_valid m p executable then 0 else 1).
Definition check_command (c : command) : fm Z := ok ← succeeds c; mret (if ok : bool then 0 else 1).

Definition is_enabled : command := systemctl ["is-enabled"; SERVICE]%string.
Definition is_active : command := systemctl ["is-active"; SERVICE]%string.

Definition doctor (L : Layout) : fm unit :=
  a ← check_path (server_binary L) true;
  b ← check_path (ctl_binary L) true;
  c ← check_path (config L) false;
  d ← check_path (unit_file L) false;
  present ← look (fun m => is_file m (config L));
  e ← (if present : bool then r ← attempt (validate_config_file (config L)); mret (match r with Ok _ => 0 | Err _ => 1 end) else mret 0);
  f ← check_command is_enabled;
  g ← check_command is_active;
  if a + b + c + d + e + f + g =? 0 then mret tt else message "installation check(s) failed".

(** * The command line *)

Definition is_word (b : bytes) (l : list string) : bool := existsb (fun s => bytes_eqb b (text s)) l.

Definition service_action (action : bytes) : fm unit :=
  if is_word action ["status"]%string then run_checked (systemctl ["status"; "--no-pager"; "--full"; SERVICE]%string)
  else if is_word action ["logs"]%string then run_checked (tool "journalctl" ["--unit"; SERVICE; "--lines"; "100"; "--follow"]%string)
  else if is_word action ["start"; "stop"; "restart"; "enable"; "disable"]%string then
    _ ← require_root;
    run_checked (mk_command (Tool "systemctl") [AText action; AText (text SERVICE)])
  else message "unsupported service action".

Definition service_command (arguments : list bytes) : fm unit :=
  match arguments with [a] => service_action a | _ => message "usage: rust-xhttpctl service" end.

Definition repair_command (arguments : list bytes) : fm unit :=
  match arguments with
  | [] => _ ← require_root; repair system true
  | [flag] =>
      if is_word flag ["--no-restart"]%string then _ ← require_root; repair system false
      else if is_word flag ["--help"; "-h"]%string then mret tt
      else message "usage: rust-xhttpctl repair [--no-restart]"
  | _ => message "usage: rust-xhttpctl repair [--no-restart]"
  end.

(** The loop over the arguments; [k] is what follows it. *)
Fixpoint update_arguments (l : list bytes) (t : option bytes) (force : bool) (k : option bytes -> bool -> fm unit) : fm unit :=
  match l with
  | [] => k t force
  | a :: l' =>
      if is_word a ["--force"]%string then update_arguments l' t true k
      else if is_word a ["--help"; "-h"]%string then mret tt
      else match t with None => update_arguments l' (Some a) force k | Some _ => message "unexpected update argument" end
  end.

Definition update_command (arguments : list bytes) : fm unit :=
  update_arguments arguments None false (fun t force => _ ← require_root; update system t force).

Fixpoint uninstall_arguments (l : list bytes) (purge yes : bool) (k : bool -> bool -> fm unit) : fm unit :=
  match l with
  | [] => k purge yes
  | a :: l' =>
      if is_word a ["--purge"]%string then uninstall_arguments l' true yes k
      else if is_word a ["--yes"; "-y"]%string then uninstall_arguments l' purge true k
      else if is_word a ["--help"; "-h"]%string then mret tt
      else message "unknown uninstall option"
  end.

Definition uninstall_command (arguments : list bytes) : fm unit :=
  uninstall_arguments arguments false false (fun purge yes => _ ← require_root; uninstall system purge yes).

(** [None]: the help was printed and the process left. *)
Fixpoint install_arguments (l : list bytes) (o : InstallOptions) : fm (option InstallOptions) :=
  match l with
  | [] => mret (Some o)
  | a :: l' =>
      let with_path (f : path -> fm InstallOptions) :=
        match l' with p :: l'' => o ← f (locate cwd p); install_arguments l'' o | [] => message "requires a path" end in
      if is_word a ["--server-binary"]%string then
        with_path (fun p => mret (mk_InstallOptions p (o_ctl_binary o) (o_config_source o) (o_layout o) (assume_yes o) (no_start o)))
      else if is_word a ["--ctl-binary"]%string then
        with_path (fun p => mret (mk_InstallOptions (o_server_binary o) p (o_config_source o) (o_layout o) (assume_yes o) (no_start o)))
      else if is_word a ["--config"]%string then
        with_path (fun p => mret (mk_InstallOptions (o_server_binary o) (o_ctl_binary o) (Some p) (o_layout o) (assume_yes o) (no_start o)))
      else if is_word a ["--root"]%string then
        with_path (fun p =>
          if starts_with [47] (default [] (head l'))
          then mret (mk_InstallOptions (o_server_binary o) (o_ctl_binary o) (o_config_source o) (mk_Layout p) (assume_yes o) (no_start o))
          else message "--root must be an absolute path")
      else if is_word a ["--yes"; "-y"]%string then
        install_arguments l' (mk_InstallOptions (o_server_binary o) (o_ctl_binary o) (o_config_source o) (o_layout o) true (no_start o))
      else if is_word a ["--no-start"]%string then
        install_arguments l' (mk_InstallOptions (o_server_binary o) (o_ctl_binary o) (o_config_source o) (o_layout o) (assume_yes o) true)
      else if is_word a ["--help"; "-h"]%string then mret None
      else message "unknown install option"
  end.

Definition parse_install_options (arguments : list bytes) : fm (option InstallOptions) :=
  let sibling_server := default cwd (parent executable) ++ [text "rust-xhttp"] in
  options ← install_arguments arguments (mk_InstallOptions sibling_server executable None system false false);
  match options with
  | None => mret None
  | Some o =>
      installed ← look (fun m => is_file m (config (o_layout o)));
      if assume_yes o && (match o_config_source o with None => true | _ => false end) && negb installed
      then message "--yes requires --config unless an installed config already exists"
      else if negb (is_system (o_layout o)) && negb (no_start o) then message "--root requires --no-start"
      else mret (Some o)
  end.

(** The menu; [rounds] questions are answered at most, and [false] says that it goes on. *)
Fixpoint interactive_manage (rounds : nat) : fm bool :=
  match rounds with
  | O => mret false
  | S rounds' =>
      choice ← prompt (Some (text "1"));
      let again (m : fm unit) := _ ← m; interactive_manage rounds' in
      if is_word choice ["1"]%string then again (service_action (text "status"))
      else if is_word choice ["2"]%string then again (service_action (text "logs"))
      else if is_word choice ["3"]%string then again (doctor system)
      else if is_word choice ["4"]%string then again (_ ← require_root; edit_config system)
      else if is_word choice ["5"]%string then again (service_action (text "restart"))
      else if is_word choice ["6"]%string then again (service_action (text "start"))
      else if is_word choice ["7"]%string then again (service_action (text "stop"))
      else if is_word choice ["8"]%string then again (_ ← require_root; update system None false)
      else if is_word choice ["9"]%string then again (_ ← require_root; rollback system)
      else if is_word choice ["10"]%string then again (_ ← require_root; repair system true)
      else if is_word choice ["11"]%string then _ ← require_root; _ ← uninstall system false false; mret true
      else if is_word choice ["0"]%string then mret true
      else interactive_manage rounds'
  end.

Definition reject_arguments (arguments : list bytes) : fm unit := match arguments with [] => mret tt | _ => message "unexpected arguments" end.

Definition run (rounds : nat) (arguments : list bytes) : fm unit :=
  match arguments with
  | [] => mret tt
  | c :: rest =>
      if is_word c ["-h"; "--help"; "help"; "-V"; "--version"; "version"]%string then mret tt
      else if is_word c ["install"]%string then
        o ← parse_install_options rest; match o with Some o => install o | None => mret tt end
      else if is_word c ["manage"]%string then _ ← reject_arguments rest; _ ← interactive_manage rounds; mret tt
      else if is_word c ["service"]%string then service_command rest
      else if is_word c ["status"]%string then _ ← reject_arguments rest; service_action (text "status")
      else if is_word c ["logs"]%string then _ ← reject_arguments rest; service_action (text "logs")
      else if is_word c ["doctor"]%string then _ ← reject_arguments rest; doctor system
      else if is_word c ["edit"]%string then _ ← reject_arguments rest; _ ← require_root; edit_config system
      else if is_word c ["update"]%string then update_command rest
      else if is_word c ["rollback"]%string then _ ← reject_arguments rest; _ ← require_root; rollback system
      else if is_word c ["repair"]%string then repair_command rest
      else if is_word c ["uninstall"]%string then uninstall_command rest
      else message "unknown command"
  end.
End install.
