(* ===== verification/Wizard.v ===== *)
(** The configuration the wizard of [rust-xhttpctl install] writes ([src/management.rs]).

    The text is read back with the reader of [Json] and the checks of [Config]; the theorem
    ties every part of the result to the line that was typed for it. *)

From S2P Require Import Prelude Header Site Config Json TlsCert Files Release Runtime Manage Update Install.

(** * The wizard's configuration *)

Section wizard.
Context `{Machine} `{Host} `{JsonText} `{!JsonTextLaws} `{UuidText} (cwd : path).

#[local] Existing Instance text_reader.

Definition read_xhttp (p host : bytes) : xhttp_settings :=
  mk_xhttp_settings p host 1000000 30 30 false 8192 (text "100-1000") Body [].

Definition read_acme (host contact : bytes) : acme_config :=
  mk_acme_config [host] contact default_acme_directory None default_acme_challenge_listen default_acme_cache_dir 30 12 true.

Definition read_manual : tls_certificate :=
  mk_tls_certificate (text "/etc/rust-xhttp/tls/fullchain.pem") (text "/etc/rust-xhttp/tls/privkey.pem").

(** What each choice of the wizard means. *)
Inductive wizard_mode : Type := Automatic (contact : bytes) | Manual (cert key : path) | Proxied.

Definition mode_stream (m : wizard_mode) (p host : bytes) : json :=
  match m with
  | Automatic contact => jinsert "tlsSettings" (acme_json host contact) (stream_json false p host)
  | Manual _ _ => jinsert "tlsSettings" manual_json (stream_json false p host)
  | Proxied => stream_json true p host
  end.

Definition mode_tls (m : wizard_mode) (host : bytes) : option tls_settings :=
  match m with
  | Automatic contact => Some (mk_tls_settings default_alpn [] (Some (read_acme host contact)))
  | Manual _ _ => Some (mk_tls_settings default_alpn [read_manual] None)
  | Proxied => None
  end.

Lemma mode_stream_read m p host : canonical (mode_stream m p host) = true /\
  de_stream (mode_stream m p host) =
  Some (mk_stream_settings (text "xhttp") (text (match m with Proxied => "none" | _ => "tls" end)%string) (mode_tls m host) (read_xhttp p host)).
Proof. destruct m; (split; [vm_compute; reflexivity|reflexivity]). Qed.

Inductive wizard_site : Type := Existing (source : path) | Blog (title author description language : bytes).

Definition site_json (s : wizard_site) (host : bytes) : json :=
  match s with Existing _ => directory_json | Blog t a d l => builtin_json host t a d l end.

Definition site_read (s : wizard_site) (host : bytes) : fallback_config :=
  match s with
  | Existing _ => mk_fallback_config Directory (Some (text "/var/lib/rust-xhttp/site")) (text "index.html") None 8388608 134217728 (mk_site_config [] [] [] [] [])
  | Blog t a d l => mk_fallback_config Builtin None (text "index.html") None 8388608 134217728 (mk_site_config host t a d l)
  end.

Lemma site_json_read s host : canonical (site_json s host) = true /\ de_fallback (site_json s host) = Some (site_read s host).
Proof. destruct s; (split; [vm_compute; reflexivity|reflexivity]). Qed.

Lemma server_json_read : de_server server_json = Some server_default.
Proof. vm_compute. reflexivity. Qed.

Lemma de_user_fields v uuid email flow :
  fields ["id"; "email"; "flow"]%string v = Some v -> jget "id" v = Some (JString uuid) -> jget "email" v = Some (JString email) ->
  jget "flow" v = Some (JString flow) -> de_user v = (id ← uuid_of_text uuid; mret (mk_user_config id email flow)).
Proof.
  intros Hf H1' H2' H3'. unfold de_user. rewrite Hf. cbn [mbind option_bind]. unfold required, optional. rewrite H1', H2', H3'. done.
Qed.

Lemma de_settings_fields v c d u :
  fields ["clients"; "users"; "decryption"]%string v = Some v -> jget "clients" v = Some (JArray [c]) -> jget "users" v = None ->
  jget "decryption" v = Some (JString d) -> de_user c = u -> de_settings v = (u ← u; mret ([u], d)).
Proof.
  intros Hf H1' H2' H3' Hu. unfold de_settings. rewrite Hf. cbn [mbind option_bind]. unfold required, optional. rewrite H1', H2', H3'.
  cbn [de_vec de_all]. rewrite Hu. by destruct u.
Qed.

Lemma de_inbound_fields v tag listen port protocol settings stream st :
  fields ["tag"; "listen"; "port"; "protocol"; "settings"; "streamSettings"]%string v = Some v ->
  jget "tag" v = Some (JString tag) -> jget "listen" v = Some (JString listen) -> jget "port" v = Some (JNumber port) ->
  jget "protocol" v = Some (JString protocol) -> jget "settings" v = Some settings -> jget "streamSettings" v = Some stream ->
  0 <= port <= 65535 -> de_stream stream = Some st ->
  de_inbound v = (ip ← parse_ip_addr listen; u ← de_settings settings; mret (mk_inbound_config tag ip port protocol u.1 u.2 st)).
Proof.
  intros Hf H1' H2' H3' H4' H5' H6' Hp Hs. unfold de_inbound. rewrite Hf. cbn [mbind option_bind]. unfold required, optional.
  rewrite H1', H2', H3', H4', H5', H6'. cbn [de_string mbind option_bind]. destruct (parse_ip_addr listen) as [ip|]; [|done].
  cbn [mbind option_bind]. assert (de_u16 (JNumber port) = Some port) as ->.
  { unfold de_u16, de_range. destruct (Z.leb_spec 0 port), (Z.leb_spec port 65535); [done|lia..]. }
  cbn [mbind option_bind]. destruct (de_settings settings); [|done]. cbn [mbind option_bind]. by rewrite Hs.
Qed.

Lemma de_config_fields v log i server fallback sv fb :
  fields ["log"; "inbounds"; "server"; "fallback"]%string v = Some v ->
  (exists l, jget "log" v = Some l /\ de_log l = Some log) -> jget "inbounds" v = Some (JArray [i]) -> jget "server" v = Some server ->
  jget "fallback" v = Some fallback -> de_server server = Some sv -> de_fallback fallback = Some fb ->
  de_config v = (i ← de_inbound i; mret (mk_json_config log [i] sv fb)).
Proof.
  intros Hf (l & H1' & Hl) H2' H3' H4' Hs Hb. unfold de_config. rewrite Hf. cbn [mbind option_bind]. unfold required, optional.
  rewrite H1', H2', H3', H4', Hl, Hs, Hb. cbn [mbind option_bind de_vec de_all]. by destruct (de_inbound i).
Qed.

Section value.
Context (listen : bytes) (port : Z) (uuid email : bytes) (vision : bool) (stream fallback : json).

Definition wizard_json : json := config_json (inbound_json listen port (settings_json (client_json uuid email vision)) stream) fallback.

Lemma wizard_json_canonical :
  canonical stream = true -> canonical fallback = true -> 0 <= port <= 65535 -> canonical wizard_json = true.
Proof.
  intros Hc Hcf Hp. assert (canonical (JNumber port) = true) as Hn by (cbn; unfold u64_max; split_bool; lia).
  assert (canonical (inbound_json listen port (settings_json (client_json uuid email vision)) stream) = true) as Hi.
  { apply jobject_canonical. cbn [forallb snd]. rewrite Hn, Hc. destruct vision; reflexivity. }
  apply jobject_canonical. cbn [forallb snd]. rewrite Hcf. set (i := inbound_json _ _ _ _) in *. clearbody i.
  assert (canonical (JArray [i]) = true) as -> by (cbn [canonical forallb]; by rewrite Hi). reflexivity.
Qed.

Lemma wizard_json_read st fb :
  de_stream stream = Some st -> de_fallback fallback = Some fb -> 0 <= port <= 65535 ->
  de_config wizard_json =
    (ip ← parse_ip_addr listen; id ← uuid_of_text uuid;
     mret (mk_json_config (text "info")
       [mk_inbound_config (text "vless-xhttp-in") ip port (text "vless")
          [mk_user_config id email (text (if vision then "xtls-rprx-vision" else "")%string)] (text "none") st] server_default fb)).
Proof.
  intros Hs Hf Hp. assert (de_user (client_json uuid email vision) =
    (id ← uuid_of_text uuid; mret (mk_user_config id email (text (if vision then "xtls-rprx-vision" else "")%string)))) as Hu
    by (apply de_user_fields; reflexivity).
  set (c := client_json uuid email vision) in *. assert (de_settings (settings_json c) = (u ← de_user c; mret ([u], text "none"))) as Hset
    by (eapply de_settings_fields; reflexivity).
  set (t := settings_json c) in *. set (i := inbound_json listen port t stream).
  assert (de_inbound i = (ip ← parse_ip_addr listen; u ← de_settings t; mret (mk_inbound_config (text "vless-xhttp-in") ip port (text "vless") u.1 u.2 st))) as Hi
    by (eapply de_inbound_fields; first [exact Hp|exact Hs|reflexivity]).
  unfold wizard_json. fold c t i.
  assert (de_config (config_json i fallback) = (i ← de_inbound i; mret (mk_json_config (text "info") [i] server_default fb))) as ->
    by (eapply de_config_fields; first [exact Hf|apply server_json_read|reflexivity|by eexists]).
  rewrite Hi, Hset, Hu. destruct (parse_ip_addr listen); [|done]. by destruct (uuid_of_text uuid).
Qed.
End value.

(** ** The answers *)

(** The line typed at [t] was read as [a]: trimmed, or what is suggested when nothing is left. *)
Definition asked (t : nat) (suggested a : bytes) : Prop :=
  exists line, typed t = Some line /\ a = match trim line with [] => suggested | b :: l => b :: l end.

(** The question at [t] whose suggested answer is no. *)
Definition agrees (t : nat) (b : bool) : Prop :=
  exists a, asked t [] a /\
    if b then to_ascii_lowercase a = text "y" \/ to_ascii_lowercase a = text "yes"
    else a = [] \/ to_ascii_lowercase a = text "n" \/ to_ascii_lowercase a = text "no".

(** The TLS mode by its number, with the questions from [t] on and the one after them. *)
Inductive mode_asked (t : nat) : bytes -> wizard_mode -> nat -> Prop :=
| asked_acme contact : asked t [] contact -> contact <> [] -> mode_asked t (text "1") (Automatic contact) (S t)
| asked_files c k : asked t [] c -> asked (S t) [] k -> c <> [] -> k <> [] ->
    mode_asked t (text "2") (Manual (locate cwd c) (locate cwd k)) (S (S t))
| asked_proxy : mode_asked t (text "3") Proxied t.

(** The site, with the questions from [t] on: language, title, author and description. *)
Inductive site_asked (t : nat) : wizard_site -> Prop :=
| asked_dist p : agrees t true -> asked (S t) [] p -> p <> [] -> site_asked t (Existing (locate cwd p))
| asked_blog title author description language :
    agrees t false -> asked (t + 1) (text "en") language -> asked (t + 2) [] title -> asked (t + 3) [] author ->
    asked (t + 4) [] description -> site_asked t (Blog title author description language).

(** [p] with the slashes it lacks at its ends. *)
Definition between_slashes (p q : bytes) : Prop :=
  exists pre post, q = pre ++ p ++ post /\
    (pre = [] /\ head p = Some 47 \/ pre = [47] /\ head p <> Some 47) /\
    (post = [] /\ list.last (pre ++ p) = Some 47 \/ post = [47] /\ list.last (pre ++ p) <> Some 47).

Lemma prompt_asked d w w' a : prompt d w = (w', Ok a) -> asked (tick w) (default [] d) a /\ tick w' = S (tick w).
Proof.
  unfold prompt, asked. destruct (typed (tick w)) as [line|]; [|done]. intros Hp. injection Hp as <- <-. split; [|done].
  exists line. by destruct (trim line).
Qed.

Lemma required_asked w w' a : required_prompt None w = (w', Ok a) -> asked (tick w) [] a /\ a <> [] /\ tick w' = S (tick w).
Proof.
  intros Hp. apply bind_ok_inv in Hp as (w1 & b & [Hb Ht]%prompt_asked & Hp). destruct b; [done|]. by injection Hp as <- <-.
Qed.

Lemma confirm_agrees w w' b : confirm false w = (w', Ok b) -> agrees (tick w) b /\ tick w' = S (tick w).
Proof.
  intros Hp. apply bind_ok_inv in Hp as (w1 & a & [Ha Ht]%prompt_asked & Hp). unfold agrees. destruct a as [|a0 a].
  - injection Hp as <- <-. split; [|done]. exists []. auto.
  - cbv zeta in Hp. destruct (bytes_eqb _ (text "y") || bytes_eqb _ (text "yes")) eqn:Ey.
    + injection Hp as <- <-. split; [|done]. exists (a0 :: a). split; [done|]. apply orb_true_iff in Ey as [Ey|Ey]; apply bytes_eqb_eq in Ey; auto.
    + destruct (bytes_eqb _ (text "n") || bytes_eqb _ (text "no")) eqn:En; [|done]. injection Hp as <- <-. split; [|done].
      exists (a0 :: a). split; [done|]. apply orb_true_iff in En as [En|En]; apply bytes_eqb_eq in En; auto.
Qed.

Lemma starts_slash p : starts_with [47] p = true <-> head p = Some 47.
Proof.
  unfold starts_with. destruct p as [|b p]; [done|]. cbn [strip_prefix head]. destruct (47 =? b) eqn:E; split_bool; [by subst|].
  split; [done|]. intros [= ->]. done.
Qed.

Lemma ends_slash p : ends_with [47] p = true <-> list.last p = Some 47.
Proof. unfold ends_with. change (rev [47]) with [47]. rewrite starts_slash, List.rev_alt. fold (reverse p). by rewrite head_reverse. Qed.

Lemma slashed_between p : between_slashes p (slashed p).
Proof.
  unfold slashed, between_slashes. destruct (starts_with [47] p) eqn:Es.
  - cbn [negb]. apply starts_slash in Es. exists []. destruct (ends_with [47] p) eqn:Ee; cbn [negb].
    + exists []. rewrite app_nil_r. apply ends_slash in Ee. auto.
    + exists [47]. split; [done|]. split; [by left|]. right. split; [done|]. cbn. rewrite <- ends_slash, Ee. done.
  - cbn [negb]. assert (head p <> Some 47) as Hn by (rewrite <- starts_slash, Es; done). exists [47].
    destruct (ends_with [47] (47 :: p)) eqn:Ee; cbn [negb].
    + exists []. rewrite app_nil_r. apply ends_slash in Ee. auto.
    + exists [47]. split; [done|]. split; [by right|]. right. split; [done|]. cbn [app]. rewrite <- ends_slash. by rewrite Ee.
Qed.

Lemma slashed_normal p : slashed p = normalize_path p.
Proof. by destruct p. Qed.

(** The files named in the configuration are the ones the installer writes. *)
Lemma certificate_locations :
  locate cwd (certificate_file read_manual) = config_dir system ++ [text "tls"; text "fullchain.pem"] /\
  locate cwd (key_file read_manual) = config_dir system ++ [text "tls"; text "privkey.pem"] /\
  locate cwd (text "/var/lib/rust-xhttp/site") = state_dir system ++ [text "site"].
Proof. by vm_compute. Qed.

Definition mode_files (m : wizard_mode) : option (path * path) := match m with Manual c k => Some (c, k) | _ => None end.
Definition site_source (s : wizard_site) : option path := match s with Existing p => Some p | _ => None end.

Definition mode_available (m : wizard_mode) (f : files) : Prop := match m with Manual c k => is_file f c = true /\ is_file f k = true | _ => True end.
Definition site_available (s : wizard_site) (f : files) : Prop := match s with Existing p => is_dir f p = true | _ => True end.

Lemma wizard_tls_ok mode p host w w' r :
  existsb (bytes_eqb mode) [text "1"; text "2"; text "3"] = true ->
  wizard_tls cwd mode host (stream_json (bytes_eqb mode (text "3")) p host) w = (w', Ok r) ->
  exists m, r = (mode_stream m p host, mode_files m) /\ mode_asked (tick w) mode m (tick w') /\ mode_available m (fs w') /\ fs w' = fs w.
Proof.
  intros Hm Ht. assert (fs w' = fs w) as Hfs.
  { eapply unchanged; [|exact Ht]. unfold wizard_tls. frame. }
  revert Ht. unfold wizard_tls. destruct (bytes_eqb mode (text "1")) eqn:E1.
  { apply bytes_eqb_eq in E1 as ->. intros Ht. apply bind_ok_inv in Ht as (w1 & c & (Hc & Hne & Hw)%required_asked & Ht).
    injection Ht as -> <-. exists (Automatic c). rewrite Hw. split; [done|]. by split; [constructor|]. }
  destruct (bytes_eqb mode (text "2")) eqn:E2.
  { apply bytes_eqb_eq in E2 as ->. intros Ht. apply bind_ok_inv in Ht as (w1 & c & (Hc & Hcn & Hw1)%required_asked & Ht).
    apply bind_ok_inv in Ht as (w2 & k & (Hk & Hkn & Hw2)%required_asked & Ht).
    apply bind_ok_inv in Ht as (w3 & b & H3' & Ht). injection H3' as <- Hb. destruct b; [|done]. injection Ht as -> <-.
    exists (Manual (locate cwd c) (locate cwd k)). split; [done|]. rewrite Hw1 in Hk, Hw2. rewrite Hw2.
    split; [by constructor|]. split; [|done]. by apply andb_prop in Hb. }
  destruct (bytes_eqb mode (text "3")) eqn:E3; [|cbn [existsb] in Hm; by rewrite E1, E2, E3 in Hm].
  apply bytes_eqb_eq in E3 as ->. intros Ht. injection Ht as -> <-. exists Proxied. split; [done|]. by split; [constructor|].
Qed.

Lemma wizard_fallback_ok host w w' r :
  wizard_fallback cwd host w = (w', Ok r) ->
  exists s, r = (site_json s host, site_source s) /\ site_asked (tick w) s /\ site_available s (fs w') /\ fs w' = fs w.
Proof.
  intros Ht. assert (fs w' = fs w) as Hfs.
  { eapply unchanged; [|exact Ht]. unfold wizard_fallback. frame. }
  revert Ht. unfold wizard_fallback. intros Ht. apply bind_ok_inv in Ht as (w1 & [|] & [Hd Hw1]%confirm_agrees & Ht).
  - apply bind_ok_inv in Ht as (w2 & p & (Hp & Hne & _)%required_asked & Ht). rewrite Hw1 in Hp.
    apply bind_ok_inv in Ht as (w3 & b & H3' & Ht). injection H3' as <- Hb. destruct b; [|done].
    injection Ht as -> <-. exists (Existing (locate cwd p)). split; [done|]. by split; [constructor|].
  - apply bind_ok_inv in Ht as (w2 & l & [Hl Hw2]%prompt_asked & Ht). apply bind_ok_inv in Ht as (w3 & t & [Htt Hw3]%prompt_asked & Ht).
    apply bind_ok_inv in Ht as (w4 & a & [Ha Hw4]%prompt_asked & Ht). apply bind_ok_inv in Ht as (w5 & d & [Hdd _]%prompt_asked & Ht).
    injection Ht as -> <-. rewrite ?Hw4, ?Hw3, ?Hw2, ?Hw1 in *. exists (Blog t a d l). split; [done|]. split; [|done].
    constructor; rewrite ?Nat.add_succ_r, ?Nat.add_0_r; done.
Qed.

(** The questions of the wizard in their order, by the number of the first. *)
Record answered (t : nat) (g : GeneratedConfig) (m : wizard_mode) (s : wizard_site) (listen email : bytes) (vision : bool) : Prop := {
  an_mode : exists mode n, asked t (text "1") mode /\ mode_asked (t + 10) mode m n /\ site_asked n s;
  an_host : asked (t + 1) [] (g_host g) /\ g_host g <> [];
  an_port : exists p, asked (t + 2) (text (match m with Proxied => "8080" | _ => "443" end)%string) p /\
    parse_uint 65535 p = Some (g_port g) /\ 0 < g_port g <= 65535;
  an_listen : asked (t + 3) (text (match m with Proxied => "127.0.0.1" | _ => "0.0.0.0" end)%string) listen;
  an_uuid : asked (t + 5) (random_uuid (draw (t + 4) 16)) (g_uuid g);
  an_path : exists p, asked (t + 7) (47 :: hex (draw (t + 6) 8) ++ [47]) p /\ between_slashes p (g_path g);
  an_email : asked (t + 8) (text "primary") email;
  an_vision : agrees (t + 9) vision }.

Lemma mode_proxied t mode m n : mode_asked t mode m n -> bytes_eqb mode (text "3") = match m with Proxied => true | _ => false end.
Proof. by intros []. Qed.

(** Running the wizard builds one of these values. *)
Lemma interactive_config_ok w w' g :
  interactive_config cwd w = (w', Ok g) ->
  exists m s listen email vision cfg,
    let v := wizard_json listen (g_port g) (g_uuid g) email vision (mode_stream m (g_path g) (g_host g)) (site_json s (g_host g)) in
    answered (tick w) g m s listen email vision /\
    g_source g = to_string_pretty v ++ [10] /\ from_json_str (g_source g) = Ok cfg /\ normalize_path (g_path g) = g_path g /\
    g_manual_tls g = mode_files m /\ g_dist_source g = site_source s /\
    g_security g = text (match m with Proxied => "none (TLS proxy)" | _ => "tls" end)%string /\
    mode_available m (fs w') /\ site_available s (fs w') /\ fs w' = fs w.
Proof.
  intros Hi. assert (fs w' = fs w) as Hfs.
  { eapply unchanged; [|exact Hi]. unfold interactive_config, wizard_tls, wizard_fallback, validate_config_source, random_uuid_text. frame.
    intros m0 w0 Hw0. split; [exists []; by rewrite app_nil_r|done]. }
  unfold interactive_config in Hi. apply bind_ok_inv in Hi as (w1 & mode & [Hmode T1]%prompt_asked & Hi).
  destruct (existsb _ _) eqn:Em; [|done]. cbn [negb] in Hi.
  apply bind_ok_inv in Hi as (w2 & host & (Hh & Hhn & T2)%required_asked & Hi). apply bind_ok_inv in Hi as (w3 & port & [Hport T3]%prompt_asked & Hi).
  destruct (parse_uint 65535 port) as [n|] eqn:En; [|done]. pose proof En as Hn. apply parse_uint_range in En; [|lia]. destruct (n =? 0) eqn:E0; [done|].
  apply bind_ok_inv in Hi as (w4 & listen & [Hlisten T4]%prompt_asked & Hi). apply bind_ok_inv in Hi as (w5 & random & Hr & Hi).
  injection Hr as <- <-. apply bind_ok_inv in Hi as (w6 & uuid & [Huuid T6]%prompt_asked & Hi). cbn [tick] in Huuid, T6.
  apply bind_ok_inv in Hi as (w7 & r & Hr & Hi). injection Hr as <- <-.
  apply bind_ok_inv in Hi as (w8 & p & [Hp T8]%prompt_asked & Hi). cbn [tick] in Hp, T8. cbv zeta in Hi.
  apply bind_ok_inv in Hi as (w9 & email & [Hemail T9]%prompt_asked & Hi). apply bind_ok_inv in Hi as (w10 & vision & [Hvision T10]%confirm_agrees & Hi).
  apply bind_ok_inv in Hi as (w11 & tls & Ht & Hi). apply bind_ok_inv in Hi as (w12 & fb & Hf & Hi). apply bind_ok_inv in Hi as (w13 & cfg & Hv & Hi).
  apply (wizard_tls_ok mode (slashed p) host) in Ht as (m & -> & Hmm & Hma & Hf1); [|done]. apply wizard_fallback_ok in Hf as (s & -> & Hss & Hsa & Hf2).
  cbn [fst snd] in *. injection Hi as <- <-. exists m, s, listen, email, vision, cfg. cbn [g_source g_port g_uuid g_path g_host g_manual_tls g_dist_source g_security].
  unfold validate_config_source in Hv. destruct (from_json_str _) as [c|e] eqn:Ec; [|done]. injection Hv as -> ->.
  pose proof (mode_proxied _ _ _ _ Hmm) as Hprox. split; [|split; [done|split; [done|split; [rewrite slashed_normal; apply normalize_path_idem|]]]].
  - rewrite ?T10, ?T9, ?T8, ?T6, ?T4, ?T3, ?T2, ?T1 in *. rewrite Hprox in *. split; cbn [g_port g_uuid g_path g_host]; rewrite ?Nat.add_succ_r, ?Nat.add_0_r.
    + by exists mode, (tick w11).
    + done.
    + exists port. split; [by destruct m|]. split; [done|]. split_bool. lia.
    + by destruct m.
    + done.
    + exists p. split; [exact Hp|apply slashed_between].
    + done.
    + done.
  - split; [done|]. split; [done|]. rewrite <- Hf2 in Hma. split; [|done].
    change (bytes_eqb mode _) with (bytes_eqb mode (text "3")). rewrite Hprox. by destruct m.
Qed.

(** What a configuration takes over from its inbound. *)
Lemma try_from_parts raw inbound cfg :
  inbounds raw = [inbound] -> try_from raw = Ok cfg ->
  exists x0, parse_tls (Config.stream inbound) = Ok (tls cfg) /\ addr (Config.listen cfg) = mk_socket_addr (listen_ip inbound) (Config.port inbound) /\
    users cfg = clients inbound /\ parse_xhttp (ss_xhttp (Config.stream inbound)) = Ok x0 /\ normalize_xhttp x0 = Ok (xhttp cfg) /\
    validate_fallback (Config.fallback raw) (xhttp cfg) = Ok (cfg_fallback cfg).
Proof. intros Hi Ht. unfold try_from in Ht. rewrite Hi in Ht. check_inv Ht. apply Ok_inj in Ht as <-. by eexists. Qed.

Lemma read_xhttp_parts p host x0 x :
  parse_xhttp (read_xhttp p host) = Ok x0 -> normalize_xhttp x0 = Ok x -> x_host x = host /\ x_path x = normalize_path p.
Proof. intros Hp. apply Ok_inj in Hp as <-. intros Hx. unfold normalize_xhttp in Hx. check_inv Hx. by apply Ok_inj in Hx as <-. Qed.

Lemma site_read_parts s host x f : host <> [] -> x_host x = host ->
  validate_fallback (site_read s host) x = Ok f -> fb_mode f = fb_mode (site_read s host) /\ fb_dist f = fb_dist (site_read s host) /\
    match s with Blog t a d l => fb_site f = mk_site_config host t a d l | _ => True end.
Proof.
  intros Hne Hx Hf. unfold validate_fallback in Hf. check_inv Hf. apply Ok_inj in Hf as <-. destruct s; cbn; [done|]. by destruct host.
Qed.

Lemma mode_tls_parts m security host x t :
  security = text (match m with Proxied => "none" | _ => "tls" end)%string ->
  parse_tls (mk_stream_settings (text "xhttp") security (mode_tls m host) x) = Ok t ->
  match m with
  | Automatic contact => exists t', t = Some t' /\ acme t' = Some (read_acme host contact)
  | Manual _ _ => exists t', t = Some t' /\ acme t' = None /\ cert t' = certificate_file read_manual /\ key t' = key_file read_manual
  | Proxied => t = None
  end.
Proof.
  intros ->. destruct m as [contact|c k|].
  - change (parse_tls _) with (_ ← validate_acme (read_acme host contact); mret (Some (mk_tls_config (join default_acme_cache_dir (Config.text "current/certificate.pem"))
      (join default_acme_cache_dir (Config.text "current/private-key.pem")) default_alpn (Some (read_acme host contact))))).
    destruct (validate_acme _); [|done]. cbn [mbind result_bind]. intros Ht. apply Ok_inj in Ht as <-. by eexists.
  - intros Ht. apply Ok_inj in Ht as <-. by eexists.
  - intros Ht. by apply Ok_inj in Ht as <-.
Qed.

(** C33: The configuration of the wizard is the one that was asked for.  The questions are
    read in their order, an empty line standing for what is suggested: the TLS mode by its
    number, host, port, address, id, path, label, flow, the files or the contact of the
    mode, and the directory or the texts of the site.  The text it writes is read back as a
    valid configuration that listens on that address and port, with that host and the path
    between slashes, with the single user of that id and label, with Vision exactly when
    it was agreed to; mode 1 means TLS by ACME for the host with that contact, mode 2 the
    two files that the installer copies from those named, mode 3 no TLS; the site is the
    directory that the installer fills from the one named, or is generated for the host
    from those four texts.  The files to install exist, and asking changed none. *)
Theorem wizard_configures w w' g :
  interactive_config cwd w = (w', Ok g) ->
  exists m s listen email vision ip id cfg,
    answered (tick w) g m s listen email vision /\
    from_json_str (g_source g) = Ok cfg /\
    parse_ip_addr listen = Some ip /\ addr (Config.listen cfg) = mk_socket_addr ip (g_port g) /\
    x_host (xhttp cfg) = g_host g /\ x_path (xhttp cfg) = g_path g /\
    uuid_of_text (g_uuid g) = Some id /\
    users cfg = [mk_user_config id email (if vision : bool then text "xtls-rprx-vision" else [])] /\
    match m with
    | Automatic contact => g_security g = text "tls" /\ g_manual_tls g = None /\ exists t a, tls cfg = Some t /\ acme t = Some a /\
                    domains a = [g_host g] /\ Config.email a = contact
    | Manual c k => g_security g = text "tls" /\ g_manual_tls g = Some (c, k) /\ is_file (fs w') c = true /\ is_file (fs w') k = true /\
                    exists t, tls cfg = Some t /\ acme t = None /\
                    locate cwd (cert t) = config_dir system ++ [text "tls"; text "fullchain.pem"] /\
                    locate cwd (key t) = config_dir system ++ [text "tls"; text "privkey.pem"]
    | Proxied => g_security g = text "none (TLS proxy)" /\ g_manual_tls g = None /\ tls cfg = None
    end /\
    match s with
    | Existing p => g_dist_source g = Some p /\ is_dir (fs w') p = true /\ fb_mode (cfg_fallback cfg) = Directory /\
                    locate cwd <$> fb_dist (cfg_fallback cfg) = Some (state_dir system ++ [text "site"])
    | Blog t a d l => g_dist_source g = None /\ fb_mode (cfg_fallback cfg) = Builtin /\
                    fb_site (cfg_fallback cfg) = mk_site_config (g_host g) t a d l
    end /\ fs w' = fs w.
Proof.
  intros Hi. destruct (interactive_config_ok w w' g Hi) as (m & s & listen & email & vision & cfg & Han & Hsrc & Hc & Hnorm & Hm & Hd & Hsec & Hma & Hsa & Hfs).
  destruct (an_host _ _ _ _ _ _ _ Han) as [_ Hh]. destruct (an_port _ _ _ _ _ _ _ Han) as (_ & _ & _ & Hp).
  destruct (mode_stream_read m (g_path g) (g_host g)) as [Hcs Hrs]. destruct (site_json_read s (g_host g)) as [Hcf Hrf].
  pose proof Hc as Hcfg. rewrite Hsrc in Hcfg. unfold from_json_str in Hcfg. cbn [json_config_of text_reader] in Hcfg.
  rewrite json_read_back in Hcfg by (apply wizard_json_canonical; [done|done|lia]). cbn [mbind option_bind] in Hcfg.
  rewrite (wizard_json_read _ _ _ _ _ _ _ _ _ Hrs Hrf) in Hcfg by lia.
  destruct (parse_ip_addr listen) as [ip|] eqn:Eip; [|done]. cbn [mbind option_bind] in Hcfg.
  destruct (uuid_of_text (g_uuid g)) as [id|] eqn:Eid; [|done]. cbn [mbind option_bind mret option_ret ok_or result_bind] in Hcfg.
  exists m, s, listen, email, vision, ip, id, cfg. destruct (try_from _) as [c|e] eqn:Et; [|done]. cbn [map_err] in Hcfg. apply Ok_inj in Hcfg as ->.
  eapply try_from_parts in Et; [|reflexivity]. destruct Et as (x0 & Htls & Haddr & Husers & Hx0 & Hx & Hfb).
  cbn [Config.stream Config.port listen_ip clients ss_xhttp Config.fallback] in *.
  destruct (read_xhttp_parts _ _ _ _ Hx0 Hx) as [Hxh Hxp]. apply (mode_tls_parts _ _ _ _ _ eq_refl) in Htls.
  destruct (site_read_parts _ _ _ _ Hh Hxh Hfb) as (Hmode & Hdist & Hsite). destruct certificate_locations as (L1 & L2 & L3).
  split; [exact Han|]. do 4 (split; [done|]). split; [by rewrite Hxp|]. split; [done|]. split; [by rewrite Husers; destruct vision|]. split; [|split; [|done]].
  - destruct m as [contact|c k|]; (split; [exact Hsec|]); (split; [exact Hm|]); [| |exact Htls].
    + destruct Htls as (t & Ht & Ha). by exists t, (read_acme (g_host g) contact).
    + destruct Hma as [Hm1 Hm2]. split; [done|]. split; [done|]. destruct Htls as (t & -> & Ha & Hct & Hkt). exists t. rewrite Hct, Hkt.
      exact (conj eq_refl (conj Ha (conj L1 L2))).
  - destruct s as [p|t a d l]; (split; [exact Hd|]); [|done]. split; [done|]. split; [done|]. rewrite Hdist. exact (f_equal Some L3).
Qed.
End wizard.

(** * Witness *)

#[local] Existing Instance tree_text.
#[local] Existing Instance tree_text_laws.
#[local] Instance toy_uuid : UuidText := { uuid_of_text := fun _ => Some (replicate 16 7) }.

(** Plain HTTP for [a.b] with Vision, a blog by [me], everything else as suggested. *)
#[local] Instance answering_host : Host := {|
  shell := fun _ _ m => (m, Some (true, []));
  typed := fun t => Some (match t with 0%nat => text "3" | 1%nat => text " a.b " | 9%nat => text "Yes" | 13%nat => text "me" | _ => [] end);
  is_root_user := true; is_linux := true; is_x86_64 := true; unix_time := fun _ => 0; editor := Tool "vi"; executable := [] |}.

Definition wizard_view (g : GeneratedConfig) : bytes * Z * bytes := (g_host g, g_port g, g_security g).

Lemma wizard_configures_witness :
  exists w' g cfg id, interactive_config [] (mk_world ∅ [] 0) = (w', Ok g) /\ from_json_str (H := text_reader) (g_source g) = Ok cfg /\
    addr (Config.listen cfg) = mk_socket_addr [127; 0; 0; 1] 8080 /\ tls cfg = None /\
    users cfg = [mk_user_config id (text "primary") (text "xtls-rprx-vision")] /\
    fb_site (cfg_fallback cfg) = mk_site_config (text "a.b") [] (text "me") [] (text "en").
Proof.
  assert ((let '(w, r) := interactive_config [] (mk_world ∅ [] 0) in match r with Ok g => Some (wizard_view g) | Err _ => None end)
          = Some (text "a.b", 8080, text "none (TLS proxy)")) as Hrun by (vm_compute; reflexivity).
  destruct (interactive_config [] (mk_world ∅ [] 0)) as [w' [g|e]] eqn:E; [|discriminate Hrun]. apply (f_equal (default ([], 0, []))) in Hrun.
  cbn [default] in Hrun. unfold Datatypes.id, wizard_view in Hrun. apply pair_inj in Hrun as [[Hg1 Hg2]%pair_inj Hg3].
  destruct (wizard_configures [] (mk_world ∅ [] 0) w' g E) as (m & s & listen & email & vision & ip & id & cfg & Han & Hc & Hip & Ha & _ & _ & _ & Hu & Hm & Hs & _).
  exists w', g, cfg, id. split; [reflexivity|]. split; [exact Hc|].
  assert (forall t d a, asked t d a -> a = match trim (default [] (typed t)) with [] => d | b :: l => b :: l end) as Hask
    by (intros t d a (line & -> & ->); reflexivity).
  destruct m as [contact|c k|]; [destruct Hm as [Hm _]; rewrite Hg3 in Hm; discriminate Hm..|]. destruct Hm as (_ & _ & Ht).
  pose proof (Hask _ _ _ (an_listen _ _ _ _ _ _ _ _ Han)) as Hl. vm_compute in Hl. subst listen. vm_compute in Hip. injection Hip as <-.
  pose proof (Hask _ _ _ (an_email _ _ _ _ _ _ _ _ Han)) as He. vm_compute in He.
  assert (vision = true) as ->.
  { destruct (an_vision _ _ _ _ _ _ _ _ Han) as (a & Hv & Hb). apply Hask in Hv. vm_compute in Hv. subst a. destruct vision; [reflexivity|].
    vm_compute in Hb. destruct Hb as [Hb|[Hb|Hb]]; discriminate Hb. }
  rewrite Hg2 in Ha. rewrite He in Hu. split; [exact Ha|]. split; [exact Ht|]. split; [exact Hu|].
  destruct (an_mode _ _ _ _ _ _ _ _ Han) as (mode & n & _ & Hmm & Hss). inversion Hmm; subst.
  inversion Hss as [p Hd|title author description language Hd Hlang Htitle Hauth Hdesc]; subst.
  - destruct Hd as (a & Hv & Hb). apply Hask in Hv. vm_compute in Hv. subst a. vm_compute in Hb. destruct Hb as [Hb|Hb]; discriminate Hb.
  - apply Hask in Hlang, Htitle, Hauth, Hdesc. vm_compute in Hlang, Htitle, Hauth, Hdesc. subst. destruct Hs as (_ & _ & Hs).
    rewrite Hg1 in Hs. exact Hs.
Defined.
