(* ===== verification/Maintain.v ===== *)
(** [src/management.rs]: what editing the configuration, uninstalling and diagnosing an
    installation guarantee, whatever call or program fails. *)

From S2P Require Import Prelude Header Site Config Json TlsCert Files Release Runtime Manage Update Install Wizard.

(** * Directories *)

(** Nothing that was there has changed, [p] apart. *)
Definition grown (p : path) (m0 m : files) : Prop := forall q n, q <> p -> m0 !! q = Some n -> m !! q = Some n.

Section directories.
Context `{Machine}.

Lemma grown_refl p m : grown p m m.
Proof. by intros q n. Qed.

Lemma grown_create p m0 m m' q mode : grown p m0 m -> create_dir_step mode q m = Ok m' -> grown p m0 m'.
Proof.
  intros Hg. unfold create_dir_step. destruct (is_present m q) eqn:Ep; [done|]. destruct (in_dir m q); [|done]. intros Hm. apply Ok_inj in Hm as <-.
  intros q' n Hne Hq'. specialize (Hg q' n Hne Hq'). rewrite lookup_insert_ne; [done|]. intros ->. unfold is_present in Ep. by rewrite Hg in Ep.
Qed.

Lemma create_missing_runs p m0 done todo w :
  grown p m0 (fs w) -> (todo = [] -> is_dir (fs w) done = true) ->
  runs (grown p m0) (create_missing done todo) w (fun w' r => grown p m0 (fs w') /\ (r = Ok tt -> is_dir (fs w') (done ++ todo) = true)).
Proof.
  revert done w. induction todo as [|c todo IH]; intros done w Hw Hd; cbn [create_missing].
  { apply runs_ret. rewrite app_nil_r. split; [exact Hw|]. intros _. by apply Hd. }
  replace (done ++ c :: todo) with ((done ++ [c]) ++ todo) by (by rewrite <- app_assoc).
  apply runs_bind, runs_look. destruct (is_dir (fs w) (done ++ [c])) eqn:Ed.
  { apply runs_bind, runs_ret, IH; [exact Hw|by intros _]. }
  apply runs_bind, runs_atomic_call; [exact Hw|intros e; split; [exact Hw|by intros [=]]|].
  intros m Hm. assert (grown p m0 m) as Hg by (by eapply grown_create). split; [exact Hg|]. apply IH; [exact Hg|]. intros _. cbn [advance fs].
  revert Hm. unfold create_dir_step. destruct (is_present _ _); [done|]. destruct (in_dir _ _); [|done]. intros Hm. apply Ok_inj in Hm as <-.
  unfold is_dir. by rewrite lookup_insert_eq.
Qed.

Lemma create_dir_runs p mode w : p <> [] ->
  runs (grown p (fs w)) (create_dir p mode) w (fun w' r => grown p (fs w) (fs w') /\ (r = Ok tt -> is_dir (fs w') p = true)).
Proof.
  intros Hp. apply runs_bind. eapply runs_weaken; [intros m Hm; exact Hm| |apply (create_missing_runs p (fs w) [] p); [apply grown_refl|done]].
  intros w1 [[]|e] [Hg Hd]; [|split; [exact Hg|by intros [=]]]. specialize (Hd eq_refl). cbn [app] in Hd.
  apply runs_atomic_call; [exact Hg|intros e; split; [exact Hg|by intros [=]]|]. intros m. unfold chmod_step, is_dir in *. cbn [advance fs].
  destruct (fs w1 !! p) as [[]|] eqn:E; try done. intros Hm. apply Ok_inj in Hm as <-.
  assert (grown p (fs w) (<[p := Dir mode]> (fs w1))) as Hg' by (intros q n Hne Hq; rewrite lookup_insert_ne by done; by apply Hg).
  split; [exact Hg'|]. split; [exact Hg'|]. intros _. by rewrite lookup_insert_eq.
Qed.
End directories.

Section maintain.
Context `{Machine} `{Host} `{JsonText} `{UuidText} `{SiteFormat} `{Blake3} `{Ring} `{Base64Url} `{Sha256}.
Context (cwd : path) (L : Layout).

#[local] Existing Instance text_reader.

(** * Checked configurations *)

(** A text that passed the check, with the resources of that time. *)
Definition checked (b : bytes) : Prop :=
  utf8_valid b = true /\ exists cfg m, from_json_str b = Ok cfg /\ validate cwd m cfg = Val tt.

Lemma through_dir m d c : is_dir m d = true -> through m (d ++ [c]) = d ++ [c].
Proof.
  intros Hd. unfold through. rewrite rev_app_distr. cbn [rev app]. rewrite rev_involutive. unfold is_dir in Hd. by destruct (m !! d) as [[]|].
Qed.

Lemma validate_config_file_framed (T : path -> Prop) p : framed T (validate_config_file cwd p).
Proof. unfold validate_config_file, validate_config_source. frame. Qed.

Lemma validate_config_file_ok d c w w' u :
  is_dir (fs w) d = true -> validate_config_file cwd (d ++ [c]) w = (w', Ok u) ->
  exists b, body_at (fs w) (d ++ [c]) b /\ checked b.
Proof.
  intros Hd. unfold validate_config_file. intros Hv. apply bind_ok_inv in Hv as (w1 & b & Hr & Hv). apply bind_ok_inv in Hv as (w2 & cfg & Hs & Hv).
  apply bind_ok_inv in Hv as (w3 & r & Hl & Hv). injection Hl as <- <-. unfold fs_read_to_string in Hr. apply bind_ok_inv in Hr as (w4 & b' & Hr & Hu).
  destruct (utf8_valid b') eqn:Eu; [|done]. injection Hu as <- <-. unfold validate_config_source in Hs.
  destruct (from_json_str b') as [c'|e] eqn:Ej; [|done]. injection Hs as <- <-. exists b'. split.
  - unfold fs_read in Hr. rewrite (through_dir _ _ _ Hd) in Hr. destruct (fault (tick w)); [done|].
    destruct (fs w !! (d ++ [c])) as [[]|] eqn:E; try done. injection Hr as _ ->. by eexists.
  - split; [done|]. destruct (validate _ (fs w4) c') as [[]| | |] eqn:Ev; try done. by eexists _, _.
Qed.

(** * Backups *)

Definition backups : path := config_dir L ++ [text "backups"].

(** Outside [backups] everything is as it was. *)
Definition kept_outside (m0 m : files) : Prop := forall q n, under backups q = false -> m0 !! q = Some n -> m !! q = Some n.

Lemma config_snoc : config L = config_dir L ++ [text "config.json"].
Proof. unfold config, config_dir, at_path. by rewrite <- app_assoc. Qed.

Lemma kept_trans m1 m2 m3 : kept_outside m1 m2 -> kept_outside m2 m3 -> kept_outside m1 m3.
Proof. intros H1' H2' q n Hq Hn. by apply H2', H1'. Qed.

Lemma beside_backups c : c <> text "backups" -> under backups (config_dir L ++ [c]) = false.
Proof. intros Hne. unfold backups. rewrite under_snoc. apply not_true_is_false. intros E%bytes_eqb_eq. congruence. Qed.

Lemma above_backups : under backups (config_dir L) = false.
Proof.
  apply not_true_is_false. intros [r Hr]%under_true. apply (f_equal length) in Hr. unfold backups in Hr. rewrite !length_app in Hr. cbn in Hr. lia.
Qed.

Lemma kept_body m0 m c b : kept_outside m0 m -> c <> text "backups" -> body_at m0 (config_dir L ++ [c]) b -> body_at m (config_dir L ++ [c]) b.
Proof. intros Hk Hc [md Hm]. exists md. apply Hk; [by apply beside_backups|done]. Qed.

Lemma kept_dir m0 m : kept_outside m0 m -> is_dir m0 (config_dir L) = true -> is_dir m (config_dir L) = true.
Proof.
  intros Hk. unfold is_dir. destruct (m0 !! config_dir L) as [[]|] eqn:E; try done. by rewrite (Hk _ _ above_backups E).
Qed.

Lemma copy_backup_runs c b w :
  head c = Some 99 -> is_dir (fs w) backups = true -> body_at (fs w) (config L) b ->
  runs (kept_outside (fs w)) (_ ← copy_atomic (config L) (backups ++ [c]) (octal 6 0 0); mret (backups ++ [c])) w
    (fun w' r => kept_outside (fs w) (fs w') /\ match r with Ok d => exists c, d = backups ++ [c] /\ body_at (fs w') d b | Err _ => True end).
Proof.
  intros Hc Hd Hb. assert (~ scratch backups copy_prefix (backups ++ [c])) as Hns.
  { intros [r Hr]. apply app_inv_head in Hr. injection Hr as ->. by vm_compute in Hc. }
  assert (forall m, replacing_by copy_prefix (body_at (fs w) (config L)) (octal 6 0 0) backups (backups ++ [c]) (fs w) m -> kept_outside (fs w) m) as Hk.
  { intros m Hr q n Hq Hn. apply replacing_by_lookup in Hr as [_ Ho]; [|done]. rewrite Ho; [done| |].
    - intros ->. by rewrite under_app in Hq.
    - intros [r ->]. by rewrite under_app in Hq. }
  apply runs_bind. eapply runs_weaken; [exact Hk| |by apply copy_atomic_runs]. intros w' [u|e] Hr; cbn [replaced_by] in Hr.
  - destruct Hr as (b' & Hb' & Hfs). apply runs_ret. split; [apply Hk; right; by exists b'|]. exists c. split; [done|].
    exists (octal 6 0 0). rewrite Hfs, lookup_insert_eq. by rewrite (body_at_functional _ _ _ _ Hb Hb').
  - split; [|done]. destruct Hr as [-> |Hr]; [by intros q n|by apply Hk].
Qed.

Lemma backup_config_runs b w :
  body_at (fs w) (config L) b ->
  runs (kept_outside (fs w)) (backup_config L (config L)) w
    (fun w' r => kept_outside (fs w) (fs w') /\ match r with Ok d => exists c, d = backups ++ [c] /\ body_at (fs w') d b | Err _ => True end).
Proof.
  intros Hb. unfold backup_config. cbv zeta. fold backups.
  assert (forall m, grown backups (fs w) m -> kept_outside (fs w) m) as Hg.
  { intros m Hm q n Hq Hn. apply Hm; [|done]. intros ->. by rewrite under_refl in Hq. }
  apply runs_bind. eapply runs_weaken; [exact Hg| |apply create_dir_runs; unfold backups; by destruct (config_dir L)].
  intros w1 [[]|e] [H1' Hd]; [|by split; [apply Hg|]]. specialize (Hd eq_refl). apply Hg in H1'.
  assert (body_at (fs w1) (config L) b) as Hb1 by (rewrite config_snoc in *; by eapply kept_body).
  apply runs_bind. split; [apply along_refl|]. cbn [fst snd]. apply runs_bind, runs_look.
  assert (forall c w2, head c = Some 99 -> fs w2 = fs w1 -> runs (kept_outside (fs w)) (_ ← copy_atomic (config L) (backups ++ [c]) (octal 6 0 0); mret (backups ++ [c])) w2
    (fun w' r => kept_outside (fs w) (fs w') /\ match r with Ok d => exists c, d = backups ++ [c] /\ body_at (fs w') d b | Err _ => True end)) as Hcopy.
  { intros c w2 Hc Hw2. rewrite <- Hw2 in Hd, Hb1, H1'. eapply runs_weaken; [| |by apply (copy_backup_runs c b w2)].
    - intros m Hm. by eapply kept_trans.
    - intros w' r [Hk Hr]. split; [by eapply kept_trans|done]. }
  destruct (is_present _ _).
  - apply runs_bind, runs_bind. split; [exists []; by rewrite app_nil_r|]. cbn [random_hex fst snd]. apply runs_ret. by apply Hcopy.
  - apply runs_bind, runs_ret. by apply Hcopy.
Qed.

(** * [edit] *)

(** What the manager relies on: the editor changes the file it was given, and other
    programs leave the configuration directory alone. *)
Class TameConfig : Prop := {
  tame_editor : forall t p m, agree (eq p) m (shell t (mk_command editor [APath p]) m).1;
  tame_others : forall t c m, (forall p, c <> mk_command editor [APath p]) ->
    agree (fun q => under (config_dir L) q = false) m (shell t c m).1 }.

Context {HT : TameConfig} (b0 : bytes).

(** The installed configuration is the one of the beginning or one that passed the check. *)
Definition config_sound_at (m : files) : Prop := exists b, body_at m (config L) b /\ (b = b0 \/ checked b).

Definition edit_outcome (w : world) (r : result failure unit) : Prop :=
  match r with
  | Ok _ => exists b, fs w !! config L = Some (File b (octal 6 4 0)) /\ checked b
  | Err e => config_sound_at (fs w) /\ (e = FMessage restart_failed -> body_at (fs w) (config L) b0)
  end.

Lemma config_below : under (config_dir L) (config L) = true.
Proof. rewrite config_snoc. apply under_app. Qed.

(** Commands with words as arguments. *)
Lemma framed_words c : (forall p, c <> mk_command editor [APath p]) -> framed (fun q => under (config_dir L) q = false) (run_checked c).
Proof. intros Hc. apply framed_bind; [|intros; apply framed_ret]. apply framed_output_command. intros t m. by apply tame_others. Qed.

Lemma restart_framed : framed (fun q => under (config_dir L) q = false) (run_checked restart_service).
Proof. apply framed_words. intros p [=]. Qed.

Lemma apply_ownership_framed : framed (fun q => under (config_dir L) q = false) (apply_ownership L).
Proof. unfold apply_ownership. apply framed_bind; [|intros _; apply framed_bind; [|intros _]]; apply framed_words; intros p [=]. Qed.

Lemma spares_run_checked s c : s <> "command failed"%string -> spares (FMessage s) (run_checked c).
Proof.
  intros Hs w. unfold run_checked, run_output, start, mbind, fm_bind. destruct (shell _ _ _) as [m [[[] o]|]]; cbn; congruence.
Qed.

Lemma spares_apply_ownership s : s <> "command failed"%string -> spares (FMessage s) (apply_ownership L).
Proof. intros Hs. unfold apply_ownership. do 2 (apply spares_bind; [by apply spares_run_checked|intros _]). by apply spares_run_checked. Qed.

Lemma in_config_dir (m m' : files) q :
  agree (fun q => under (config_dir L) q = false) m m' -> under (config_dir L) q = true -> m' !! q = m !! q.
Proof. intros Ha Hq. apply Ha. by rewrite Hq. Qed.

Lemma backup_below c : under (config_dir L) (backups ++ [c]) = true.
Proof. unfold backups. rewrite <- app_assoc. apply under_app. Qed.

(** The old file is put back. *)
Lemma restore_config_runs c b w :
  is_dir (fs w) (config_dir L) = true -> body_at (fs w) (backups ++ [c]) b0 -> body_at (fs w) (config L) b -> checked b ->
  runs config_sound_at (_ ← copy_atomic (backups ++ [c]) (config L) (octal 6 4 0); _ ← apply_ownership L;
    _ ← ignore (run_checked restart_service); message restart_failed) w edit_outcome.
Proof.
  intros Hd Hb0 Hb Hc. assert (~ scratch (config_dir L) copy_prefix (config_dir L ++ [text "config.json"])) as Hns by (apply scratch_length; vm_compute; lia).
  rewrite config_snoc. assert (forall m, replacing_by copy_prefix (body_at (fs w) (backups ++ [c])) (octal 6 4 0) (config_dir L)
    (config_dir L ++ [text "config.json"]) (fs w) m -> config_sound_at m) as Hk.
  { intros m Hr. apply replacing_by_lookup in Hr as [Hat _]; [|done]. rewrite <- config_snoc in Hat. destruct Hat as [Hat|(b' & Hb' & Hat)].
    - exists b. destruct Hb as [md Hm]. split; [exists md; by rewrite Hat|by right].
    - exists b'. split; [by eexists|]. left. by eapply body_at_functional. }
  apply runs_bind, runs_eq. eapply runs_weaken; [exact Hk| |by apply copy_atomic_runs]. intros w1 [u|e] Hr Heq; cbn [replaced_by] in Hr.
  - destruct Hr as (b' & Hb' & Hfs). rewrite (body_at_functional _ _ _ _ Hb' Hb0) in Hfs.
    assert (fs w1 !! config L = Some (File b0 (octal 6 4 0))) as Hnow by (by rewrite Hfs, config_snoc, lookup_insert_eq).
    assert (framed (fun q => under (config_dir L) q = false) (_ ← apply_ownership L; _ ← ignore (run_checked restart_service); message (A := unit) restart_failed)) as Hf.
    { apply framed_bind; [apply apply_ownership_framed|intros _]. apply framed_bind; [apply framed_ignore, restart_framed|intros _; apply framed_message]. }
    assert (forall m, agree (fun q => under (config_dir L) q = false) (fs w1) m -> body_at m (config L) b0) as Hkeep.
    { intros m Ha. exists (octal 6 4 0). by rewrite (in_config_dir _ _ _ Ha config_below). }
    apply runs_eq. eapply runs_weaken; [| |apply Hf, agree_refl]; cbv beta; [intros m Ha; exists b0; split; [by apply Hkeep|by left]|].
    intros w2 [u2|e] Ha Heq2; [run_inv Heq2; done|]. split; [exists b0; split; [by apply Hkeep|by left]|]. intros _. by apply Hkeep.
  - split; [destruct Hr as [-> |Hr]; [exists b; split; [done|by right]|by apply Hk]|]. intros ->. exfalso.
    eapply (spares_copy_atomic restart_failed); [| |by rewrite Heq]; discriminate.
Qed.

(** After the edited file took the place of the old one. *)
Lemma edited_runs c b md w :
  is_dir (fs w) (config_dir L) = true -> body_at (fs w) (backups ++ [c]) b0 -> fs w !! config L = Some (File b md) -> checked b ->
  runs config_sound_at (_ ← fs_set_permissions (config L) (octal 6 4 0); _ ← sync_directory (config_dir L); _ ← apply_ownership L;
    r ← attempt (run_checked restart_service);
    match r with
    | Ok _ => mret tt
    | Err _ => _ ← copy_atomic (backups ++ [c]) (config L) (octal 6 4 0); _ ← apply_ownership L; _ ← ignore (run_checked restart_service); message restart_failed
    end) w edit_outcome.
Proof.
  intros Hd Hb0 Hb Hc. assert (config_sound_at (fs w)) as Hw by (exists b; split; [by eexists|by right]).
  set (m1 := <[config L := File b (octal 6 4 0)]> (fs w)).
  assert (m1 !! config L = Some (File b (octal 6 4 0))) as Hm1 by (unfold m1; by rewrite lookup_insert_eq).
  assert (config_sound_at m1) as Hs1 by (exists b; split; [by eexists|by right]).
  eapply runs_bind, runs_set_permissions_file; [exact Hb|exact Hw|exact Hs1|intros e; split; [exact Hw|by intros [=]]|]. fold m1.
  apply runs_bind, runs_atomic_call; [exact Hs1|intros e; split; [exact Hs1|by intros [=]]|]. intros m Hm.
  assert (m = m1) as -> by (revert Hm; unfold open_step; cbn [advance fs]; destruct (m1 !! config_dir L) as [[]|]; try done; intros Hm; by apply Ok_inj in Hm).
  split; [exact Hs1|]. set (w2 := advance _ _).
  assert (is_dir m1 (config_dir L) = true) as Hd1 by (apply is_dir_insert; [done|rewrite config_snoc; apply snoc_ne]).
  assert (body_at m1 (backups ++ [c]) b0) as Hb1.
  { apply body_at_insert; [|done]. rewrite config_snoc. unfold backups. rewrite <- app_assoc. intros Heq%app_inv_head. discriminate Heq. }
  assert (forall m, agree (fun q => under (config_dir L) q = false) m1 m ->
    config_sound_at m /\ m !! config L = Some (File b (octal 6 4 0)) /\ is_dir m (config_dir L) = true /\ body_at m (backups ++ [c]) b0) as Hkeep.
  { intros m Ha. pose proof (in_config_dir _ _ _ Ha config_below) as E1. split; [exists b; split; [exists (octal 6 4 0); by rewrite E1|by right]|].
    split; [by rewrite E1|]. split; [unfold is_dir; rewrite (in_config_dir _ _ _ Ha (under_refl _)); exact Hd1|].
    destruct Hb1 as [mdb Hmb]. exists mdb. by rewrite (in_config_dir _ _ _ Ha (backup_below c)). }
  apply runs_bind, runs_eq. eapply runs_weaken; [| |apply apply_ownership_framed, agree_refl]; cbv beta; [intros m Ha; by apply Hkeep|].
  intros w3 [u3|e] Ha3 Heq3.
  2:{ split; [by apply Hkeep|]. intros ->. exfalso. eapply (spares_apply_ownership restart_failed); [|by rewrite Heq3]. discriminate. }
  apply runs_bind, runs_attempt. eapply runs_weaken; [| |apply restart_framed; exact Ha3]; cbv beta; [intros m Ha; by apply Hkeep|].
  intros w4 [u4|e] Ha4; destruct (Hkeep _ Ha4) as (Hs4 & Hc4 & Hd4 & Hb4); [apply runs_ret; by exists b|].
  eapply restore_config_runs; [done|done|by eexists|done].
Qed.

Definition edit_prefix : bytes := text ".config.edit".

Section temporary.
Context (t : path) (Ht : scratch (config_dir L) edit_prefix t).

Lemma temporary_apart : t <> config L /\ t <> config_dir L /\ under backups t = false /\ exists x, t = config_dir L ++ [x] /\ x <> text "config.json".
Proof.
  destruct Ht as [r ->]. set (x := temporary_name edit_prefix r).
  assert (x <> text "config.json" /\ x <> text "backups") as [H1' H2'].
  { split; intros Heq; apply (f_equal length) in Heq; unfold x, temporary_name in Heq; rewrite length_app in Heq;
      change (length edit_prefix) with 12%nat in Heq; [change (length (text "config.json")) with 11%nat in Heq|change (length (text "backups")) with 7%nat in Heq]; lia. }
  split; [rewrite config_snoc; intros Heq%app_inv_head; congruence|]. split; [apply snoc_ne|]. split; [by apply beside_backups|by exists x].
Qed.

(** Only the temporary file changed. *)
Lemma before_edit_runs {A : Type} (m : fm A) w (Q : world -> result failure A -> Prop) :
  framed (eq t) m -> is_dir (fs w) (config_dir L) = true -> body_at (fs w) (config L) b0 ->
  (forall w' r, m w = (w', r) -> is_dir (fs w') (config_dir L) = true -> body_at (fs w') (config L) b0 -> config_sound_at (fs w') -> Q w' r) ->
  runs config_sound_at m w Q.
Proof.
  intros Hf Hd Hb HQ. destruct temporary_apart as (N1 & N2 & _).
  assert (forall m', agree (eq t) (fs w) m' -> is_dir m' (config_dir L) = true /\ body_at m' (config L) b0 /\ config_sound_at m') as Hk.
  { intros m' Ha. split; [unfold is_dir in *; by rewrite Ha|]. assert (body_at m' (config L) b0) as Hb' by (eapply body_at_agree; [exact Ha|done|done]).
    split; [done|]. exists b0. split; [done|by left]. }
  apply runs_eq. eapply runs_weaken; [| |apply Hf, agree_refl]; cbv beta; [intros m' Ha; by apply Hk|].
  intros w' r Ha Heq. destruct (Hk _ Ha) as (H1' & H2' & H3'). by apply HQ.
Qed.

Lemma rename_edited b md m m' :
  m !! t = Some (File b md) -> rename_step t (config L) m = Ok m' -> m' = <[config L := File b md]> (delete t m).
Proof.
  intros Hm. destruct temporary_apart as (N1 & _ & _ & x & -> & Hx). rewrite config_snoc in *. unfold rename_step. rewrite !under_snoc, Hm.
  destruct (bytes_eqb x _) eqn:E1; [by apply bytes_eqb_eq in E1|]. destruct (bytes_eqb _ x) eqn:E2; [by apply bytes_eqb_eq in E2|]. cbn [orb].
  destruct (negb _); [done|]. destruct (m !! (config_dir L ++ [text "config.json"])) as [[]|]; intros Hr; try done; by apply Ok_inj in Hr.
Qed.

(** The checked temporary file is installed. *)
Lemma install_edited_runs b w :
  is_dir (fs w) (config_dir L) = true -> body_at (fs w) (config L) b0 -> body_at (fs w) t b -> checked b ->
  runs config_sound_at (backup ← backup_config L (config L);
    _ ← fs_rename t (config L);
    _ ← fs_set_permissions (config L) (octal 6 4 0); _ ← sync_directory (config_dir L); _ ← apply_ownership L;
    r ← attempt (run_checked restart_service);
    match r with
    | Ok _ => mret tt
    | Err _ => _ ← copy_atomic backup (config L) (octal 6 4 0); _ ← apply_ownership L; _ ← ignore (run_checked restart_service); message restart_failed
    end) w edit_outcome.
Proof.
  intros Hd Hb Ht' Hc. destruct temporary_apart as (N1 & N2 & N3 & _).
  assert (forall m, kept_outside (fs w) m -> config_sound_at m /\ body_at m (config L) b0) as Hk.
  { intros m Hm. assert (body_at m (config L) b0) as Hb' by (rewrite config_snoc in *; by eapply kept_body). split; [|done]. exists b0. split; [done|by left]. }
  apply runs_bind. eapply runs_weaken; [intros m Hm; by apply Hk| |by apply backup_config_runs].
  intros w1 [d|e] [H1' Hr]; [|destruct (Hk _ H1'); by split]. destruct Hr as (c & -> & Hbk). destruct (Hk _ H1') as [Hs1 Hb1].
  apply runs_bind, runs_atomic_call; [exact Hs1|intros e; split; [exact Hs1|by intros _]|]. intros m Hm.
  destruct Ht' as [md Htm]. apply H1' in Htm; [|done]. apply (rename_edited b md) in Hm; [|done]. subst m.
  split; [exists b; split; [exists md; by rewrite lookup_insert_eq|by right]|].
  apply (edited_runs c b md); cbn [advance fs]; [| |by rewrite lookup_insert_eq|done].
  - apply is_dir_insert; [|rewrite config_snoc; apply snoc_ne]. pose proof (kept_dir _ _ H1' Hd) as Hd1. unfold is_dir in *. by rewrite lookup_delete_ne.
  - apply body_at_insert; [rewrite config_snoc; unfold backups; rewrite <- app_assoc; intros Heq%app_inv_head; discriminate Heq|].
    destruct Hbk as [mdb Hmb]. exists mdb. rewrite lookup_delete_ne; [done|]. intros Heq. rewrite Heq, under_app in N3. done.
Qed.
End temporary.

Lemma still_runs {A : Type} (I : files -> Prop) (m : fm A) w (Q : world -> result failure A -> Prop) :
  framed (fun _ => False) m -> I (fs w) -> (forall w' r, m w = (w', r) -> fs w' = fs w -> Q w' r) -> runs I m w Q.
Proof.
  intros Hf Hi HQ. assert (forall m', agree (fun _ => False) (fs w) m' -> m' = fs w) as Hs by (intros m' Ha; apply map_eq; intros q; apply Ha; by intros []).
  apply runs_eq. eapply runs_weaken; [| |apply Hf, agree_refl]; cbv beta; [intros m' Ha; by rewrite (Hs _ Ha)|].
  intros w' r Ha Heq. apply HQ; [done|by apply Hs].
Qed.

Lemma edit_runs w :
  is_dir (fs w) (config_dir L) = true -> body_at (fs w) (config L) b0 ->
  runs config_sound_at (edit_config cwd L) w edit_outcome.
Proof.
  intros Hd Hb. assert (forall w' e, config_sound_at (fs w') -> body_at (fs w') (config L) b0 -> edit_outcome w' (Err e)) as Herr by (intros w' e H1' H2'; by split).
  assert (config_sound_at (fs w)) as Hw by (exists b0; split; [done|by left]). unfold edit_config.
  apply runs_bind, still_runs; [apply validate_config_file_framed|exact Hw|]. intros w1 [u|e] _ E1; [|rewrite <- E1 in *; by apply Herr].
  rewrite <- E1 in *. apply runs_bind, unique_path_runs; [intros w2 s E2; rewrite <- E2 in *; by apply Herr|].
  intros w2 t E2 Ht _. rewrite <- E2 in *.
  apply runs_bind, (before_edit_runs t Ht); [by apply framed_copy|done|done|]. intros w3 [u3|e] _ Hd3 Hb3 Hs3; [|by apply Herr].
  apply runs_bind, (before_edit_runs t Ht); [by apply framed_set_permissions|done|done|]. intros w4 [u4|e] _ Hd4 Hb4 Hs4; [|by apply Herr].
  apply runs_bind, (before_edit_runs t Ht); [apply framed_start_command; intros; apply tame_editor|done|done|]. intros w5 [status|e] _ Hd5 Hb5 Hs5; [|by apply Herr].
  assert (forall w5 s, is_dir (fs w5) (config_dir L) = true -> body_at (fs w5) (config L) b0 ->
    runs config_sound_at (_ ← ignore (fs_remove_file t); message (A := unit) s) w5 edit_outcome) as Hdiscard.
  { clear w5 Hd5 Hb5 Hs5. intros w5 s Hd5 Hb5. apply (before_edit_runs t Ht); [apply framed_bind; [by apply framed_ignore, framed_remove_file|intros; apply framed_message]|done|done|].
    intros w6 [u6|e] Heq Hd6 Hb6 Hs6; [run_inv Heq; done|by apply Herr]. }
  destruct status as [[[] out]|]; [|by apply Hdiscard|apply runs_throw; by apply Herr].
  apply runs_bind, runs_attempt, still_runs; [apply validate_config_file_framed|exact Hs5|]. intros w6 r6 Heq E6.
  assert (is_dir (fs w6) (config_dir L) = true) as Hd6 by (by rewrite E6). assert (body_at (fs w6) (config L) b0) as Hb6 by (by rewrite E6).
  destruct r6 as [u6|e]; [|by apply Hdiscard]. pose proof Ht as Ht'. destruct (temporary_apart t Ht) as (_ & _ & _ & x & -> & _).
  apply validate_config_file_ok in Heq as (b & Hbt & Hc); [|exact Hd5]. rewrite <- E6 in Hbt. by apply (install_edited_runs _ Ht' b).
Qed.
End maintain.

(** C34: Editing never installs a configuration that was not checked.  Whatever call or
    program fails, in every state the installed configuration is the one of the beginning
    or an edited one that passed the check of its syntax and resources; after success it is
    such an edited one, with mode 640, and when the error says that the restart failed it is
    the one of the beginning. *)
Theorem edit_installs_checked `{Machine} `{Host} `{JsonText} `{UuidText} `{SiteFormat} `{Blake3} `{Ring} `{Base64Url}
    cwd L b0 w :
  TameConfig L -> is_dir (fs w) (config_dir L) = true -> body_at (fs w) (config L) b0 ->
  let '(w', r) := edit_config cwd L w in
  along (fun m => exists b, body_at m (config L) b /\ (b = b0 \/ checked cwd b)) w w' /\
  match r with
  | Ok _ => exists b, fs w' !! config L = Some (File b (octal 6 4 0)) /\ checked cwd b
  | Err e => (exists b, body_at (fs w') (config L) b /\ (b = b0 \/ checked cwd b)) /\
             (e = FMessage restart_failed -> body_at (fs w') (config L) b0)
  end.
Proof.
  intros HT Hd Hb. destruct (edit_runs cwd L b0 w Hd Hb) as [Ha Hq].
  destruct (edit_config cwd L w) as [w' r]. by split.
Qed.

(** * [uninstall] *)

Section uninstall.
Context `{Machine} `{Host} (L : Layout).

(** The configuration, the state and the manager's own files. *)
Definition data_dirs : list path := [config_dir L; state_dir L; manager_dir L].
Definition data_path (q : path) : Prop := exists d, In d data_dirs /\ under d q = true.
Definition program_files : list path := [unit_file L; server_binary L; ctl_binary L].

(** The programs [uninstall] runs touch neither. *)
Class TameRemoval : Prop := { tame_removal : quiet (fun q => ~ (data_path q \/ In q program_files)) }.

Lemma at_path_under a b : under (at_path L a) (at_path L b) = under (text <$> a) (text <$> b).
Proof.
  unfold at_path. induction (root L) as [|x r IH]; [done|]. unfold under in *. cbn [app strip]. by rewrite (proj2 (bytes_eqb_eq x x)).
Qed.

Lemma program_not_data q : In q program_files -> ~ data_path q.
Proof.
  intros Hq (d & Hd & Hu). unfold program_files, data_dirs, unit_file, server_binary, ctl_binary, config_dir, state_dir, manager_dir in *.
  destruct Hq as [<-|[<-|[<-|[]]]]; destruct Hd as [<-|[<-|[<-|[]]]]; rewrite at_path_under in Hu; by vm_compute in Hu.
Qed.

Lemma remove_file_framed p : framed (eq p) (remove_file_if_present p).
Proof. by apply framed_not_found_is_ok, framed_remove_file. Qed.

Lemma remove_directory_framed p : framed (fun q => under p q = true) (remove_directory_if_present p).
Proof. by apply framed_not_found_is_ok, framed_remove_dir_all. Qed.

Lemma not_found_ok step part w w' u :
  not_found_is_ok (call step part) w = (w', Ok u) ->
  step (fs w) = Ok (fs w') \/ step (fs w) = Err NotFound /\ fs w' = fs w.
Proof.
  unfold not_found_is_ok, mbind, fm_bind, attempt, call. destruct (fault (tick w)); [done|]. destruct (step (fs w)) as [m|e] eqn:E.
  - intros [= <- _]. by left.
  - destruct e; try done. intros [= <- _]. by right.
Qed.

Lemma remove_file_gone p w w' u : remove_file_if_present p w = (w', Ok u) -> fs w' !! p = None.
Proof.
  intros Hr. apply not_found_ok in Hr as [Hs|[Hs ->]]; revert Hs; unfold remove_file_step; destruct (fs w !! p) as [[]|]; intros Hs; try done;
    apply Ok_inj in Hs as <-; by rewrite lookup_delete_eq.
Qed.

Lemma remove_directory_gone p w w' u : remove_directory_if_present p w = (w', Ok u) -> fs w' !! p = None.
Proof.
  unfold remove_directory_if_present, not_found_is_ok, fs_remove_dir_all, mbind, fm_bind, attempt, call. destruct (fault (tick w)); [done|].
  unfold remove_dir_step. destruct (fs w !! p) as [[]|] eqn:E; try done; intros Hr; injection Hr as <- _; cbn [advance fs]; [|by rewrite lookup_delete_eq|exact E].
  unfold remove_tree. apply map_lookup_filter_None. right. intros n _. cbn [fst]. by rewrite under_refl.
Qed.

Context {HT : TameRemoval}.

Lemma uninstall_framed yes : framed (fun q => ~ data_path q) (uninstall L false yes).
Proof.
  assert (quiet (fun q => ~ data_path q)) as Hq.
  { intros t c m. eapply agree_weaken; [|apply tame_removal]. intros q Hn Hd. apply Hn. by left. }
  assert (forall p, In p program_files -> framed (fun q => ~ data_path q) (remove_file_if_present p)) as Hr.
  { intros p Hp. eapply framed_weaken; [|apply remove_file_framed]. intros q <-. by apply program_not_data. }
  pose proof (Hr (unit_file L) ltac:(cbn; auto)). pose proof (Hr (server_binary L) ltac:(cbn; auto)). pose proof (Hr (ctl_binary L) ltac:(cbn; auto)).
  clear Hr. unfold uninstall. frame.
Qed.

(** ** What is removed stays away *)

Lemma removed_gone p (m : fm unit) (rest : unit -> fm unit) w w' u :
  (forall w1 w2 v, m w1 = (w2, Ok v) -> fs w2 !! p = None) -> (forall a, framed (fun q => q <> p) (rest a)) ->
  mbind rest m w = (w', Ok u) -> fs w' !! p = None.
Proof.
  intros Hm Hr Hb. apply bind_ok_inv in Hb as (w1 & a & H1' & Hb). rewrite (framed_agree _ _ _ _ _ (Hr a) Hb p); [by eapply Hm|]. intros Hn. by apply Hn.
Qed.

Definition managed (p : path) : Prop := In p program_files \/ In p data_dirs.

Lemma start_leaves p c : managed p -> framed (fun q => q <> p) (start c).
Proof.
  intros Hp. apply framed_start. intros t c' m. eapply agree_weaken; [|apply tame_removal]. intros q Hq ->. apply Hq.
  destruct Hp as [Hp|Hp]; [by right|]. left. exists p. split; [done|apply under_refl].
Qed.

Lemma remove_file_leaves p q : q <> p -> framed (fun q => q <> p) (remove_file_if_present q).
Proof. intros Hne. eapply framed_weaken; [|apply remove_file_framed]. by intros q' <-. Qed.

Lemma remove_directory_leaves p d : under d p = false -> framed (fun q => q <> p) (remove_directory_if_present d).
Proof. intros Hu. eapply framed_weaken; [|apply remove_directory_framed]. intros q' Hq ->. congruence. Qed.

(** The paths of the layout lie apart. *)
Lemma at_path_ne a b : text <$> a <> text <$> b -> at_path L a <> at_path L b.
Proof. intros Hne Heq. by apply app_inv_head in Heq. Qed.

Ltac apart_paths :=
  unfold unit_file, server_binary, ctl_binary, config_dir, state_dir, manager_dir;
  first [apply at_path_ne; vm_compute; congruence | rewrite at_path_under; vm_compute; reflexivity].

Ltac leaves :=
  repeat first [apply framed_ret
               | match goal with
                 | |- framed _ (start _) => apply start_leaves; unfold managed; cbn; tauto
                 | |- framed _ (remove_file_if_present _) => apply remove_file_leaves; apart_paths
                 | |- framed _ (remove_directory_if_present _) => apply remove_directory_leaves; apart_paths
                 | |- framed _ (if ?b then _ else _) => destruct b
                 | |- framed _ (mbind _ _) => apply framed_bind; [|intros]
                 end].

(** The parts of [uninstall] after a removal. *)
Lemma uninstalled purge w w' u :
  uninstall L purge true w = (w', Ok u) ->
  (forall p, In p program_files -> fs w' !! p = None) /\ (purge = true -> forall d, In d data_dirs -> fs w' !! d = None).
Proof.
  unfold uninstall. intros Hu. apply bind_ok_inv in Hu as (w0 & b & Hb & Hu). injection Hb as <- <-. cbn [negb] in Hu.
  apply bind_ok_inv in Hu as (w1 & ? & _ & Hu). pose proof Hu as Hu1. apply bind_ok_inv in Hu as (w2 & ? & _ & Hu).
  apply bind_ok_inv in Hu as (w3 & ? & _ & Hu). apply bind_ok_inv in Hu as (w4 & ? & _ & Hu). pose proof Hu as Hu2.
  apply bind_ok_inv in Hu as (w5 & ? & _ & Hu). pose proof Hu as Hu3. apply bind_ok_inv in Hu as (w6 & ? & _ & Hu). split.
  - assert (forall p, forall w1 w2 v, remove_file_if_present p w1 = (w2, Ok v) -> fs w2 !! p = None) as Hg by (intros; by eapply remove_file_gone).
    intros p [<-|[<-|[<-|[]]]]; [refine (removed_gone _ _ _ _ _ _ (Hg _) _ Hu1)|refine (removed_gone _ _ _ _ _ _ (Hg _) _ Hu2)
      |refine (removed_gone _ _ _ _ _ _ (Hg _) _ Hu3)]; intros; leaves.
  - intros ->. pose proof Hu as Hu4. apply bind_ok_inv in Hu as (w7 & ? & _ & Hu). pose proof Hu as Hu5. apply bind_ok_inv in Hu as (w8 & ? & _ & Hu).
    assert (forall p, forall w1 w2 v, remove_directory_if_present p w1 = (w2, Ok v) -> fs w2 !! p = None) as Hg by (intros; by eapply remove_directory_gone).
    intros p [<-|[<-|[<-|[]]]]; [refine (removed_gone _ _ _ _ _ _ (Hg _) _ Hu4)|refine (removed_gone _ _ _ _ _ _ (Hg _) _ Hu5)
      |refine (removed_gone _ _ _ _ _ _ (Hg _) _ Hu)]; intros; leaves.
Qed.
End uninstall.

(** Uninstalling without [--purge] keeps the data: in every state, whatever fails, each
    file below the configuration, state and manager directories is the one of the beginning.
    When the removal was agreed to and reports success the unit and both binaries are gone,
    and with [--purge] the three directories as well. *)
Theorem uninstall_keeps_data `{Machine} `{Host} L w :
  TameRemoval L ->
  (forall yes, let '(w', r) := uninstall L false yes w in
     along (fun m => forall q, data_path L q -> m !! q = fs w !! q) w w' /\ forall q, data_path L q -> fs w' !! q = fs w !! q) /\
  forall purge, let '(w', r) := uninstall L purge true w in
    r = Ok tt -> (forall p, In p (program_files L) -> fs w' !! p = None) /\ (purge = true -> forall d, In d (data_dirs L) -> fs w' !! d = None).
Proof.
  intros HT. split.
  - intros yes. destruct (uninstall_framed L yes (fs w) w (agree_refl _ _)) as [Ha Hq]. destruct (uninstall L false yes w) as [w' r].
    assert (forall m, agree (fun q => ~ data_path L q) (fs w) m -> forall q, data_path L q -> m !! q = fs w !! q) as Hk by (intros m Hm q Hd; apply Hm; by intros Hn).
    split; [eapply along_weaken; [exact Hk|exact Ha]|by apply Hk].
  - intros purge. destruct (uninstall L purge true w) as [w' r] eqn:E. intros ->. by apply (uninstalled L purge w w' tt).
Qed.

(** * Witnesses *)

(** Two texts of one configuration; the editor turns the first into the second. *)
Definition sample_json : json :=
  wizard_json (text "0.0.0.0") 8080 [] [] false (mode_stream Proxied (text "/p/") (text "a.b")) (site_json (Blog [] [] [] []) (text "a.b")).

#[local] Instance two_texts : JsonText := {|
  json_of_text := fun b => if bytes_eqb b [123; 125] || bytes_eqb b [123; 125; 32] then Some sample_json else None; to_string_pretty := fun _ => [] |}.
#[local] Instance some_uuid : UuidText := { uuid_of_text := fun _ => Some (replicate 16 7) }.
#[local] Instance some_format : SiteFormat := { body_digest_hex := fun _ => []; fmt_http_date := decimal }.
#[local] Existing Instance TlsCert.toy_ring.
#[local] Instance some_blake3 : Blake3 := { blake3_hash := fun _ => [] }.
#[local] Instance some_base64 : Base64Url := { url_safe_no_pad_decode := fun _ => None }.

Definition editing (c : command) (m : files) : files :=
  match c with
  | mk_command (Tool t) [APath p] => if bool_decide (t = "vi"%string) then <[p := File [123; 125; 32] (octal 6 0 0)]> m else m
  | _ => m
  end.

#[local] Instance editing_host : Host := {|
  shell := fun _ c m => (editing c m, Some (true, [])); typed := fun _ => Some []; is_root_user := true; is_linux := true; is_x86_64 := true;
  unix_time := fun _ => 0; editor := Tool "vi"; executable := [] |}.

#[local] Instance editing_tame : TameConfig system.
Proof.
  constructor.
  - intros t p m. cbn. by apply agree_insert.
  - intros t c m Hc. cbn [shell editing_host fst]. destruct c as [[name|p] [|[b|q] [|? ?]]]; try apply agree_refl. cbn [editing].
    case_bool_decide as E; [|apply agree_refl]. subst name. by destruct (Hc q).
Qed.

Definition edited_system : files :=
  <[config system := File [123; 125] (octal 6 4 0)]> (<[config_dir system := Dir (octal 7 5 0)]> (<[text <$> ["etc"]%string := Dir (octal 7 5 5)]>
  (<[[] := Dir (octal 7 5 5)]> ∅))).

Lemma edit_installs_checked_witness :
  exists w' b, edit_config [] system (mk_world edited_system [] 0) = (w', Ok tt) /\
    fs w' !! config system = Some (File b (octal 6 4 0)) /\ checked [] b.
Proof.
  assert (is_dir edited_system (config_dir system) = true) as Hd by (vm_compute; reflexivity).
  assert (body_at edited_system (config system) [123; 125]) as Hb by (exists (octal 6 4 0); vm_compute; reflexivity).
  pose proof (edit_installs_checked [] system [123; 125] (mk_world edited_system [] 0) editing_tame Hd Hb) as Ht.
  assert ((edit_config [] system (mk_world edited_system [] 0)).2 = Ok tt) as Hrun by (vm_compute; reflexivity).
  destruct (edit_config [] system (mk_world edited_system [] 0)) as [w' r]. cbn [snd] in Hrun. subst r.
  destruct Ht as [_ (b & Hf & Hc)]. exists w', b. split; [reflexivity|]. split; [exact Hf|exact Hc].
Defined.

#[local] Instance idle_host : Host := {|
  shell := fun _ _ m => (m, Some (true, [])); typed := fun _ => Some []; is_root_user := true; is_linux := true; is_x86_64 := true;
  unix_time := fun _ => 0; editor := Tool "vi"; executable := [] |}.

#[local] Instance idle_tame : TameRemoval system.
Proof. constructor. intros t c m. apply agree_refl. Qed.

Lemma uninstall_keeps_data_witness :
  exists w', uninstall system false true (mk_world (<[server_binary system := File [1] (octal 7 5 5)]> edited_system) [] 0) = (w', Ok tt) /\
    fs w' !! config system = Some (File [123; 125] (octal 6 4 0)) /\ fs w' !! server_binary system = None.
Proof.
  set (m := <[server_binary system := File [1] (octal 7 5 5)]> edited_system).
  destruct (uninstall_keeps_data system (mk_world m [] 0) idle_tame) as [H1 H2]. specialize (H1 true). specialize (H2 false).
  assert ((uninstall system false true (mk_world m [] 0)).2 = Ok tt) as Hrun by (vm_compute; reflexivity).
  destruct (uninstall system false true (mk_world m [] 0)) as [w' r]. cbn [snd] in Hrun. subst r. exists w'. split; [reflexivity|].
  destruct H1 as [_ H1]. destruct (H2 eq_refl) as [H3 _]. split; [|apply H3; right; left; reflexivity].
  rewrite H1; [vm_compute; reflexivity|]. exists (config_dir system). split; [left; reflexivity|vm_compute; reflexivity].
Defined.
